(** * Analytic eigenvalue / singular value kernel of [DenseMatrix]

    A shallow embedding of the closed-form 2x2 and 3x3 routines of
    [linalg/densemat.cpp] ([Eigenvalues2S], [Eigensystem2S],
    [vec_normalize3], [KernelVector2G], [KernelVector3G_aux],
    [KernelVector3S], [Reduce3S], [GetScalingFactor],
    [DenseMatrix::CalcSingularvalue], [DenseMatrix::CalcEigenvalues]).

    The routines are written once, over an interface [Num.Arith] of the
    arithmetic they use, and read at two instances:
    - [RArith]: a [double] is a real number and every operation is exact
      (no rounding, overflow, infinities, NaN or signed zero); the general
      theorems are proved at this instance;
    - [FloatArith]: a [double] is a binary64 number with the IEEE 754
      operations of the kernel's primitive floats; the routines can be
      evaluated at this instance.
    An [int] is a [Z].  In/out reference parameters become returned tuples
    or records.  Reads of the matrix storage go through [rd], which reports
    an access outside the stored array instead of inventing a value. *)

From Stdlib Require Import Reals Lra Lia ZArith List String Psatz RNsatz.
From Stdlib Require PrimFloat FloatOps Uint63.
Import ListNotations.

(** ** The arithmetic used by the source *)

Module Num.

(** The operations of <cmath> and of the language on [double]. *)
Class Arith (T : Type) : Type := {
  add : T -> T -> T;
  sub : T -> T -> T;
  mul : T -> T -> T;
  div : T -> T -> T;
  neg : T -> T;
  (** an integer literal *)
  lit : Z -> T;
  (** [x == y], [x < y], [x <= y] *)
  eqb : T -> T -> bool;
  ltb : T -> T -> bool;
  leb : T -> T -> bool;
  fabs : T -> T;
  sqrt : T -> T;
  hypot : T -> T -> T;
  copysign : T -> T -> T;
  cos : T -> T;
  acos : T -> T;
  (** the constant [M_PI] *)
  M_PI : T;
  (** [frexp(x, &e)]: mantissa and binary exponent *)
  frexp : T -> T * Z;
  (** [numeric_limits<double>::epsilon()] *)
  epsilon : T
}.

End Num.

Declare Scope num_scope.
Delimit Scope num_scope with num.

(** ** Outcomes of a call *)

(** How a call ends. *)
Inductive outcome (X : Type) : Type :=
| Returns (a : X)
| Aborts (msg : string)
| OutOfBounds.
Arguments Returns {X} a.
Arguments Aborts {X} msg.
Arguments OutOfBounds {X}.

Definition bind {X Y : Type} (m : outcome X) (f : X -> outcome Y)
  : outcome Y :=
  match m with
  | Returns a => f a
  | Aborts msg => Aborts msg
  | OutOfBounds => OutOfBounds
  end.

Notation "x <- m ;; f" := (bind m (fun x => f))
  (at level 61, m at next level, right associativity).

(** Modelled from the spec: [mfem_error(msg)] is declared in
    [general/error.hpp] and its body is not part of the sources; it prints
    the message and aborts the program. *)
Definition mfem_error {X : Type} (msg : string) : outcome X := Aborts msg.

(** ** The routines *)

Section Kernel.

Context {T : Type} {A : Num.Arith T}.

Local Notation "x + y" := (Num.add x y) : num_scope.
Local Notation "x - y" := (Num.sub x y) : num_scope.
Local Notation "x * y" := (Num.mul x y) : num_scope.
Local Notation "x / y" := (Num.div x y) : num_scope.
Local Notation "- x" := (Num.neg x) : num_scope.
Local Notation "x == y" := (Num.eqb x y) (at level 70) : num_scope.
Local Notation "x != y" := (negb (Num.eqb x y)) (at level 70) : num_scope.
Local Notation "x <? y" := (Num.ltb x y) : num_scope.
Local Notation "x <=? y" := (Num.leb x y) : num_scope.
Local Notation "x >? y" := (Num.ltb y x) : num_scope.
Local Notation "x >=? y" := (Num.leb y x) : num_scope.
Local Notation "# z" := (Num.lit z%Z) (at level 1, format "# z") : num_scope.
Local Abbreviation fabs := Num.fabs.
Local Abbreviation sqrt := Num.sqrt.
Local Abbreviation hypot := Num.hypot.
Local Abbreviation copysign := Num.copysign.
Local Abbreviation cos := Num.cos.
Local Abbreviation acos := Num.acos.
Local Abbreviation M_PI := Num.M_PI.
Local Abbreviation frexp := Num.frexp.

Local Open Scope num_scope.

(** [numeric_limits<double>::max_exponent] and [radix]. *)
Definition max_exponent : Z := 1024.
Definition radix : T := #2.

(** [std::min] and [std::max] on doubles. *)
Definition min (a b : T) : T := if b <? a then b else a.
Definition max (a b : T) : T := if a <? b then b else a.

(** [static const double sqrt_1_eps = sqrt(1./epsilon())]. *)
Definition sqrt_1_eps : T := sqrt (#1 / Num.epsilon).

(** *** 2x2 symmetric eigenproblem *)

(** [Eigenvalues2S(d12, d1, d2)]: the updated [(d1, d2)]. *)
Definition Eigenvalues2S (d12 d1 d2 : T) : T * T :=
  if d12 != #0 then
    let zeta := (d2 - d1) / (#2 * d12) in
    let t :=
      if fabs zeta <? sqrt_1_eps
      then d12 * copysign (#1 / (fabs zeta + sqrt (#1 + zeta * zeta))) zeta
      else d12 * copysign ((#1 / #2) / fabs zeta) zeta in
    (d1 - t, d2 + t)
  else (d1, d2).

(** [Eigensystem2S(d12, d1, d2, c, s)]: the updated [(d1, d2)] and the
    rotation [(c, s)]. *)
Definition Eigensystem2S (d12 d1 d2 : T) : T * T * T * T :=
  if d12 == #0 then (d1, d2, #1, #0)
  else
    let zeta := (d2 - d1) / (#2 * d12) in
    let t :=
      if fabs zeta <? sqrt_1_eps
      then copysign (#1 / (fabs zeta + sqrt (#1 + zeta * zeta))) zeta
      else copysign ((#1 / #2) / fabs zeta) zeta in
    let c := sqrt (#1 / (#1 + t * t)) in
    let s := c * t in
    let t := t * d12 in
    (d1 - t, d2 + t, c, s).

(** *** Normalisation of a 3-vector by its largest component *)

Definition vec_normalize3_aux (x1 x2 x3 : T) : T * T * T :=
  let m := fabs x1 in
  let r := x2 / m in
  let t := #1 + r * r in
  let r := x3 / m in
  let t := sqrt (#1 / (t + r * r)) in
  let n1 := copysign t x1 in
  let t := t / m in
  (n1, x2 * t, x3 * t).

(** [vec_normalize3(x1, x2, x3, n1, n2, n3)]: the triple [(n1, n2, n3)]. *)
Definition vec_normalize3 (x1 x2 x3 : T) : T * T * T :=
  if fabs x1 >=? fabs x2 then
    if fabs x1 >=? fabs x3 then
      if x1 != #0 then vec_normalize3_aux x1 x2 x3
      else (#0, #0, #0)
    else
      let '(n3, n1, n2) := vec_normalize3_aux x3 x1 x2 in (n1, n2, n3)
  else if fabs x2 >=? fabs x3 then
    let '(n2, n1, n3) := vec_normalize3_aux x2 x1 x3 in (n1, n2, n3)
  else
    let '(n3, n1, n2) := vec_normalize3_aux x3 x1 x2 in (n1, n2, n3).

(** *** Kernel vectors by pivoted QR *)

(** [KernelVector2G(mode, d1, d12, d21, d2)]: the returned flag together
    with the final contents of the four in/out arguments
    [(d1, d12, d21, d2)]; the kernel vector is in [(d1, d2)]. *)
Definition KernelVector2G (mode : Z) (d1 d12 d21 d2 : T)
  : bool * (T * T * T * T) :=
  (* l1-norms of the columns *)
  let n1 := fabs d1 + fabs d21 in
  let n2 := fabs d2 + fabs d12 in
  let swap_columns := n2 >? n1 in
  if (negb swap_columns && (n1 == #0))%bool
  then (true, (d1, d12, d21, d2))
  else
    let '(d1, d12, d21, d2) :=
      if negb swap_columns then
        if (mode =? 0)%Z then
          if fabs d1 >? fabs d21 then (d21, d2, d1, d12)
          else (d1, d12, d21, d2)
        else
          if fabs d1 <? fabs d21 then (d21, d2, d1, d12)
          else (d1, d12, d21, d2)
      else
        if (mode =? 0)%Z then
          if fabs d12 >? fabs d2 then (d2, d21, d12, d1)
          else (d12, d1, d2, d21)
        else
          if fabs d12 <? fabs d2 then (d2, d21, d12, d1)
          else (d12, d1, d2, d21) in
    let n1 := hypot d1 d21 in
    let '(d1, d12, d2) :=
      if d21 != #0 then
        let mu := copysign n1 d1 in
        let n1 := - d21 * (d21 / (d1 + mu)) in
        let d1 := mu in
        if fabs n1 <=? fabs d21 then
          let n1 := n1 / d21 in
          let mu := (#2 / (#1 + n1 * n1)) * (n1 * d12 + d2) in
          (d1, d12 - mu * n1, d2 - mu)
        else
          let n2 := d21 / n1 in
          let mu := (#2 / (#1 + n2 * n2)) * (d12 + n2 * d2) in
          (d1, d12 - mu, d2 - mu * n2)
      else (d1, d12, d2) in
    let mu := - d12 / d1 in
    let n2 := #1 / (#1 + fabs mu) in
    let '(d1, d2) :=
      if fabs d1 <=? n2 * fabs d2 then (#1, #0)
      else (mu * n2, n2) in
    let '(d1, d2) := if swap_columns then (d2, d1) else (d1, d2) in
    (false, (d1, d12, d21, d2)).

(** The Householder step on the first column of [KernelVector3G_aux]
    (the block ending at the label [done_column_1]): the updated
    [(d1, d2, d3, c12, c13, c23, c32)]. *)
Definition KernelVector3G_column_1
  (d1 d2 d3 c12 c13 c23 c21 c31 c32 : T) : T * T * T * T * T * T * T :=
  let s1 := hypot c21 c31 in
  let n1 := hypot d1 s1 in
  if s1 != #0 then
    let mu := copysign n1 d1 in
    let n1 := - s1 * (s1 / (d1 + mu)) in
    let d1 := mu in
    if (if fabs n1 >=? fabs c21 then fabs n1 >=? fabs c31 else false)
    then
      (* n1 is max *)
      let s2 := c21 / n1 in
      let s3 := c31 / n1 in
      let mu := #2 / (#1 + s2 * s2 + s3 * s3) in
      let n2 := mu * (c12 + s2 * d2 + s3 * c32) in
      let n3 := mu * (c13 + s2 * c23 + s3 * d3) in
      (d1, d2 - s2 * n2, d3 - s3 * n3,
       c12 - n2, c13 - n3, c23 - s2 * n3, c32 - s3 * n2)
    else if (if fabs n1 >=? fabs c21 then false
             else fabs c21 >=? fabs c31)
    then
      (* c21 is max *)
      let s1 := n1 / c21 in
      let s3 := c31 / c21 in
      let mu := #2 / (#1 + s1 * s1 + s3 * s3) in
      let n2 := mu * (s1 * c12 + d2 + s3 * c32) in
      let n3 := mu * (s1 * c13 + c23 + s3 * d3) in
      (d1, d2 - n2, d3 - s3 * n3,
       c12 - s1 * n2, c13 - s1 * n3, c23 - n3, c32 - s3 * n2)
    else
      (* c31 is max *)
      let s1 := n1 / c31 in
      let s2 := c21 / c31 in
      let mu := #2 / (#1 + s1 * s1 + s2 * s2) in
      let n2 := mu * (s1 * c12 + s2 * d2 + c32) in
      let n3 := mu * (s1 * c13 + s2 * c23 + d3) in
      (d1, d2 - s2 * n2, d3 - n3,
       c12 - s1 * n2, c13 - s1 * n3, c23 - s2 * n3, c32 - n2)
  else (d1, d2, d3, c12, c13, c23, c32).

(** [KernelVector3G_aux]: the returned [kdim] and the vector left in
    [(d1, d2, d3)]. *)
Definition KernelVector3G_aux
  (mode : Z) (d1 d2 d3 c12 c13 c23 c21 c31 c32 : T) : Z * (T * T * T) :=
  let '(d1, d2, d3, c12, c13, c23, c32) :=
    KernelVector3G_column_1 d1 d2 d3 c12 c13 c23 c21 c31 c32 in
  let '(zero, (z2, _, _, z3)) := KernelVector2G mode d2 c23 c32 d3 in
  let '(kdim, d1, d2, d3) :=
    if zero then
      (2%Z, #1, c12 / d1, c13 / d1)
    else
      (1%Z, - (c12 * z2 + c13 * z3) / d1, z2, z3) in
  (kdim, vec_normalize3 d1 d2 d3).

(** [KernelVector3S(mode, d12, d13, d23, d1, d2, d3)]: the returned
    [kdim] and the final contents of [(d1, d2, d3)]. *)
Definition KernelVector3S (mode : Z) (d12 d13 d23 d1 d2 d3 : T)
  : Z * (T * T * T) :=
  let c12 := d12 in let c13 := d13 in let c23 := d23 in
  (* l1-norms of the columns *)
  let c32 := fabs d1 + fabs c12 + fabs c13 in
  let c31 := fabs d2 + fabs c12 + fabs c23 in
  let c21 := fabs d3 + fabs c13 + fabs c23 in
  let col :=
    if c32 >=? c21
    then (if c32 >=? c31 then 1%Z else 2%Z)
    else (if c31 >=? c21 then 2%Z else 3%Z) in
  let zero :=
    if (col =? 1)%Z then c32 == #0
    else if (col =? 2)%Z then c31 == #0
    else c21 == #0 in
  if zero then (3%Z, (d1, d2, d3))
  else
    let '(c12, c13, c23, d1, d2, d3) :=
      if (col =? 1)%Z then (c12, c13, c23, d1, d2, d3)
      else if (col =? 2)%Z then (c12, c23, c13, d2, d1, d3)
      else (c23, c13, c12, d3, d2, d1) in
    (* row pivoting depending on 'mode' *)
    let row :=
      if (mode =? 0)%Z then
        if fabs d1 <=? fabs c13
        then (if fabs d1 <=? fabs c12 then 1%Z else 2%Z)
        else (if fabs c12 <=? fabs c13 then 2%Z else 3%Z)
      else
        if fabs d1 >=? fabs c13
        then (if fabs d1 >=? fabs c12 then 1%Z else 2%Z)
        else (if fabs c12 >=? fabs c13 then 2%Z else 3%Z) in
    let '(d1, d2, d3, c12, c13, c23, c21, c31, c32) :=
      if (row =? 1)%Z then (d1, d2, d3, c12, c13, c23, c12, c13, c23)
      else if (row =? 2)%Z then (c12, c12, d3, d2, c23, c13, d1, c13, c23)
      else (c13, d2, c13, c23, d3, c23, c12, d1, c12) in
    let '(kdim, (d1, d2, d3)) :=
      KernelVector3G_aux mode d1 d2 d3 c12 c13 c23 c21 c31 c32 in
    let '(d1, d2, d3) :=
      if (col =? 2)%Z then (d2, d1, d3)
      else if (col =? 3)%Z then (d3, d2, d1)
      else (d1, d2, d3) in
    (kdim, (d1, d2, d3)).

(** *** Householder deflation *)

(** Final contents of the in/out arguments of [Reduce3S], and its return
    value [r_k]. *)
Record Reduce3S_out : Type := mkReduce3S {
  r_k : Z;
  r_d1 : T; r_d2 : T; r_d3 : T;
  r_d12 : T; r_d13 : T; r_d23 : T;
  r_z1 : T; r_z2 : T; r_z3 : T;
  r_v1 : T; r_v2 : T; r_v3 : T;
  r_g : T
}.

(** The reflection step of [Reduce3S] (from [s = hypot(z2, z3)] to the end
    of the [if (s == 0.)] statement), on the permuted data: the updated
    [(d1, d2, d3, d23)] and the outputs [(v1, v2, v3, g)]. *)
Definition Reduce3S_reflect (d1 d2 d3 d12 d13 d23 z1 z2 z3 : T)
  : T * T * T * T * T * T * T * T :=
  let s := hypot z2 z3 in
  if s == #0 then (d1, d2, d3, d23, #0, #0, #0, #1)
  else
    let g := copysign #1 z1 in
    let v1 := - s * (s / (z1 + g)) in
    let g := fabs v1 in
    let g := if fabs z2 >? g then fabs z2 else g in
    let g := if fabs z3 >? g then fabs z3 else g in
    let v1 := v1 / g in
    let v2 := z2 / g in
    let v3 := z3 / g in
    let g := #2 / (v1 * v1 + v2 * v2 + v3 * v3) in
    let w1 := g * (d1 * v1 + d12 * v2 + d13 * v3) in
    let w2 := g * (d12 * v1 + d2 * v2 + d23 * v3) in
    let w3 := g * (d13 * v1 + d23 * v2 + d3 * v3) in
    let s := (g / #2) * (v1 * w1 + v2 * w2 + v3 * w3) in
    let w1 := w1 - s * v1 in
    let w2 := w2 - s * v2 in
    let w3 := w3 - s * v3 in
    (d1 - #2 * v1 * w1, d2 - #2 * v2 * w2, d3 - #2 * v3 * w3,
     d23 - (v2 * w3 + v3 * w2), v1, v2, v3, g).

(** [Reduce3S(mode, d1, d2, d3, d12, d13, d23, z1, z2, z3, v1, v2, v3, g)].
    The arguments [v1 v2 v3 g] are pure outputs; their incoming values are
    never read. *)
Definition Reduce3S (mode : Z) (d1 d2 d3 d12 d13 d23 z1 z2 z3 : T)
  : Reduce3S_out :=
  let k :=
    if (mode =? 0)%Z then
      if fabs z1 <=? fabs z3
      then (if fabs z1 <=? fabs z2 then 1%Z else 2%Z)
      else (if fabs z2 <=? fabs z3 then 2%Z else 3%Z)
    else
      if fabs z1 >=? fabs z3
      then (if fabs z1 >=? fabs z2 then 1%Z else 2%Z)
      else (if fabs z2 >=? fabs z3 then 2%Z else 3%Z) in
  let '(d1, d2, d3, d12, d13, d23, z1, z2, z3) :=
    if (k =? 2)%Z then (d2, d1, d3, d12, d23, d13, z2, z1, z3)
    else if (k =? 3)%Z then (d3, d2, d1, d23, d13, d12, z3, z2, z1)
    else (d1, d2, d3, d12, d13, d23, z1, z2, z3) in
  let '(d1, d2, d3, d23, v1, v2, v3, g) :=
    Reduce3S_reflect d1 d2 d3 d12 d13 d23 z1 z2 z3 in
  let '(z1, z2, z3) :=
    if (k =? 2)%Z then (z2, z1, z3)
    else if (k =? 3)%Z then (z3, z2, z1)
    else (z1, z2, z3) in
  mkReduce3S k d1 d2 d3 d12 d13 d23 z1 z2 z3 v1 v2 v3 g.

(** *** Power-of-two scaling *)

(** [GetScalingFactor(d_max, mult)]: the value stored in [mult]. *)
Definition GetScalingFactor (d_max : T) : T :=
  if d_max >? #0 then
    let '(mult, d_exp) := frexp d_max in
    let mult := if (d_exp =? max_exponent)%Z then mult * radix else mult in
    d_max / mult
  else #1.

(** The running maximum [if (d_max < fabs(x)) d_max = fabs(x)]. *)
Definition upd_max (d_max x : T) : T :=
  if d_max <? fabs x then fabs x else d_max.

(** *** Singular values *)

(** The [n == 2] block of [DenseMatrix::CalcSingularvalue], on the four
    stored entries [d[0..3]]. *)
Definition CalcSingularvalue2 (i : Z) (d0 d1 d2 d3 : T) : T :=
  let d_max := fabs d0 in
  let d_max := upd_max d_max d1 in
  let d_max := upd_max d_max d2 in
  let d_max := upd_max d_max d3 in
  let mult := GetScalingFactor d_max in
  let d0 := d0 / mult in
  let d1 := d1 / mult in
  let d2 := d2 / mult in
  let d3 := d3 / mult in
  let t := (#1 / #2) * ((d0 + d2) * (d0 - d2) + (d1 - d3) * (d1 + d3)) in
  let s := d0 * d2 + d1 * d3 in
  let s :=
    sqrt ((#1 / #2) * (d0 * d0 + d1 * d1 + d2 * d2 + d3 * d3)
          + sqrt (t * t + s * s)) in
  if s == #0 then #0
  else
    let t := fabs (d0 * d3 - d1 * d2) / s in
    if t >? s then
      if (i =? 0)%Z then t * mult else s * mult
    else
      if (i =? 0)%Z then s * mult else t * mult.

(** The [else] block ([n == 3]) of [DenseMatrix::CalcSingularvalue], on
    the nine stored entries [d[0..8]].  The source's local [R] is written
    [R_]. *)
Definition CalcSingularvalue3 (i : Z) (d0 d1 d2 d3 d4 d5 d6 d7 d8 : T) : T :=
  let d_max := fabs d0 in
  let d_max := upd_max d_max d1 in
  let d_max := upd_max d_max d2 in
  let d_max := upd_max d_max d3 in
  let d_max := upd_max d_max d4 in
  let d_max := upd_max d_max d5 in
  let d_max := upd_max d_max d6 in
  let d_max := upd_max d_max d7 in
  let d_max := upd_max d_max d8 in
  let mult := GetScalingFactor d_max in
  let d0 := d0 / mult in let d1 := d1 / mult in let d2 := d2 / mult in
  let d3 := d3 / mult in let d4 := d4 / mult in let d5 := d5 / mult in
  let d6 := d6 / mult in let d7 := d7 / mult in let d8 := d8 / mult in
  let b11 := d0 * d0 + d1 * d1 + d2 * d2 in
  let b12 := d0 * d3 + d1 * d4 + d2 * d5 in
  let b13 := d0 * d6 + d1 * d7 + d2 * d8 in
  let b22 := d3 * d3 + d4 * d4 + d5 * d5 in
  let b23 := d3 * d6 + d4 * d7 + d5 * d8 in
  let b33 := d6 * d6 + d7 * d7 + d8 * d8 in
  let aa := (b11 + b22 + b33) / #3 in
  let b11_b22 :=
    (d0 - d3) * (d0 + d3) + (d1 - d4) * (d1 + d4) + (d2 - d5) * (d2 + d5) in
  let b22_b33 :=
    (d3 - d6) * (d3 + d6) + (d4 - d7) * (d4 + d7) + (d5 - d8) * (d5 + d8) in
  let b33_b11 :=
    (d6 - d0) * (d6 + d0) + (d7 - d1) * (d7 + d1) + (d8 - d2) * (d8 + d2) in
  let c1 := (b11_b22 - b33_b11) / #3 in
  let c2 := (b22_b33 - b11_b22) / #3 in
  let c3 := (b33_b11 - b22_b33) / #3 in
  let Q :=
    (#2 * (b12 * b12 + b13 * b13 + b23 * b23) + c1 * c1 + c2 * c2 + c3 * c3)
    / #6 in
  let R_ :=
    (c1 * (b23 * b23 - c2 * c3) + b12 * (b12 * c3 - #2 * b13 * b23)
     + b13 * b13 * c2) / #2 in
  let aa :=
    if Q <=? #0 then aa
    else
      let sqrtQ := sqrt Q in
      let sqrtQ3 := Q * sqrtQ in
      (* [inl aa']: the jump to [have_aa] with that value;
         [inr r]: fall through to the reduction with the separated root *)
      let stage : T + T :=
        if fabs R_ >=? sqrtQ3 then
          if R_ <? #0 then inr (#2 * sqrtQ) else inr (- #2 * sqrtQ)
        else
          let R_ := R_ / sqrtQ3 in
          if fabs R_ <=? #9 / #10 then
            if (i =? 2)%Z then inl (aa - #2 * sqrtQ * cos (acos R_ / #3))
            else if (i =? 0)%Z
            then inl (aa - #2 * sqrtQ * cos ((acos R_ + #2 * M_PI) / #3))
            else inl (aa - #2 * sqrtQ * cos ((acos R_ - #2 * M_PI) / #3))
          else if R_ <? #0 then
            let r := - #2 * sqrtQ * cos ((acos R_ + #2 * M_PI) / #3) in
            if (i =? 0)%Z then inl (aa + r) else inr r
          else
            let r := - #2 * sqrtQ * cos (acos R_ / #3) in
            if (i =? 2)%Z then inl (aa + r) else inr r in
      match stage with
      | inl aa' => aa'
      | inr r =>
        let c1 := c1 - r in
        let c2 := c2 - r in
        let c3 := c3 - r in
        let mode := 1%Z in
        let '(kdim, (c1, c2, c3)) :=
          KernelVector3S mode b12 b13 b23 c1 c2 c3 in
        if (kdim =? 3)%Z then aa + r
        else
          let red := Reduce3S mode b11 b22 b33 b12 b13 b23 c1 c2 c3 in
          let b11 := r_d1 red in
          let '(b22, b33) := Eigenvalues2S (r_d23 red) (r_d2 red) (r_d3 red) in
          if (i =? 2)%Z then min (min b11 b22) b33
          else if (i =? 1)%Z then
            if b11 <=? b22
            then (if b22 <=? b33 then b22 else max b11 b33)
            else (if b11 <=? b33 then b11 else max b33 b22)
          else max (max b11 b22) b33
      end in
  sqrt (fabs aa) * mult.

(** *** Eigenvalues and eigenvectors *)

(** The [n == 2] block of [DenseMatrix::CalcEigenvalues] on the entries
    [d[0]], [d[2]], [d[3]]: the arrays written to [lambda] and [vec]. *)
Definition CalcEigenvalues2 (d0 d2 d3 : T) : list T * list T :=
  let '(d0, d3, c, s) := Eigensystem2S d2 d0 d3 in
  if d0 <=? d3
  then ([d0; d3], [c; - s; s; c])
  else ([d3; d0], [s; c; c; - s]).

(** The 3x3 identity, column by column. *)
Definition identity3 : list T := [#1; #0; #0; #0; #1; #0; #0; #0; #1].

(** The part of the [n == 3] block between the scaling of the entries and
    the label [done_3d]: the three entries of [lambda] before they are
    multiplied by [mult], and the nine entries of [vec].  The source's
    local [R] is written [R_]. *)
Definition CalcEigenvalues3_scaled (d11 d22 d33 d12 d13 d23 : T)
  : (T * T * T) * list T :=
  let aa := (d11 + d22 + d33) / #3 in
  let c1 := d11 - aa in
  let c2 := d22 - aa in
  let c3 := d33 - aa in
  let Q :=
    (#2 * (d12 * d12 + d13 * d13 + d23 * d23) + c1 * c1 + c2 * c2 + c3 * c3)
    / #6 in
  let R_ :=
    (c1 * (d23 * d23 - c2 * c3) + d12 * (d12 * c3 - #2 * d13 * d23)
     + d13 * d13 * c2) / #2 in
  if Q <=? #0 then ((aa, aa, aa), identity3)
  else
    let sqrtQ := sqrt Q in
    let sqrtQ3 := Q * sqrtQ in
    let r :=
      if fabs R_ >=? sqrtQ3 then
        if R_ <? #0 then #2 * sqrtQ else - #2 * sqrtQ
      else
        let R_ := R_ / sqrtQ3 in
        if R_ <? #0
        then - #2 * sqrtQ * cos ((acos R_ + #2 * M_PI) / #3)
        else - #2 * sqrtQ * cos (acos R_ / #3) in
    let aa := aa + r in
    let c1 := d11 - aa in
    let c2 := d22 - aa in
    let c3 := d33 - aa in
    let mode := 0%Z in
    let '(kdim, (c1, c2, c3)) := KernelVector3S mode d12 d13 d23 c1 c2 c3 in
    if (kdim =? 3)%Z then ((aa, aa, aa), identity3)
    else
      let red := Reduce3S mode d11 d22 d33 d12 d13 d23 c1 c2 c3 in
      let k := r_k red in
      let d11 := r_d1 red in
      let c1 := r_z1 red in let c2 := r_z2 red in let c3 := r_z3 red in
      let v1 := r_v1 red in let v2 := r_v2 red in let v3 := r_v3 red in
      let g := r_g red in
      let '(d22, d33, c, s) :=
        Eigensystem2S (r_d23 red) (r_d2 red) (r_d3 red) in
      (* lambda, and the columns of vec pointed to by vec_1, vec_2, vec_3 *)
      let '(lambda, (p1, p2, p3)) :=
        if d11 <=? d22 then
          if d22 <=? d33 then ((d11, d22, d33), (0, 1, 2))%nat
          else if d11 <=? d33 then ((d11, d33, d22), (0, 2, 1))%nat
          else ((d33, d11, d22), (1, 2, 0))%nat
        else
          if d11 <=? d33 then ((d22, d11, d33), (1, 0, 2))%nat
          else if d22 <=? d33 then ((d22, d33, d11), (2, 0, 1))%nat
          else ((d33, d22, d11), (2, 1, 0))%nat in
      let vec_1 := (c1, c2, c3) in
      let d22 := g * (v2 * c - v3 * s) in
      let d33 := g * (v2 * s + v3 * c) in
      let vec_2 := (- v1 * d22, c - v2 * d22, - s - v3 * d22) in
      let vec_3 := (- v1 * d33, s - v2 * d33, c - v3 * d33) in
      let swp := fun '(a, b, e) =>
        if (k =? 2)%Z then (b, a, e)
        else if (k =? 3)%Z then (e, b, a)
        else (a, b, e) in
      let vec_2 := swp vec_2 in
      let vec_3 := swp vec_3 in
      let column := fun j : nat =>
        if (j =? p1)%nat then vec_1
        else if (j =? p2)%nat then vec_2 else vec_3 in
      let flat := fun '(a, b, e) => [a; b; e] in
      (lambda, flat (column 0%nat) ++ flat (column 1%nat)
               ++ flat (column 2%nat)).

(** The [n == 3] block of [DenseMatrix::CalcEigenvalues] on the entries
    [d[0]] (d11), [d[3]] (d12), [d[4]] (d22), [d[6]] (d13), [d[7]] (d23),
    [d[8]] (d33). *)
Definition CalcEigenvalues3 (d11 d12 d22 d13 d23 d33 : T)
  : list T * list T :=
  let d_max := fabs d11 in
  let d_max := upd_max d_max d22 in
  let d_max := upd_max d_max d33 in
  let d_max := upd_max d_max d12 in
  let d_max := upd_max d_max d13 in
  let d_max := upd_max d_max d23 in
  let mult := GetScalingFactor d_max in
  let d11 := d11 / mult in let d22 := d22 / mult in
  let d33 := d33 / mult in let d12 := d12 / mult in
  let d13 := d13 / mult in let d23 := d23 / mult in
  let '((l0, l1, l2), vec) := CalcEigenvalues3_scaled d11 d22 d33 d12 d13 d23 in
  ([l0 * mult; l1 * mult; l2 * mult], vec).

(** *** The two methods of [DenseMatrix] *)

(** A [DenseMatrix]: [height], [width] and the column-major storage
    [data], entry [(i, j)] at [data[i + j*height]]. *)
Record DenseMatrix : Type := mkDenseMatrix {
  height : Z;
  width : Z;
  data : list T
}.

(** The read [d[k]] of the stored array. *)
Definition rd (d : list T) (k : nat) : outcome T :=
  match nth_error d k with
  | Some x => Returns x
  | None => OutOfBounds
  end.

Section Build.

(** Whether the translation unit is compiled with [MFEM_DEBUG] defined. *)
Variable MFEM_DEBUG : bool.

(** [double DenseMatrix::CalcSingularvalue(const int i) const]. *)
Definition CalcSingularvalue (M : DenseMatrix) (i : Z) : outcome T :=
  if (MFEM_DEBUG &&
      (negb (height M =? width M)%Z || (height M <? 1)%Z
       || (height M >? 3)%Z))%bool
  then mfem_error "DenseMatrix::CalcSingularvalue"
  else
    let n := height M in
    let d := data M in
    if (n =? 1)%Z then rd d 0
    else if (n =? 2)%Z then
      d0 <- rd d 0 ;; d1 <- rd d 1 ;; d2 <- rd d 2 ;; d3 <- rd d 3 ;;
      Returns (CalcSingularvalue2 i d0 d1 d2 d3)
    else
      d0 <- rd d 0 ;; d3 <- rd d 3 ;; d6 <- rd d 6 ;;
      d1 <- rd d 1 ;; d4 <- rd d 4 ;; d7 <- rd d 7 ;;
      d2 <- rd d 2 ;; d5 <- rd d 5 ;; d8 <- rd d 8 ;;
      Returns (CalcSingularvalue3 i d0 d1 d2 d3 d4 d5 d6 d7 d8).

(** [void DenseMatrix::CalcEigenvalues(double *lambda, double *vec) const]:
    the contents written to [lambda] and to [vec]. *)
Definition CalcEigenvalues (M : DenseMatrix) : outcome (list T * list T) :=
  if (MFEM_DEBUG &&
      (negb (height M =? width M)%Z || (height M <? 2)%Z
       || (height M >? 3)%Z))%bool
  then mfem_error "DenseMatrix::CalcEigenvalues"
  else
    let n := height M in
    let d := data M in
    if (n =? 2)%Z then
      d0 <- rd d 0 ;; d2 <- rd d 2 ;; d3 <- rd d 3 ;;
      Returns (CalcEigenvalues2 d0 d2 d3)
    else
      d11 <- rd d 0 ;; d12 <- rd d 3 ;; d22 <- rd d 4 ;;
      d13 <- rd d 6 ;; d23 <- rd d 7 ;; d33 <- rd d 8 ;;
      Returns (CalcEigenvalues3 d11 d12 d22 d13 d23 d33).

End Build.

End Kernel.

Arguments DenseMatrix T : clear implicits.
Arguments Reduce3S_out T : clear implicits.

(** ** The instance of exact real arithmetic *)

Open Scope R_scope.

Module RPrim.

(** [fabs] of <cmath>. *)
Definition fabs (x : R) : R := Rabs x.

(** [copysign(x, y)]: magnitude of [x], sign of [y].  A real zero carries
    the sign of [+0.].  The source reads the sign bit of [y], so on a
    negative zero, which exact arithmetic does not have, it takes the
    other sign; the statements below that depend on the sign taken at a
    zero leave that sign open, and the binary64 instance reads the sign
    bit ([FPrim.copysign]). *)
Definition copysign (x y : R) : R :=
  if Rle_dec 0 y then Rabs x else - Rabs x.

(** [hypot(x, y)]. *)
Definition hypot (x y : R) : R := sqrt (x * x + y * y).

(** [numeric_limits<double>::epsilon()]. *)
Definition epsilon : R := / 2 ^ 52.

(** [frexp(x, &e)]: the mantissa in [[1/2, 1)] and the binary exponent
    with [x = m * 2^e]; [frexp(0)] is [(0, 0)]. *)
Definition frexp (x : R) : R * Z :=
  if Req_dec_T x 0 then (0, 0%Z)
  else let e := up (ln (Rabs x) / ln 2) in (x / powerRZ 2 e, e).

(** The comparisons as booleans. *)
Definition Req_b (x y : R) : bool := if Req_dec_T x y then true else false.
Definition Rlt_b (x y : R) : bool := if Rlt_dec x y then true else false.
Definition Rle_b (x y : R) : bool := if Rle_dec x y then true else false.

End RPrim.

Import RPrim.

#[export] Instance RArith : Num.Arith R := {|
  Num.add := Rplus;
  Num.sub := Rminus;
  Num.mul := Rmult;
  Num.div := Rdiv;
  Num.neg := Ropp;
  Num.lit := IZR;
  Num.eqb := Req_b;
  Num.ltb := Rlt_b;
  Num.leb := Rle_b;
  Num.fabs := fabs;
  Num.sqrt := sqrt;
  Num.hypot := hypot;
  Num.copysign := copysign;
  Num.cos := cos;
  Num.acos := acos;
  Num.M_PI := PI;
  Num.frexp := frexp;
  Num.epsilon := epsilon
|}.

(** ** The instance of binary64 arithmetic *)

Module FPrim.

Import PrimFloat.

(** An integer literal of the source, as a double. *)
Definition lit (z : Z) : float :=
  match z with
  | Z0 => zero
  | Zpos _ => of_uint63 (Uint63.of_Z z)
  | Zneg p => opp (of_uint63 (Uint63.of_Z (Zpos p)))
  end.

(** [copysign(x, y)], with the sign bit of [y] (also of a zero). *)
Definition copysign (x y : float) : float :=
  if get_sign y then opp (abs x) else abs x.

(** [hypot(x, y)], computed as the rounded square root of the rounded sum
    of the rounded squares.  The library function does not overflow or
    underflow in the intermediate squares and can differ from this value
    in the last bit; the evaluations at this instance use arguments on
    which the value below is the correctly rounded one. *)
Definition hypot (x y : float) : float := sqrt (x * x + y * y)%float.

(** [numeric_limits<double>::epsilon()] is [2^-52]. *)
Definition epsilon : float := FloatOps.Z.ldexp one (-52).

(** [M_PI], the double nearest to pi: [7074237752028440 * 2^-51]. *)
Definition M_PI : float :=
  FloatOps.Z.ldexp (of_uint63 (Uint63.of_Z 7074237752028440)) (-51).

End FPrim.

(** The kernel's floats have no cosine and arc cosine: the two library
    functions are arguments of the instance. *)
Definition FloatArith (cosf acosf : PrimFloat.float -> PrimFloat.float)
  : Num.Arith PrimFloat.float := {|
  Num.add := PrimFloat.add;
  Num.sub := PrimFloat.sub;
  Num.mul := PrimFloat.mul;
  Num.div := PrimFloat.div;
  Num.neg := PrimFloat.opp;
  Num.lit := FPrim.lit;
  Num.eqb := PrimFloat.eqb;
  Num.ltb := PrimFloat.ltb;
  Num.leb := PrimFloat.leb;
  Num.fabs := PrimFloat.abs;
  Num.sqrt := PrimFloat.sqrt;
  Num.hypot := FPrim.hypot;
  Num.copysign := FPrim.copysign;
  Num.cos := cosf;
  Num.acos := acosf;
  Num.M_PI := FPrim.M_PI;
  Num.frexp := FloatOps.Z.frexp;
  Num.epsilon := FPrim.epsilon
|}.

(** The matrix with columns [(3,-3,0)], [(-3,3,0)], [(-2,2,0)], in
    column-major storage.  It has rank one: its singular values are
    [sqrt 44], [0] and [0]. *)
Definition rank_one : DenseMatrix PrimFloat.float :=
  mkDenseMatrix 3 3 (map FPrim.lit [3; -3; 0; -3; 3; 0; -2; 2; 0]%Z).

(** The symmetric matrix with rows [(2,1,0)], [(1,2,0)], [(0,0,1)]
    multiplied by [2^-1074], the smallest positive double: its entries are
    subnormal numbers.  The eigenvalues of the integer matrix are 1, 1
    and 3. *)
Definition tiny_sym : DenseMatrix PrimFloat.float :=
  mkDenseMatrix 3 3
    (map (fun z => FloatOps.Z.ldexp (FPrim.lit z) (-1074))
         [2; 1; 0; 1; 2; 0; 0; 0; 1]%Z).

(** The matrix [k M] in binary64, entry by entry. *)
Definition float_scale (k : PrimFloat.float) (M : DenseMatrix PrimFloat.float)
  : DenseMatrix PrimFloat.float :=
  mkDenseMatrix (height M) (width M) (map (PrimFloat.mul k) (data M)).

(** ** Vocabulary of the statements *)

(** [Q (P z)] in the arithmetic of [T], for the reflection
    [Q = I - g v v^t] and the exchange [P] of the coordinates 1 and [k]:
    with [y = P z], the vector [y - (g (v . y)) v]. *)
Definition reflect_exchanged {T : Type} {A : Num.Arith T}
  (k : Z) (g : T) (v z : T * T * T) : T * T * T :=
  let '(v1, v2, v3) := v in
  let '(z1, z2, z3) := z in
  let '(y1, y2, y3) :=
    if (k =? 2)%Z then (z2, z1, z3)
    else if (k =? 3)%Z then (z3, z2, z1) else (z1, z2, z3) in
  let c :=
    Num.mul g (Num.add (Num.add (Num.mul v1 y1) (Num.mul v2 y2))
                       (Num.mul v3 y3)) in
  (Num.sub y1 (Num.mul c v1), Num.sub y2 (Num.mul c v2),
   Num.sub y3 (Num.mul c v3)).

(** Entry [k] of a returned array. *)
Definition entry (l : list R) (k : nat) : R := nth k l 0.

(** The conditions under which the debug checks of the two methods call
    [mfem_error]. *)
Definition sv_precondition_violated {T : Type} (M : DenseMatrix T) : Prop :=
  height M <> width M \/ (height M < 1)%Z \/ (height M > 3)%Z.

Definition eig_precondition_violated {T : Type} (M : DenseMatrix T) : Prop :=
  height M <> width M \/ (height M < 2)%Z \/ (height M > 3)%Z.

(** The largest absolute entry and the multiplier used by the 3x3 block of
    [CalcEigenvalues]. *)
Definition eig3_d_max (d11 d12 d22 d13 d23 d33 : R) : R :=
  upd_max (upd_max (upd_max (upd_max (upd_max (fabs d11) d22) d33) d12) d13)
          d23.

Definition eig3_mult (d11 d12 d22 d13 d23 d33 : R) : R :=
  GetScalingFactor (eig3_d_max d11 d12 d22 d13 d23 d33).

(** The invariants [aa = tr/3] and [Q] of a symmetric 3x3 matrix. *)
Definition invariant_aa (d11 d22 d33 : R) : R := (d11 + d22 + d33) / 3.

Definition invariant_Q (d11 d22 d33 d12 d13 d23 : R) : R :=
  let aa := invariant_aa d11 d22 d33 in
  let c1 := d11 - aa in
  let c2 := d22 - aa in
  let c3 := d33 - aa in
  (2 * (d12 * d12 + d13 * d13 + d23 * d23) + c1 * c1 + c2 * c2 + c3 * c3) / 6.

(** The multiplier and the quantity [s] (the larger singular value of the
    scaled matrix) of the 2x2 block of [CalcSingularvalue]. *)
Definition sv2_mult (d0 d1 d2 d3 : R) : R :=
  GetScalingFactor (upd_max (upd_max (upd_max (fabs d0) d1) d2) d3).

Definition sv2_s (d0 d1 d2 d3 : R) : R :=
  let mult := sv2_mult d0 d1 d2 d3 in
  let d0 := d0 / mult in
  let d1 := d1 / mult in
  let d2 := d2 / mult in
  let d3 := d3 / mult in
  let t := (1 / 2) * ((d0 + d2) * (d0 - d2) + (d1 - d3) * (d1 + d3)) in
  let s := d0 * d2 + d1 * d3 in
  sqrt ((1 / 2) * (d0 * d0 + d1 * d1 + d2 * d2 + d3 * d3)
        + sqrt (t * t + s * s)).

(** A division that reports a zero divisor instead of producing a value. *)
Definition checked_div (x y : R) : option R :=
  if Req_dec_T y 0 then None else Some (x / y).

(** The 2x2 block of [CalcSingularvalue] once more, statement for
    statement, with every division of the source replaced by
    [checked_div]: the result is [None] exactly when an execution reaches
    a division whose divisor is zero. *)
Definition CalcSingularvalue2_checked (i : Z) (d0 d1 d2 d3 : R) : option R :=
  let d_max := fabs d0 in
  let d_max := upd_max d_max d1 in
  let d_max := upd_max d_max d2 in
  let d_max := upd_max d_max d3 in
  let mult := GetScalingFactor d_max in
  match checked_div d0 mult, checked_div d1 mult,
        checked_div d2 mult, checked_div d3 mult with
  | Some d0, Some d1, Some d2, Some d3 =>
    let t := (1 / 2) * ((d0 + d2) * (d0 - d2) + (d1 - d3) * (d1 + d3)) in
    let s := d0 * d2 + d1 * d3 in
    let s :=
      sqrt ((1 / 2) * (d0 * d0 + d1 * d1 + d2 * d2 + d3 * d3)
            + sqrt (t * t + s * s)) in
    if Req_dec_T s 0 then Some 0
    else
      match checked_div (fabs (d0 * d3 - d1 * d2)) s with
      | Some t =>
        if Rlt_dec s t then
          if (i =? 0)%Z then Some (t * mult) else Some (s * mult)
        else
          if (i =? 0)%Z then Some (s * mult) else Some (t * mult)
      | None => None
      end
  | _, _, _, _ => None
  end.

(** The sign carried by [copysign]: [+1] for a non-negative number,
    [-1] for a negative one. *)
Definition sign_of (x : R) : R := copysign 1 x.

(** The quantities of Parlett's 2x2 rotation formula. *)
Definition zeta_of (d12 d1 d2 : R) : R := (d2 - d1) / (2 * d12).

Definition tangent_of (d12 d1 d2 : R) : R :=
  let zeta := zeta_of d12 d1 d2 in
  sign_of zeta / (fabs zeta + sqrt (1 + zeta * zeta)).

(** Vectors and matrices of order 3 (a matrix is the triple of its rows),
    for the statements about [Reduce3S]. *)
Definition vec3 : Type := (R * R * R)%type.
Definition mat3 : Type := (vec3 * vec3 * vec3)%type.

Definition dot (u v : vec3) : R :=
  let '(u1, u2, u3) := u in let '(v1, v2, v3) := v in
  u1 * v1 + u2 * v2 + u3 * v3.

Definition scale (a : R) (v : vec3) : vec3 :=
  let '(v1, v2, v3) := v in (a * v1, a * v2, a * v3).

Definition e1 : vec3 := (1, 0, 0).

Definition mulmv (M : mat3) (v : vec3) : vec3 :=
  let '(r1, r2, r3) := M in (dot r1 v, dot r2 v, dot r3 v).

Definition col1 (M : mat3) : vec3 :=
  let '((a, _, _), (b, _, _), (c, _, _)) := M in (a, b, c).
Definition col2 (M : mat3) : vec3 :=
  let '((_, a, _), (_, b, _), (_, c, _)) := M in (a, b, c).
Definition col3 (M : mat3) : vec3 :=
  let '((_, _, a), (_, _, b), (_, _, c)) := M in (a, b, c).

Definition mulmm (M N : mat3) : mat3 :=
  let '(r1, r2, r3) := M in
  ((dot r1 (col1 N), dot r1 (col2 N), dot r1 (col3 N)),
   (dot r2 (col1 N), dot r2 (col2 N), dot r2 (col3 N)),
   (dot r3 (col1 N), dot r3 (col2 N), dot r3 (col3 N))).

(** The symmetric matrix with diagonal [d1 d2 d3] and off-diagonal
    entries [d12 d13 d23]. *)
Definition sym3 (d1 d2 d3 d12 d13 d23 : R) : mat3 :=
  ((d1, d12, d13), (d12, d2, d23), (d13, d23, d3)).

(** The permutation matrix exchanging coordinates 1 and [k]. *)
Definition perm (k : Z) : mat3 :=
  if (k =? 2)%Z then ((0, 1, 0), (1, 0, 0), (0, 0, 1))
  else if (k =? 3)%Z then ((0, 0, 1), (0, 1, 0), (1, 0, 0))
  else ((1, 0, 0), (0, 1, 0), (0, 0, 1)).

(** The reflection [I - g v v^t]. *)
Definition reflection (g : R) (v : vec3) : mat3 :=
  let '(v1, v2, v3) := v in
  ((1 - g * v1 * v1, - g * v1 * v2, - g * v1 * v3),
   (- g * v2 * v1, 1 - g * v2 * v2, - g * v2 * v3),
   (- g * v3 * v1, - g * v3 * v2, 1 - g * v3 * v3)).

(** Coordinate [k] (1, 2 or 3) of a vector. *)
Definition coord (v : vec3) (k : Z) : R :=
  let '(v1, v2, v3) := v in
  if (k =? 2)%Z then v2 else if (k =? 3)%Z then v3 else v1.

(** How a quantity computed on the matrix [c A] relates to the same
    quantity computed on [A]: unchanged ([deg0]), multiplied by [c]
    ([deg1]), by [c^2] ([deg2]), by [c^3] ([deg3]) or divided by [c]
    ([degm1]). *)
Definition deg0 (x' x : R) : Prop := x' = x.
Definition deg1 (c x' x : R) : Prop := x' = c * x.
Definition deg2 (c x' x : R) : Prop := x' = c * c * x.
Definition deg3 (c x' x : R) : Prop := x' = c * c * c * x.
Definition degm1 (c x' x : R) : Prop := x' = x / c.

(** The column-major storage of the symmetric 3x3 matrix with diagonal
    [d11 d22 d33] and off-diagonal entries [d12 d13 d23]. *)
Definition sym_data (d11 d22 d33 d12 d13 d23 : R) : list R :=
  [d11; d12; d13; d12; d22; d23; d13; d23; d33].


(** * Storage, products, inverses and in-place operations of [DenseMatrix]

    The second part of the embedding covers the routines of
    [linalg/densemat.cpp] that work on the stored array: the element
    access of [linalg/densemat.hpp], [Trace], [Det], [Weight], [Invert],
    the norms, the transpositions, [Symmetrize], [Lump],
    [AdjustDofDirection], the products with arrays and the free functions
    [Mult], [CalcAdjugate], [CalcInverse] and their transposed variants.

    A matrix is the record [DenseMatrix] of the first part; a routine that
    changes a matrix or an array returns its final contents.  Every read
    and write names the index it uses, so that an access outside the
    stored array ends the call with [OutOfBounds] instead of returning a
    value.  A matrix without storage ([data == 0]) is a record with an
    empty array.  Where the source has a variant for a build with LAPACK,
    the variant of a build without it is the one embedded. *)

(** ** Storage access and loops *)

(** [for (i = lo; i < hi; i++) body], for a body that changes neither [i]
    nor the bound: [iter_from n i] runs [n] iterations starting at [i]. *)
Fixpoint iter_from {S : Type} (n : nat) (i : Z)
  (body : Z -> S -> outcome S) (s : S) : outcome S :=
  match n with
  | O => Returns s
  | Datatypes.S n' => s' <- body i s ;; iter_from n' (i + 1)%Z body s'
  end.

Definition for_ {S : Type} (lo hi : Z) (body : Z -> S -> outcome S) (s : S)
  : outcome S :=
  iter_from (Z.to_nat (hi - lo)) lo body s.

(** [for (c = n - 1; c >= 0; c--) body]: [iter_down n] runs the
    iterations [n - 1], ..., [0]. *)
Fixpoint iter_down {S : Type} (n : nat) (body : Z -> S -> outcome S) (s : S)
  : outcome S :=
  match n with
  | O => Returns s
  | Datatypes.S n' => s' <- body (Z.of_nat n') s ;; iter_down n' body s'
  end.

(** The read [p[k]] and the write [p[k] = x] for an array of [int]. *)
Definition rdi (d : list Z) (k : Z) : outcome Z :=
  if (k <? 0)%Z then OutOfBounds
  else match nth_error d (Z.to_nat k) with
       | Some x => Returns x
       | None => OutOfBounds
       end.

Definition wri (d : list Z) (k : Z) (x : Z) : outcome (list Z) :=
  if (k <? 0)%Z then OutOfBounds
  else if (Z.to_nat k <? List.length d)%nat
       then Returns (firstn (Z.to_nat k) d
                     ++ x :: skipn (Datatypes.S (Z.to_nat k)) d)
       else OutOfBounds.

Section Dense.

Context {T : Type} {A : Num.Arith T}.

Local Notation "x + y" := (Num.add x y) : num_scope.
Local Notation "x - y" := (Num.sub x y) : num_scope.
Local Notation "x * y" := (Num.mul x y) : num_scope.
Local Notation "x / y" := (Num.div x y) : num_scope.
Local Notation "- x" := (Num.neg x) : num_scope.
Local Notation "x == y" := (Num.eqb x y) (at level 70) : num_scope.
Local Notation "x <? y" := (Num.ltb x y) : num_scope.
Local Notation "x >? y" := (Num.ltb y x) : num_scope.
Local Notation "# z" := (Num.lit z%Z) (at level 1, format "# z") : num_scope.

Local Open Scope num_scope.

(** The array with [d[k]] replaced by [x]. *)
Fixpoint upd (d : list T) (k : nat) (x : T) : list T :=
  match d, k with
  | [], _ => []
  | _ :: d', O => x :: d'
  | y :: d', Datatypes.S k' => y :: upd d' k' x
  end.

(** The read [p[k]] and the write [p[k] = x] for an index computed in
    [int] arithmetic: an index below zero or past the end is outside the
    stored array. *)
Definition rdz (d : list T) (k : Z) : outcome T :=
  if (k <? 0)%Z then OutOfBounds else rd d (Z.to_nat k).

Definition wrz (d : list T) (k : Z) (x : T) : outcome (list T) :=
  if (k <? 0)%Z then OutOfBounds
  else if (Z.to_nat k <? List.length d)%nat
       then Returns (upd d (Z.to_nat k) x)
       else OutOfBounds.

(** Whether the translation unit is compiled with [MFEM_DEBUG] defined. *)
Variable MFEM_DEBUG : bool.

(** The index test of [DenseMatrix::operator()].  The test [data == 0] is
    not represented: the sources leave [data] null only in a matrix with
    [height <= 0] or [width <= 0], for which one of the index tests holds
    whatever [(i, j)] is, with the same message. *)
Definition bad_index (M : DenseMatrix T) (i j : Z) : bool :=
  ((i <? 0) || (i >=? height M) || (j <? 0) || (j >=? width M))%Z%bool.

(** [const double &DenseMatrix::operator()(int i, int j) const], read. *)
Definition get (M : DenseMatrix T) (i j : Z) : outcome T :=
  if (MFEM_DEBUG && bad_index M i j)%bool
  then mfem_error "DenseMatrix::operator() const"
  else rdz (data M) (i + j * height M)%Z.

(** [double &DenseMatrix::operator()(int i, int j)], read. *)
Definition elem (M : DenseMatrix T) (i j : Z) : outcome T :=
  if (MFEM_DEBUG && bad_index M i j)%bool
  then mfem_error "DenseMatrix::operator()"
  else rdz (data M) (i + j * height M)%Z.

(** [double &DenseMatrix::operator()(int i, int j)], assigned [x]. *)
Definition set (M : DenseMatrix T) (i j : Z) (x : T)
  : outcome (DenseMatrix T) :=
  if (MFEM_DEBUG && bad_index M i j)%bool
  then mfem_error "DenseMatrix::operator()"
  else
    d <- wrz (data M) (i + j * height M)%Z x ;;
    Returns (mkDenseMatrix (height M) (width M) d).

(** ** Trace, determinant and weight *)

(** [double DenseMatrix::Trace() const]. *)
Definition Trace (M : DenseMatrix T) : outcome T :=
  if (MFEM_DEBUG && negb (width M =? height M)%Z)%bool
  then mfem_error "DenseMatrix::Trace() : not a square matrix!"
  else
    for_ 0 (width M) (fun i t => x <- get M i i ;; Returns (t + x)) #0.

(** [double DenseMatrix::Det() const]. *)
Definition Det (M : DenseMatrix T) : outcome T :=
  if (MFEM_DEBUG &&
      (negb (height M =? width M)%Z || (height M <? 1)%Z
       || (height M >? 3)%Z))%bool
  then mfem_error "DenseMatrix::Det"
  else
    let d := data M in
    if (height M =? 1)%Z then rd d 0
    else if (height M =? 2)%Z then
      d0 <- rd d 0 ;; d3 <- rd d 3 ;; d1 <- rd d 1 ;; d2 <- rd d 2 ;;
      Returns (d0 * d3 - d1 * d2)
    else if (height M =? 3)%Z then
      d0 <- rd d 0 ;; d4 <- rd d 4 ;; d8 <- rd d 8 ;;
      d5 <- rd d 5 ;; d7 <- rd d 7 ;;
      d3 <- rd d 3 ;; d2 <- rd d 2 ;; d1 <- rd d 1 ;; d6 <- rd d 6 ;;
      Returns (d0 * (d4 * d8 - d5 * d7)
               + d3 * (d2 * d7 - d1 * d8)
               + d6 * (d1 * d5 - d2 * d4))
    else Returns #0.

(** [double DenseMatrix::Weight() const]. *)
Definition Weight (M : DenseMatrix T) : outcome T :=
  let d := data M in
  if (height M =? width M)%Z then Det M
  else if ((height M =? 2) && (width M =? 1))%Z%bool then
    d0 <- rd d 0 ;; d1 <- rd d 1 ;;
    Returns (Num.sqrt (d0 * d0 + d1 * d1))
  else if ((height M =? 3) && (width M =? 1))%Z%bool then
    d0 <- rd d 0 ;; d1 <- rd d 1 ;; d2 <- rd d 2 ;;
    Returns (Num.sqrt (d0 * d0 + d1 * d1 + d2 * d2))
  else if ((height M =? 3) && (width M =? 2))%Z%bool then
    d0 <- rd d 0 ;; d1 <- rd d 1 ;; d2 <- rd d 2 ;;
    d3 <- rd d 3 ;; d4 <- rd d 4 ;; d5 <- rd d 5 ;;
    let E := d0 * d0 + d1 * d1 + d2 * d2 in
    let G := d3 * d3 + d4 * d4 + d5 * d5 in
    let F := d0 * d3 + d1 * d4 + d2 * d5 in
    Returns (Num.sqrt (E * G - F * F))
  else mfem_error "DenseMatrix::Weight()".


(** ** Products of small matrices *)

(** [void Mult(const DenseMatrix &b, const DenseMatrix &c, DenseMatrix &a)],
    [a = b c], in a build without LAPACK: the final contents of [a].  The
    pointers [ad], [bdd], [cdd] and the column start [cd] are offsets into
    the three arrays; [a] is an object distinct from [b] and [c].  The
    source's local [as] is written [as_]. *)
Definition Mult (b c a : DenseMatrix T) : outcome (DenseMatrix T) :=
  if (MFEM_DEBUG &&
      (negb (height a =? height b)%Z || negb (width a =? width c)%Z
       || negb (width b =? height c)%Z))%bool
  then mfem_error "Mult (product of DenseMatrices)"
  else
    let ah := height a in
    let as_ := width a in
    let bs := width b in
    r <- for_ 0 as_
           (fun j '(adata, ad, cd) =>
              r <- for_ 0 ah
                     (fun i '(adata, ad) =>
                        r <- for_ 0 bs
                               (fun k '(d, bdd, cdd) =>
                                  x <- rdz (data b) bdd ;;
                                  y <- rdz (data c) cdd ;;
                                  Returns (d + x * y, (bdd + ah)%Z,
                                           (cdd + 1)%Z))
                               (#0, i, cd) ;;
                        let '(d, _, _) := r in
                        adata <- wrz adata ad d ;;
                        Returns (adata, (ad + 1)%Z))
                     (adata, ad) ;;
              let '(adata, ad) := r in
              Returns (adata, ad, (cd + bs)%Z))
           (data a, 0%Z, 0%Z) ;;
    let '(adata, _, _) := r in
    Returns (mkDenseMatrix (height a) (width a) adata).

(** ** Adjugate and inverse of small matrices *)

(** The write [p[k] = x] for a constant index. *)
Definition wr (d : list T) (k : nat) (x : T) : outcome (list T) :=
  if (k <? List.length d)%nat then Returns (upd d k x) else OutOfBounds.

(** The expression [a(i1,j1)*a(i2,j2) - a(i3,j3)*a(i4,j4)] of the 3x3
    blocks, its four reads from left to right. *)
Definition minor2 (a : DenseMatrix T) (i1 j1 i2 j2 i3 j3 i4 j4 : Z)
  : outcome T :=
  x1 <- get a i1 j1 ;; x2 <- get a i2 j2 ;;
  x3 <- get a i3 j3 ;; x4 <- get a i4 j4 ;;
  Returns (x1 * x2 - x3 * x4).

(** [void CalcAdjugate(const DenseMatrix &a, DenseMatrix &adja)]: the
    final contents of [adja].  In an assignment the right-hand side is
    read before the left-hand side is written. *)
Definition CalcAdjugate (a adja : DenseMatrix T) : outcome (DenseMatrix T) :=
  if (MFEM_DEBUG &&
      ((width a >? height a)%Z || (width a <? 1)%Z
       || (height a >? 3)%Z))%bool
  then mfem_error "CalcAdjugate(...)"
  else if (MFEM_DEBUG &&
           (negb (width a =? height adja)%Z
            || negb (height a =? width adja)%Z))%bool
  then mfem_error "CalcAdjugate(...)"
  else if (width a <? height a)%Z then
    let d := data a in
    let ad := data adja in
    ad <-
      (if (width a =? 1)%Z then
         (* N x 1, N = 2,3 *)
         d0 <- rd d 0 ;; ad <- wr ad 0 d0 ;;
         d1 <- rd d 1 ;; ad <- wr ad 1 d1 ;;
         if (height a =? 3)%Z
         then d2 <- rd d 2 ;; wr ad 2 d2
         else Returns ad
       else
         (* 3 x 2 *)
         d0 <- rd d 0 ;; d1 <- rd d 1 ;; d2 <- rd d 2 ;;
         d3 <- rd d 3 ;; d4 <- rd d 4 ;; d5 <- rd d 5 ;;
         let e := d0 * d0 + d1 * d1 + d2 * d2 in
         let g := d3 * d3 + d4 * d4 + d5 * d5 in
         let f := d0 * d3 + d1 * d4 + d2 * d5 in
         ad <- wr ad 0 (d0 * g - d3 * f) ;;
         ad <- wr ad 1 (d3 * e - d0 * f) ;;
         ad <- wr ad 2 (d1 * g - d4 * f) ;;
         ad <- wr ad 3 (d4 * e - d1 * f) ;;
         ad <- wr ad 4 (d2 * g - d5 * f) ;;
         wr ad 5 (d5 * e - d2 * f)) ;;
    Returns (mkDenseMatrix (height adja) (width adja) ad)
  else if (width a =? 1)%Z then set adja 0 0 #1
  else if (width a =? 2)%Z then
    x <- get a 1 1 ;; adja <- set adja 0 0 x ;;
    x <- get a 0 1 ;; adja <- set adja 0 1 (- x) ;;
    x <- get a 1 0 ;; adja <- set adja 1 0 (- x) ;;
    x <- get a 0 0 ;; set adja 1 1 x
  else
    x <- minor2 a 1 1 2 2 1 2 2 1 ;; adja <- set adja 0 0 x ;;
    x <- minor2 a 0 2 2 1 0 1 2 2 ;; adja <- set adja 0 1 x ;;
    x <- minor2 a 0 1 1 2 0 2 1 1 ;; adja <- set adja 0 2 x ;;
    x <- minor2 a 1 2 2 0 1 0 2 2 ;; adja <- set adja 1 0 x ;;
    x <- minor2 a 0 0 2 2 0 2 2 0 ;; adja <- set adja 1 1 x ;;
    x <- minor2 a 0 2 1 0 0 0 1 2 ;; adja <- set adja 1 2 x ;;
    x <- minor2 a 1 0 2 1 1 1 2 0 ;; adja <- set adja 2 0 x ;;
    x <- minor2 a 0 1 2 0 0 0 2 1 ;; adja <- set adja 2 1 x ;;
    x <- minor2 a 0 0 1 1 0 1 1 0 ;; set adja 2 2 x.

(** [void CalcAdjugateTranspose(const DenseMatrix &a, DenseMatrix &adjat)]:
    the final contents of [adjat]. *)
Definition CalcAdjugateTranspose (a adjat : DenseMatrix T)
  : outcome (DenseMatrix T) :=
  if (MFEM_DEBUG &&
      (negb (height a =? width a)%Z
       || negb (height adjat =? width adjat)%Z
       || negb (width a =? width adjat)%Z
       || (width a <? 1)%Z || (width a >? 3)%Z))%bool
  then mfem_error "CalcAdjugateTranspose(...)"
  else if (width a =? 1)%Z then set adjat 0 0 #1
  else if (width a =? 2)%Z then
    x <- get a 1 1 ;; adjat <- set adjat 0 0 x ;;
    x <- get a 0 1 ;; adjat <- set adjat 1 0 (- x) ;;
    x <- get a 1 0 ;; adjat <- set adjat 0 1 (- x) ;;
    x <- get a 0 0 ;; set adjat 1 1 x
  else
    x <- minor2 a 1 1 2 2 1 2 2 1 ;; adjat <- set adjat 0 0 x ;;
    x <- minor2 a 0 2 2 1 0 1 2 2 ;; adjat <- set adjat 1 0 x ;;
    x <- minor2 a 0 1 1 2 0 2 1 1 ;; adjat <- set adjat 2 0 x ;;
    x <- minor2 a 1 2 2 0 1 0 2 2 ;; adjat <- set adjat 0 1 x ;;
    x <- minor2 a 0 0 2 2 0 2 2 0 ;; adjat <- set adjat 1 1 x ;;
    x <- minor2 a 0 2 1 0 0 0 1 2 ;; adjat <- set adjat 2 1 x ;;
    x <- minor2 a 1 0 2 1 1 1 2 0 ;; adjat <- set adjat 0 2 x ;;
    x <- minor2 a 0 1 2 0 0 0 2 1 ;; adjat <- set adjat 1 2 x ;;
    x <- minor2 a 0 0 1 1 0 1 1 0 ;; set adjat 2 2 x.

(** [void CalcInverse(const DenseMatrix &a, DenseMatrix &inva)]: the
    final contents of [inva].  In a debug build the source also prints a
    diagnostic on [cerr] when the determinant is small; the stream is not
    represented and the computed values are the same in both builds. *)
Definition CalcInverse (a inva : DenseMatrix T) : outcome (DenseMatrix T) :=
  if (MFEM_DEBUG &&
      ((width a >? height a)%Z || (width a <? 1)%Z
       || (height a >? 3)%Z))%bool
  then mfem_error "CalcInverse(...)"
  else if (width a <? height a)%Z then
    let d := data a in
    let id := data inva in
    id <-
      (if (height a =? 2)%Z then
         d0 <- rd d 0 ;; d1 <- rd d 1 ;;
         let t := #1 / (d0 * d0 + d1 * d1) in
         id <- wr id 0 (d0 * t) ;;
         wr id 1 (d1 * t)
       else if (width a =? 1)%Z then
         d0 <- rd d 0 ;; d1 <- rd d 1 ;; d2 <- rd d 2 ;;
         let t := #1 / (d0 * d0 + d1 * d1 + d2 * d2) in
         id <- wr id 0 (d0 * t) ;;
         id <- wr id 1 (d1 * t) ;;
         wr id 2 (d2 * t)
       else
         d0 <- rd d 0 ;; d1 <- rd d 1 ;; d2 <- rd d 2 ;;
         d3 <- rd d 3 ;; d4 <- rd d 4 ;; d5 <- rd d 5 ;;
         let e := d0 * d0 + d1 * d1 + d2 * d2 in
         let g := d3 * d3 + d4 * d4 + d5 * d5 in
         let f := d0 * d3 + d1 * d4 + d2 * d5 in
         let t := #1 / (e * g - f * f) in
         let e := e * t in let g := g * t in let f := f * t in
         id <- wr id 0 (d0 * g - d3 * f) ;;
         id <- wr id 1 (d3 * e - d0 * f) ;;
         id <- wr id 2 (d1 * g - d4 * f) ;;
         id <- wr id 3 (d4 * e - d1 * f) ;;
         id <- wr id 4 (d2 * g - d5 * f) ;;
         wr id 5 (d5 * e - d2 * f)) ;;
    Returns (mkDenseMatrix (height inva) (width inva) id)
  else
    det <- Det a ;;
    let t := #1 / det in
    if (height a =? 1)%Z then set inva 0 0 t
    else if (height a =? 2)%Z then
      x <- get a 1 1 ;; inva <- set inva 0 0 (x * t) ;;
      x <- get a 0 1 ;; inva <- set inva 0 1 (- x * t) ;;
      x <- get a 1 0 ;; inva <- set inva 1 0 (- x * t) ;;
      x <- get a 0 0 ;; set inva 1 1 (x * t)
    else if (height a =? 3)%Z then
      x <- minor2 a 1 1 2 2 1 2 2 1 ;; inva <- set inva 0 0 (x * t) ;;
      x <- minor2 a 0 2 2 1 0 1 2 2 ;; inva <- set inva 0 1 (x * t) ;;
      x <- minor2 a 0 1 1 2 0 2 1 1 ;; inva <- set inva 0 2 (x * t) ;;
      x <- minor2 a 1 2 2 0 1 0 2 2 ;; inva <- set inva 1 0 (x * t) ;;
      x <- minor2 a 0 0 2 2 0 2 2 0 ;; inva <- set inva 1 1 (x * t) ;;
      x <- minor2 a 0 2 1 0 0 0 1 2 ;; inva <- set inva 1 2 (x * t) ;;
      x <- minor2 a 1 0 2 1 1 1 2 0 ;; inva <- set inva 2 0 (x * t) ;;
      x <- minor2 a 0 1 2 0 0 0 2 1 ;; inva <- set inva 2 1 (x * t) ;;
      x <- minor2 a 0 0 1 1 0 1 1 0 ;; set inva 2 2 (x * t)
    else Returns inva.

(** [void CalcInverseTranspose(const DenseMatrix &a, DenseMatrix &inva)]:
    the final contents of [inva]. *)
Definition CalcInverseTranspose (a inva : DenseMatrix T)
  : outcome (DenseMatrix T) :=
  if (MFEM_DEBUG &&
      (negb (width a =? height a)%Z
       || (negb (height a =? 1)%Z && negb (height a =? 2)%Z
           && negb (height a =? 3)%Z)))%bool
  then mfem_error "CalcInverseTranspose(...)"
  else
    det <- Det a ;;
    let t := #1 / det in
    if (height a =? 1)%Z then
      x <- get a 0 0 ;; set inva 0 0 (#1 / x)
    else if (height a =? 2)%Z then
      x <- get a 1 1 ;; inva <- set inva 0 0 (x * t) ;;
      x <- get a 0 1 ;; inva <- set inva 1 0 (- x * t) ;;
      x <- get a 1 0 ;; inva <- set inva 0 1 (- x * t) ;;
      x <- get a 0 0 ;; set inva 1 1 (x * t)
    else if (height a =? 3)%Z then
      x <- minor2 a 1 1 2 2 1 2 2 1 ;; inva <- set inva 0 0 (x * t) ;;
      x <- minor2 a 0 2 2 1 0 1 2 2 ;; inva <- set inva 1 0 (x * t) ;;
      x <- minor2 a 0 1 1 2 0 2 1 1 ;; inva <- set inva 2 0 (x * t) ;;
      x <- minor2 a 1 2 2 0 1 0 2 2 ;; inva <- set inva 0 1 (x * t) ;;
      x <- minor2 a 0 0 2 2 0 2 2 0 ;; inva <- set inva 1 1 (x * t) ;;
      x <- minor2 a 0 2 1 0 0 0 1 2 ;; inva <- set inva 2 1 (x * t) ;;
      x <- minor2 a 1 0 2 1 1 1 2 0 ;; inva <- set inva 0 2 (x * t) ;;
      x <- minor2 a 0 1 2 0 0 0 2 1 ;; inva <- set inva 1 2 (x * t) ;;
      x <- minor2 a 0 0 1 1 0 1 1 0 ;; set inva 2 2 (x * t)
    else Returns inva.


(** ** Construction, resizing and transposition *)

(** The array obtained from [new double[n]]: its cells hold no defined
    value until they are assigned, and are represented by zeros. *)
Definition fresh (n : Z) : list T := repeat #0 (Z.to_nat n).

(** [void DenseMatrix::SetSize(int h, int w)]: the matrix is left as it
    is when it has that size already, and is otherwise replaced by the
    zero matrix of that size (without storage when [h] or [w] is not
    positive). *)
Definition SetSize (M : DenseMatrix T) (h w : Z) : DenseMatrix T :=
  if ((height M =? h) && (width M =? w))%Z%bool then M
  else if ((h >? 0) && (w >? 0))%Z%bool
       then mkDenseMatrix h w (repeat #0 (Z.to_nat (h * w)))
       else mkDenseMatrix h w [].

(** [DenseMatrix::DenseMatrix(const DenseMatrix &mat, char ch)]: the
    transpose of [mat]. *)
Definition DenseMatrix_transposed (mat : DenseMatrix T)
  : outcome (DenseMatrix T) :=
  let this :=
    mkDenseMatrix (width mat) (height mat) (fresh (width mat * height mat)) in
  for_ 0 (height this)
    (fun i this =>
       for_ 0 (width this)
         (fun j this => x <- get mat j i ;; set this i j x) this)
    this.

(** [DenseMatrix &DenseMatrix::operator=(const DenseMatrix &m)]. *)
Definition assign (this m : DenseMatrix T) : outcome (DenseMatrix T) :=
  let this := SetSize this (height m) (width m) in
  d <- for_ 0 (height this * width this)
         (fun i d => x <- rdz (data m) i ;; wrz d i x) (data this) ;;
  Returns (mkDenseMatrix (height this) (width this) d).

(** [void DenseMatrix::Transpose()]. *)
Definition Transpose (this : DenseMatrix T) : outcome (DenseMatrix T) :=
  if (width this =? height this)%Z then
    for_ 0 (height this)
      (fun i this =>
         for_ (i + 1) (width this)
           (fun j this =>
              t <- elem this i j ;;
              x <- elem this j i ;;
              this <- set this i j x ;;
              set this j i t)
           this)
      this
  else
    T_ <- DenseMatrix_transposed this ;;
    assign this T_.

(** [void DenseMatrix::Transpose(DenseMatrix &A)]: the final contents of
    [*this]. *)
Definition Transpose_of (this A_ : DenseMatrix T) : outcome (DenseMatrix T) :=
  let this := SetSize this (width A_) (height A_) in
  for_ 0 (height this)
    (fun i this =>
       for_ 0 (width this)
         (fun j this => x <- elem A_ j i ;; set this i j x) this)
    this.

(** ** Norms and the inner product of matrices *)

(** [double DenseMatrix::operator*(const DenseMatrix &m) const], the
    inner product [tr(A^t B)]. *)
Definition inner_product (this m : DenseMatrix T) : outcome T :=
  if (MFEM_DEBUG &&
      (negb (height this =? height m)%Z
       || negb (width this =? width m)%Z))%bool
  then mfem_error "DenseMatrix::operator *(...)"
  else
    let hw := (height this * width this)%Z in
    for_ 0 hw
      (fun i a =>
         x <- rdz (data this) i ;; y <- rdz (data m) i ;;
         Returns (a + x * y))
      #0.

(** [double DenseMatrix::MaxMaxNorm() const]. *)
Definition MaxMaxNorm (M : DenseMatrix T) : outcome T :=
  let hw := (height M * width M)%Z in
  let d := data M in
  for_ 0 hw
    (fun i norm =>
       x <- rdz d i ;;
       let abs_entry := Num.fabs x in
       Returns (if norm <? abs_entry then abs_entry else norm))
    #0.

(** [double DenseMatrix::FNorm() const]. *)
Definition FNorm (M : DenseMatrix T) : outcome T :=
  let hw := (height M * width M)%Z in
  max_norm <-
    for_ 0 hw
      (fun i max_norm =>
         x <- rdz (data M) i ;;
         let entry := Num.fabs x in
         Returns (if entry >? max_norm then entry else max_norm))
      #0 ;;
  if max_norm == #0 then Returns #0
  else
    fnorm2 <-
      for_ 0 hw
        (fun i fnorm2 =>
           x <- rdz (data M) i ;;
           let entry := x / max_norm in
           Returns (fnorm2 + entry * entry))
        #0 ;;
    Returns (max_norm * Num.sqrt fnorm2).

(** ** Symmetrisation, lumping and sign adjustment *)

(** [void DenseMatrix::Symmetrize()].  In the chained assignment the
    entry [(i, j)] is written first. *)
Definition Symmetrize (this : DenseMatrix T) : outcome (DenseMatrix T) :=
  if (MFEM_DEBUG && negb (width this =? height this)%Z)%bool
  then mfem_error "DenseMatrix::Symmetrize() : not a square matrix!"
  else
    for_ 0 (height this)
      (fun i this =>
         for_ 0 i
           (fun j this =>
              x <- elem this i j ;;
              y <- elem this j i ;;
              let a := (#1 / #2) * (x + y) in
              this <- set this i j a ;;
              set this j i a)
           this)
      this.

(** [void DenseMatrix::Lump()]. *)
Definition Lump (this : DenseMatrix T) : outcome (DenseMatrix T) :=
  for_ 0 (height this)
    (fun i this =>
       r <- for_ 0 (width this)
              (fun j '(L, this) =>
                 x <- elem this i j ;;
                 this <- set this i j #0 ;;
                 Returns (L + x, this))
              (#0, this) ;;
       let '(L, this) := r in
       set this i i L)
    this.

(** [void DenseMatrix::AdjustDofDirection(Array<int> &dofs)].  The header
    of [Array] is not among the sources; [general/array.cpp] shows an
    [Array<T>] to hold [size] entries at [data].  An [Array<int>] is
    represented by the list of its entries, [Size()] by the length of the
    list and the conversion to [int *] by the list itself. *)
Definition AdjustDofDirection (this : DenseMatrix T) (dofs : list Z)
  : outcome (DenseMatrix T) :=
  let n := height this in
  if (MFEM_DEBUG &&
      (negb (Z.of_nat (List.length dofs) =? n)%Z
       || negb (width this =? n)%Z))%bool
  then mfem_error "DenseMatrix::AdjustDofDirection(...)"
  else
    for_ 0 (n - 1)
      (fun i this =>
         di <- rdi dofs i ;;
         let s := (if (di <? 0)%Z then (-1)%Z else 1%Z) in
         for_ (i + 1) n
           (fun j this =>
              dj <- rdi dofs j ;;
              let t := (if (dj <? 0)%Z then (- s)%Z else s) in
              if (t <? 0)%Z then
                x <- elem this i j ;;
                this <- set this i j (- x) ;;
                y <- elem this j i ;;
                set this j i (- y)
              else Returns this)
           this)
      this.

(** ** Inversion in place *)

(** [Swap<double>] applied to the entries [(i1, j1)] and [(i2, j2)] of
    the matrix.  The template [Swap] is defined in a header that is not
    among the sources, which only call it: it is taken, from its name and
    its calls, to exchange the values of its two arguments. *)
Definition Swap_entries (this : DenseMatrix T) (i1 j1 i2 j2 : Z)
  : outcome (DenseMatrix T) :=
  x <- elem this i1 j1 ;;
  y <- elem this i2 j2 ;;
  this <- set this i1 j1 y ;;
  set this i2 j2 x.

(** [void DenseMatrix::Invert()] in a build without LAPACK.  [piv] is the
    array of the [Array<int> piv(n)], whose [n] cells are assigned before
    they are read; a loop [for (j++; j < n; j++)] that follows
    [for (j = 0; j < c; j++)] starts at [c + 1]; the two loops over the
    rows [i] have the same body, written once as [row]. *)
Definition Invert (this : DenseMatrix T) : outcome (DenseMatrix T) :=
  if (MFEM_DEBUG &&
      ((height this <=? 0)%Z || negb (height this =? width this)%Z))%bool
  then mfem_error "DenseMatrix::Invert()"
  else
    let n := width this in
    let piv := repeat 0%Z (Z.to_nat n) in
    r <- for_ 0 n
           (fun c '(this, piv) =>
              x <- elem this c c ;;
              r <- for_ (c + 1) n
                     (fun j '(a, i) =>
                        x <- elem this j c ;;
                        let b := Num.fabs x in
                        Returns (if a <? b then (b, j) else (a, i)))
                     (Num.fabs x, c) ;;
              let '(a, i) := r in
              if a == #0
              then mfem_error "DenseMatrix::Invert() : singular matrix"
              else
                piv <- wri piv c i ;;
                this <- for_ 0 n
                          (fun j this => Swap_entries this c j i j) this ;;
                x <- elem this c c ;;
                let a := #1 / x in
                this <- set this c c a ;;
                this <- for_ 0 c
                          (fun j this =>
                             x <- elem this c j ;; set this c j (x * a))
                          this ;;
                this <- for_ (c + 1) n
                          (fun j this =>
                             x <- elem this c j ;; set this c j (x * a))
                          this ;;
                let row := fun i this =>
                  x <- elem this i c ;;
                  let b := - x in
                  this <- set this i c (a * b) ;;
                  this <- for_ 0 c
                            (fun j this =>
                               y <- elem this i j ;;
                               z <- elem this c j ;;
                               set this i j (y + b * z))
                            this ;;
                  for_ (c + 1) n
                    (fun j this =>
                       y <- elem this i j ;;
                       z <- elem this c j ;;
                       set this i j (y + b * z))
                    this in
                this <- for_ 0 c row this ;;
                this <- for_ (c + 1) n row this ;;
                Returns (this, piv))
           (this, piv) ;;
    let '(this, piv) := r in
    iter_down (Z.to_nat n)
      (fun c this =>
         j <- rdi piv c ;;
         for_ 0 n (fun i this => Swap_entries this i c i j) this)
      this.

(** ** Products of a matrix and an array *)

(** [void DenseMatrix::Mult(const double *x, double *y) const]: the final
    contents of [y].  [d_col] is an offset into [data]; [y] is an array
    distinct from [x] and from the array of the matrix. *)
Definition DenseMatrix_Mult (M : DenseMatrix T) (x y : list T)
  : outcome (list T) :=
  let d_col := 0%Z in
  x_col <- rdz x 0 ;;
  y <- for_ 0 (height M)
         (fun row y =>
            d <- rdz (data M) (d_col + row) ;;
            wrz y row (x_col * d))
         y ;;
  let d_col := (d_col + height M)%Z in
  r <- for_ 1 (width M)
         (fun col '(y, d_col) =>
            x_col <- rdz x col ;;
            y <- for_ 0 (height M)
                   (fun row y =>
                      y_row <- rdz y row ;;
                      d <- rdz (data M) (d_col + row) ;;
                      wrz y row (y_row + x_col * d))
                   y ;;
            Returns (y, (d_col + height M)%Z))
         (y, d_col) ;;
  let '(y, _) := r in
  Returns y.

(** [void DenseMatrix::MultTranspose(const double *x, double *y) const]:
    the final contents of [y]. *)
Definition MultTranspose (M : DenseMatrix T) (x y : list T)
  : outcome (list T) :=
  r <- for_ 0 (width M)
         (fun col '(y, d_col) =>
            y_col <- for_ 0 (height M)
                       (fun row y_col =>
                          x_row <- rdz x row ;;
                          d <- rdz (data M) (d_col + row) ;;
                          Returns (y_col + x_row * d))
                       #0 ;;
            y <- wrz y col y_col ;;
            Returns (y, (d_col + height M)%Z))
         (y, 0%Z) ;;
  let '(y, _) := r in
  Returns y.

(** [double DenseMatrix::InnerProduct(const double *x, const double *y)
    const]. *)
Definition InnerProduct (M : DenseMatrix T) (x y : list T) : outcome T :=
  for_ 0 (height M)
    (fun i prod =>
       Axi <- for_ 0 (width M)
                (fun j Axi =>
                   m <- get M i j ;;
                   x_j <- rdz x j ;;
                   Returns (Axi + m * x_j))
                #0 ;;
       y_i <- rdz y i ;;
       Returns (prod + y_i * Axi))
    #0.

End Dense.

(** ** Vocabulary of the statements on stored matrices *)

(** A matrix whose dimensions are not negative and whose array has
    [height * width] entries. *)
Definition well_formed {T : Type} (M : DenseMatrix T) : Prop :=
  (0 <= height M)%Z /\ (0 <= width M)%Z
  /\ Z.of_nat (List.length (data M)) = (height M * width M)%Z.

(** Bookkeeping for the in-place transposition: whether entry [(a, b)]
    already holds the transposed value while row [i] is being processed
    and its columns below [j] are done. *)
Definition swapped (i j a b : Z) : bool :=
  ((a <? i) || (b <? i)
   || ((a =? i) && (i <? b) && (b <? j))
   || ((b =? i) && (i <? a) && (a <? j)))%Z%bool.

(** Bookkeeping for [Symmetrize]: whether the off-diagonal entry [(a, b)]
    already holds the average while row [i] is being processed and its
    columns below [j] are done. *)
Definition averaged (i j a b : Z) : bool :=
  (((a <? i) && (b <? i) && negb (a =? b))
   || ((a =? i) && (b <? j))
   || ((b =? i) && (a <? j)))%Z%bool.

(** The sum [L] of row [i] as [Lump] accumulates it, from column 0
    upwards, over the first [k] columns. *)
Definition row_sum {T : Type} {A : Num.Arith T}
  (M : DenseMatrix T) (i : Z) (k : nat) : T :=
  fold_left
    (fun L j =>
       Num.add L (nth (Z.to_nat (i + Z.of_nat j * height M)) (data M)
                    (Num.lit 0)))
    (seq 0 k) (Num.lit 0).

(** The state of [Lump] on [M] when the rows below [i] are done: those
    rows hold their sum on the diagonal and zero elsewhere, the others are
    as in [M]. *)
Definition lumped_below {T : Type} {A : Num.Arith T}
  (M : DenseMatrix T) (i : Z) (this : DenseMatrix T) : Prop :=
  height this = height M /\ width this = width M
  /\ List.length (data this) = List.length (data M)
  /\ forall a b, (0 <= a < height M)%Z -> (0 <= b < width M)%Z ->
       nth_error (data this) (Z.to_nat (a + b * height M))
       = if (a <? i)%Z
         then Some (if (a =? b)%Z then row_sum M a (Z.to_nat (width M))
                    else Num.lit 0)
         else nth_error (data M) (Z.to_nat (a + b * height M)).

(** The sum [d] that [Mult] accumulates for the entry [(i, j)] of the
    product [b c], from [k = 0] upwards, over the first [n] terms. *)
Definition product_entry {T : Type} {A : Num.Arith T}
  (b c : DenseMatrix T) (i j : Z) (n : nat) : T :=
  fold_left
    (fun d k =>
       Num.add d
         (Num.mul
            (nth (Z.to_nat (i + Z.of_nat k * height b)) (data b) (Num.lit 0))
            (nth (Z.to_nat (Z.of_nat k + j * height c)) (data c)
               (Num.lit 0))))
    (seq 0 n) (Num.lit 0).

(** ** Vocabulary of the statements on products with arrays *)

(** The sum [f 0 + ... + f (n - 1)] of reals and the scalar product of two
    arrays of reals. *)
Fixpoint sum_to (n : nat) (f : nat -> R) : R :=
  match n with
  | O => 0%R
  | Datatypes.S k => (sum_to k f + f k)%R
  end.

Definition scalar_product (x y : list R) : R :=
  sum_to (List.length x) (fun i => (nth i x 0 * nth i y 0)%R).

(** ** Vocabulary of the statements on norms *)

(** The sum of the squares and the largest absolute value of the entries
    of an array of reals. *)
Definition sum_sq (d : list R) : R :=
  fold_left (fun s x => (s + x * x)%R) d 0%R.
Definition max_abs (d : list R) : R :=
  fold_left (fun m x => if Rlt_b m (fabs x) then fabs x else m) d 0%R.
(** * Properties *)

(** ** Reading the routines at the instance of real arithmetic *)

(** Unfold the operations of [RArith]. *)
Ltac rsimpl :=
  cbv beta iota delta
    [Num.add Num.sub Num.mul Num.div Num.neg Num.lit Num.eqb Num.ltb Num.leb
     Num.fabs Num.sqrt Num.hypot Num.copysign Num.cos Num.acos Num.M_PI
     Num.frexp Num.epsilon RArith Req_b Rlt_b Rle_b].

Tactic Notation "rsimpl" "in" hyp(H) :=
  cbv beta iota delta
    [Num.add Num.sub Num.mul Num.div Num.neg Num.lit Num.eqb Num.ltb Num.leb
     Num.fabs Num.sqrt Num.hypot Num.copysign Num.cos Num.acos Num.M_PI
     Num.frexp Num.epsilon RArith Req_b Rlt_b Rle_b] in H.

(** Case analysis on the next real comparison of the goal. *)
Ltac split_cmp :=
  match goal with
  | |- context [if ?c then _ else _] =>
    lazymatch type of c with
    | sumbool _ _ => destruct c
    end
  end.

Ltac simpl_step := cbv beta iota; cbn [negb andb orb Z.eqb Pos.eqb].

Ltac split_all := repeat (simpl_step; try split_cmp); simpl_step.

(** Evaluate the reads of a matrix given by its entries. *)
Ltac read_matrix :=
  cbn [rd bind nth_error height width data Z.eqb Pos.eqb Z.ltb Z.gtb
       Z.compare Pos.compare Pos.compare_cont negb andb orb mfem_error].

(** ** Basic facts about the primitives *)

Lemma fabs_0 : fabs 0 = 0.
Proof. unfold fabs. apply Rabs_R0. Qed.

Lemma fabs_nonneg (x : R) : 0 <= fabs x.
Proof. unfold fabs. apply Rabs_pos. Qed.

Lemma fabs_eq_0 (x : R) : fabs x = 0 -> x = 0.
Proof.
  unfold fabs. intros H. destruct (Req_dec x 0) as [E | E]; [exact E |].
  apply Rabs_no_R0 in E. contradiction.
Qed.

Lemma upd_max_ge_l (m x : R) : m <= upd_max m x.
Proof. unfold upd_max; rsimpl. destruct (Rlt_dec m (fabs x)); lra. Qed.

Lemma upd_max_ge_r (m x : R) : fabs x <= upd_max m x.
Proof. unfold upd_max; rsimpl. destruct (Rlt_dec m (fabs x)); lra. Qed.

Lemma upd_max_0 : upd_max 0 0 = 0.
Proof.
  unfold upd_max; rsimpl. rewrite fabs_0.
  destruct (Rlt_dec 0 0); reflexivity.
Qed.

Lemma powerRZ_2_pos (e : Z) : 0 < powerRZ 2 e.
Proof. apply powerRZ_lt. lra. Qed.

Lemma GetScalingFactor_0 : GetScalingFactor 0 = 1.
Proof.
  unfold GetScalingFactor; rsimpl.
  destruct (Rlt_dec 0 0); [lra | reflexivity].
Qed.

(** The multiplier is a positive number, so dividing by it is harmless. *)
Lemma GetScalingFactor_pos (d_max : R) : 0 < GetScalingFactor d_max.
Proof.
  unfold GetScalingFactor; rsimpl.
  destruct (Rlt_dec 0 d_max) as [Hp | Hn]; [| lra].
  unfold frexp. destruct (Req_dec_T d_max 0) as [E | NE]; [lra |].
  set (e := up (ln (Rabs d_max) / ln 2)).
  assert (Hm : 0 < d_max / powerRZ 2 e).
  { apply Rdiv_lt_0_compat; [lra | apply powerRZ_2_pos]. }
  destruct (e =? max_exponent)%Z; unfold radix; rsimpl;
    apply Rdiv_lt_0_compat; lra.
Qed.

(** ** The 1x1 singular value *)

Lemma CalcSingularvalue_1x1 (dbg : bool) (x : R) (i : Z) :
  CalcSingularvalue dbg (mkDenseMatrix 1 1 [x]) i = Returns x.
Proof.
  unfold CalcSingularvalue. cbn.
  rewrite Bool.andb_false_r. reflexivity.
Qed.

(** C1 (the code departs from the claim): on the 1x1 matrix [(-1)] the
    method returns the stored entry [-1] itself, which is negative and is
    not the absolute value [1] of the entry, in every build. *)
Theorem C1_CalcSingularvalue_1x1_negative (dbg : bool) :
  CalcSingularvalue dbg (mkDenseMatrix 1 1 [-1]) 0 = Returns (-1)
  /\ -1 < 0 /\ -1 <> fabs (-1).
Proof.
  split; [apply CalcSingularvalue_1x1 |].
  split; [lra |].
  unfold fabs, Rabs. destruct (Rcase_abs (-1)); lra.
Qed.

(** ** Precondition checks *)

(** C8, as stated, fails: without [MFEM_DEBUG] a 1x2 matrix is not
    rejected by [CalcSingularvalue], which returns its first entry, and a
    2x3 matrix is not rejected by [CalcEigenvalues]. *)
Lemma C8_counterexample :
  sv_precondition_violated (mkDenseMatrix 1 2 [3; 4])
  /\ CalcSingularvalue false (mkDenseMatrix 1 2 [3; 4]) 0 = Returns 3
  /\ eig_precondition_violated (mkDenseMatrix 2 3 [1; 0; 0; 1; 0; 0])
  /\ CalcEigenvalues false (mkDenseMatrix 2 3 [1; 0; 0; 1; 0; 0])
     = Returns ([1; 1], [1; - 0; 0; 1]).
Proof.
  split; [left; cbn; lia |].
  split; [reflexivity |].
  split; [left; cbn; lia |].
  unfold CalcEigenvalues. cbn.
  unfold CalcEigenvalues2, Eigensystem2S; rsimpl.
  destruct (Req_dec_T 0 0) as [_ | N]; [| lra].
  destruct (Rle_dec 1 1) as [_ | N]; [reflexivity | lra].
Qed.

(** C8 (amended): in a build with [MFEM_DEBUG] defined, a matrix that is
    not square or whose order is outside {1,2,3} makes [CalcSingularvalue]
    abort with its message, and a matrix that is not square or whose order
    is outside {2,3} makes [CalcEigenvalues] abort with its message; no
    value is returned. *)
Theorem C8_debug_build_aborts (M : DenseMatrix R) (i : Z) :
  (sv_precondition_violated M ->
   CalcSingularvalue true M i = Aborts "DenseMatrix::CalcSingularvalue")
  /\ (eig_precondition_violated M ->
      CalcEigenvalues true M = Aborts "DenseMatrix::CalcEigenvalues").
Proof.
  split; intros H.
  - unfold CalcSingularvalue, sv_precondition_violated in *.
    assert (E : (negb (height M =? width M)%Z || (height M <? 1)%Z
                 || (height M >? 3)%Z)%bool = true).
    { destruct H as [H | [H | H]].
      - apply Z.eqb_neq in H. rewrite H. reflexivity.
      - apply Z.ltb_lt in H. rewrite H. apply Bool.orb_true_iff. left.
        apply Bool.orb_true_r.
      - apply Z.gtb_gt in H. rewrite H. apply Bool.orb_true_r. }
    rewrite E. reflexivity.
  - unfold CalcEigenvalues, eig_precondition_violated in *.
    assert (E : (negb (height M =? width M)%Z || (height M <? 2)%Z
                 || (height M >? 3)%Z)%bool = true).
    { destruct H as [H | [H | H]].
      - apply Z.eqb_neq in H. rewrite H. reflexivity.
      - apply Z.ltb_lt in H. rewrite H. apply Bool.orb_true_iff. left.
        apply Bool.orb_true_r.
      - apply Z.gtb_gt in H. rewrite H. apply Bool.orb_true_r. }
    rewrite E. reflexivity.
Qed.

Lemma C8_debug_build_aborts_witness :
  CalcSingularvalue true (mkDenseMatrix 1 2 [3; 4]) 0
  = Aborts "DenseMatrix::CalcSingularvalue"
  /\ CalcEigenvalues true (mkDenseMatrix 2 3 [1; 0; 0; 1; 0; 0])
     = Aborts "DenseMatrix::CalcEigenvalues".
Proof.
  split.
  - apply (proj1 (C8_debug_build_aborts (mkDenseMatrix 1 2 [3; 4]) 0)).
    left; cbn; lia.
  - apply (proj2 (C8_debug_build_aborts
                    (mkDenseMatrix 2 3 [1; 0; 0; 1; 0; 0]) 0)).
    left; cbn; lia.
Defined.

(** ** Entries read by [CalcEigenvalues] *)

(** C9: two matrices of the same shape, of order 2 or 3, that agree on
    the stored entries 0, 2, 3 (order 2) or 0, 3, 4, 6, 7, 8 (order 3) give
    the same outcome of [CalcEigenvalues], eigenvalues and eigenvectors
    alike, whatever the other stored entries are. *)
Theorem C9_CalcEigenvalues_upper_triangle_only
  (dbg : bool) (M M' : DenseMatrix R) :
  height M = height M' -> width M = width M' ->
  (height M = 2%Z /\
   forall k, In k [0; 2; 3]%nat ->
             nth_error (data M) k = nth_error (data M') k)
  \/ (height M = 3%Z /\
      forall k, In k [0; 3; 4; 6; 7; 8]%nat ->
                nth_error (data M) k = nth_error (data M') k) ->
  CalcEigenvalues dbg M = CalcEigenvalues dbg M'.
Proof.
  intros Hh Hw H. unfold CalcEigenvalues. rewrite <- Hh, <- Hw.
  destruct (dbg && _)%bool; [reflexivity |].
  destruct H as [[H2 Hk] | [H3 Hk]].
  - rewrite H2. cbn [Z.eqb Pos.eqb]. unfold rd.
    rewrite <- (Hk 0%nat), <- (Hk 2%nat), <- (Hk 3%nat);
      cbn; auto.
  - rewrite H3. cbn [Z.eqb Pos.eqb]. unfold rd.
    rewrite <- (Hk 0%nat), <- (Hk 3%nat), <- (Hk 4%nat),
      <- (Hk 6%nat), <- (Hk 7%nat), <- (Hk 8%nat);
      cbn; auto 10.
Qed.

Lemma C9_CalcEigenvalues_upper_triangle_only_witness :
  CalcEigenvalues false (mkDenseMatrix 2 2 [2; 5; 1; 2])
  = CalcEigenvalues false (mkDenseMatrix 2 2 [2; 7; 1; 2]).
Proof.
  apply C9_CalcEigenvalues_upper_triangle_only; try reflexivity.
  left. split; [reflexivity |].
  intros k Hk. cbn in Hk.
  destruct Hk as [<- | [<- | [<- | []]]]; reflexivity.
Defined.

(** ** The triple-root branch of the 3x3 eigenvalue computation *)

(** The 3x3 block of [CalcEigenvalues] in terms of its multiplier. *)
Lemma CalcEigenvalues3_unfold (d11 d12 d22 d13 d23 d33 : R) :
  CalcEigenvalues3 d11 d12 d22 d13 d23 d33
  = (let mult := eig3_mult d11 d12 d22 d13 d23 d33 in
     let '((l0, l1, l2), vec) :=
       CalcEigenvalues3_scaled (d11 / mult) (d22 / mult) (d33 / mult)
                               (d12 / mult) (d13 / mult) (d23 / mult) in
     ([l0 * mult; l1 * mult; l2 * mult], vec)).
Proof. reflexivity. Qed.

Lemma CalcEigenvalues3_scaled_triple (d11 d22 d33 d12 d13 d23 : R) :
  invariant_Q d11 d22 d33 d12 d13 d23 <= 0 ->
  CalcEigenvalues3_scaled d11 d22 d33 d12 d13 d23
  = (let aa := invariant_aa d11 d22 d33 in (aa, aa, aa), identity3).
Proof.
  intros HQ. unfold CalcEigenvalues3_scaled; rsimpl.
  unfold invariant_Q, invariant_aa in HQ. cbv zeta in HQ |- *.
  destruct (Rle_dec _ 0) as [_ | N]; [reflexivity | contradiction].
Qed.

(** C3: for a 3x3 matrix whose scaled upper triangle has [Q <= 0],
    [CalcEigenvalues] returns three eigenvalues equal to [aa * mult], where
    [aa] is a third of the trace of the scaled matrix, and the identity as
    eigenvector matrix; the result does not depend on any later branch. *)
Theorem C3_CalcEigenvalues_Q_nonpositive
  (dbg : bool) (a0 a1 a2 a3 a4 a5 a6 a7 a8 : R) :
  let mult := eig3_mult a0 a3 a4 a6 a7 a8 in
  let aa := invariant_aa (a0 / mult) (a4 / mult) (a8 / mult) in
  invariant_Q (a0 / mult) (a4 / mult) (a8 / mult)
              (a3 / mult) (a6 / mult) (a7 / mult) <= 0 ->
  CalcEigenvalues dbg (mkDenseMatrix 3 3 [a0; a1; a2; a3; a4; a5; a6; a7; a8])
  = Returns ([aa * mult; aa * mult; aa * mult], identity3).
Proof.
  intros mult aa HQ. unfold CalcEigenvalues. read_matrix.
  rewrite Bool.andb_false_r, CalcEigenvalues3_unfold. fold mult. cbv zeta.
  rewrite (CalcEigenvalues3_scaled_triple _ _ _ _ _ _ HQ).
  reflexivity.
Qed.

Lemma C3_CalcEigenvalues_Q_nonpositive_witness :
  CalcEigenvalues false (mkDenseMatrix 3 3 [5; 0; 0; 0; 5; 0; 0; 0; 5])
  = Returns ([5; 5; 5], identity3).
Proof.
  pose proof (GetScalingFactor_pos (eig3_d_max 5 0 5 0 0 5)) as Hm.
  fold (eig3_mult 5 0 5 0 0 5) in Hm.
  rewrite (C3_CalcEigenvalues_Q_nonpositive false 5 0 0 0 5 0 0 0 5).
  - unfold invariant_aa. set (m := eig3_mult 5 0 5 0 0 5) in *.
    replace ((5 / m + 5 / m + 5 / m) / 3 * m) with 5 by (field; lra).
    reflexivity.
  - unfold invariant_Q, invariant_aa. cbv zeta.
    set (x := 5 / eig3_mult 5 0 5 0 0 5).
    set (z := 0 / eig3_mult 5 0 5 0 0 5).
    assert (Ez : z = 0) by (unfold z; lra).
    replace (x - (x + x + x) / 3) with 0 by lra.
    rewrite Ez. lra.
Defined.

(** ** The 2x2 singular value block *)

Lemma checked_div_nonzero (x y : R) : y <> 0 -> checked_div x y = Some (x / y).
Proof.
  intros H. unfold checked_div. destruct (Req_dec_T y 0); [contradiction | reflexivity].
Qed.

Lemma sv2_mult_pos (d0 d1 d2 d3 : R) : 0 < sv2_mult d0 d1 d2 d3.
Proof. apply GetScalingFactor_pos. Qed.

(** The block branches on [sv2_s]. *)
Lemma CalcSingularvalue2_unfold (i : Z) (d0 d1 d2 d3 : R) :
  CalcSingularvalue2 i d0 d1 d2 d3 =
  let mult := sv2_mult d0 d1 d2 d3 in
  let s := sv2_s d0 d1 d2 d3 in
  if Req_dec_T s 0 then 0
  else
    let t := fabs ((d0 / mult) * (d3 / mult) - (d1 / mult) * (d2 / mult)) / s in
    if Rlt_dec s t then
      if (i =? 0)%Z then t * mult else s * mult
    else
      if (i =? 0)%Z then s * mult else t * mult.
Proof.
  unfold CalcSingularvalue2, sv2_s, sv2_mult; rsimpl. cbv zeta.
  repeat split_cmp; reflexivity.
Qed.

Lemma sv2_s_nonneg (d0 d1 d2 d3 : R) : 0 <= sv2_s d0 d1 d2 d3.
Proof. unfold sv2_s. cbv zeta. apply sqrt_pos. Qed.

Lemma sqrt_sum_zero (a b : R) :
  0 <= a -> sqrt (a + sqrt b) = 0 -> a = 0.
Proof.
  intros Ha H. pose proof (sqrt_pos b) as Hb.
  apply sqrt_eq_0 in H; lra.
Qed.

Lemma sv2_s_zero_iff (d0 d1 d2 d3 : R) :
  sv2_s d0 d1 d2 d3 = 0 <-> d0 = 0 /\ d1 = 0 /\ d2 = 0 /\ d3 = 0.
Proof.
  split.
  - unfold sv2_s. cbv zeta. pose proof (sv2_mult_pos d0 d1 d2 d3) as Hm.
    set (m := sv2_mult d0 d1 d2 d3) in *. intros H.
    apply sqrt_sum_zero in H.
    2:{ pose proof (Rle_0_sqr (d0 / m)); pose proof (Rle_0_sqr (d1 / m));
        pose proof (Rle_0_sqr (d2 / m)); pose proof (Rle_0_sqr (d3 / m)).
        unfold Rsqr in *. lra. }
    assert (Z : forall x, x / m * (x / m) <= 0 -> x = 0).
    { intros x Hx. assert (E : x / m = 0) by nra.
      apply (Rmult_eq_compat_r m) in E. unfold Rdiv in E.
      rewrite Rmult_assoc, Rinv_l, Rmult_1_r, Rmult_0_l in E; lra. }
    pose proof (Rle_0_sqr (d0 / m)); pose proof (Rle_0_sqr (d1 / m));
      pose proof (Rle_0_sqr (d2 / m)); pose proof (Rle_0_sqr (d3 / m)).
    unfold Rsqr in *.
    repeat split; apply Z; lra.
  - intros (-> & -> & -> & ->). unfold sv2_s, sv2_mult. cbv zeta.
    rewrite fabs_0, !upd_max_0, GetScalingFactor_0.
    match goal with
    | |- sqrt (?a + sqrt ?b) = 0 =>
      replace b with 0 by lra; rewrite sqrt_0;
      replace (a + 0) with 0 by lra; apply sqrt_0
    end.
Qed.

(** C10: in the 2x2 block of [CalcSingularvalue] the quantity [s] is zero
    exactly for the zero matrix; when it is zero the block returns 0 for
    every index; and no execution of the block reaches a division by zero:
    the block with checked divisions always produces the value of the
    block. *)
Theorem C10_CalcSingularvalue2_division_guarded (d0 d1 d2 d3 : R) :
  (sv2_s d0 d1 d2 d3 = 0 <-> d0 = 0 /\ d1 = 0 /\ d2 = 0 /\ d3 = 0)
  /\ (sv2_s d0 d1 d2 d3 = 0 ->
      forall i, CalcSingularvalue2 i d0 d1 d2 d3 = 0
                /\ CalcSingularvalue2_checked i d0 d1 d2 d3 = Some 0)
  /\ (forall i, CalcSingularvalue2_checked i d0 d1 d2 d3
                = Some (CalcSingularvalue2 i d0 d1 d2 d3)).
Proof.
  assert (Hc : forall i, CalcSingularvalue2_checked i d0 d1 d2 d3
                         = Some (CalcSingularvalue2 i d0 d1 d2 d3)).
  { intros i. rewrite CalcSingularvalue2_unfold.
    unfold CalcSingularvalue2_checked, sv2_s.
    cbv zeta. fold (sv2_mult d0 d1 d2 d3).
    pose proof (sv2_mult_pos d0 d1 d2 d3) as Hm.
    set (m := sv2_mult d0 d1 d2 d3) in *.
    rewrite !(checked_div_nonzero _ m) by lra.
    match goal with
    | |- context [Req_dec_T ?s 0] => destruct (Req_dec_T s 0) as [E | NE]
    end.
    - reflexivity.
    - rewrite checked_div_nonzero by exact NE.
      repeat match goal with
             | |- context [if ?b then _ else _] => destruct b
             end; reflexivity. }
  split; [apply sv2_s_zero_iff |].
  split; [| exact Hc].
  intros Hs i.
  assert (E : CalcSingularvalue2 i d0 d1 d2 d3 = 0).
  { rewrite CalcSingularvalue2_unfold. cbv zeta.
    destruct (Req_dec_T (sv2_s d0 d1 d2 d3) 0); [reflexivity | contradiction]. }
  split; [exact E | rewrite Hc, E; reflexivity].
Qed.

Lemma C10_CalcSingularvalue2_division_guarded_witness :
  sv2_s 0 0 0 0 = 0
  /\ CalcSingularvalue2 0 0 0 0 0 = 0
  /\ CalcSingularvalue2_checked 1 0 0 0 0 = Some 0.
Proof.
  destruct (C10_CalcSingularvalue2_division_guarded 0 0 0 0) as (Hz & H0 & _).
  assert (E : sv2_s 0 0 0 0 = 0) by (apply Hz; repeat split; reflexivity).
  split; [exact E |].
  split; [exact (proj1 (H0 E 0%Z)) | exact (proj2 (H0 E 1%Z))].
Defined.

(** ** The 2x2 symmetric eigenproblem *)

Lemma sqrt_1_eps_value : sqrt_1_eps = 2 ^ 26.
Proof.
  unfold sqrt_1_eps; rsimpl. unfold epsilon. apply sqrt_lem_1.
  - unfold Rdiv. rewrite Rinv_inv. simpl. lra.
  - simpl. lra.
  - unfold Rdiv. rewrite Rinv_inv. simpl. lra.
Qed.

Lemma sqrt_one_plus_sq_ge_1 (z : R) : 1 <= sqrt (1 + z * z).
Proof.
  rewrite <- sqrt_1 at 1. apply sqrt_le_1_alt. nra.
Qed.

Lemma parlett_denominator_pos (z : R) : 0 < fabs z + sqrt (1 + z * z).
Proof.
  pose proof (fabs_nonneg z). pose proof (sqrt_one_plus_sq_ge_1 z). lra.
Qed.

Lemma copysign_pos_l (x y : R) : 0 <= x -> copysign x y = sign_of y * x.
Proof.
  intros Hx. unfold sign_of, copysign. rewrite Rabs_R1, (Rabs_pos_eq x Hx).
  destruct (Rle_dec 0 y); lra.
Qed.

Lemma copysign_tangent (d12 d1 d2 : R) :
  let zeta := zeta_of d12 d1 d2 in
  copysign (1 / (fabs zeta + sqrt (1 + zeta * zeta))) zeta
  = tangent_of d12 d1 d2.
Proof.
  intros zeta. unfold tangent_of. fold zeta.
  pose proof (parlett_denominator_pos zeta) as Hp.
  rewrite copysign_pos_l.
  - unfold Rdiv. ring.
  - apply Rlt_le. apply Rdiv_lt_0_compat; lra.
Qed.

Lemma zeta_example_small : fabs (zeta_of 2 0 3) < sqrt_1_eps.
Proof.
  replace (zeta_of 2 0 3) with (3 / 4) by (unfold zeta_of; lra).
  unfold fabs. rewrite Rabs_pos_eq by lra.
  rewrite sqrt_1_eps_value. simpl. lra.
Qed.

(** The two routines at the instance of real arithmetic. *)
Lemma Eigenvalues2S_unfold (d12 d1 d2 : R) :
  Eigenvalues2S d12 d1 d2
  = if Req_dec_T d12 0 then (d1, d2)
    else
      let zeta := zeta_of d12 d1 d2 in
      let t :=
        if Rlt_dec (fabs zeta) sqrt_1_eps
        then d12 * copysign (1 / (fabs zeta + sqrt (1 + zeta * zeta))) zeta
        else d12 * copysign ((1 / 2) / fabs zeta) zeta in
      (d1 - t, d2 + t).
Proof.
  unfold Eigenvalues2S, zeta_of; rsimpl.
  destruct (Req_dec_T d12 0); [reflexivity |].
  cbv zeta. destruct (Rlt_dec _ _); reflexivity.
Qed.

Lemma Eigensystem2S_unfold (d12 d1 d2 : R) :
  Eigensystem2S d12 d1 d2
  = if Req_dec_T d12 0 then (d1, d2, 1, 0)
    else
      let zeta := zeta_of d12 d1 d2 in
      let t :=
        if Rlt_dec (fabs zeta) sqrt_1_eps
        then copysign (1 / (fabs zeta + sqrt (1 + zeta * zeta))) zeta
        else copysign ((1 / 2) / fabs zeta) zeta in
      let c := sqrt (1 / (1 + t * t)) in
      let s := c * t in
      let t := t * d12 in
      (d1 - t, d2 + t, c, s).
Proof.
  unfold Eigensystem2S, zeta_of; rsimpl.
  destruct (Req_dec_T d12 0); [reflexivity |].
  cbv zeta. destruct (Rlt_dec _ _); reflexivity.
Qed.

(** C2, as stated, fails on the matrix [[0, 2], [2, 3]]: with the factor
    [d12] inside [t] the claimed eigenvalues are [-2] and [5] and the
    claimed cosine is [sqrt (1/2)], while both routines produce [-1] and
    [4], and [Eigensystem2S] the cosine [sqrt (4/5)]. *)
Lemma C2_counterexample :
  let d1 := 0 in let d12 := 2 in let d2 := 3 in
  let zeta := zeta_of d12 d1 d2 in
  let t := d12 * sign_of zeta / (fabs zeta + sqrt (1 + zeta * zeta)) in
  d12 <> 0 /\ fabs zeta < sqrt_1_eps
  /\ (d1 - t * d12, d2 + t * d12) = (-2, 5)
  /\ Eigenvalues2S d12 d1 d2 = (-1, 4)
  /\ Eigensystem2S d12 d1 d2 = (-1, 4, sqrt (4 / 5), sqrt (4 / 5) * (1 / 2))
  /\ Eigenvalues2S d12 d1 d2 <> (d1 - t * d12, d2 + t * d12)
  /\ sqrt (1 / (1 + t * t)) <> sqrt (4 / 5).
Proof.
  intros d1 d12 d2 zeta t.
  assert (Hz : zeta = 3 / 4) by (unfold zeta, zeta_of, d1, d12, d2; lra).
  assert (Hf : fabs zeta = 3 / 4).
  { rewrite Hz. unfold fabs. apply Rabs_pos_eq. lra. }
  assert (Hs : sqrt (1 + zeta * zeta) = 5 / 4).
  { rewrite Hz. apply sqrt_lem_1; lra. }
  assert (Hg : sign_of zeta = 1).
  { unfold sign_of, copysign. rewrite Rabs_R1, Hz.
    destruct (Rle_dec 0 (3 / 4)); lra. }
  assert (Ht : t = 1).
  { unfold t. rewrite Hg, Hf, Hs. unfold d12. lra. }
  assert (Htan : tangent_of d12 d1 d2 = 1 / 2).
  { unfold tangent_of. fold zeta. rewrite Hg, Hf, Hs. lra. }
  assert (Hlt : fabs zeta < sqrt_1_eps).
  { rewrite Hf, sqrt_1_eps_value. simpl. lra. }
  assert (E2 : Eigenvalues2S d12 d1 d2 = (-1, 4)).
  { rewrite Eigenvalues2S_unfold. cbv zeta. fold zeta.
    destruct (Req_dec_T d12 0) as [E | _]; [unfold d12 in E; lra |].
    destruct (Rlt_dec (fabs zeta) sqrt_1_eps) as [_ | N]; [| contradiction].
    unfold zeta. rewrite copysign_tangent, Htan. unfold d1, d2, d12.
    f_equal; lra. }
  assert (E3 : Eigensystem2S d12 d1 d2
               = (-1, 4, sqrt (4 / 5), sqrt (4 / 5) * (1 / 2))).
  { rewrite Eigensystem2S_unfold. cbv zeta. fold zeta.
    destruct (Req_dec_T d12 0) as [E | _]; [unfold d12 in E; lra |].
    destruct (Rlt_dec (fabs zeta) sqrt_1_eps) as [_ | N]; [| contradiction].
    unfold zeta. rewrite copysign_tangent, Htan. unfold d1, d2, d12.
    replace (1 / (1 + 1 / 2 * (1 / 2))) with (4 / 5) by lra.
    repeat f_equal; lra. }
  split; [unfold d12; lra |].
  split; [exact Hlt |].
  split; [rewrite Ht; unfold d1, d2, d12; f_equal; lra |].
  split; [exact E2 |].
  split; [exact E3 |].
  split.
  - rewrite E2, Ht. unfold d1, d2, d12. intros H.
    apply (f_equal fst) in H. simpl in H. lra.
  - rewrite Ht. intros H.
    assert (H2 : sqrt (1 / (1 + 1 * 1)) * sqrt (1 / (1 + 1 * 1))
                 = sqrt (4 / 5) * sqrt (4 / 5)) by (rewrite H; reflexivity).
    rewrite !sqrt_def in H2; lra.
Qed.

(** The sign carried by [copysign] is [+1] or [-1], and it is the sign
    of the number when the number is not zero. *)
Lemma sign_of_cases (x : R) :
  (sign_of x = 1 \/ sign_of x = -1)
  /\ (0 < x -> sign_of x = 1) /\ (x < 0 -> sign_of x = -1).
Proof.
  unfold sign_of, copysign. rewrite Rabs_R1.
  destruct (Rle_dec 0 x); repeat split; intros; try lra; auto.
Qed.

(** C2 (amended): for [d12 <> 0] and [|zeta| < sqrt (1/epsilon)], with
    [zeta = (d2 - d1) / (2 d12)], there is a sign [sigma], which is [+1]
    for [zeta > 0], [-1] for [zeta < 0] and one of the two for a zero
    [zeta] (the sign bit of that zero, which [copysign] reads and exact
    arithmetic does not determine), such that with
    [t = sigma / (|zeta| + sqrt (1 + zeta^2))] (no factor [d12]) both
    routines leave [d1 - t d12] and [d2 + t d12] in [(d1, d2)], and
    [Eigensystem2S] returns [c = sqrt (1 / (1 + t^2))] and [s = c t]. *)
Theorem C2_Eigen2S_parlett (d12 d1 d2 : R) :
  d12 <> 0 ->
  fabs (zeta_of d12 d1 d2) < sqrt_1_eps ->
  let zeta := zeta_of d12 d1 d2 in
  exists sigma : R,
    (sigma = 1 \/ sigma = -1)
    /\ (0 < zeta -> sigma = 1)
    /\ (zeta < 0 -> sigma = -1)
    /\ let t := sigma / (fabs zeta + sqrt (1 + zeta * zeta)) in
       Eigenvalues2S d12 d1 d2 = (d1 - t * d12, d2 + t * d12)
       /\ Eigensystem2S d12 d1 d2
          = (d1 - t * d12, d2 + t * d12,
             sqrt (1 / (1 + t * t)), sqrt (1 / (1 + t * t)) * t).
Proof.
  intros Hd Hz zeta. exists (sign_of zeta).
  destruct (sign_of_cases zeta) as (S1 & S2 & S3).
  split; [exact S1 |]. split; [exact S2 |]. split; [exact S3 |].
  change (sign_of zeta / (fabs zeta + sqrt (1 + zeta * zeta)))
    with (tangent_of d12 d1 d2).
  intros t. split.
  - rewrite Eigenvalues2S_unfold. cbv zeta.
    destruct (Req_dec_T d12 0) as [E | _]; [contradiction |].
    destruct (Rlt_dec _ sqrt_1_eps) as [_ | N]; [| contradiction].
    rewrite copysign_tangent. fold t. f_equal; ring.
  - rewrite Eigensystem2S_unfold. cbv zeta.
    destruct (Req_dec_T d12 0) as [E | _]; [contradiction |].
    destruct (Rlt_dec _ sqrt_1_eps) as [_ | N]; [| contradiction].
    rewrite copysign_tangent. fold t. reflexivity.
Qed.

Lemma C2_Eigen2S_parlett_witness :
  let zeta := zeta_of 2 0 3 in
  exists sigma : R,
    (sigma = 1 \/ sigma = -1)
    /\ (0 < zeta -> sigma = 1)
    /\ (zeta < 0 -> sigma = -1)
    /\ let t := sigma / (fabs zeta + sqrt (1 + zeta * zeta)) in
       Eigenvalues2S 2 0 3 = (0 - t * 2, 3 + t * 2)
       /\ Eigensystem2S 2 0 3
          = (0 - t * 2, 3 + t * 2,
             sqrt (1 / (1 + t * t)), sqrt (1 / (1 + t * t)) * t).
Proof.
  refine (C2_Eigen2S_parlett 2 0 3 _ _).
  - lra.
  - exact zeta_example_small.
Defined.

(** ** The dimension reported by the kernel solvers *)

Lemma KernelVector3G_aux_kdim
  (mode : Z) (d1 d2 d3 c12 c13 c23 c21 c31 c32 : R) :
  fst (KernelVector3G_aux mode d1 d2 d3 c12 c13 c23 c21 c31 c32) = 1%Z
  \/ fst (KernelVector3G_aux mode d1 d2 d3 c12 c13 c23 c21 c31 c32) = 2%Z.
Proof.
  unfold KernelVector3G_aux.
  destruct (KernelVector3G_column_1 _ _ _ _ _ _ _ _ _)
    as [[[[[[e1 e2] e3] f12] f13] f23] f32].
  destruct (KernelVector2G mode e2 f23 f32 e3) as [zero [[[z2 ?] ?] z3]].
  destruct zero; cbn; auto.
Qed.

Lemma three_norms_zero (a b c x y z : R) :
  fabs a + fabs x + fabs y = 0 ->
  fabs b + fabs x + fabs z <= 0 ->
  fabs c + fabs y + fabs z <= 0 ->
  a = 0 /\ b = 0 /\ c = 0 /\ x = 0 /\ y = 0 /\ z = 0.
Proof.
  intros H1 H2 H3.
  pose proof (fabs_nonneg a); pose proof (fabs_nonneg b);
    pose proof (fabs_nonneg c); pose proof (fabs_nonneg x);
    pose proof (fabs_nonneg y); pose proof (fabs_nonneg z).
  repeat split; apply fabs_eq_0; lra.
Qed.

Theorem C6_KernelVector3S_kdim (mode : Z) (d12 d13 d23 d1 d2 d3 : R) :
  let kdim := fst (KernelVector3S mode d12 d13 d23 d1 d2 d3) in
  (kdim = 1%Z \/ kdim = 2%Z \/ kdim = 3%Z)
  /\ (kdim = 3%Z <->
      d1 = 0 /\ d2 = 0 /\ d3 = 0 /\ d12 = 0 /\ d13 = 0 /\ d23 = 0)
  /\ (~ (d1 = 0 /\ d2 = 0 /\ d3 = 0 /\ d12 = 0 /\ d13 = 0 /\ d23 = 0) ->
      kdim = 1%Z \/ kdim = 2%Z).
Proof.
  intros kdim.
  assert (Hzero : d1 = 0 /\ d2 = 0 /\ d3 = 0 /\ d12 = 0 /\ d13 = 0 /\ d23 = 0
                  -> kdim = 3%Z).
  { intros (-> & -> & -> & -> & -> & ->). unfold kdim, KernelVector3S; rsimpl.
    cbv zeta. rewrite fabs_0.
    replace (0 + 0 + 0) with 0 by lra.
    split_all; try lra; reflexivity. }
  assert (Hcases : (kdim = 3%Z /\ d1 = 0 /\ d2 = 0 /\ d3 = 0
                    /\ d12 = 0 /\ d13 = 0 /\ d23 = 0)
                   \/ ((kdim = 1%Z \/ kdim = 2%Z)
                       /\ ~ (d1 = 0 /\ d2 = 0 /\ d3 = 0
                             /\ d12 = 0 /\ d13 = 0 /\ d23 = 0))).
  { unfold kdim, KernelVector3S; rsimpl. cbv zeta.
    destruct (Rle_dec _ _) as [H1 | H1];
      [destruct (Rle_dec _ _) as [H2 | H2] | destruct (Rle_dec _ _) as [H2 | H2]];
      simpl_step;
      (destruct (Req_dec_T _ 0) as [E | NE]; simpl_step;
       [ left; split; [reflexivity |];
         first
           [ destruct (three_norms_zero d1 d2 d3 d12 d13 d23)
               as (? & ? & ? & ? & ? & ?); [lra | lra | lra |]; tauto
           | destruct (three_norms_zero d2 d1 d3 d12 d23 d13)
               as (? & ? & ? & ? & ? & ?); [lra | lra | lra |]; tauto
           | destruct (three_norms_zero d3 d1 d2 d13 d23 d12)
               as (? & ? & ? & ? & ? & ?); [lra | lra | lra |]; tauto ]
       | right; split;
         [ | intros (-> & -> & -> & -> & -> & ->); apply NE;
             rewrite fabs_0; lra ] ]).
    all: destruct (mode =? 0)%Z; split_all.
    all: match goal with
         | |- context [KernelVector3G_aux ?m ?a ?b ?c ?d ?e ?f ?g ?h ?i] =>
           destruct (KernelVector3G_aux_kdim m a b c d e f g h i) as [K | K];
           destruct (KernelVector3G_aux m a b c d e f g h i) as [kd [[? ?] ?]];
           cbn in K |- *; auto
         end. }
  split; [| split].
  - destruct Hcases as [(K & _) | (K & _)]; tauto.
  - split; [| exact Hzero].
    intros K. destruct Hcases as [(_ & H) | (K' & _)]; [exact H |].
    destruct K' as [K' | K']; rewrite K' in K; discriminate.
  - intros NZ. destruct Hcases as [(_ & H) | (K & _)]; [contradiction | exact K].
Qed.

Lemma C6_KernelVector3S_kdim_witness :
  fst (KernelVector3S 0 0 0 0 1 0 0) = 1%Z
  \/ fst (KernelVector3S 0 0 0 0 1 0 0) = 2%Z.
Proof.
  apply (proj2 (proj2 (C6_KernelVector3S_kdim 0 0 0 0 1 0 0))).
  intros (H & _). lra.
Defined.

(** ** The Householder deflation *)

Lemma sign_of_sq (x : R) : sign_of x * sign_of x = 1.
Proof.
  unfold sign_of, copysign. rewrite Rabs_R1. destruct (Rle_dec 0 x); lra.
Qed.

Lemma sign_of_mult_abs (x : R) : sign_of x * x = fabs x.
Proof.
  unfold sign_of, copysign, fabs. rewrite Rabs_R1.
  destruct (Rle_dec 0 x) as [H | H].
  - rewrite Rabs_pos_eq by exact H. lra.
  - rewrite Rabs_left by lra. lra.
Qed.

Lemma hypot_sq (x y : R) : hypot x y * hypot x y = x * x + y * y.
Proof. unfold hypot. apply sqrt_def. nra. Qed.

Lemma hypot_zero (x y : R) : hypot x y = 0 -> x = 0 /\ y = 0.
Proof.
  intros H. pose proof (hypot_sq x y) as S. rewrite H in S. split; nra.
Qed.

(** Polynomial equalities from the equalities of the context. *)
Ltac poly_eq := cbn [pow]; nsatz.

(** Componentwise equality of tuples. *)
Ltac tuple_eq :=
  repeat match goal with |- (_, _) = (_, _) => apply f_equal2 end.

(** [Q A Q = A - v w^t - w v^t] with [w] as computed by the source, for
    every [g] and [v]. *)
Lemma reflection_conjugate (g v1 v2 v3 d1 d2 d3 d12 d13 d23 : R) :
  let w1 := g * (d1 * v1 + d12 * v2 + d13 * v3) in
  let w2 := g * (d12 * v1 + d2 * v2 + d23 * v3) in
  let w3 := g * (d13 * v1 + d23 * v2 + d3 * v3) in
  let s := (g / 2) * (v1 * w1 + v2 * w2 + v3 * w3) in
  let w1 := w1 - s * v1 in
  let w2 := w2 - s * v2 in
  let w3 := w3 - s * v3 in
  let Q := reflection g (v1, v2, v3) in
  mulmm Q (mulmm (sym3 d1 d2 d3 d12 d13 d23) Q)
  = sym3 (d1 - 2 * v1 * w1) (d2 - 2 * v2 * w2) (d3 - 2 * v3 * w3)
         (d12 - v1 * w2 - v2 * w1) (d13 - v1 * w3 - v3 * w1)
         (d23 - (v2 * w3 + v3 * w2)).
Proof.
  cbv zeta. unfold reflection, sym3, mulmm, col1, col2, col3, dot.
  tuple_eq; field.
Qed.

(** The first column of [Q A Q] is [Q (A (Q e1))]. *)
Lemma col1_conjugate (Q A : mat3) :
  col1 (mulmm Q (mulmm A Q)) = mulmv Q (mulmv A (mulmv Q e1)).
Proof.
  destruct Q as [[[[a1 a2] a3] [[b1 b2] b3]] [[c1 c2] c3]].
  destruct A as [[[[p1 p2] p3] [[q1 q2] q3]] [[r1 r2] r3]].
  unfold mulmm, mulmv, col1, col2, col3, dot, e1.
  tuple_eq; ring.
Qed.

Lemma mulmv_scale (A : mat3) (a : R) (v : vec3) :
  mulmv A (scale a v) = scale a (mulmv A v).
Proof.
  destruct A as [[[[p1 p2] p3] [[q1 q2] q3]] [[r1 r2] r3]].
  destruct v as [[v1 v2] v3].
  unfold mulmv, scale, dot. tuple_eq; ring.
Qed.

Lemma scale_scale (a b : R) (v : vec3) : scale a (scale b v) = scale (a * b) v.
Proof.
  destruct v as [[v1 v2] v3]. unfold scale. tuple_eq; ring.
Qed.

(** The reflection built from a unit vector [y] with [y2, y3] not both
    zero: [v = (y - gamma e1) / m] and [g = 2 / (v.v)] give [Q y = gamma e1]
    and [Q e1 = gamma y]. *)
Lemma householder_unit (y1 y2 y3 gamma m : R) :
  gamma * gamma = 1 -> 0 <= gamma * y1 ->
  y1 * y1 + y2 * y2 + y3 * y3 = 1 ->
  y2 * y2 + y3 * y3 <> 0 -> m <> 0 ->
  let v1 := (y1 - gamma) / m in
  let v2 := y2 / m in
  let v3 := y3 / m in
  let g := 2 / (v1 * v1 + v2 * v2 + v3 * v3) in
  let Q := reflection g (v1, v2, v3) in
  mulmv Q (y1, y2, y3) = scale gamma e1
  /\ mulmv Q e1 = scale gamma (y1, y2, y3).
Proof.
  intros Hg Hgy Hy Hs Hm v1 v2 v3 g Q.
  assert (Hd : 1 - gamma * y1 <> 0).
  { intros E. assert (E1 : gamma * y1 = 1) by lra.
    assert (E2 : y1 * y1 = 1).
    { replace (y1 * y1) with ((gamma * y1) * (gamma * y1)).
      - rewrite E1. ring.
      - transitivity ((gamma * gamma) * (y1 * y1)); [ring | rewrite Hg; ring]. }
    apply Hs. lra. }
  assert (Hvv : v1 * v1 + v2 * v2 + v3 * v3
                = 2 * (1 - gamma * y1) / (m * m)).
  { unfold v1, v2, v3. field_simplify_eq; [| exact Hm]. poly_eq. }
  assert (Hgv : g = m * m / (1 - gamma * y1)).
  { unfold g. rewrite Hvv. field. split; assumption. }
  unfold Q, reflection, mulmv, scale, dot, e1. rewrite Hgv. unfold v1, v2, v3.
  split; tuple_eq; field_simplify_eq; try (split; assumption);
    poly_eq.
Qed.

Lemma sign_of_unit (x : R) : x * x = 1 -> sign_of x = x.
Proof.
  intros H. pose proof (sign_of_mult_abs x) as A.
  pose proof (sign_of_sq x) as S. unfold fabs in A.
  unfold sign_of, copysign in *. rewrite Rabs_R1 in *.
  destruct (Rle_dec 0 x) as [P | N].
  - assert (x = 1 \/ x = -1) as [E | E] by (apply Rsqr_eq; unfold Rsqr; lra); lra.
  - assert (x = 1 \/ x = -1) as [E | E] by (apply Rsqr_eq; unfold Rsqr; lra); lra.
Qed.

(** What the reflection step of [Reduce3S] achieves on a unit eigenvector
    [y] of the (permuted) matrix. *)
Lemma Reduce3S_reflect_spec (d1 d2 d3 d12 d13 d23 y1 y2 y3 lambda : R) :
  dot (y1, y2, y3) (y1, y2, y3) = 1 ->
  mulmv (sym3 d1 d2 d3 d12 d13 d23) (y1, y2, y3) = scale lambda (y1, y2, y3) ->
  forall b1 b2 b3 b23 v1 v2 v3 g,
    Reduce3S_reflect d1 d2 d3 d12 d13 d23 y1 y2 y3
    = (b1, b2, b3, b23, v1, v2, v3, g) ->
    let Q := reflection g (v1, v2, v3) in
    mulmv Q (y1, y2, y3) = scale (sign_of y1) e1
    /\ mulmm Q (mulmm (sym3 d1 d2 d3 d12 d13 d23) Q)
       = sym3 lambda b2 b3 0 0 b23
    /\ b1 = lambda.
Proof.
  intros Hy HA b1 b2 b3 b23 v1 v2 v3 g E Q.
  assert (Hy' : y1 * y1 + y2 * y2 + y3 * y3 = 1) by exact Hy.
  assert (HA1 : d1 * y1 + d12 * y2 + d13 * y3 = lambda * y1).
  { apply (f_equal (fun v : vec3 => fst (fst v))) in HA. exact HA. }
  assert (HA2 : d12 * y1 + d2 * y2 + d23 * y3 = lambda * y2).
  { apply (f_equal (fun v : vec3 => snd (fst v))) in HA. exact HA. }
  assert (HA3 : d13 * y1 + d23 * y2 + d3 * y3 = lambda * y3).
  { apply (f_equal (fun v : vec3 => snd v)) in HA. exact HA. }
  unfold Reduce3S_reflect in E. rsimpl in E.
  destruct (Req_dec_T (hypot y2 y3) 0) as [Hs | Hs]; cbv iota in E.
  - (* y = +-e1, no reflection *)
    apply hypot_zero in Hs. destruct Hs as [-> ->].
    injection E as <- <- <- <- <- <- <- <-.
    assert (H1 : y1 * y1 = 1) by lra.
    assert (Hn : y1 <> 0) by (intros ->; lra).
    assert (E1 : d1 = lambda) by (apply (Rmult_eq_reg_r y1); lra).
    assert (E2 : d12 = 0) by (apply (Rmult_eq_reg_r y1); lra).
    assert (E3 : d13 = 0) by (apply (Rmult_eq_reg_r y1); lra).
    subst d1 d12 d13. unfold Q.
    split; [| split; [| reflexivity]].
    + rewrite (sign_of_unit y1 H1).
      unfold reflection, mulmv, scale, dot, e1. tuple_eq; ring.
    + unfold reflection, sym3, mulmm, col1, col2, col3, dot. tuple_eq; ring.
  - (* the generic case *)
    assert (Hss : y2 * y2 + y3 * y3 <> 0).
    { intros Z. apply Hs. unfold hypot. rewrite Z. apply sqrt_0. }
    fold (sign_of y1) in E. set (gamma := sign_of y1) in *.
    assert (Hg : gamma * gamma = 1) by apply sign_of_sq.
    assert (Hgy : 0 <= gamma * y1).
    { unfold gamma. rewrite sign_of_mult_abs. apply fabs_nonneg. }
    assert (Hsum : y1 + gamma <> 0).
    { intros Z. assert (Z1 : y1 = - gamma) by lra.
      rewrite Z1 in Hgy. nra. }
    assert (Hv1 : - hypot y2 y3 * (hypot y2 y3 / (y1 + gamma)) = y1 - gamma).
    { transitivity (- (hypot y2 y3 * hypot y2 y3) / (y1 + gamma)).
      - field. exact Hsum.
      - rewrite hypot_sq. field_simplify_eq; [| exact Hsum]. poly_eq. }
    rewrite Hv1 in E. cbv zeta in E.
    assert (Em : forall u v : R,
               (if (if Rlt_dec u v then true else false) then v else u)
               = (if Rlt_dec u v then v else u)).
    { intros u v. destruct (Rlt_dec u v); reflexivity. }
    rewrite !Em in E.
    set (m := if Rlt_dec
                   (if Rlt_dec (fabs (y1 - gamma)) (fabs y2)
                    then fabs y2 else fabs (y1 - gamma))
                   (fabs y3)
              then fabs y3
              else if Rlt_dec (fabs (y1 - gamma)) (fabs y2)
                   then fabs y2 else fabs (y1 - gamma)) in *.
    assert (Hm : m <> 0).
    { assert (M2 : fabs y2 <= m /\ fabs y3 <= m).
      { unfold m.
        destruct (Rlt_dec (fabs (y1 - gamma)) (fabs y2));
          destruct (Rlt_dec _ (fabs y3)); split; lra. }
      intros Z. rewrite Z in M2.
      pose proof (fabs_nonneg y2). pose proof (fabs_nonneg y3).
      assert (y2 = 0) by (apply fabs_eq_0; lra).
      assert (y3 = 0) by (apply fabs_eq_0; lra).
      subst y2 y3. apply Hss. ring. }
    injection E as <- <- <- <- <- <- <- <-.
    destruct (householder_unit y1 y2 y3 gamma m Hg Hgy Hy' Hss Hm)
      as [HQy HQe].
    cbv zeta in HQy, HQe. fold Q in HQy, HQe.
    pose proof (reflection_conjugate
                  (2 / ((y1 - gamma) / m * ((y1 - gamma) / m)
                        + y2 / m * (y2 / m) + y3 / m * (y3 / m)))
                  ((y1 - gamma) / m) (y2 / m) (y3 / m)
                  d1 d2 d3 d12 d13 d23) as HB.
    cbv zeta in HB. fold Q in HB.
    assert (Hc : col1 (mulmm Q (mulmm (sym3 d1 d2 d3 d12 d13 d23) Q))
                 = scale lambda e1).
    { rewrite col1_conjugate, HQe, mulmv_scale, HA, mulmv_scale, mulmv_scale,
        HQy, !scale_scale.
      match goal with
      | |- scale ?x e1 = _ =>
        replace x with (lambda * (gamma * gamma)) by ring
      end.
      rewrite Hg. f_equal. ring. }
    rewrite HB in Hc |- *. unfold sym3, col1, scale, e1 in Hc.
    injection Hc as C1 C2 C3.
    split; [exact HQy |].
    split; [| lra].
    unfold sym3. rewrite C1, C2, C3. tuple_eq; ring.
Qed.

(** [Reduce3S] in exact arithmetic: for a symmetric 3x3 matrix [A] and a
    unit eigenvector [z] of [A] for the eigenvalue [lambda], it returns an
    index [k] in {1,2,3}, a scalar [g] and a vector [v] such that, with
    [P] the permutation exchanging coordinates 1 and [k] and
    [Q = I - g v v^t]: [Q P z = sign(z_k) e1], the sign of the pivot
    coordinate (a zero pivot is the [+0.] of exact arithmetic), and
    [Q (P A P) Q] is the matrix with first row and column
    [(lambda, 0, 0)] and lower block [(d2, d23; d23, d3)] as returned; the
    returned [d1] is [lambda]. *)
Lemma Reduce3S_deflates
  (mode : Z) (d1 d2 d3 d12 d13 d23 z1 z2 z3 lambda : R) :
  let A := sym3 d1 d2 d3 d12 d13 d23 in
  let z := (z1, z2, z3) in
  dot z z = 1 ->
  mulmv A z = scale lambda z ->
  let out := Reduce3S mode d1 d2 d3 d12 d13 d23 z1 z2 z3 in
  let k := r_k out in
  let P := perm k in
  let Q := reflection (r_g out) (r_v1 out, r_v2 out, r_v3 out) in
  (k = 1 \/ k = 2 \/ k = 3)%Z
  /\ mulmv Q (mulmv P z) = scale (sign_of (coord z k)) e1
  /\ mulmm Q (mulmm (mulmm P (mulmm A P)) Q)
     = sym3 lambda (r_d2 out) (r_d3 out) 0 0 (r_d23 out)
  /\ r_d1 out = lambda
  /\ (r_z1 out, r_z2 out, r_z3 out) = z.
Proof.
  intros A z Hz HA out k P Q.
  assert (Hz' : z1 * z1 + z2 * z2 + z3 * z3 = 1) by exact Hz.
  assert (HA1 : d1 * z1 + d12 * z2 + d13 * z3 = lambda * z1).
  { apply (f_equal (fun v : vec3 => fst (fst v))) in HA. exact HA. }
  assert (HA2 : d12 * z1 + d2 * z2 + d23 * z3 = lambda * z2).
  { apply (f_equal (fun v : vec3 => snd (fst v))) in HA. exact HA. }
  assert (HA3 : d13 * z1 + d23 * z2 + d3 * z3 = lambda * z3).
  { apply (f_equal (fun v : vec3 => snd v)) in HA. exact HA. }
  assert (K1 : forall b1 b2 b3 b23 v1 v2 v3 g,
             Reduce3S_reflect d1 d2 d3 d12 d13 d23 z1 z2 z3
             = (b1, b2, b3, b23, v1, v2, v3, g) ->
             let Q := reflection g (v1, v2, v3) in
             mulmv Q (mulmv (perm 1) z) = scale (sign_of (coord z 1)) e1
             /\ mulmm Q (mulmm (mulmm (perm 1) (mulmm A (perm 1))) Q)
                = sym3 lambda b2 b3 0 0 b23
             /\ b1 = lambda).
  { intros b1 b2 b3 b23 v1 v2 v3 g E.
    replace (mulmv (perm 1) z) with (z1, z2, z3)
      by (unfold perm, mulmv, z, dot; cbn; tuple_eq; ring).
    replace (mulmm (perm 1) (mulmm A (perm 1)))
      with (sym3 d1 d2 d3 d12 d13 d23)
      by (unfold perm, mulmm, A, sym3, col1, col2, col3, dot; cbn;
          tuple_eq; ring).
    apply (Reduce3S_reflect_spec d1 d2 d3 d12 d13 d23 z1 z2 z3 lambda);
      [exact Hz' | exact HA | exact E]. }
  assert (K2 : forall b1 b2 b3 b23 v1 v2 v3 g,
             Reduce3S_reflect d2 d1 d3 d12 d23 d13 z2 z1 z3
             = (b1, b2, b3, b23, v1, v2, v3, g) ->
             let Q := reflection g (v1, v2, v3) in
             mulmv Q (mulmv (perm 2) z) = scale (sign_of (coord z 2)) e1
             /\ mulmm Q (mulmm (mulmm (perm 2) (mulmm A (perm 2))) Q)
                = sym3 lambda b2 b3 0 0 b23
             /\ b1 = lambda).
  { intros b1 b2 b3 b23 v1 v2 v3 g E.
    replace (mulmv (perm 2) z) with (z2, z1, z3)
      by (unfold perm, mulmv, z, dot; cbn; tuple_eq; ring).
    replace (mulmm (perm 2) (mulmm A (perm 2)))
      with (sym3 d2 d1 d3 d12 d23 d13)
      by (unfold perm, mulmm, A, sym3, col1, col2, col3, dot; cbn;
          tuple_eq; ring).
    apply (Reduce3S_reflect_spec d2 d1 d3 d12 d23 d13 z2 z1 z3 lambda);
      [unfold dot; lra
      | unfold mulmv, sym3, scale, dot; tuple_eq; lra
      | exact E]. }
  assert (K3 : forall b1 b2 b3 b23 v1 v2 v3 g,
             Reduce3S_reflect d3 d2 d1 d23 d13 d12 z3 z2 z1
             = (b1, b2, b3, b23, v1, v2, v3, g) ->
             let Q := reflection g (v1, v2, v3) in
             mulmv Q (mulmv (perm 3) z) = scale (sign_of (coord z 3)) e1
             /\ mulmm Q (mulmm (mulmm (perm 3) (mulmm A (perm 3))) Q)
                = sym3 lambda b2 b3 0 0 b23
             /\ b1 = lambda).
  { intros b1 b2 b3 b23 v1 v2 v3 g E.
    replace (mulmv (perm 3) z) with (z3, z2, z1)
      by (unfold perm, mulmv, z, dot; cbn; tuple_eq; ring).
    replace (mulmm (perm 3) (mulmm A (perm 3)))
      with (sym3 d3 d2 d1 d23 d13 d12)
      by (unfold perm, mulmm, A, sym3, col1, col2, col3, dot; cbn;
          tuple_eq; ring).
    apply (Reduce3S_reflect_spec d3 d2 d1 d23 d13 d12 z3 z2 z1 lambda);
      [unfold dot; lra
      | unfold mulmv, sym3, scale, dot; tuple_eq; lra
      | exact E]. }
  unfold Q, P, k, out, Reduce3S. clear Q P k out. rsimpl.
  destruct (mode =? 0)%Z; split_all.
  all: match goal with
       | |- context [Reduce3S_reflect ?a ?b ?c ?d ?e ?f ?g ?h ?i] =>
         destruct (Reduce3S_reflect a b c d e f g h i)
           as [[[[[[[b1 b2] b3] b23] v1] v2] v3] g0] eqn:E
       end.
  all: cbn [r_k r_d1 r_d2 r_d3 r_d23 r_v1 r_v2 r_v3 r_g r_z1 r_z2 r_z3].
  all: first
         [ pose proof (K1 _ _ _ _ _ _ _ _ eq_refl) as X
         | pose proof (K2 _ _ _ _ _ _ _ _ eq_refl) as X
         | pose proof (K3 _ _ _ _ _ _ _ _ eq_refl) as X ].
  all: cbv zeta in X; destruct X as (X1 & X2 & X3).
  all: repeat split; auto.
Qed.

Lemma example_unit_eigenvector :
  dot (-1 / 3, 2 / 3, 2 / 3) (-1 / 3, 2 / 3, 2 / 3) = 1
  /\ mulmv (sym3 1 4 4 (-2) (-2) 4) (-1 / 3, 2 / 3, 2 / 3)
     = scale 9 (-1 / 3, 2 / 3, 2 / 3).
Proof.
  split.
  - unfold dot. lra.
  - unfold mulmv, sym3, scale, dot. tuple_eq; lra.
Qed.

(** A negative pivot in exact arithmetic: for [A = 9 z z^t] with the unit
    eigenvector [z = (-1/3, 2/3, 2/3)] and [mode = 0], [Reduce3S] returns
    [k = 1] and a reflection with [Q P z = -e1], not [e1]. *)
Lemma Reduce3S_negative_pivot :
  let z := (-1 / 3, 2 / 3, 2 / 3) in
  let A := sym3 1 4 4 (-2) (-2) 4 in
  let out := Reduce3S 0 1 4 4 (-2) (-2) 4 (-1 / 3) (2 / 3) (2 / 3) in
  let P := perm (r_k out) in
  let Q := reflection (r_g out) (r_v1 out, r_v2 out, r_v3 out) in
  dot z z = 1 /\ mulmv A z = scale 9 z
  /\ r_k out = 1%Z
  /\ mulmv Q (mulmv P z) = (-1, 0, 0)
  /\ mulmv Q (mulmv P z) <> e1.
Proof.
  intros z A out P Q.
  destruct example_unit_eigenvector as [U E].
  assert (F1 : fabs (-1 / 3) = 1 / 3).
  { unfold fabs, Rabs. destruct (Rcase_abs (-1 / 3)); lra. }
  assert (F2 : fabs (2 / 3) = 2 / 3).
  { unfold fabs, Rabs. destruct (Rcase_abs (2 / 3)); lra. }
  assert (Hk : r_k out = 1%Z).
  { unfold out, Reduce3S; rsimpl. cbn [Z.eqb]. rewrite F1, F2.
    destruct (Rle_dec (1 / 3) (2 / 3)) as [_ | N]; [| lra].
    simpl_step.
    destruct (Reduce3S_reflect _ _ _ _ _ _ _ _ _)
      as [[[[[[[b1 b2] b3] b23] v1] v2] v3] g0].
    reflexivity. }
  assert (HQ : mulmv Q (mulmv P z) = (-1, 0, 0)).
  { unfold Q, P. rewrite Hk. unfold out, Reduce3S; rsimpl.
    cbn [Z.eqb]. rewrite F1, F2.
    destruct (Rle_dec (1 / 3) (2 / 3)) as [_ | N]; [| lra].
    simpl_step.
    destruct (Reduce3S_reflect 1 4 4 (-2) (-2) 4 (-1 / 3) (2 / 3) (2 / 3))
      as [[[[[[[b1 b2] b3] b23] v1] v2] v3] g0] eqn:R.
    cbn [r_v1 r_v2 r_v3 r_g].
    destruct (Reduce3S_reflect_spec _ _ _ _ _ _ _ _ _ 9 U E
                _ _ _ _ _ _ _ _ R) as (X & _).
    replace (mulmv (perm 1) z) with z
      by (unfold perm, mulmv, z, dot; cbn; tuple_eq; ring).
    unfold z. rewrite X.
    assert (S : sign_of (-1 / 3) = -1).
    { unfold sign_of, copysign. rewrite Rabs_R1.
      destruct (Rle_dec 0 (-1 / 3)); lra. }
    rewrite S. unfold scale, e1. tuple_eq; ring. }
  split; [exact U |]. split; [exact E |]. split; [exact Hk |].
  split; [exact HQ |].
  rewrite HQ. unfold e1. intros C.
  apply (f_equal (fun v : vec3 => fst (fst v))) in C. cbn in C. lra.
Qed.

(** [reflect_exchanged] at the instance of real arithmetic is the product
    [Q (P z)]. *)
Lemma reflect_exchanged_real (k : Z) (g : R) (v z : vec3) :
  reflect_exchanged k g v z = mulmv (reflection g v) (mulmv (perm k) z).
Proof.
  destruct v as [[v1 v2] v3], z as [[z1 z2] z3].
  unfold reflect_exchanged, perm. rsimpl.
  destruct (k =? 2)%Z; [| destruct (k =? 3)%Z];
    unfold reflection, mulmv, dot; tuple_eq; ring.
Qed.

(** ** Scaling by a positive factor *)

Section Scaling.

Variable c : R.
Hypothesis c_pos : 0 < c.

Lemma fabs_scale (x : R) : fabs (c * x) = c * fabs x.
Proof.
  unfold fabs. rewrite Rabs_mult, (Rabs_pos_eq c); [reflexivity | lra].
Qed.

Lemma scale_le_iff (x y : R) : c * x <= c * y <-> x <= y.
Proof. split; intros H; nra. Qed.

Lemma scale_lt_iff (x y : R) : c * x < c * y <-> x < y.
Proof. split; intros H; nra. Qed.

Lemma scale_eq0_iff (x : R) : c * x = 0 <-> x = 0.
Proof. split; intros H; nra. Qed.

Lemma if_Rle_scale {A : Type} (x y : R) (a b : A) :
  (if Rle_dec (c * x) (c * y) then a else b) = (if Rle_dec x y then a else b).
Proof.
  pose proof (scale_le_iff x y).
  destruct (Rle_dec (c * x) (c * y)), (Rle_dec x y); tauto.
Qed.

Lemma if_Rlt_scale {A : Type} (x y : R) (a b : A) :
  (if Rlt_dec (c * x) (c * y) then a else b) = (if Rlt_dec x y then a else b).
Proof.
  pose proof (scale_lt_iff x y).
  destruct (Rlt_dec (c * x) (c * y)), (Rlt_dec x y); tauto.
Qed.

Lemma if_Rge_scale {A : Type} (x y : R) (a b : A) :
  (if Rge_dec (c * x) (c * y) then a else b) = (if Rge_dec x y then a else b).
Proof.
  pose proof (scale_le_iff y x).
  destruct (Rge_dec (c * x) (c * y)) as [H1 | H1], (Rge_dec x y) as [H2 | H2];
    try reflexivity; exfalso.
  - apply H2. apply Rle_ge. apply H. apply Rge_le. exact H1.
  - apply H1. apply Rle_ge. apply H. apply Rge_le. exact H2.
Qed.

Lemma if_Rgt_scale {A : Type} (x y : R) (a b : A) :
  (if Rgt_dec (c * x) (c * y) then a else b) = (if Rgt_dec x y then a else b).
Proof.
  pose proof (scale_lt_iff y x). unfold Rgt in *.
  destruct (Rgt_dec (c * x) (c * y)) as [H1 | H1], (Rgt_dec x y) as [H2 | H2];
    unfold Rgt in *; tauto.
Qed.

Lemma if_Req0_scale {A : Type} (x : R) (a b : A) :
  (if Req_dec_T (c * x) 0 then a else b) = (if Req_dec_T x 0 then a else b).
Proof.
  pose proof (scale_eq0_iff x).
  destruct (Req_dec_T (c * x) 0), (Req_dec_T x 0); tauto.
Qed.

Lemma copysign_scale_r (x y : R) : copysign x (c * y) = copysign x y.
Proof.
  unfold copysign.
  destruct (Rle_dec 0 (c * y)), (Rle_dec 0 y); try reflexivity; exfalso; nra.
Qed.

Lemma copysign_scale (x y : R) : copysign (c * x) (c * y) = c * copysign x y.
Proof.
  rewrite copysign_scale_r. unfold copysign.
  fold (fabs (c * x)). rewrite fabs_scale. unfold fabs.
  destruct (Rle_dec 0 y); ring.
Qed.

Lemma copysign_scale_l (x y : R) : copysign (c * x) y = c * copysign x y.
Proof.
  unfold copysign.
  fold (fabs (c * x)). rewrite fabs_scale. unfold fabs.
  destruct (Rle_dec 0 y); ring.
Qed.

Lemma sqrt_scale_sq (x : R) : sqrt (c * c * x) = c * sqrt x.
Proof.
  destruct (Rle_dec 0 x) as [Hx | Hx].
  - rewrite sqrt_mult_alt by nra. rewrite sqrt_square by lra. reflexivity.
  - rewrite (sqrt_neg_0 x) by lra. rewrite sqrt_neg_0 by nra. ring.
Qed.

Lemma hypot_scale (x y : R) : hypot (c * x) (c * y) = c * hypot x y.
Proof.
  unfold hypot. rewrite <- sqrt_scale_sq. f_equal. ring.
Qed.

Lemma div_scale (x y : R) : (c * x) / (c * y) = x / y.
Proof.
  destruct (Req_dec_T y 0) as [-> | Hy].
  - rewrite Rmult_0_r. unfold Rdiv. rewrite Rinv_0. ring.
  - field. split; lra.
Qed.

Lemma div_scale_l (x y : R) : (c * x) / y = c * (x / y).
Proof. unfold Rdiv. ring. Qed.

Lemma upd_max_scale (m x : R) : upd_max (c * m) (c * x) = c * upd_max m x.
Proof.
  unfold upd_max; rsimpl. rewrite fabs_scale, if_Rlt_scale.
  destruct (Rlt_dec m (fabs x)); reflexivity.
Qed.

End Scaling.

(** ** Homogeneity of the computations *)

Section Homogeneity.

Variable c : R.
Hypothesis c_pos : 0 < c.

Local Abbreviation D1 := (deg1 c).
Local Abbreviation D2 := (deg2 c).
Local Abbreviation D3 := (deg3 c).
Local Abbreviation Dm := (degm1 c).

Lemma deg1_refl (x : R) : D1 (c * x) x.
Proof. reflexivity. Qed.
Lemma deg1_0 : D1 0 0.
Proof. unfold deg1. ring. Qed.
Lemma deg0_refl (x : R) : deg0 x x.
Proof. reflexivity. Qed.

Lemma deg0_plus a' a b' b : deg0 a' a -> deg0 b' b -> deg0 (a' + b') (a + b).
Proof. unfold deg0. intros -> ->. reflexivity. Qed.
Lemma deg0_minus a' a b' b : deg0 a' a -> deg0 b' b -> deg0 (a' - b') (a - b).
Proof. unfold deg0. intros -> ->. reflexivity. Qed.
Lemma deg0_mult a' a b' b : deg0 a' a -> deg0 b' b -> deg0 (a' * b') (a * b).
Proof. unfold deg0. intros -> ->. reflexivity. Qed.
Lemma deg0_div a' a b' b : deg0 a' a -> deg0 b' b -> deg0 (a' / b') (a / b).
Proof. unfold deg0. intros -> ->. reflexivity. Qed.
Lemma deg0_opp a' a : deg0 a' a -> deg0 (- a') (- a).
Proof. unfold deg0. intros ->. reflexivity. Qed.
Lemma deg0_fabs a' a : deg0 a' a -> deg0 (fabs a') (fabs a).
Proof. unfold deg0. intros ->. reflexivity. Qed.
Lemma deg0_sqrt a' a : deg0 a' a -> deg0 (sqrt a') (sqrt a).
Proof. unfold deg0. intros ->. reflexivity. Qed.
Lemma deg0_cos a' a : deg0 a' a -> deg0 (cos a') (cos a).
Proof. unfold deg0. intros ->. reflexivity. Qed.
Lemma deg0_acos a' a : deg0 a' a -> deg0 (acos a') (acos a).
Proof. unfold deg0. intros ->. reflexivity. Qed.
Lemma deg0_copysign a' a b' b :
  deg0 a' a -> deg0 b' b -> deg0 (copysign a' b') (copysign a b).
Proof. unfold deg0. intros -> ->. reflexivity. Qed.
Lemma deg0_copysign_1 a' a b' b :
  deg0 a' a -> D1 b' b -> deg0 (copysign a' b') (copysign a b).
Proof. unfold deg0, deg1. intros -> ->. apply copysign_scale_r, c_pos. Qed.
Lemma deg0_div_11 a' a b' b : D1 a' a -> D1 b' b -> deg0 (a' / b') (a / b).
Proof. unfold deg0, deg1. intros -> ->. apply div_scale, c_pos. Qed.
Lemma deg0_mult_1m a' a b' b : D1 a' a -> Dm b' b -> deg0 (a' * b') (a * b).
Proof. unfold deg0, deg1, degm1. intros -> ->. field. lra. Qed.
Lemma deg0_mult_m1 a' a b' b : Dm a' a -> D1 b' b -> deg0 (a' * b') (a * b).
Proof. unfold deg0, deg1, degm1. intros -> ->. field. lra. Qed.
Lemma degm1_div a' a b' b : deg0 a' a -> D1 b' b -> Dm (a' / b') (a / b).
Proof.
  unfold deg0, deg1, degm1. intros -> ->.
  destruct (Req_dec_T b 0) as [-> | Hb].
  - rewrite Rmult_0_r. unfold Rdiv. rewrite Rinv_0. ring.
  - field. split; lra.
Qed.

Lemma deg1_plus a' a b' b : D1 a' a -> D1 b' b -> D1 (a' + b') (a + b).
Proof. unfold deg1. intros -> ->. ring. Qed.
Lemma deg1_minus a' a b' b : D1 a' a -> D1 b' b -> D1 (a' - b') (a - b).
Proof. unfold deg1. intros -> ->. ring. Qed.
Lemma deg1_opp a' a : D1 a' a -> D1 (- a') (- a).
Proof. unfold deg1. intros ->. ring. Qed.
Lemma deg1_mult_l a' a b' b : D1 a' a -> deg0 b' b -> D1 (a' * b') (a * b).
Proof. unfold deg0, deg1. intros -> ->. ring. Qed.
Lemma deg1_mult_r a' a b' b : deg0 a' a -> D1 b' b -> D1 (a' * b') (a * b).
Proof. unfold deg0, deg1. intros -> ->. ring. Qed.
Lemma deg1_div a' a b' b : D1 a' a -> deg0 b' b -> D1 (a' / b') (a / b).
Proof. unfold deg0, deg1. intros -> ->. unfold Rdiv. ring. Qed.
Lemma deg1_fabs a' a : D1 a' a -> D1 (fabs a') (fabs a).
Proof. unfold deg1. intros ->. apply fabs_scale, c_pos. Qed.
Lemma deg1_hypot a' a b' b : D1 a' a -> D1 b' b -> D1 (hypot a' b') (hypot a b).
Proof. unfold deg1. intros -> ->. apply hypot_scale, c_pos. Qed.
Lemma deg1_copysign a' a b' b :
  D1 a' a -> D1 b' b -> D1 (copysign a' b') (copysign a b).
Proof. unfold deg1. intros -> ->. apply copysign_scale, c_pos. Qed.
Lemma deg1_copysign_0 a' a b' b :
  D1 a' a -> deg0 b' b -> D1 (copysign a' b') (copysign a b).
Proof. unfold deg0, deg1. intros -> ->. apply copysign_scale_l, c_pos. Qed.
Lemma deg1_sqrt a' a : D2 a' a -> D1 (sqrt a') (sqrt a).
Proof. unfold deg1, deg2. intros ->. apply sqrt_scale_sq, c_pos. Qed.

Lemma deg2_mult a' a b' b : D1 a' a -> D1 b' b -> D2 (a' * b') (a * b).
Proof. unfold deg1, deg2. intros -> ->. ring. Qed.
Lemma deg2_mult_l a' a b' b : D2 a' a -> deg0 b' b -> D2 (a' * b') (a * b).
Proof. unfold deg0, deg2. intros -> ->. ring. Qed.
Lemma deg2_mult_r a' a b' b : deg0 a' a -> D2 b' b -> D2 (a' * b') (a * b).
Proof. unfold deg0, deg2. intros -> ->. ring. Qed.
Lemma deg2_plus a' a b' b : D2 a' a -> D2 b' b -> D2 (a' + b') (a + b).
Proof. unfold deg2. intros -> ->. ring. Qed.
Lemma deg2_minus a' a b' b : D2 a' a -> D2 b' b -> D2 (a' - b') (a - b).
Proof. unfold deg2. intros -> ->. ring. Qed.
Lemma deg2_div a' a b' b : D2 a' a -> deg0 b' b -> D2 (a' / b') (a / b).
Proof. unfold deg0, deg2. intros -> ->. unfold Rdiv. ring. Qed.

Lemma deg3_mult_12 a' a b' b : D1 a' a -> D2 b' b -> D3 (a' * b') (a * b).
Proof. unfold deg1, deg2, deg3. intros -> ->. ring. Qed.
Lemma deg3_mult_21 a' a b' b : D2 a' a -> D1 b' b -> D3 (a' * b') (a * b).
Proof. unfold deg1, deg2, deg3. intros -> ->. ring. Qed.
Lemma deg3_plus a' a b' b : D3 a' a -> D3 b' b -> D3 (a' + b') (a + b).
Proof. unfold deg3. intros -> ->. ring. Qed.
Lemma deg3_minus a' a b' b : D3 a' a -> D3 b' b -> D3 (a' - b') (a - b).
Proof. unfold deg3. intros -> ->. ring. Qed.
Lemma deg3_div a' a b' b : D3 a' a -> deg0 b' b -> D3 (a' / b') (a / b).
Proof. unfold deg0, deg3. intros -> ->. unfold Rdiv. ring. Qed.
Lemma deg0_div_33 a' a b' b : D3 a' a -> D3 b' b -> deg0 (a' / b') (a / b).
Proof.
  unfold deg0, deg3. intros -> ->.
  destruct (Req_dec_T b 0) as [-> | Hb].
  - rewrite Rmult_0_r. unfold Rdiv. rewrite Rinv_0. ring.
  - field. split; [lra | nra].
Qed.

(** Comparisons of quantities of equal degree are unchanged. *)
Lemma cmp_scaled (k a' a b' b : R) :
  0 < k -> a' = k * a -> b' = k * b ->
  (a' <= b' <-> a <= b) /\ (a' < b' <-> a < b) /\ (a' = b' <-> a = b).
Proof. intros Hk -> ->. repeat split; intros H; nra. Qed.

Lemma if_Rle_k {A : Type} (k a' a b' b : R) (u v : A) :
  0 < k -> a' = k * a -> b' = k * b ->
  (if Rle_dec a' b' then u else v) = (if Rle_dec a b then u else v).
Proof.
  intros Hk Ha Hb. destruct (cmp_scaled k a' a b' b Hk Ha Hb) as (H & _).
  destruct (Rle_dec a' b'), (Rle_dec a b); tauto.
Qed.

Lemma if_Rlt_k {A : Type} (k a' a b' b : R) (u v : A) :
  0 < k -> a' = k * a -> b' = k * b ->
  (if Rlt_dec a' b' then u else v) = (if Rlt_dec a b then u else v).
Proof.
  intros Hk Ha Hb. destruct (cmp_scaled k a' a b' b Hk Ha Hb) as (_ & H & _).
  destruct (Rlt_dec a' b'), (Rlt_dec a b); tauto.
Qed.

Lemma if_Rge_k {A : Type} (k a' a b' b : R) (u v : A) :
  0 < k -> a' = k * a -> b' = k * b ->
  (if Rge_dec a' b' then u else v) = (if Rge_dec a b then u else v).
Proof.
  intros Hk Ha Hb. destruct (cmp_scaled k b' b a' a Hk Hb Ha) as (H & _).
  destruct (Rge_dec a' b') as [H1 | H1], (Rge_dec a b) as [H2 | H2];
    try reflexivity; exfalso.
  - apply H2, Rle_ge, H, Rge_le, H1.
  - apply H1, Rle_ge, H, Rge_le, H2.
Qed.

Lemma if_Rgt_k {A : Type} (k a' a b' b : R) (u v : A) :
  0 < k -> a' = k * a -> b' = k * b ->
  (if Rgt_dec a' b' then u else v) = (if Rgt_dec a b then u else v).
Proof.
  intros Hk Ha Hb. destruct (cmp_scaled k b' b a' a Hk Hb Ha) as (_ & H & _).
  destruct (Rgt_dec a' b') as [H1 | H1], (Rgt_dec a b) as [H2 | H2];
    unfold Rgt in *; tauto.
Qed.

Lemma if_Req_k {A : Type} (k a' a b' b : R) (u v : A) :
  0 < k -> a' = k * a -> b' = k * b ->
  (if Req_dec_T a' b' then u else v) = (if Req_dec_T a b then u else v).
Proof.
  intros Hk Ha Hb. destruct (cmp_scaled k a' a b' b Hk Ha Hb) as (_ & _ & H).
  destruct (Req_dec_T a' b'), (Req_dec_T a b); tauto.
Qed.

Lemma deg2_fabs a' a : D2 a' a -> D2 (fabs a') (fabs a).
Proof.
  unfold deg2. intros ->. unfold fabs.
  rewrite Rabs_mult, (Rabs_pos_eq (c * c)); [reflexivity | nra].
Qed.
Lemma deg3_fabs a' a : D3 a' a -> D3 (fabs a') (fabs a).
Proof.
  unfold deg3. intros ->. unfold fabs.
  rewrite Rabs_mult, (Rabs_pos_eq (c * c * c)); [reflexivity |].
  assert (0 < c * c) by nra. nra.
Qed.
Lemma deg3_mult_l a' a b' b : D3 a' a -> deg0 b' b -> D3 (a' * b') (a * b).
Proof. unfold deg0, deg3. intros -> ->. ring. Qed.
Lemma deg3_mult_r a' a b' b : deg0 a' a -> D3 b' b -> D3 (a' * b') (a * b).
Proof. unfold deg0, deg3. intros -> ->. ring. Qed.
Lemma deg2_opp a' a : D2 a' a -> D2 (- a') (- a).
Proof. unfold deg2. intros ->. ring. Qed.
Lemma deg3_opp a' a : D3 a' a -> D3 (- a') (- a).
Proof. unfold deg3. intros ->. ring. Qed.
Lemma deg0_hypot a' a b' b : deg0 a' a -> deg0 b' b -> deg0 (hypot a' b') (hypot a b).
Proof. unfold deg0. intros -> ->. reflexivity. Qed.

(** The factor by which a quantity of each degree is multiplied. *)
Lemma deg0_factor a' a : deg0 a' a -> a' = 1 * a.
Proof. unfold deg0. intros ->. ring. Qed.
Lemma c2_pos : 0 < c * c.
Proof. nra. Qed.
Lemma c3_pos : 0 < c * c * c.
Proof. pose proof c2_pos. nra. Qed.
Lemma zero_factor (k : R) : 0 = k * 0.
Proof. ring. Qed.

(** [deg_pf e] builds, by recursion on the expression [e] computed from
    scaled data, a proof of [deg_n e e0], where [e0] is the same
    expression on the unscaled data. *)
Ltac deg_pf e :=
  lazymatch e with
  | Rmult c ?x => constr:(deg1_refl x)
  | Rplus ?a ?b =>
    let pa := deg_pf a in let pb := deg_pf b in
    lazymatch type of pa with
    | deg0 _ _ => constr:(deg0_plus _ _ _ _ pa pb)
    | deg1 _ _ _ => constr:(deg1_plus _ _ _ _ pa pb)
    | deg2 _ _ _ => constr:(deg2_plus _ _ _ _ pa pb)
    | deg3 _ _ _ => constr:(deg3_plus _ _ _ _ pa pb)
    end
  | Rminus ?a ?b =>
    let pa := deg_pf a in let pb := deg_pf b in
    lazymatch type of pa with
    | deg0 _ _ => constr:(deg0_minus _ _ _ _ pa pb)
    | deg1 _ _ _ => constr:(deg1_minus _ _ _ _ pa pb)
    | deg2 _ _ _ => constr:(deg2_minus _ _ _ _ pa pb)
    | deg3 _ _ _ => constr:(deg3_minus _ _ _ _ pa pb)
    end
  | Ropp ?a =>
    let pa := deg_pf a in
    lazymatch type of pa with
    | deg0 _ _ => constr:(deg0_opp _ _ pa)
    | deg1 _ _ _ => constr:(deg1_opp _ _ pa)
    | deg2 _ _ _ => constr:(deg2_opp _ _ pa)
    | deg3 _ _ _ => constr:(deg3_opp _ _ pa)
    end
  | fabs ?a =>
    let pa := deg_pf a in
    lazymatch type of pa with
    | deg0 _ _ => constr:(deg0_fabs _ _ pa)
    | deg1 _ _ _ => constr:(deg1_fabs _ _ pa)
    | deg2 _ _ _ => constr:(deg2_fabs _ _ pa)
    | deg3 _ _ _ => constr:(deg3_fabs _ _ pa)
    end
  | sqrt ?a =>
    let pa := deg_pf a in
    lazymatch type of pa with
    | deg0 _ _ => constr:(deg0_sqrt _ _ pa)
    | deg2 _ _ _ => constr:(deg1_sqrt _ _ pa)
    end
  | cos ?a =>
    let pa := deg_pf a in constr:(deg0_cos _ _ pa)
  | acos ?a =>
    let pa := deg_pf a in constr:(deg0_acos _ _ pa)
  | hypot ?a ?b =>
    let pa := deg_pf a in let pb := deg_pf b in
    lazymatch type of pa with
    | deg0 _ _ => constr:(deg0_hypot _ _ _ _ pa pb)
    | deg1 _ _ _ => constr:(deg1_hypot _ _ _ _ pa pb)
    end
  | copysign ?a ?b =>
    let pa := deg_pf a in let pb := deg_pf b in
    lazymatch type of pa with
    | deg0 _ _ =>
      lazymatch type of pb with
      | deg0 _ _ => constr:(deg0_copysign _ _ _ _ pa pb)
      | deg1 _ _ _ => constr:(deg0_copysign_1 _ _ _ _ pa pb)
      end
    | deg1 _ _ _ =>
      lazymatch type of pb with
      | deg0 _ _ => constr:(deg1_copysign_0 _ _ _ _ pa pb)
      | deg1 _ _ _ => constr:(deg1_copysign _ _ _ _ pa pb)
      end
    end
  | Rmult ?a ?b =>
    let pa := deg_pf a in let pb := deg_pf b in
    lazymatch type of pa with
    | deg0 _ _ =>
      lazymatch type of pb with
      | deg0 _ _ => constr:(deg0_mult _ _ _ _ pa pb)
      | deg1 _ _ _ => constr:(deg1_mult_r _ _ _ _ pa pb)
      | deg2 _ _ _ => constr:(deg2_mult_r _ _ _ _ pa pb)
      | deg3 _ _ _ => constr:(deg3_mult_r _ _ _ _ pa pb)
      end
    | deg1 _ _ _ =>
      lazymatch type of pb with
      | deg0 _ _ => constr:(deg1_mult_l _ _ _ _ pa pb)
      | deg1 _ _ _ => constr:(deg2_mult _ _ _ _ pa pb)
      | deg2 _ _ _ => constr:(deg3_mult_12 _ _ _ _ pa pb)
      | degm1 _ _ _ => constr:(deg0_mult_1m _ _ _ _ pa pb)
      end
    | deg2 _ _ _ =>
      lazymatch type of pb with
      | deg0 _ _ => constr:(deg2_mult_l _ _ _ _ pa pb)
      | deg1 _ _ _ => constr:(deg3_mult_21 _ _ _ _ pa pb)
      end
    | deg3 _ _ _ => constr:(deg3_mult_l _ _ _ _ pa pb)
    | degm1 _ _ _ => constr:(deg0_mult_m1 _ _ _ _ pa pb)
    end
  | Rdiv ?a ?b =>
    let pa := deg_pf a in let pb := deg_pf b in
    lazymatch type of pb with
    | deg0 _ _ =>
      lazymatch type of pa with
      | deg0 _ _ => constr:(deg0_div _ _ _ _ pa pb)
      | deg1 _ _ _ => constr:(deg1_div _ _ _ _ pa pb)
      | deg2 _ _ _ => constr:(deg2_div _ _ _ _ pa pb)
      | deg3 _ _ _ => constr:(deg3_div _ _ _ _ pa pb)
      end
    | deg1 _ _ _ =>
      lazymatch type of pa with
      | deg0 _ _ => constr:(degm1_div _ _ _ _ pa pb)
      | deg1 _ _ _ => constr:(deg0_div_11 _ _ _ _ pa pb)
      end
    | deg3 _ _ _ => constr:(deg0_div_33 _ _ _ _ pa pb)
    end
  | _ => constr:(deg0_refl e)
  end.

(** The positive factor [k] of a degree proof [p : deg_n a' a], with the
    equation [a' = k * a] and the unscaled expression [a]. *)
Ltac with_factor p tac :=
  lazymatch type of p with
  | deg0 _ ?a => tac 1 Rlt_0_1 (deg0_factor _ _ p) a
  | deg1 _ _ ?a => tac c c_pos p a
  | deg2 _ _ ?a => tac (c * c) c2_pos p a
  | deg3 _ _ ?a => tac (c * c * c) c3_pos p a
  end.

(** The same for the other operand [b'], which may be the literal [0]. *)
Ltac with_operand k b' tac :=
  lazymatch b' with
  | IZR Z0 => tac (zero_factor k) b'
  | _ =>
    let pb := deg_pf b' in
    lazymatch type of pb with
    | deg0 _ ?b => tac (deg0_factor _ _ pb) b
    | deg1 _ _ ?b => tac pb b
    | deg2 _ _ ?b => tac pb b
    | deg3 _ _ ?b => tac pb b
    end
  end.

(** Replace one comparison of scaled quantities in the goal by the
    comparison of the unscaled ones, and split on it. *)
Ltac unscale_with lem dec a' b' :=
  let pa := deg_pf a' in
  with_factor pa ltac:(fun k Hk Ha a =>
    with_operand k b' ltac:(fun Hb b =>
      first [ constr_eq a' a; constr_eq b' b
            | rewrite (lem k a' a b' b Hk Ha Hb) ];
      destruct (dec a b))).

Lemma if_Rle_k' (k a' a b' b : R) :
  0 < k -> a' = k * a -> b' = k * b ->
  forall (A : Type) (u v : A),
    (if Rle_dec a' b' then u else v) = (if Rle_dec a b then u else v).
Proof. intros. apply (if_Rle_k k); assumption. Qed.
Lemma if_Rlt_k' (k a' a b' b : R) :
  0 < k -> a' = k * a -> b' = k * b ->
  forall (A : Type) (u v : A),
    (if Rlt_dec a' b' then u else v) = (if Rlt_dec a b then u else v).
Proof. intros. apply (if_Rlt_k k); assumption. Qed.
Lemma if_Rge_k' (k a' a b' b : R) :
  0 < k -> a' = k * a -> b' = k * b ->
  forall (A : Type) (u v : A),
    (if Rge_dec a' b' then u else v) = (if Rge_dec a b then u else v).
Proof. intros. apply (if_Rge_k k); assumption. Qed.
Lemma if_Rgt_k' (k a' a b' b : R) :
  0 < k -> a' = k * a -> b' = k * b ->
  forall (A : Type) (u v : A),
    (if Rgt_dec a' b' then u else v) = (if Rgt_dec a b then u else v).
Proof. intros. apply (if_Rgt_k k); assumption. Qed.
Lemma if_Req_k' (k a' a b' b : R) :
  0 < k -> a' = k * a -> b' = k * b ->
  forall (A : Type) (u v : A),
    (if Req_dec_T a' b' then u else v) = (if Req_dec_T a b then u else v).
Proof. intros. apply (if_Req_k k); assumption. Qed.

Ltac unscale_cmp :=
  match goal with
  | |- context [Rle_dec ?a' ?b'] => unscale_with if_Rle_k' Rle_dec a' b'
  | |- context [Rlt_dec ?a' ?b'] => unscale_with if_Rlt_k' Rlt_dec a' b'
  | |- context [Rge_dec ?a' ?b'] => unscale_with if_Rge_k' Rge_dec a' b'
  | |- context [Rgt_dec ?a' ?b'] => unscale_with if_Rgt_k' Rgt_dec a' b'
  | |- context [Req_dec_T ?a' ?b'] => unscale_with if_Req_k' Req_dec_T a' b'
  end.

(** One component of the result: its degree proof is the equation. *)
Ltac by_deg :=
  match goal with
  | |- ?e' = _ =>
    let p := deg_pf e' in
    first
      [ exact p
      | let H := fresh in
        pose proof p as H;
        unfold deg0, deg1, deg2, deg3, degm1 in H;
        rewrite H; first [reflexivity | ring] ]
  end.

(** A function of scaled data against the scaled result of the function:
    walk through the comparisons, replacing those on scaled data by those
    on the unscaled data, then compare the results componentwise. *)
Ltac unscale_all := cbv zeta; repeat (simpl_step; unscale_cmp; try contradiction).

Ltac finish :=
  simpl_step; first [reflexivity | tuple_eq; first [reflexivity | by_deg]].

Ltac homogeneous := unscale_all; finish.

Lemma Eigensystem2S_scale (d12 d1 d2 : R) :
  Eigensystem2S (c * d12) (c * d1) (c * d2)
  = (let '(e1, e2, cs, sn) := Eigensystem2S d12 d1 d2 in
     (c * e1, c * e2, cs, sn)).
Proof. unfold Eigensystem2S; rsimpl. homogeneous. Qed.

Lemma vec_normalize3_aux_scale (x1 x2 x3 : R) :
  vec_normalize3_aux (c * x1) (c * x2) (c * x3) = vec_normalize3_aux x1 x2 x3.
Proof. unfold vec_normalize3_aux; rsimpl. homogeneous. Qed.

Lemma vec_normalize3_scale (x1 x2 x3 : R) :
  vec_normalize3 (c * x1) (c * x2) (c * x3) = vec_normalize3 x1 x2 x3.
Proof.
  unfold vec_normalize3; rsimpl. rewrite !vec_normalize3_aux_scale.
  homogeneous.
Qed.

Lemma KernelVector2G_scale (mode : Z) (d1 d12 d21 d2 : R) :
  KernelVector2G mode (c * d1) (c * d12) (c * d21) (c * d2)
  = (let '(zero, (z1, e12, e21, z2)) := KernelVector2G mode d1 d12 d21 d2 in
     if zero then (true, (c * z1, c * e12, c * e21, c * z2))
     else (false, (z1, c * e12, c * e21, z2))).
Proof.
  unfold KernelVector2G; rsimpl. destruct (mode =? 0)%Z.
  - homogeneous.
  - homogeneous.
Qed.

Lemma KernelVector3G_column_1_scale (d1 d2 d3 c12 c13 c23 c21 c31 c32 : R) :
  KernelVector3G_column_1 (c * d1) (c * d2) (c * d3) (c * c12) (c * c13)
                          (c * c23) (c * c21) (c * c31) (c * c32)
  = (let '(e1, e2, e3, f12, f13, f23, f32) :=
       KernelVector3G_column_1 d1 d2 d3 c12 c13 c23 c21 c31 c32 in
     (c * e1, c * e2, c * e3, c * f12, c * f13, c * f23, c * f32)).
Proof. unfold KernelVector3G_column_1; rsimpl. homogeneous. Qed.

Lemma KernelVector3G_aux_scale
  (mode : Z) (d1 d2 d3 c12 c13 c23 c21 c31 c32 : R) :
  KernelVector3G_aux mode (c * d1) (c * d2) (c * d3) (c * c12) (c * c13)
                     (c * c23) (c * c21) (c * c31) (c * c32)
  = KernelVector3G_aux mode d1 d2 d3 c12 c13 c23 c21 c31 c32.
Proof.
  unfold KernelVector3G_aux; rsimpl. rewrite KernelVector3G_column_1_scale.
  destruct (KernelVector3G_column_1 _ _ _ _ _ _ _ _ _)
    as [[[[[[e1 e2] e3] f12] f13] f23] f32].
  rewrite KernelVector2G_scale.
  destruct (KernelVector2G mode e2 f23 f32 e3) as [zero [[[z2 e23] e32] z3]].
  destruct zero; simpl_step.
  - rewrite !(div_scale c c_pos). reflexivity.
  - match goal with
    | |- context [vec_normalize3 ?a _ _] =>
      let p := deg_pf a in
      let H := fresh in pose proof p as H; unfold deg0 in H; rewrite H
    end.
    reflexivity.
Qed.

(** [KernelVector3S] does not see a positive scaling of its matrix. *)
Lemma KernelVector3S_scale (mode : Z) (d12 d13 d23 d1 d2 d3 : R) :
  KernelVector3S mode (c * d12) (c * d13) (c * d23) (c * d1) (c * d2) (c * d3)
  = KernelVector3S mode d12 d13 d23 d1 d2 d3.
Proof.
  unfold KernelVector3S; rsimpl. destruct (mode =? 0)%Z.
  - unscale_all; simpl_step; rewrite ?KernelVector3G_aux_scale;
      try reflexivity.
    all: f_equal.
    all: first
           [ destruct (three_norms_zero d1 d2 d3 d12 d13 d23)
               as (-> & -> & -> & _); [lra | lra | lra |]
           | destruct (three_norms_zero d2 d1 d3 d12 d23 d13)
               as (-> & -> & -> & _); [lra | lra | lra |]
           | destruct (three_norms_zero d3 d1 d2 d13 d23 d12)
               as (-> & -> & -> & _); [lra | lra | lra |] ].
    all: rewrite Rmult_0_r; reflexivity.
  - unscale_all; simpl_step; rewrite ?KernelVector3G_aux_scale;
      try reflexivity.
    all: f_equal.
    all: first
           [ destruct (three_norms_zero d1 d2 d3 d12 d13 d23)
               as (-> & -> & -> & _); [lra | lra | lra |]
           | destruct (three_norms_zero d2 d1 d3 d12 d23 d13)
               as (-> & -> & -> & _); [lra | lra | lra |]
           | destruct (three_norms_zero d3 d1 d2 d13 d23 d12)
               as (-> & -> & -> & _); [lra | lra | lra |] ].
    all: rewrite Rmult_0_r; reflexivity.
Qed.

Lemma Reduce3S_reflect_scale (d1 d2 d3 d12 d13 d23 z1 z2 z3 : R) :
  Reduce3S_reflect (c * d1) (c * d2) (c * d3) (c * d12) (c * d13) (c * d23)
                   z1 z2 z3
  = (let '(b1, b2, b3, b23, v1, v2, v3, g) :=
       Reduce3S_reflect d1 d2 d3 d12 d13 d23 z1 z2 z3 in
     (c * b1, c * b2, c * b3, c * b23, v1, v2, v3, g)).
Proof. unfold Reduce3S_reflect; rsimpl. homogeneous. Qed.

Lemma Reduce3S_scale (mode : Z) (d1 d2 d3 d12 d13 d23 z1 z2 z3 : R) :
  Reduce3S mode (c * d1) (c * d2) (c * d3) (c * d12) (c * d13) (c * d23)
           z1 z2 z3
  = (let o := Reduce3S mode d1 d2 d3 d12 d13 d23 z1 z2 z3 in
     mkReduce3S (r_k o) (c * r_d1 o) (c * r_d2 o) (c * r_d3 o)
                (c * r_d12 o) (c * r_d13 o) (c * r_d23 o)
                (r_z1 o) (r_z2 o) (r_z3 o)
                (r_v1 o) (r_v2 o) (r_v3 o) (r_g o)).
Proof.
  unfold Reduce3S; rsimpl. destruct (mode =? 0)%Z.
  - unscale_all; simpl_step; rewrite Reduce3S_reflect_scale;
      destruct (Reduce3S_reflect _ _ _ _ _ _ _ _ _)
        as [[[[[[[b1 b2] b3] b23] v1] v2] v3] g0]; reflexivity.
  - unscale_all; simpl_step; rewrite Reduce3S_reflect_scale;
      destruct (Reduce3S_reflect _ _ _ _ _ _ _ _ _)
        as [[[[[[[b1 b2] b3] b23] v1] v2] v3] g0]; reflexivity.
Qed.

(** Bring the last three arguments of a call of [KernelVector3S] on scaled
    data into the form [c * _]. *)
Ltac factor_arg x :=
  lazymatch x with
  | Rmult c _ => idtac
  | _ =>
    let p := deg_pf x in
    let H := fresh in
    pose proof p as H; unfold deg1 in H; rewrite H; clear H
  end.

Ltac factor_KernelVector3S :=
  match goal with
  | |- context [KernelVector3S _ (c * _) (c * _) (c * _) ?x _ _] =>
    progress factor_arg x
  | |- context [KernelVector3S _ (c * _) (c * _) (c * _) _ ?y _] =>
    progress factor_arg y
  | |- context [KernelVector3S _ (c * _) (c * _) (c * _) _ _ ?z] =>
    progress factor_arg z
  end.

(** The eigenvalues computed on the scaled data are [c] times those on the
    data, with the same eigenvectors. *)
Lemma CalcEigenvalues3_scaled_scale (d11 d22 d33 d12 d13 d23 : R) :
  CalcEigenvalues3_scaled (c * d11) (c * d22) (c * d33)
                          (c * d12) (c * d13) (c * d23)
  = (let '((l0, l1, l2), vec) :=
       CalcEigenvalues3_scaled d11 d22 d33 d12 d13 d23 in
     ((c * l0, c * l1, c * l2), vec)).
Proof.
  unfold CalcEigenvalues3_scaled; rsimpl.
  unscale_all; simpl_step.
  all: try (tuple_eq; first [reflexivity | by_deg]).
  all: repeat factor_KernelVector3S.
  all: rewrite KernelVector3S_scale.
  all: match goal with
       | |- context [KernelVector3S ?m ?a ?b ?e ?x ?y ?z] =>
         destruct (KernelVector3S m a b e x y z) as [kdim [[z1 z2] z3]]
       end.
  all: destruct (kdim =? 3)%Z; simpl_step.
  all: try (tuple_eq; first [reflexivity | by_deg]).
  all: rewrite Reduce3S_scale; cbv zeta.
  all: match goal with
       | |- context [Reduce3S ?m ?a1 ?a2 ?a3 ?a4 ?a5 ?a6 ?a7 ?a8 ?a9] =>
         destruct (Reduce3S m a1 a2 a3 a4 a5 a6 a7 a8 a9)
       end.
  all: cbn [r_k r_d1 r_d2 r_d3 r_d12 r_d13 r_d23 r_z1 r_z2 r_z3
            r_v1 r_v2 r_v3 r_g].
  all: rewrite Eigensystem2S_scale.
  all: match goal with
       | |- context [Eigensystem2S ?a ?b ?e] =>
         destruct (Eigensystem2S a b e) as [[[f2 f3] cs] sn]
       end.
  all: unscale_all; simpl_step; reflexivity.
Qed.

End Homogeneity.

(** ** Scale linearity of the 3x3 eigenvalues *)

Lemma eig3_d_max_scale (k d11 d12 d22 d13 d23 d33 : R) :
  0 < k ->
  eig3_d_max (k * d11) (k * d12) (k * d22) (k * d13) (k * d23) (k * d33)
  = k * eig3_d_max d11 d12 d22 d13 d23 d33.
Proof.
  intros Hk. unfold eig3_d_max.
  rewrite (fabs_scale k Hk), !(upd_max_scale k Hk). reflexivity.
Qed.

(** For every positive factor [k] the 3x3 block returns [k] times the
    eigenvalues, and the same eigenvectors. *)
Lemma CalcEigenvalues3_scale (k d11 d12 d22 d13 d23 d33 : R) :
  0 < k ->
  CalcEigenvalues3 (k * d11) (k * d12) (k * d22) (k * d13) (k * d23) (k * d33)
  = (let '(lambda, vec) := CalcEigenvalues3 d11 d12 d22 d13 d23 d33 in
     (map (Rmult k) lambda, vec)).
Proof.
  intros Hk. rewrite !CalcEigenvalues3_unfold. unfold eig3_mult. cbv zeta.
  rewrite (eig3_d_max_scale k _ _ _ _ _ _ Hk).
  set (m := GetScalingFactor (eig3_d_max d11 d12 d22 d13 d23 d33)).
  set (m' := GetScalingFactor (k * eig3_d_max d11 d12 d22 d13 d23 d33)).
  assert (Hm : 0 < m) by apply GetScalingFactor_pos.
  assert (Hm' : 0 < m') by apply GetScalingFactor_pos.
  set (c := k * m / m').
  assert (Hc : 0 < c).
  { unfold c. apply Rdiv_lt_0_compat; [apply Rmult_lt_0_compat |]; lra. }
  assert (E : forall x, k * x / m' = c * (x / m)).
  { intros x. unfold c. field. split; lra. }
  rewrite !E, (CalcEigenvalues3_scaled_scale c Hc).
  destruct (CalcEigenvalues3_scaled _ _ _ _ _ _) as [[[l0 l1] l2] vec].
  cbn [map]. f_equal.
  assert (F : forall x, c * x * m' = k * (x * m)).
  { intros x. unfold c. field. lra. }
  rewrite !F. reflexivity.
Qed.



(** ** Order of the returned eigenvalues and of the 2x2 singular values *)

(** The 2x2 block of [CalcEigenvalues] returns its eigenvalues in
    non-decreasing order. *)
Lemma CalcEigenvalues2_sorted (d0 d2 d3 : R) :
  let lambda := fst (CalcEigenvalues2 d0 d2 d3) in
  List.length lambda = 2%nat /\ entry lambda 0 <= entry lambda 1.
Proof.
  unfold CalcEigenvalues2.
  destruct (Eigensystem2S d2 d0 d3) as [[[e0 e3] cs] sn]. rsimpl.
  destruct (Rle_dec e0 e3); cbn; split; try reflexivity; lra.
Qed.

Lemma CalcEigenvalues3_scaled_sorted (d11 d22 d33 d12 d13 d23 : R) :
  let '(l0, l1, l2) :=
    fst (CalcEigenvalues3_scaled d11 d22 d33 d12 d13 d23) in
  l0 <= l1 <= l2.
Proof.
  unfold CalcEigenvalues3_scaled; rsimpl. cbv zeta.
  destruct (Rle_dec _ 0); simpl_step; [cbn; lra |].
  destruct (KernelVector3S _ _ _ _ _ _ _) as [kdim [[z1 z2] z3]].
  destruct (kdim =? 3)%Z; [cbn; lra |].
  destruct (Reduce3S _ _ _ _ _ _ _ _ _ _).
  cbn [r_k r_d1 r_d2 r_d3 r_d12 r_d13 r_d23 r_z1 r_z2 r_z3
       r_v1 r_v2 r_v3 r_g].
  destruct (Eigensystem2S _ _ _) as [[[f2 f3] cs] sn].
  repeat (simpl_step; split_cmp); cbn; lra.
Qed.

(** The 3x3 block of [CalcEigenvalues] returns its eigenvalues in
    non-decreasing order. *)
Lemma CalcEigenvalues3_sorted (d11 d12 d22 d13 d23 d33 : R) :
  let lambda := fst (CalcEigenvalues3 d11 d12 d22 d13 d23 d33) in
  List.length lambda = 3%nat
  /\ entry lambda 0 <= entry lambda 1 <= entry lambda 2.
Proof.
  rewrite CalcEigenvalues3_unfold. cbv zeta.
  pose proof (GetScalingFactor_pos (eig3_d_max d11 d12 d22 d13 d23 d33)) as Hm.
  fold (eig3_mult d11 d12 d22 d13 d23 d33) in Hm.
  set (m := eig3_mult d11 d12 d22 d13 d23 d33) in *.
  pose proof (CalcEigenvalues3_scaled_sorted
                (d11 / m) (d22 / m) (d33 / m) (d12 / m) (d13 / m) (d23 / m))
    as Hs.
  destruct (CalcEigenvalues3_scaled _ _ _ _ _ _) as [[[l0 l1] l2] vec].
  cbn in Hs |- *. split; [reflexivity |]. split; nra.
Qed.

(** The 2x2 block of [CalcSingularvalue] returns at index 0 a value at
    least as large as at any other index. *)
Lemma CalcSingularvalue2_sorted (i : Z) (d0 d1 d2 d3 : R) :
  CalcSingularvalue2 i d0 d1 d2 d3 <= CalcSingularvalue2 0 d0 d1 d2 d3.
Proof.
  rewrite !CalcSingularvalue2_unfold. cbv zeta.
  pose proof (sv2_mult_pos d0 d1 d2 d3) as Hm.
  destruct (Req_dec_T _ 0); [lra |].
  destruct (Rlt_dec _ _) as [H | H]; destruct (i =? 0)%Z; cbn [Z.eqb];
    try lra; nra.
Qed.

(** * The routines in binary64 arithmetic *)

Module FloatEval.

Import PrimFloat.

Section Eval.

(** The library's [cos] and [acos]; the inputs evaluated below take
    branches that do not call them.  [hypot] is the rounded square root
    of the rounded sum of squares ([FPrim.hypot]), on the arguments met
    below the correctly rounded value of the square root of the sum of
    squares; operations are rounded to nearest, one at a time. *)
Variables cosf acosf : float -> float.

Local Hint Extern 0 (Num.Arith float) =>
  exact (FloatArith cosf acosf) : typeclass_instances.

Local Open Scope float_scope.

(** C4 (the code departs from the claim): on [rank_one] the singular
    value returned for index 2 is larger than the one returned for index
    1.  The two smaller eigenvalues of the Gram matrix come out of the
    reduction as rounding residues of either sign, the minimum and the
    middle one are selected on the signed values, and the absolute value
    is taken afterwards. *)
Theorem C4_CalcSingularvalue_order_violated (dbg : bool) :
  CalcSingularvalue dbg rank_one 0 = Returns 0x1.a887293fd6f34p+2
  /\ CalcSingularvalue dbg rank_one 1 = Returns 0x1.1c9e00de9cc05p-25
  /\ CalcSingularvalue dbg rank_one 2 = Returns 0x1.cc8532af1b6fcp-25
  /\ (0x1.1c9e00de9cc05p-25 <? 0x1.cc8532af1b6fcp-25) = true.
Proof. destruct dbg; vm_compute; repeat split; reflexivity. Qed.

(** Further evaluations in binary64: the inputs used for C1, C2 and C8
    above, and two decompositions. *)
Lemma float_CalcSingularvalue_1x1 (dbg : bool) :
  CalcSingularvalue dbg (mkDenseMatrix 1 1 [-1]) 0 = Returns (-1).
Proof. destruct dbg; vm_compute; reflexivity. Qed.

Lemma float_Eigen2S_example :
  Eigenvalues2S 2 0 3 = (-1, 4)
  /\ Eigensystem2S 2 0 3
     = (-1, 4, 0x1.c9f25c5bfedd9p-1, 0x1.c9f25c5bfedd9p-2).
Proof. vm_compute. split; reflexivity. Qed.

Lemma float_CalcEigenvalues_2x2 (dbg : bool) :
  CalcEigenvalues dbg (mkDenseMatrix 2 2 [2; 1; 1; 2])
  = Returns ([1; 3],
             [0x1.6a09e667f3bcdp-1; -0x1.6a09e667f3bcdp-1;
              0x1.6a09e667f3bcdp-1; 0x1.6a09e667f3bcdp-1]).
Proof. destruct dbg; vm_compute; reflexivity. Qed.

Lemma float_CalcEigenvalues_triple (dbg : bool) :
  CalcEigenvalues dbg (mkDenseMatrix 3 3 [5; 0; 0; 0; 5; 0; 0; 0; 5])
  = Returns ([5; 5; 5], [1; 0; 0; 0; 1; 0; 0; 0; 1]).
Proof. destruct dbg; vm_compute; reflexivity. Qed.

Lemma float_unchecked_build :
  CalcSingularvalue false (mkDenseMatrix 1 2 [3; 4]) 0 = Returns 3.
Proof. vm_compute. reflexivity. Qed.

(** A zero [zeta] in binary64.  For [d1 = d2] the quotient
    [(d2 - d1) / (2 d12)] is a zero with the sign of [d12], [copysign]
    reads that sign bit, and both routines leave [d1 - |d12|] and
    [d2 + |d12|]: for [d12 = -1] the tangent is [-1] and [s = -c]. *)
Lemma float_Eigen2S_zero_zeta :
  Eigenvalues2S 1 2 2 = (1, 3)
  /\ Eigensystem2S 1 2 2
     = (1, 3, 0x1.6a09e667f3bcdp-1, 0x1.6a09e667f3bcdp-1)
  /\ Eigenvalues2S (-1) 2 2 = (1, 3)
  /\ Eigensystem2S (-1) 2 2
     = (1, 3, 0x1.6a09e667f3bcdp-1, -0x1.6a09e667f3bcdp-1).
Proof. vm_compute. repeat split; reflexivity. Qed.

(** C5 (the code departs from the claim, and from the header comment of
    [Reduce3S], "Q y = e_1"): for [A = diag(1, 2, 3)] and its unit
    eigenvector [z = (-1, 0, 0)], [Reduce3S] with [mode = 1] returns
    [k = 1], [v = 0] and [g = 1], so that [Q = I] and [Q P z = -e1], not
    [e1].  With [mode = 0] and the unit eigenvector [z = (1, -0., -0.)],
    which is the vector [KernelVector3S] returns for the shifted matrix
    [diag(0, 1/4, 1/2)], it returns [k = 2], [v = (1, 1, -0.)] and
    [g = 1], and again [Q P z = -e1]: the reflection sends [P z] to
    [copysign(1, z_k) e1]. *)
Theorem C5_Reduce3S_reflects_onto_minus_e1 :
  let out1 := Reduce3S 1 1 2 3 0 0 0 (-1) 0 0 in
  let out0 := Reduce3S 0 1 2 3 0 0 0 1 (-0) (-0) in
  (r_k out1, r_g out1, (r_v1 out1, r_v2 out1, r_v3 out1))
  = (1%Z, 1, (0, 0, 0))
  /\ reflect_exchanged (r_k out1) (r_g out1)
       (r_v1 out1, r_v2 out1, r_v3 out1) (-1, 0, 0)
     = (-1, 0, 0)
  /\ KernelVector3S 0 0 0 0 0 0x1p-2 0x1p-1 = (1%Z, (1, -0, -0))
  /\ (r_k out0, r_g out0, (r_v1 out0, r_v2 out0, r_v3 out0))
     = (2%Z, 1, (1, 1, -0))
  /\ reflect_exchanged (r_k out0) (r_g out0)
       (r_v1 out0, r_v2 out0, r_v3 out0) (1, -0, -0)
     = (-1, 0, 0)
  /\ (r_d1 out0, r_d2 out0, r_d3 out0, r_d23 out0) = (1, 2, 3, 0).
Proof. vm_compute. repeat split; reflexivity. Qed.

(** The eigenvalues returned for [tiny_sym] and for [2^100 tiny_sym]: the
    normalised matrix and its computed eigenvalues [1/4],
    [1/4 (1 + 2^-52)] and [3/4 - 2^-53] are the same for both
    inputs; multiplied by [mult = 2^-1072] they round to the subnormal
    numbers [2^-1074], [2^-1074] and [3 * 2^-1074], multiplied by
    [mult = 2^-972] they are exact. *)
Lemma float_CalcEigenvalues_tiny (dbg : bool) :
  let vec :=
    [0x1p-1; -0x1.0000000000001p-1; -0x1.6a09e667f3bccp-1;
     -0x1.0000000000001p-1; 0x1.ffffffffffffep-2; -0x1.6a09e667f3bcdp-1;
     0x1.6a09e667f3bccp-1; 0x1.6a09e667f3bcdp-1; -0x1.0000000000001p-53] in
  CalcEigenvalues dbg tiny_sym
  = Returns ([0x1p-1074; 0x1p-1074; 0x3p-1074], vec)
  /\ CalcEigenvalues dbg (float_scale 0x1p+100 tiny_sym)
     = Returns ([0x1p-974; 0x1.0000000000001p-974; 0x1.7ffffffffffffp-973],
                vec).
Proof. destruct dbg; vm_compute; split; reflexivity. Qed.

(** The same matrix in the normal range: for
    [A = 2^-100 ((2,1,0), (1,2,0), (0,0,1))] and [k = 2^100] the products
    by [mult] are exact, and [CalcEigenvalues] on [k A] returns [k] times
    the eigenvalues it returns on [A]. *)
Lemma float_CalcEigenvalues_normal_range (dbg : bool) :
  let A := float_scale 0x1p+974 tiny_sym in
  let lambda :=
    [0x1p-100; 0x1.0000000000001p-100; 0x1.7ffffffffffffp-99] in
  let vec :=
    [0x1p-1; -0x1.0000000000001p-1; -0x1.6a09e667f3bccp-1;
     -0x1.0000000000001p-1; 0x1.ffffffffffffep-2; -0x1.6a09e667f3bcdp-1;
     0x1.6a09e667f3bccp-1; 0x1.6a09e667f3bcdp-1; -0x1.0000000000001p-53] in
  CalcEigenvalues dbg A = Returns (lambda, vec)
  /\ CalcEigenvalues dbg (float_scale 0x1p+100 A)
     = Returns (map (mul 0x1p+100) lambda, vec).
Proof. destruct dbg; vm_compute; split; reflexivity. Qed.

End Eval.

Local Open Scope float_scope.


End FloatEval.
(** * Evaluating the storage operations *)

(** Run the reads, writes and loops of a goal on matrices given by their
    entries, leaving the real arithmetic untouched. *)
Ltac run :=
  cbv -[Rplus Rminus Rmult Rdiv Ropp Rinv IZR sqrt fabs Rabs copysign hypot
        Rle_dec Rlt_dec Req_dec_T cos acos PI up ln powerRZ].

(** Fold the instance of real arithmetic left unfolded by [rsimpl] in the
    arguments of calls. *)
Ltac refold :=
  let I := eval cbv delta [RArith] in RArith in
  change I with RArith.

(** * Further properties of the 2x2 symmetric eigenproblem *)

Lemma fabs_sq (x : R) : fabs x * fabs x = x * x.
Proof.
  unfold fabs, Rabs. destruct (Rcase_abs x); ring.
Qed.

(** The tangent chosen by the rotation formula solves
    [t^2 + 2 zeta t - 1 = 0]. *)
Lemma tangent_quadratic (d12 d1 d2 : R) :
  let t := tangent_of d12 d1 d2 in
  let zeta := zeta_of d12 d1 d2 in
  t * t + 2 * zeta * t = 1.
Proof.
  intros t zeta. unfold t, tangent_of. fold zeta.
  pose proof (parlett_denominator_pos zeta) as Hp.
  pose proof (sign_of_sq zeta) as Hs.
  pose proof (sign_of_mult_abs zeta) as Ha.
  pose proof (fabs_sq zeta) as Hf.
  assert (Hw : sqrt (1 + zeta * zeta) * sqrt (1 + zeta * zeta) = 1 + zeta * zeta).
  { apply sqrt_sqrt. nra. }
  set (w := sqrt (1 + zeta * zeta)) in *.
  set (a := fabs zeta) in *.
  set (g := sign_of zeta) in *.
  assert (Hu : / (a + w) * (a + w) = 1) by (apply Rinv_l; lra).
  unfold Rdiv. set (u := / (a + w)) in *.
  nsatz.
Qed.

(** The tangent used by [Eigensystem2S] in either branch. *)
Lemma Eigensystem2S_shape (d12 d1 d2 : R) :
  d12 <> 0 ->
  exists t,
    Eigensystem2S d12 d1 d2
    = (d1 - t * d12, d2 + t * d12,
       sqrt (1 / (1 + t * t)), sqrt (1 / (1 + t * t)) * t)
    /\ (fabs (zeta_of d12 d1 d2) < sqrt_1_eps -> t = tangent_of d12 d1 d2).
Proof.
  intros Hd. rewrite Eigensystem2S_unfold. cbv zeta.
  destruct (Req_dec_T d12 0) as [E | _]; [contradiction |].
  destruct (Rlt_dec _ sqrt_1_eps) as [L | N].
  - eexists. split; [reflexivity |]. intros _. apply copysign_tangent.
  - eexists. split; [reflexivity |]. intros L. contradiction.
Qed.

Lemma rotation_cos_sq (t : R) :
  sqrt (1 / (1 + t * t)) * sqrt (1 / (1 + t * t)) = 1 / (1 + t * t)
  /\ 0 < sqrt (1 / (1 + t * t)).
Proof.
  assert (Hp : 0 < 1 / (1 + t * t)).
  { apply Rdiv_lt_0_compat; nra. }
  split; [apply sqrt_sqrt; lra | apply sqrt_lt_R0; exact Hp].
Qed.

Lemma Eigensystem2S_rotation (d12 d1 d2 : R) :
  let '(_, _, c, s) := Eigensystem2S d12 d1 d2 in
  c * c + s * s = 1 /\ 0 < c.
Proof.
  destruct (Req_dec_T d12 0) as [E | NE].
  - rewrite Eigensystem2S_unfold.
    destruct (Req_dec_T d12 0) as [_ | N]; [| contradiction]. lra.
  - destruct (Eigensystem2S_shape d12 d1 d2 NE) as (t & -> & _).
    destruct (rotation_cos_sq t) as [Hc Hpos].
    set (c := sqrt (1 / (1 + t * t))) in *.
    split; [| exact Hpos].
    replace (c * c + c * t * (c * t)) with ((c * c) * (1 + t * t)) by ring.
    rewrite Hc. field. nra.
Qed.

(** X1: the pair [(c, s)] returned by [Eigensystem2S] is a rotation:
    [c^2 + s^2 = 1] with [c > 0], for every input, in both branches of
    the tangent formula and for a diagonal matrix. *)
Theorem X1_Eigensystem2S_rotation (d12 d1 d2 : R) :
  let '(_, _, c, s) := Eigensystem2S d12 d1 d2 in
  c * c + s * s = 1 /\ 0 < c.
Proof. apply Eigensystem2S_rotation. Qed.

(** X2: [Eigenvalues2S] and [Eigensystem2S] leave the same pair in
    [(d1, d2)], for every input. *)
Theorem X2_Eigenvalues2S_agrees (d12 d1 d2 : R) :
  let '(e1, e2, _, _) := Eigensystem2S d12 d1 d2 in
  Eigenvalues2S d12 d1 d2 = (e1, e2).
Proof.
  rewrite Eigensystem2S_unfold, Eigenvalues2S_unfold.
  destruct (Req_dec_T d12 0); [reflexivity |].
  cbv zeta. destruct (Rlt_dec _ _); f_equal; ring.
Qed.

(** The two columns of the rotation are eigenvectors of
    [[d1, d12], [d12, d2]]. *)
Lemma Eigensystem2S_eigenpairs (d12 d1 d2 : R) :
  d12 = 0 \/ fabs (zeta_of d12 d1 d2) < sqrt_1_eps ->
  let '(e1, e2, c, s) := Eigensystem2S d12 d1 d2 in
  (d1 * c + d12 * - s = e1 * c /\ d12 * c + d2 * - s = e1 * - s)
  /\ (d1 * s + d12 * c = e2 * s /\ d12 * s + d2 * c = e2 * c).
Proof.
  intros H. destruct (Req_dec_T d12 0) as [E | NE].
  - rewrite Eigensystem2S_unfold.
    destruct (Req_dec_T d12 0) as [_ | N]; [| contradiction].
    subst d12. repeat split; ring.
  - destruct H as [H | H]; [contradiction |].
    destruct (Eigensystem2S_shape d12 d1 d2 NE) as (t & -> & Ht).
    specialize (Ht H). pose proof (tangent_quadratic d12 d1 d2) as Hq.
    cbv zeta in Hq. rewrite <- Ht in Hq.
    assert (Hz : 2 * d12 * zeta_of d12 d1 d2 = d2 - d1).
    { unfold zeta_of. field. exact NE. }
    set (z := zeta_of d12 d1 d2) in *.
    set (c := sqrt (1 / (1 + t * t))).
    repeat split; nsatz.
Qed.

(** X3: for a 2x2 matrix whose stored entries [d[0], d[2], d[3]] are
    [a, b, c], with [b = 0] or [|zeta| < sqrt (1/epsilon)],
    [CalcEigenvalues] returns eigenpairs of [[a, b], [b, c]]: each
    column of [vec] is mapped by the matrix to its multiple by the
    eigenvalue of the same index, the columns have norm 1 and are
    orthogonal, and the eigenvalues are in non-decreasing order. *)
Theorem X3_CalcEigenvalues_2x2_eigenpairs (dbg : bool) (a x b c : R) :
  b = 0 \/ fabs (zeta_of b a c) < sqrt_1_eps ->
  exists l0 l1 u0 u1 v0 v1,
    CalcEigenvalues dbg (mkDenseMatrix 2 2 [a; x; b; c])
    = Returns ([l0; l1], [u0; u1; v0; v1])
    /\ l0 <= l1
    /\ (a * u0 + b * u1 = l0 * u0 /\ b * u0 + c * u1 = l0 * u1)
    /\ (a * v0 + b * v1 = l1 * v0 /\ b * v0 + c * v1 = l1 * v1)
    /\ u0 * u0 + u1 * u1 = 1 /\ v0 * v0 + v1 * v1 = 1
    /\ u0 * v0 + u1 * v1 = 0.
Proof.
  intros H. unfold CalcEigenvalues. read_matrix.
  rewrite Bool.andb_false_r. unfold CalcEigenvalues2.
  pose proof (Eigensystem2S_eigenpairs b a c H) as He.
  pose proof (Eigensystem2S_rotation b a c) as Hr.
  destruct (Eigensystem2S b a c) as [[[e1 e2] cs] sn]. rsimpl.
  destruct He as ((A1 & A2) & (B1 & B2)). destruct Hr as [Hr _].
  destruct (Rle_dec e1 e2) as [L | L].
  - exists e1, e2, cs, (- sn), sn, cs.
    split; [reflexivity |]. repeat split; try lra; nra.
  - exists e2, e1, sn, cs, cs, (- sn).
    split; [reflexivity |]. repeat split; try lra; nra.
Qed.

Lemma X3_CalcEigenvalues_2x2_eigenpairs_witness :
  exists l0 l1 u0 u1 v0 v1,
    CalcEigenvalues false (mkDenseMatrix 2 2 [0; 7; 2; 3])
    = Returns ([l0; l1], [u0; u1; v0; v1])
    /\ l0 <= l1
    /\ (0 * u0 + 2 * u1 = l0 * u0 /\ 2 * u0 + 3 * u1 = l0 * u1)
    /\ (0 * v0 + 2 * v1 = l1 * v0 /\ 2 * v0 + 3 * v1 = l1 * v1)
    /\ u0 * u0 + u1 * u1 = 1 /\ v0 * v0 + v1 * v1 = 1
    /\ u0 * v0 + u1 * v1 = 0.
Proof.
  apply (X3_CalcEigenvalues_2x2_eigenpairs false 0 7 2 3).
  right. exact zeta_example_small.
Defined.

(** * The trace of the computed eigenvalues *)

Lemma Eigensystem2S_trace (d12 d1 d2 : R) :
  let '(e1, e2, _, _) := Eigensystem2S d12 d1 d2 in
  e1 + e2 = d1 + d2.
Proof.
  rewrite Eigensystem2S_unfold.
  destruct (Req_dec_T d12 0); [reflexivity |].
  cbv beta iota zeta. ring.
Qed.

Lemma reflect_trace_alg (g v1 v2 v3 d1 d2 d3 d12 d13 d23 : R) :
  g * (v1 * v1 + v2 * v2 + v3 * v3) = 2 \/ (v1 = 0 /\ v2 = 0 /\ v3 = 0) ->
  let w1 := g * (d1 * v1 + d12 * v2 + d13 * v3) in
  let w2 := g * (d12 * v1 + d2 * v2 + d23 * v3) in
  let w3 := g * (d13 * v1 + d23 * v2 + d3 * v3) in
  let s := (g / 2) * (v1 * w1 + v2 * w2 + v3 * w3) in
  (d1 - 2 * v1 * (w1 - s * v1)) + (d2 - 2 * v2 * (w2 - s * v2))
  + (d3 - 2 * v3 * (w3 - s * v3))
  = d1 + d2 + d3.
Proof.
  intros [H | (-> & -> & ->)]; cbv zeta; [| ring].
  set (w1 := g * (d1 * v1 + d12 * v2 + d13 * v3)).
  set (w2 := g * (d12 * v1 + d2 * v2 + d23 * v3)).
  set (w3 := g * (d13 * v1 + d23 * v2 + d3 * v3)).
  transitivity (d1 + d2 + d3
                - (v1 * w1 + v2 * w2 + v3 * w3)
                  * (2 - g * (v1 * v1 + v2 * v2 + v3 * v3))).
  - unfold Rdiv. field.
  - rewrite H. ring.
Qed.

Lemma sum_sq_zero (a b c : R) :
  a * a + b * b + c * c = 0 -> a = 0 /\ b = 0 /\ c = 0.
Proof. intros H. repeat split; nra. Qed.

(** The reflection step keeps the trace. *)
Lemma Reduce3S_reflect_trace (d1 d2 d3 d12 d13 d23 z1 z2 z3 : R) :
  let '(b1, b2, b3, _, _, _, _, _) :=
    Reduce3S_reflect d1 d2 d3 d12 d13 d23 z1 z2 z3 in
  b1 + b2 + b3 = d1 + d2 + d3.
Proof.
  unfold Reduce3S_reflect; rsimpl.
  destruct (Req_dec_T (hypot z2 z3) 0); cbv iota; [reflexivity |].
  cbv zeta.
  match goal with
  | |- context [2 / (?a * ?a + ?b * ?b + ?c * ?c)] =>
    generalize a, b, c; intros v1 v2 v3
  end.
  pose proof (reflect_trace_alg (2 / (v1 * v1 + v2 * v2 + v3 * v3))
                v1 v2 v3 d1 d2 d3 d12 d13 d23) as H.
  cbv zeta in H. apply H.
  destruct (Req_dec_T (v1 * v1 + v2 * v2 + v3 * v3) 0) as [Z | NZ].
  - right. apply sum_sq_zero. exact Z.
  - left. unfold Rdiv. rewrite Rmult_assoc, Rinv_l by exact NZ. ring.
Qed.

(** [Reduce3S] keeps the trace of the matrix. *)
Lemma Reduce3S_trace (mode : Z) (d1 d2 d3 d12 d13 d23 z1 z2 z3 : R) :
  let red := Reduce3S mode d1 d2 d3 d12 d13 d23 z1 z2 z3 in
  r_d1 red + r_d2 red + r_d3 red = d1 + d2 + d3.
Proof.
  cbv zeta. unfold Reduce3S; rsimpl.
  destruct (mode =? 0)%Z; split_all;
    match goal with
    | |- context [Reduce3S_reflect ?a ?b ?c ?d ?e ?f ?g ?h ?i] =>
      pose proof (Reduce3S_reflect_trace a b c d e f g h i) as H;
      destruct (Reduce3S_reflect a b c d e f g h i)
        as [[[[[[[b1 b2] b3] b23] v1] v2] v3] g']
    end; cbn; lra.
Qed.

(** [KernelVector3S] reports dimension 3 only for the zero matrix. *)
Lemma KernelVector3S_kdim3 (mode : Z) (d12 d13 d23 d1 d2 d3 : R) :
  fst (KernelVector3S mode d12 d13 d23 d1 d2 d3) = 3%Z ->
  d1 = 0 /\ d2 = 0 /\ d3 = 0 /\ d12 = 0 /\ d13 = 0 /\ d23 = 0.
Proof.
  unfold KernelVector3S; rsimpl. cbv zeta.
  destruct (Rle_dec _ _) as [H1 | H1];
    [destruct (Rle_dec _ _) as [H2 | H2] | destruct (Rle_dec _ _) as [H2 | H2]];
    simpl_step;
    (destruct (Req_dec_T _ 0) as [E | NE]; simpl_step;
     [ intros _;
       first
         [ destruct (three_norms_zero d1 d2 d3 d12 d13 d23)
             as (? & ? & ? & ? & ? & ?); [lra | lra | lra |]; tauto
         | destruct (three_norms_zero d2 d1 d3 d12 d23 d13)
             as (? & ? & ? & ? & ? & ?); [lra | lra | lra |]; tauto
         | destruct (three_norms_zero d3 d1 d2 d13 d23 d12)
             as (? & ? & ? & ? & ? & ?); [lra | lra | lra |]; tauto ]
     | ]).
  all: destruct (mode =? 0)%Z; split_all.
  all: match goal with
       | |- context [KernelVector3G_aux ?m ?a ?b ?c ?d ?e ?f ?g ?h ?i] =>
         destruct (KernelVector3G_aux_kdim m a b c d e f g h i) as [K | K];
         destruct (KernelVector3G_aux m a b c d e f g h i) as [kd [[? ?] ?]];
         cbn in K |- *; intros K'; rewrite K in K'; discriminate
       end.
Qed.

Lemma CalcEigenvalues3_scaled_trace (d11 d22 d33 d12 d13 d23 : R) :
  let '(l0, l1, l2) :=
    fst (CalcEigenvalues3_scaled d11 d22 d33 d12 d13 d23) in
  l0 + l1 + l2 = d11 + d22 + d33.
Proof.
  unfold CalcEigenvalues3_scaled; rsimpl. cbv zeta.
  destruct (Rle_dec _ 0); simpl_step; [cbn; field |].
  match goal with
  | |- context [KernelVector3S ?m ?a ?b ?c ?d ?e ?f] =>
    pose proof (KernelVector3S_kdim3 m a b c d e f) as K3;
    destruct (KernelVector3S m a b c d e f) as [kdim [[z1 z2] z3]]
  end.
  cbn [fst] in K3.
  destruct (kdim =? 3)%Z eqn:Ek.
  - apply Z.eqb_eq in Ek. destruct (K3 Ek) as (C1 & C2 & C3 & _).
    cbn. lra.
  - clear K3.
    match goal with
    | |- context [Reduce3S ?m ?a ?b ?c ?d ?e ?f ?g ?h ?i] =>
      pose proof (Reduce3S_trace m a b c d e f g h i) as Ht;
      cbv zeta in Ht;
      destruct (Reduce3S m a b c d e f g h i)
        as [k b1 b2 b3 b12 b13 b23 y1 y2 y3 v1 v2 v3 g']
    end.
    cbn [r_k r_d1 r_d2 r_d3 r_d12 r_d13 r_d23 r_z1 r_z2 r_z3
         r_v1 r_v2 r_v3 r_g] in Ht |- *.
    match goal with
    | |- context [Eigensystem2S ?a ?b ?c] =>
      pose proof (Eigensystem2S_trace a b c) as H2;
      destruct (Eigensystem2S a b c) as [[[f2 f3] cs] sn]
    end.
    repeat (simpl_step; split_cmp); cbn; lra.
Qed.

(** The sum of the three values returned by the 3x3 block is the trace. *)
Lemma CalcEigenvalues3_trace (d11 d12 d22 d13 d23 d33 : R) :
  exists l0 l1 l2 vec,
    CalcEigenvalues3 d11 d12 d22 d13 d23 d33 = ([l0; l1; l2], vec)
    /\ l0 + l1 + l2 = d11 + d22 + d33.
Proof.
  rewrite CalcEigenvalues3_unfold. cbv zeta.
  pose proof (GetScalingFactor_pos (eig3_d_max d11 d12 d22 d13 d23 d33)) as Hm.
  fold (eig3_mult d11 d12 d22 d13 d23 d33) in Hm.
  set (m := eig3_mult d11 d12 d22 d13 d23 d33) in *.
  pose proof (CalcEigenvalues3_scaled_trace
                (d11 / m) (d22 / m) (d33 / m) (d12 / m) (d13 / m) (d23 / m))
    as Hs.
  destruct (CalcEigenvalues3_scaled _ _ _ _ _ _) as [[[l0 l1] l2] vec].
  cbn in Hs. exists (l0 * m), (l1 * m), (l2 * m), vec.
  split; [reflexivity |].
  replace (l0 * m + l1 * m + l2 * m) with ((l0 + l1 + l2) * m) by ring.
  rewrite Hs. field. lra.
Qed.

Lemma CalcEigenvalues2_trace (d0 d2 d3 : R) :
  exists l0 l1 vec,
    CalcEigenvalues2 d0 d2 d3 = ([l0; l1], vec)
    /\ l0 + l1 = d0 + d3.
Proof.
  unfold CalcEigenvalues2.
  pose proof (Eigensystem2S_trace d2 d0 d3) as H.
  destruct (Eigensystem2S d2 d0 d3) as [[[e1 e2] cs] sn]. rsimpl.
  destruct (Rle_dec e1 e2); eexists _, _, _; (split; [reflexivity | lra]).
Qed.

(** X4: in exact arithmetic the eigenvalues returned by [CalcEigenvalues]
    add up to the trace of the matrix as computed by [Trace], for every
    2x2 and every 3x3 matrix (whatever branch the computation takes). *)
Theorem X4_CalcEigenvalues_trace (dbg : bool) :
  (forall a0 a1 a2 a3 : R,
      exists l0 l1 vec,
        CalcEigenvalues dbg (mkDenseMatrix 2 2 [a0; a1; a2; a3])
        = Returns ([l0; l1], vec)
        /\ Trace dbg (mkDenseMatrix 2 2 [a0; a1; a2; a3])
           = Returns (l0 + l1))
  /\ (forall a0 a1 a2 a3 a4 a5 a6 a7 a8 : R,
         exists l0 l1 l2 vec,
           CalcEigenvalues dbg
             (mkDenseMatrix 3 3 [a0; a1; a2; a3; a4; a5; a6; a7; a8])
           = Returns ([l0; l1; l2], vec)
           /\ Trace dbg
                (mkDenseMatrix 3 3 [a0; a1; a2; a3; a4; a5; a6; a7; a8])
              = Returns (l0 + l1 + l2)).
Proof.
  split.
  - intros a0 a1 a2 a3.
    destruct (CalcEigenvalues2_trace a0 a2 a3) as (l0 & l1 & vec & E & Hs).
    exists l0, l1, vec. split.
    + unfold CalcEigenvalues. read_matrix.
      rewrite Bool.andb_false_r, E. reflexivity.
    + destruct dbg; run; f_equal; lra.
  - intros a0 a1 a2 a3 a4 a5 a6 a7 a8.
    destruct (CalcEigenvalues3_trace a0 a3 a4 a6 a7 a8)
      as (l0 & l1 & l2 & vec & E & Hs).
    exists l0, l1, l2, vec. split.
    + unfold CalcEigenvalues. read_matrix.
      rewrite Bool.andb_false_r, E. reflexivity.
    + destruct dbg; run; f_equal; lra.
Qed.

(** * The 2x2 singular values *)

Lemma sv2_core (e0 e1 e2 e3 : R) :
  let h := (1 / 2) * (e0 * e0 + e1 * e1 + e2 * e2 + e3 * e3) in
  let t0 := (1 / 2) * ((e0 + e2) * (e0 - e2) + (e1 - e3) * (e1 + e3)) in
  let p := e0 * e2 + e1 * e3 in
  let s := sqrt (h + sqrt (t0 * t0 + p * p)) in
  s <> 0 ->
  let t := fabs (e0 * e3 - e1 * e2) / s in
  s * s + t * t = e0 * e0 + e1 * e1 + e2 * e2 + e3 * e3
  /\ s * t = fabs (e0 * e3 - e1 * e2)
  /\ 0 <= t /\ 0 < s.
Proof.
  intros h t0 p s Hs t.
  assert (Hr : sqrt (t0 * t0 + p * p) * sqrt (t0 * t0 + p * p)
               = t0 * t0 + p * p) by (apply sqrt_sqrt; nra).
  pose proof (sqrt_pos (t0 * t0 + p * p)) as Hr0.
  set (r := sqrt (t0 * t0 + p * p)) in *.
  assert (Hh : 0 <= h) by (unfold h; nra).
  assert (Hss : s * s = h + r) by (apply sqrt_sqrt; lra).
  assert (Hs0 : 0 < s).
  { pose proof (sqrt_pos (h + r)). fold s in H. lra. }
  pose proof (fabs_sq (e0 * e3 - e1 * e2)) as Hf.
  pose proof (fabs_nonneg (e0 * e3 - e1 * e2)) as Hf0.
  set (D := fabs (e0 * e3 - e1 * e2)) in *.
  assert (HD : D * D = (h - r) * (h + r)).
  { rewrite Hf. replace ((h - r) * (h + r)) with (h * h - r * r) by ring.
    rewrite Hr. unfold h, t0, p. field. }
  assert (Hst : s * t = D) by (unfold t; field; exact Hs).
  assert (Ht0 : 0 <= t).
  { unfold t. apply Rle_mult_inv_pos; lra. }
  assert (Htt : t * t = h - r).
  { apply (Rmult_eq_reg_r (s * s)); [| nra].
    replace (t * t * (s * s)) with ((s * t) * (s * t)) by ring.
    rewrite Hst, HD, Hss. ring. }
  repeat split; try assumption.
  rewrite Hss, Htt. unfold h. field.
Qed.

(** X5: for every 2x2 matrix the two values returned by
    [CalcSingularvalue] are, in exact arithmetic, the singular values:
    they are non-negative, index 0 holds the larger one, their product is
    the absolute value of [Det] and their squares add up to the sum of
    the squares of the entries. *)
Theorem X5_CalcSingularvalue_2x2 (dbg : bool) (d0 d1 d2 d3 : R) :
  exists s0 s1 det,
    CalcSingularvalue dbg (mkDenseMatrix 2 2 [d0; d1; d2; d3]) 0 = Returns s0
    /\ CalcSingularvalue dbg (mkDenseMatrix 2 2 [d0; d1; d2; d3]) 1
       = Returns s1
    /\ Det dbg (mkDenseMatrix 2 2 [d0; d1; d2; d3]) = Returns det
    /\ 0 <= s1 <= s0
    /\ s0 * s1 = fabs det
    /\ s0 * s0 + s1 * s1 = d0 * d0 + d1 * d1 + d2 * d2 + d3 * d3.
Proof.
  exists (CalcSingularvalue2 0 d0 d1 d2 d3), (CalcSingularvalue2 1 d0 d1 d2 d3),
    (d0 * d3 - d1 * d2).
  split; [unfold CalcSingularvalue; read_matrix;
          rewrite Bool.andb_false_r; reflexivity |].
  split; [unfold CalcSingularvalue; read_matrix;
          rewrite Bool.andb_false_r; reflexivity |].
  split; [destruct dbg; reflexivity |].
  rewrite !CalcSingularvalue2_unfold. cbv zeta. cbn [Z.eqb].
  pose proof (sv2_mult_pos d0 d1 d2 d3) as Hm.
  destruct (Req_dec_T (sv2_s d0 d1 d2 d3) 0) as [Z | NZ].
  - apply sv2_s_zero_iff in Z. destruct Z as (-> & -> & -> & ->).
    replace (0 * 0 - 0 * 0) with 0 by ring. rewrite fabs_0. lra.
  - set (m := sv2_mult d0 d1 d2 d3) in *.
    pose proof (sv2_core (d0 / m) (d1 / m) (d2 / m) (d3 / m)) as H.
    cbv zeta in H. fold m in NZ. unfold sv2_s in NZ |- *. cbv zeta in NZ |- *.
    fold m in NZ |- *. specialize (H NZ).
    set (s := sqrt _) in *.
    set (t := fabs (d0 / m * (d3 / m) - d1 / m * (d2 / m)) / s) in *.
    destruct H as (Hsq & Hst & Ht0 & Hs0).
    assert (Hdet : fabs (d0 * d3 - d1 * d2)
                   = m * m * fabs (d0 / m * (d3 / m) - d1 / m * (d2 / m))).
    { replace (d0 * d3 - d1 * d2)
        with (m * m * (d0 / m * (d3 / m) - d1 / m * (d2 / m)))
        by (field; lra).
      unfold fabs. rewrite Rabs_mult, (Rabs_pos_eq (m * m)) by nra.
      reflexivity. }
    assert (Hfro : d0 * d0 + d1 * d1 + d2 * d2 + d3 * d3
                   = m * m * (s * s + t * t)).
    { rewrite Hsq. field. lra. }
    rewrite Hdet, Hfro, <- Hst.
    destruct (Rlt_dec s t); repeat split; try nra.
Qed.

(** * Normalised vectors *)

Lemma vec_normalize3_aux_unit (x1 x2 x3 : R) :
  x1 <> 0 ->
  let '(n1, n2, n3) := vec_normalize3_aux x1 x2 x3 in
  n1 * n1 + n2 * n2 + n3 * n3 = 1
  /\ exists k, 0 < k /\ n1 = k * x1 /\ n2 = k * x2 /\ n3 = k * x3.
Proof.
  intros H1. unfold vec_normalize3_aux; rsimpl. cbv zeta.
  assert (Hm : 0 < fabs x1).
  { pose proof (fabs_nonneg x1).
    destruct (Req_dec_T (fabs x1) 0) as [Z | NZ];
      [apply fabs_eq_0 in Z; contradiction | lra]. }
  pose proof (fabs_sq x1) as Hsq.
  set (m := fabs x1) in *.
  set (q := 1 + x2 / m * (x2 / m) + x3 / m * (x3 / m)).
  assert (Hq : 1 <= q) by (unfold q; nra).
  assert (Hp : 0 < 1 / q) by (apply Rdiv_lt_0_compat; lra).
  assert (Htt : sqrt (1 / q) * sqrt (1 / q) = 1 / q) by (apply sqrt_sqrt; lra).
  assert (Ht0 : 0 < sqrt (1 / q)) by (apply sqrt_lt_R0; exact Hp).
  set (t := sqrt (1 / q)) in *.
  assert (Hc : copysign t x1 = t / m * x1).
  { rewrite copysign_pos_l by lra.
    replace (t / m * x1) with (t / m * (sign_of x1 * (sign_of x1 * x1))).
    - rewrite sign_of_mult_abs. fold m. field. lra.
    - rewrite <- Rmult_assoc with (r1 := sign_of x1), sign_of_sq. ring. }
  split.
  - rewrite Hc.
    replace (t / m * x1 * (t / m * x1) + x2 * (t / m) * (x2 * (t / m))
             + x3 * (t / m) * (x3 * (t / m)))
      with (t * t * ((x1 * x1) / (m * m) + x2 / m * (x2 / m)
                     + x3 / m * (x3 / m)))
      by (field; lra).
    rewrite <- Hsq.
    replace (m * m / (m * m)) with 1 by (field; lra).
    fold q. rewrite Htt. field. lra.
  - exists (t / m). split; [apply Rdiv_lt_0_compat; lra |].
    split; [exact Hc |]. split; ring.
Qed.

Lemma fabs_gt_nonzero (x y : R) : fabs y < fabs x -> x <> 0.
Proof.
  intros H ->. rewrite fabs_0 in H. pose proof (fabs_nonneg y). lra.
Qed.

Lemma vec_normalize3_unit (x1 x2 x3 : R) :
  let '(n1, n2, n3) := vec_normalize3 x1 x2 x3 in
  (x1 = 0 /\ x2 = 0 /\ x3 = 0 /\ n1 = 0 /\ n2 = 0 /\ n3 = 0)
  \/ (~ (x1 = 0 /\ x2 = 0 /\ x3 = 0)
      /\ n1 * n1 + n2 * n2 + n3 * n3 = 1
      /\ exists k, 0 < k /\ n1 = k * x1 /\ n2 = k * x2 /\ n3 = k * x3).
Proof.
  unfold vec_normalize3; rsimpl; refold.
  destruct (Rle_dec (fabs x2) (fabs x1)) as [H21 | H21];
    [destruct (Rle_dec (fabs x3) (fabs x1)) as [H31 | H31];
     [destruct (Req_dec_T x1 0) as [Z | NZ] |]
    | destruct (Rle_dec (fabs x3) (fabs x2)) as [H32 | H32]];
    cbv beta iota delta [negb].
  - left. subst x1. rewrite fabs_0 in H21, H31.
    pose proof (fabs_nonneg x2). pose proof (fabs_nonneg x3).
    assert (x2 = 0) by (apply fabs_eq_0; lra).
    assert (x3 = 0) by (apply fabs_eq_0; lra). tauto.
  - pose proof (vec_normalize3_aux_unit x1 x2 x3 NZ) as H.
    destruct (vec_normalize3_aux x1 x2 x3) as [[n1 n2] n3]. right.
    destruct H as (Hu & k & Hk & E1 & E2 & E3).
    split; [tauto |]. split; [exact Hu |]. exists k. tauto.
  - assert (NZ : x3 <> 0) by (apply (fabs_gt_nonzero x3 x1); lra).
    pose proof (vec_normalize3_aux_unit x3 x1 x2 NZ) as H.
    destruct (vec_normalize3_aux x3 x1 x2) as [[n3 n1] n2]. right.
    destruct H as (Hu & k & Hk & E1 & E2 & E3).
    split; [tauto |]. split; [lra |]. exists k. tauto.
  - assert (NZ : x2 <> 0) by (apply (fabs_gt_nonzero x2 x1); lra).
    pose proof (vec_normalize3_aux_unit x2 x1 x3 NZ) as H.
    destruct (vec_normalize3_aux x2 x1 x3) as [[n2 n1] n3]. right.
    destruct H as (Hu & k & Hk & E1 & E2 & E3).
    split; [tauto |]. split; [lra |]. exists k. tauto.
  - assert (NZ : x3 <> 0) by (apply (fabs_gt_nonzero x3 x2); lra).
    pose proof (vec_normalize3_aux_unit x3 x1 x2 NZ) as H.
    destruct (vec_normalize3_aux x3 x1 x2) as [[n3 n1] n2]. right.
    destruct H as (Hu & k & Hk & E1 & E2 & E3).
    split; [tauto |]. split; [lra |]. exists k. tauto.
Qed.

(** X6: [vec_normalize3] maps the zero vector to the zero vector and
    every other vector to the vector of Euclidean norm 1 with the same
    direction (a positive multiple of the input). *)
Theorem X6_vec_normalize3_unit (x1 x2 x3 : R) :
  let '(n1, n2, n3) := vec_normalize3 x1 x2 x3 in
  (x1 = 0 /\ x2 = 0 /\ x3 = 0 /\ n1 = 0 /\ n2 = 0 /\ n3 = 0)
  \/ (~ (x1 = 0 /\ x2 = 0 /\ x3 = 0)
      /\ n1 * n1 + n2 * n2 + n3 * n3 = 1
      /\ exists k, 0 < k /\ n1 = k * x1 /\ n2 = k * x2 /\ n3 = k * x3).
Proof. apply vec_normalize3_unit. Qed.

(** * Kernel vectors *)

Lemma kernel2_weights (mu : R) :
  fabs (mu * (1 / (1 + fabs mu))) + fabs (1 / (1 + fabs mu)) = 1
  /\ fabs (1 / (1 + fabs mu)) + fabs (mu * (1 / (1 + fabs mu))) = 1.
Proof.
  pose proof (fabs_nonneg mu) as Hm.
  assert (Hp : 0 < 1 / (1 + fabs mu)) by (apply Rdiv_lt_0_compat; lra).
  unfold fabs in *. rewrite Rabs_mult, (Rabs_pos_eq (1 / (1 + Rabs mu))) by lra.
  split; field; lra.
Qed.

Lemma fabs_1_0 : fabs 1 + fabs 0 = 1 /\ fabs 0 + fabs 1 = 1.
Proof. unfold fabs. rewrite Rabs_R0, Rabs_R1. lra. Qed.

Lemma two_norms_zero (a b c d : R) :
  fabs a + fabs b = 0 -> ~ fabs a + fabs b < fabs c + fabs d ->
  a = 0 /\ b = 0 /\ c = 0 /\ d = 0.
Proof.
  intros H1 H2.
  pose proof (fabs_nonneg a); pose proof (fabs_nonneg b);
    pose proof (fabs_nonneg c); pose proof (fabs_nonneg d).
  repeat split; apply fabs_eq_0; lra.
Qed.

Lemma KernelVector2G_weights (mode : Z) (d1 d12 d21 d2 : R) :
  let '(zero, (z1, _, _, z2)) := KernelVector2G mode d1 d12 d21 d2 in
  (zero = true /\ d1 = 0 /\ d12 = 0 /\ d21 = 0 /\ d2 = 0)
  \/ (zero = false /\ ~ (d1 = 0 /\ d12 = 0 /\ d21 = 0 /\ d2 = 0)
      /\ fabs z1 + fabs z2 = 1).
Proof.
  unfold KernelVector2G; rsimpl. cbv zeta.
  destruct (Rlt_dec (fabs d1 + fabs d21) (fabs d2 + fabs d12)) as [Hsw | Hsw];
    simpl_step.
  2: destruct (Req_dec_T (fabs d1 + fabs d21) 0) as [Hz | Hz]; simpl_step.
  2: { left. split; [reflexivity |].
       destruct (two_norms_zero d1 d21 d2 d12 Hz Hsw) as (? & ? & ? & ?).
       tauto. }
  all: assert (NZ : ~ (d1 = 0 /\ d12 = 0 /\ d21 = 0 /\ d2 = 0))
    by (intros (-> & -> & -> & ->); rewrite ?fabs_0 in *; lra).
  all: destruct (mode =? 0)%Z; split_all.
  all: right; split; [reflexivity |]; split; [exact NZ |].
  all: first [ apply fabs_1_0 | apply kernel2_weights ].
Qed.

(** X7: [KernelVector2G] returns [true] exactly for the zero matrix, and
    otherwise leaves in [(d1, d2)] a vector [(z1, z2)] with
    [|z1| + |z2| = 1]. *)
Theorem X7_KernelVector2G_weights (mode : Z) (d1 d12 d21 d2 : R) :
  let '(zero, (z1, _, _, z2)) := KernelVector2G mode d1 d12 d21 d2 in
  (zero = true /\ d1 = 0 /\ d12 = 0 /\ d21 = 0 /\ d2 = 0)
  \/ (zero = false /\ ~ (d1 = 0 /\ d12 = 0 /\ d21 = 0 /\ d2 = 0)
      /\ fabs z1 + fabs z2 = 1).
Proof. apply KernelVector2G_weights. Qed.

Lemma KernelVector3G_aux_unit
  (mode : Z) (d1 d2 d3 c12 c13 c23 c21 c31 c32 : R) :
  let '(kdim, (n1, n2, n3)) :=
    KernelVector3G_aux mode d1 d2 d3 c12 c13 c23 c21 c31 c32 in
  (kdim = 1%Z \/ kdim = 2%Z) /\ n1 * n1 + n2 * n2 + n3 * n3 = 1.
Proof.
  unfold KernelVector3G_aux.
  destruct (KernelVector3G_column_1 _ _ _ _ _ _ _ _ _)
    as [[[[[[e1 e2] e3] f12] f13] f23] f32].
  pose proof (KernelVector2G_weights mode e2 f23 f32 e3) as H2.
  destruct (KernelVector2G mode e2 f23 f32 e3) as [zero [[[z2 ?] ?] z3]].
  destruct zero; rsimpl; refold; cbv beta iota.
  - pose proof (vec_normalize3_unit 1 (f12 / e1) (f13 / e1)) as H.
    destruct (vec_normalize3 1 (f12 / e1) (f13 / e1)) as [[n1 n2] n3].
    destruct H as [(H & _) | (_ & H & _)]; [lra |].
    split; [right; reflexivity | exact H].
  - destruct H2 as [(H2 & _) | (_ & _ & H2)]; [discriminate |].
    pose proof (vec_normalize3_unit (- (f12 * z2 + f13 * z3) / e1) z2 z3) as H.
    destruct (vec_normalize3 (- (f12 * z2 + f13 * z3) / e1) z2 z3)
      as [[n1 n2] n3].
    destruct H as [(_ & Z2 & Z3 & _) | (_ & H & _)].
    + subst z2 z3. rewrite fabs_0 in H2. lra.
    + split; [left; reflexivity | exact H].
Qed.

Lemma KernelVector3S_unit (mode : Z) (d12 d13 d23 d1 d2 d3 : R) :
  let '(kdim, (z1, z2, z3)) := KernelVector3S mode d12 d13 d23 d1 d2 d3 in
  (kdim = 3%Z /\ (z1, z2, z3) = (d1, d2, d3))
  \/ ((kdim = 1%Z \/ kdim = 2%Z) /\ z1 * z1 + z2 * z2 + z3 * z3 = 1).
Proof.
  unfold KernelVector3S; rsimpl; refold. cbv zeta.
  destruct (Rle_dec _ _) as [H1 | H1];
    [destruct (Rle_dec _ _) as [H2 | H2] | destruct (Rle_dec _ _) as [H2 | H2]];
    simpl_step;
    (destruct (Req_dec_T _ 0) as [E | NE]; simpl_step;
     [ left; split; reflexivity | ]).
  all: destruct (mode =? 0)%Z; split_all.
  all: match goal with
       | |- context [KernelVector3G_aux ?m ?a ?b ?c ?d ?e ?f ?g ?h ?i] =>
         pose proof (KernelVector3G_aux_unit m a b c d e f g h i) as K;
         destruct (KernelVector3G_aux m a b c d e f g h i)
           as [kd [[n1 n2] n3]]
       end.
  all: right; destruct K as [K U]; split; [exact K | lra].
Qed.

(** X8: [KernelVector3S] either reports dimension 3 and leaves
    [(d1, d2, d3)] as they were, or reports dimension 1 or 2 and leaves
    there a vector of Euclidean norm 1. *)
Theorem X8_KernelVector3S_unit (mode : Z) (d12 d13 d23 d1 d2 d3 : R) :
  let '(kdim, (z1, z2, z3)) := KernelVector3S mode d12 d13 d23 d1 d2 d3 in
  (kdim = 3%Z /\ (z1, z2, z3) = (d1, d2, d3))
  \/ ((kdim = 1%Z \/ kdim = 2%Z) /\ z1 * z1 + z2 * z2 + z3 * z3 = 1).
Proof. apply KernelVector3S_unit. Qed.

(** * The scaling factor *)

Lemma powerRZ_2_succ (e : Z) : powerRZ 2 (e + 1) = 2 * powerRZ 2 e.
Proof. rewrite powerRZ_add by lra. simpl. ring. Qed.

Lemma powerRZ_2_pred (e : Z) : powerRZ 2 (e - 1) = powerRZ 2 e / 2.
Proof.
  replace e with ((e - 1) + 1)%Z at 2 by lia.
  rewrite powerRZ_2_succ. field.
Qed.

(** The exponent chosen by [frexp]: [2^(e-1) <= x < 2^e]. *)
Lemma frexp_exponent (x : R) :
  0 < x ->
  let e := snd (frexp x) in
  fst (frexp x) = x / powerRZ 2 e
  /\ powerRZ 2 e / 2 <= x < powerRZ 2 e.
Proof.
  intros Hx. unfold frexp.
  destruct (Req_dec_T x 0) as [Z | _]; [lra |].
  cbn [fst snd]. split; [reflexivity |].
  rewrite Rabs_pos_eq by lra.
  set (L := ln x / ln 2).
  assert (Hln2 : 0 < ln 2).
  { rewrite <- ln_1. apply ln_increasing; lra. }
  assert (HxL : x = Rpower 2 L).
  { unfold Rpower, L.
    replace (ln x / ln 2 * ln 2) with (ln x) by (field; lra).
    symmetry. apply exp_ln. exact Hx. }
  destruct (archimed L) as [Hup1 Hup2].
  set (e := up L) in *.
  rewrite <- powerRZ_2_pred, !powerRZ_Rpower by lra.
  rewrite HxL at 1 2. split.
  - apply Rle_Rpower; [lra |]. rewrite minus_IZR. lra.
  - apply Rpower_lt; lra.
Qed.

Lemma GetScalingFactor_range (d_max : R) :
  0 < d_max ->
  exists e : Z,
    GetScalingFactor d_max = powerRZ 2 e
    /\ 1 / 2 <= d_max / powerRZ 2 e < 2
    /\ (d_max < powerRZ 2 1023 -> d_max / powerRZ 2 e < 1).
Proof.
  intros Hx. unfold GetScalingFactor; rsimpl.
  destruct (Rlt_dec 0 d_max) as [_ | N]; [| contradiction].
  destruct (frexp_exponent d_max Hx) as [Hm Hb]. cbv zeta in Hm, Hb.
  destruct (frexp d_max) as [m e]. cbn [fst snd] in Hm, Hb.
  pose proof (powerRZ_2_pos e) as Hp.
  destruct (e =? max_exponent)%Z eqn:Ee.
  - apply Z.eqb_eq in Ee. unfold max_exponent in Ee.
    exists (e - 1)%Z. unfold radix; rsimpl.
    rewrite powerRZ_2_pred.
    assert (E : d_max / (m * 2) = powerRZ 2 e / 2).
    { rewrite Hm. field. lra. }
    rewrite E. split; [reflexivity |]. split.
    + split.
      * apply (Rmult_le_reg_r (powerRZ 2 e / 2)); [lra |].
        replace (d_max / (powerRZ 2 e / 2) * (powerRZ 2 e / 2)) with d_max
          by (field; lra). lra.
      * apply (Rmult_lt_reg_r (powerRZ 2 e / 2)); [lra |].
        replace (d_max / (powerRZ 2 e / 2) * (powerRZ 2 e / 2)) with d_max
          by (field; lra). lra.
    + intros Hlt. exfalso.
      assert (E1 : powerRZ 2 e / 2 = powerRZ 2 1023).
      { rewrite <- powerRZ_2_pred. f_equal. lia. }
      lra.
  - exists e.
    assert (E : d_max / m = powerRZ 2 e).
    { rewrite Hm. field. lra. }
    rewrite E. split; [reflexivity |].
    assert (Hr : 1 / 2 <= d_max / powerRZ 2 e < 1).
    { split.
      - apply (Rmult_le_reg_r (powerRZ 2 e)); [lra |].
        replace (d_max / powerRZ 2 e * powerRZ 2 e) with d_max
          by (field; lra). lra.
      - apply (Rmult_lt_reg_r (powerRZ 2 e)); [lra |].
        replace (d_max / powerRZ 2 e * powerRZ 2 e) with d_max
          by (field; lra). lra. }
    split; [lra | intros _; lra].
Qed.

(** X9: for [d_max <= 0] the scaling factor is 1; for [d_max > 0] it is
    a power of two [2^e] with [1/2 <= d_max / 2^e < 2], and
    [d_max / 2^e < 1] (the interval [[1/2, 1)] announced by the source)
    whenever [d_max < 2^1023]. *)
Theorem X9_GetScalingFactor_range (d_max : R) :
  (d_max <= 0 -> GetScalingFactor d_max = 1)
  /\ (0 < d_max ->
      exists e : Z,
        GetScalingFactor d_max = powerRZ 2 e
        /\ 1 / 2 <= d_max / powerRZ 2 e < 2
        /\ (d_max < powerRZ 2 1023 -> d_max / powerRZ 2 e < 1)).
Proof.
  split; [| apply GetScalingFactor_range].
  intros H. unfold GetScalingFactor; rsimpl.
  destruct (Rlt_dec 0 d_max); [lra | reflexivity].
Qed.

Lemma X9_GetScalingFactor_range_witness :
  GetScalingFactor 0 = 1
  /\ exists e : Z,
       GetScalingFactor 3 = powerRZ 2 e
       /\ 1 / 2 <= 3 / powerRZ 2 e < 2
       /\ (3 < powerRZ 2 1023 -> 3 / powerRZ 2 e < 1).
Proof.
  split.
  - apply (proj1 (X9_GetScalingFactor_range 0)). lra.
  - apply (proj2 (X9_GetScalingFactor_range 3)). lra.
Defined.

(** * Orthogonality of the computed eigenvectors *)

(** The columns [y], [Q (0, c, -s)], [Q (0, s, c)] of an orthogonal frame,
    for a reflection [Q = I - g v v^t] with [Q e1 = gamma y]. *)
Lemma frame_orthonormal (g v1 v2 v3 c s y1 y2 y3 gamma : R) :
  g * (v1 * v1 + v2 * v2 + v3 * v3) = 2 \/ (v1 = 0 /\ v2 = 0 /\ v3 = 0) ->
  c * c + s * s = 1 -> gamma * gamma = 1 ->
  1 - g * v1 * v1 = gamma * y1 ->
  - (g * v2 * v1) = gamma * y2 ->
  - (g * v3 * v1) = gamma * y3 ->
  let d22 := g * (v2 * c - v3 * s) in
  let d33 := g * (v2 * s + v3 * c) in
  let p1 := - v1 * d22 in let p2 := c - v2 * d22 in
  let p3 := - s - v3 * d22 in
  let q1 := - v1 * d33 in let q2 := s - v2 * d33 in
  let q3 := c - v3 * d33 in
  y1 * y1 + y2 * y2 + y3 * y3 = 1
  /\ p1 * p1 + p2 * p2 + p3 * p3 = 1
  /\ q1 * q1 + q2 * q2 + q3 * q3 = 1
  /\ y1 * p1 + y2 * p2 + y3 * p3 = 0
  /\ y1 * q1 + y2 * q2 + y3 * q3 = 0
  /\ p1 * q1 + p2 * q2 + p3 * q3 = 0.
Proof.
  intros Hg Hcs Hgam E1 E2 E3. cbv zeta.
  assert (Y1 : y1 = gamma * (1 - g * v1 * v1)).
  { rewrite E1, <- Rmult_assoc, Hgam. ring. }
  assert (Y2 : y2 = gamma * - (g * v2 * v1)).
  { rewrite E2, <- Rmult_assoc, Hgam. ring. }
  assert (Y3 : y3 = gamma * - (g * v3 * v1)).
  { rewrite E3, <- Rmult_assoc, Hgam. ring. }
  clear E1 E2 E3. subst y1 y2 y3.
  destruct Hg as [Hg | (-> & -> & ->)].
  - set (N := v1 * v1 + v2 * v2 + v3 * v3) in *.
    set (a := v2 * c - v3 * s). set (b := v2 * s + v3 * c).
    repeat split.
    + transitivity (gamma * gamma
                    * (1 - g * v1 * v1 * (2 - g * N))); [unfold N; ring |].
      rewrite Hg, Hgam. ring.
    + transitivity (c * c + s * s - g * a * a * (2 - g * N));
        [unfold N, a; ring | rewrite Hg, Hcs; ring].
    + transitivity (c * c + s * s - g * b * b * (2 - g * N));
        [unfold N, b; ring | rewrite Hg, Hcs; ring].
    + transitivity (- gamma * g * v1 * a * (2 - g * N));
        [unfold N, a; ring | rewrite Hg; ring].
    + transitivity (- gamma * g * v1 * b * (2 - g * N));
        [unfold N, b; ring | rewrite Hg; ring].
    + transitivity (- g * a * b * (2 - g * N));
        [unfold N, a, b; ring | rewrite Hg; ring].
  - repeat split;
      first [ ring
            | transitivity (gamma * gamma); [ring | exact Hgam]
            | transitivity (c * c + s * s); [ring | exact Hcs] ].
Qed.

(** The reflection built by [Reduce3S_reflect] from a unit vector [y]
    sends [e1] to [y] or to [-y]. *)
Lemma Reduce3S_reflect_frame (d1 d2 d3 d12 d13 d23 y1 y2 y3 : R) :
  y1 * y1 + y2 * y2 + y3 * y3 = 1 ->
  let '(_, _, _, _, v1, v2, v3, g) :=
    Reduce3S_reflect d1 d2 d3 d12 d13 d23 y1 y2 y3 in
  exists gamma,
    gamma * gamma = 1
    /\ (g * (v1 * v1 + v2 * v2 + v3 * v3) = 2
        \/ (v1 = 0 /\ v2 = 0 /\ v3 = 0))
    /\ 1 - g * v1 * v1 = gamma * y1
    /\ - (g * v2 * v1) = gamma * y2
    /\ - (g * v3 * v1) = gamma * y3.
Proof.
  intros Hy. unfold Reduce3S_reflect; rsimpl.
  destruct (Req_dec_T (hypot y2 y3) 0) as [Hs | Hs]; cbv iota.
  - apply hypot_zero in Hs. destruct Hs as [-> ->].
    assert (H1 : y1 * y1 = 1) by lra.
    exists y1. repeat split; try lra; right; auto.
  - assert (Hss : y2 * y2 + y3 * y3 <> 0).
    { intros Z. apply Hs. unfold hypot. rewrite Z. apply sqrt_0. }
    fold (sign_of y1). set (gamma := sign_of y1) in *.
    assert (Hg : gamma * gamma = 1) by apply sign_of_sq.
    assert (Hgy : 0 <= gamma * y1).
    { unfold gamma. rewrite sign_of_mult_abs. apply fabs_nonneg. }
    assert (Hsum : y1 + gamma <> 0).
    { intros Z. assert (Z1 : y1 = - gamma) by lra.
      rewrite Z1 in Hgy. nra. }
    assert (Hv1 : - hypot y2 y3 * (hypot y2 y3 / (y1 + gamma)) = y1 - gamma).
    { transitivity (- (hypot y2 y3 * hypot y2 y3) / (y1 + gamma)).
      - field. exact Hsum.
      - rewrite hypot_sq. field_simplify_eq; [| exact Hsum]. poly_eq. }
    rewrite Hv1. cbv zeta.
    assert (Em : forall u v : R,
               (if (if Rlt_dec u v then true else false) then v else u)
               = (if Rlt_dec u v then v else u)).
    { intros u v. destruct (Rlt_dec u v); reflexivity. }
    rewrite !Em.
    set (m := if Rlt_dec
                   (if Rlt_dec (fabs (y1 - gamma)) (fabs y2)
                    then fabs y2 else fabs (y1 - gamma))
                   (fabs y3)
              then fabs y3
              else if Rlt_dec (fabs (y1 - gamma)) (fabs y2)
                   then fabs y2 else fabs (y1 - gamma)) in *.
    assert (Hm : m <> 0).
    { assert (M2 : fabs y2 <= m /\ fabs y3 <= m).
      { unfold m.
        destruct (Rlt_dec (fabs (y1 - gamma)) (fabs y2));
          destruct (Rlt_dec _ (fabs y3)); split; lra. }
      intros Z. rewrite Z in M2.
      pose proof (fabs_nonneg y2). pose proof (fabs_nonneg y3).
      assert (y2 = 0) by (apply fabs_eq_0; lra).
      assert (y3 = 0) by (apply fabs_eq_0; lra).
      subst y2 y3. apply Hss. ring. }
    destruct (householder_unit y1 y2 y3 gamma m Hg Hgy Hy Hss Hm)
      as [_ HQe].
    cbv zeta in HQe.
    set (v1 := (y1 - gamma) / m) in *.
    set (v2 := y2 / m) in *. set (v3 := y3 / m) in *.
    assert (HN : v1 * v1 + v2 * v2 + v3 * v3 <> 0).
    { intros Z. destruct (sum_sq_zero v1 v2 v3 Z) as (_ & Z2 & Z3).
      unfold v2, v3 in Z2, Z3.
      assert (y2 = 0).
      { apply (Rmult_eq_reg_r (/ m)); [| apply Rinv_neq_0_compat; exact Hm].
        unfold Rdiv in Z2. lra. }
      assert (y3 = 0).
      { apply (Rmult_eq_reg_r (/ m)); [| apply Rinv_neq_0_compat; exact Hm].
        unfold Rdiv in Z3. lra. }
      subst y2 y3. apply Hss. ring. }
    set (g := 2 / (v1 * v1 + v2 * v2 + v3 * v3)) in *.
    unfold reflection, mulmv, scale, dot, e1 in HQe.
    injection HQe as Q1 Q2 Q3.
    exists gamma. split; [exact Hg |]. split.
    + left. unfold g. field. exact HN.
    + repeat split; lra.
Qed.

Lemma Reduce3S_frame (mode : Z) (d1 d2 d3 d12 d13 d23 z1 z2 z3 : R) :
  z1 * z1 + z2 * z2 + z3 * z3 = 1 ->
  let red := Reduce3S mode d1 d2 d3 d12 d13 d23 z1 z2 z3 in
  let g := r_g red in
  let v1 := r_v1 red in let v2 := r_v2 red in let v3 := r_v3 red in
  (r_z1 red, r_z2 red, r_z3 red) = (z1, z2, z3)
  /\ let '(y1, y2, y3) :=
       if (r_k red =? 2)%Z then (z2, z1, z3)
       else if (r_k red =? 3)%Z then (z3, z2, z1)
       else (z1, z2, z3) in
     exists gamma,
       gamma * gamma = 1
       /\ (g * (v1 * v1 + v2 * v2 + v3 * v3) = 2
           \/ (v1 = 0 /\ v2 = 0 /\ v3 = 0))
       /\ 1 - g * v1 * v1 = gamma * y1
       /\ - (g * v2 * v1) = gamma * y2
       /\ - (g * v3 * v1) = gamma * y3.
Proof.
  intros Hz. cbv zeta. unfold Reduce3S; rsimpl; refold.
  destruct (mode =? 0)%Z; split_all.
  all: match goal with
       | |- context [Reduce3S_reflect ?a ?b ?c ?d ?e ?f ?g ?h ?i] =>
         pose proof (Reduce3S_reflect_frame a b c d e f g h i) as H;
         destruct (Reduce3S_reflect a b c d e f g h i)
           as [[[[[[[b1 b2] b3] b23] v1 ] v2] v3] g0]
       end.
  all: cbn [r_k r_d1 r_d2 r_d3 r_d23 r_v1 r_v2 r_v3 r_g r_z1 r_z2 r_z3
            Z.eqb Pos.eqb].
  all: split; [reflexivity | apply H; lra].
Qed.

(** The eigenvector matrix of the 3x3 block has orthonormal columns. *)
Lemma CalcEigenvalues3_scaled_orthonormal (d11 d22 d33 d12 d13 d23 : R) :
  exists u1 u2 u3 v1 v2 v3 w1 w2 w3,
    snd (CalcEigenvalues3_scaled d11 d22 d33 d12 d13 d23)
    = [u1; u2; u3; v1; v2; v3; w1; w2; w3]
    /\ u1 * u1 + u2 * u2 + u3 * u3 = 1
    /\ v1 * v1 + v2 * v2 + v3 * v3 = 1
    /\ w1 * w1 + w2 * w2 + w3 * w3 = 1
    /\ u1 * v1 + u2 * v2 + u3 * v3 = 0
    /\ u1 * w1 + u2 * w2 + u3 * w3 = 0
    /\ v1 * w1 + v2 * w2 + v3 * w3 = 0.
Proof.
  assert (Id : exists u1 u2 u3 v1 v2 v3 w1 w2 w3,
             [1; 0; 0; 0; 1; 0; 0; 0; 1]
             = [u1; u2; u3; v1; v2; v3; w1; w2; w3]
             /\ u1 * u1 + u2 * u2 + u3 * u3 = 1
             /\ v1 * v1 + v2 * v2 + v3 * v3 = 1
             /\ w1 * w1 + w2 * w2 + w3 * w3 = 1
             /\ u1 * v1 + u2 * v2 + u3 * v3 = 0
             /\ u1 * w1 + u2 * w2 + u3 * w3 = 0
             /\ v1 * w1 + v2 * w2 + v3 * w3 = 0).
  { exists 1, 0, 0, 0, 1, 0, 0, 0, 1. split; [reflexivity |].
    repeat split; ring. }
  unfold CalcEigenvalues3_scaled, identity3; rsimpl; refold. cbv zeta.
  destruct (Rle_dec _ 0); simpl_step; [exact Id |].
  match goal with
  | |- context [KernelVector3S ?m ?a ?b ?c ?d ?e ?f] =>
    pose proof (KernelVector3S_unit m a b c d e f) as KU;
    destruct (KernelVector3S m a b c d e f) as [kdim [[z1 z2] z3]]
  end.
  destruct (kdim =? 3)%Z eqn:Ek; [exact Id |].
  destruct KU as [(K & _) | (_ & Hz)];
    [rewrite K in Ek; discriminate |].
  match goal with
  | |- context [Reduce3S ?m ?x1 ?x2 ?x3 ?x4 ?x5 ?x6 ?x7 ?x8 ?x9] =>
    pose proof (Reduce3S_frame m x1 x2 x3 x4 x5 x6 x7 x8 x9 Hz) as HF;
    cbv zeta in HF;
    destruct (Reduce3S m x1 x2 x3 x4 x5 x6 x7 x8 x9)
      as [k b1 b2 b3 b12 b13 b23 y1 y2 y3 a1 a2 a3 g]
  end.
  cbn [r_k r_d1 r_d2 r_d3 r_d12 r_d13 r_d23 r_z1 r_z2 r_z3
       r_v1 r_v2 r_v3 r_g] in HF |- *.
  destruct HF as [Ez HF]. injection Ez as -> -> ->.
  match goal with
  | |- context [Eigensystem2S ?x1 ?x2 ?x3] =>
    pose proof (Eigensystem2S_rotation x1 x2 x3) as HR;
    destruct (Eigensystem2S x1 x2 x3) as [[[f2 f3] c] s]
  end.
  destruct HR as [Hcs _].
  assert (HO : forall t1 t2 t3,
             (exists gamma,
                 gamma * gamma = 1
                 /\ (g * (a1 * a1 + a2 * a2 + a3 * a3) = 2
                     \/ (a1 = 0 /\ a2 = 0 /\ a3 = 0))
                 /\ 1 - g * a1 * a1 = gamma * t1
                 /\ - (g * a2 * a1) = gamma * t2
                 /\ - (g * a3 * a1) = gamma * t3) ->
             let d22 := g * (a2 * c - a3 * s) in
             let d33 := g * (a2 * s + a3 * c) in
             let p1 := - a1 * d22 in let p2 := c - a2 * d22 in
             let p3 := - s - a3 * d22 in
             let q1 := - a1 * d33 in let q2 := s - a2 * d33 in
             let q3 := c - a3 * d33 in
             p1 * p1 + p2 * p2 + p3 * p3 = 1
             /\ q1 * q1 + q2 * q2 + q3 * q3 = 1
             /\ t1 * p1 + t2 * p2 + t3 * p3 = 0
             /\ t1 * q1 + t2 * q2 + t3 * q3 = 0
             /\ p1 * q1 + p2 * q2 + p3 * q3 = 0).
  { intros t1 t2 t3 (gamma & Hg & HN & E1 & E2 & E3).
    pose proof (frame_orthonormal g a1 a2 a3 c s t1 t2 t3 gamma
                  HN Hcs Hg E1 E2 E3) as H.
    cbv zeta in H |- *. tauto. }
  cbv zeta in HO.
  set (p1 := - a1 * (g * (a2 * c - a3 * s))) in *.
  set (p2 := c - a2 * (g * (a2 * c - a3 * s))) in *.
  set (p3 := - s - a3 * (g * (a2 * c - a3 * s))) in *.
  set (q1 := - a1 * (g * (a2 * s + a3 * c))) in *.
  set (q2 := s - a2 * (g * (a2 * s + a3 * c))) in *.
  set (q3 := c - a3 * (g * (a2 * s + a3 * c))) in *.
  destruct (k =? 2)%Z; [| destruct (k =? 3)%Z];
    destruct (HO _ _ _ HF) as (O1 & O2 & O3 & O4 & O5);
    clear HO HF;
    repeat (simpl_step; split_cmp);
    cbn [snd Nat.eqb app];
    do 9 eexists; (split; [reflexivity |]);
    repeat split; lra.
Qed.

(** X10: in exact arithmetic the matrix [vec] written by
    [CalcEigenvalues] has orthonormal columns, for every 2x2 and every
    3x3 input, in every branch of the computation. *)
Theorem X10_CalcEigenvalues_orthonormal (dbg : bool) :
  (forall a0 a1 a2 a3 : R,
      exists lambda u1 u2 v1 v2,
        CalcEigenvalues dbg (mkDenseMatrix 2 2 [a0; a1; a2; a3])
        = Returns (lambda, [u1; u2; v1; v2])
        /\ u1 * u1 + u2 * u2 = 1 /\ v1 * v1 + v2 * v2 = 1
        /\ u1 * v1 + u2 * v2 = 0)
  /\ (forall a0 a1 a2 a3 a4 a5 a6 a7 a8 : R,
         exists lambda u1 u2 u3 v1 v2 v3 w1 w2 w3,
           CalcEigenvalues dbg
             (mkDenseMatrix 3 3 [a0; a1; a2; a3; a4; a5; a6; a7; a8])
           = Returns (lambda, [u1; u2; u3; v1; v2; v3; w1; w2; w3])
           /\ u1 * u1 + u2 * u2 + u3 * u3 = 1
           /\ v1 * v1 + v2 * v2 + v3 * v3 = 1
           /\ w1 * w1 + w2 * w2 + w3 * w3 = 1
           /\ u1 * v1 + u2 * v2 + u3 * v3 = 0
           /\ u1 * w1 + u2 * w2 + u3 * w3 = 0
           /\ v1 * w1 + v2 * w2 + v3 * w3 = 0).
Proof.
  split.
  - intros a0 a1 a2 a3. unfold CalcEigenvalues. read_matrix.
    rewrite Bool.andb_false_r. unfold CalcEigenvalues2.
    pose proof (Eigensystem2S_rotation a2 a0 a3) as Hr.
    destruct (Eigensystem2S a2 a0 a3) as [[[e1 e2] cs] sn]. rsimpl.
    destruct Hr as [Hr _].
    destruct (Rle_dec e1 e2); do 5 eexists;
      (split; [reflexivity |]); repeat split; lra.
  - intros a0 a1 a2 a3 a4 a5 a6 a7 a8. unfold CalcEigenvalues. read_matrix.
    rewrite Bool.andb_false_r, CalcEigenvalues3_unfold. cbv zeta.
    set (m := eig3_mult a0 a3 a4 a6 a7 a8).
    destruct (CalcEigenvalues3_scaled_orthonormal
                (a0 / m) (a4 / m) (a8 / m) (a3 / m) (a6 / m) (a7 / m))
      as (u1 & u2 & u3 & v1 & v2 & v3 & w1 & w2 & w3 & E & H).
    destruct (CalcEigenvalues3_scaled _ _ _ _ _ _) as [[[l0 l1] l2] vec].
    cbn [snd] in E. subst vec.
    exists [l0 * m; l1 * m; l2 * m], u1, u2, u3, v1, v2, v3, w1, w2, w3.
    split; [reflexivity | exact H].
Qed.

(** * Determinant, adjugate and inverse of small matrices *)

(** Equality of two returned matrices whose entries are equal as
    polynomials (or as fractions, with the side conditions left). *)
Ltac list_by tac :=
  repeat (match goal with
          | |- (_ :: _) = (_ :: _) => apply f_equal2; [tac |]
          end);
  try reflexivity.

Ltac matrix_by tac :=
  match goal with |- Returns _ = Returns _ => apply f_equal end;
  match goal with
  | |- mkDenseMatrix _ _ _ = mkDenseMatrix _ _ _ => apply f_equal
  end;
  list_by tac.

Lemma Det_outside_order (M : DenseMatrix R) :
  (height M < 1 \/ height M > 3)%Z ->
  Det false M = Returns 0
  /\ Det true M = Aborts "DenseMatrix::Det".
Proof.
  intros H. unfold Det. cbn [andb].
  assert (E1 : (height M =? 1)%Z = false) by (apply Z.eqb_neq; lia).
  assert (E2 : (height M =? 2)%Z = false) by (apply Z.eqb_neq; lia).
  assert (E3 : (height M =? 3)%Z = false) by (apply Z.eqb_neq; lia).
  rewrite E1, E2, E3. split; [reflexivity |].
  assert (E : ((height M <? 1) || (height M >? 3))%Z%bool = true).
  { destruct H as [H | H].
    - apply Z.ltb_lt in H. rewrite H. reflexivity.
    - apply Z.gtb_gt in H. rewrite H. apply Bool.orb_true_r. }
  rewrite <- Bool.orb_assoc, E, Bool.orb_true_r. reflexivity.
Qed.

(** X11: for a matrix whose height is outside {1,2,3}, [Det] returns
    [0.0] without reading the matrix in a build without [MFEM_DEBUG], and
    aborts with its message in a build with it. *)
Theorem X11_Det_outside_order (M : DenseMatrix R) :
  (height M < 1 \/ height M > 3)%Z ->
  Det false M = Returns 0
  /\ Det true M = Aborts "DenseMatrix::Det".
Proof. apply Det_outside_order. Qed.

Lemma X11_Det_outside_order_witness :
  Det false (mkDenseMatrix 4 4 [1; 0; 0; 0; 0; 1; 0; 0;
                                0; 0; 1; 0; 0; 0; 0; 1]) = Returns 0
  /\ Det true (mkDenseMatrix 4 4 [1; 0; 0; 0; 0; 1; 0; 0;
                                  0; 0; 1; 0; 0; 0; 0; 1])
     = Aborts "DenseMatrix::Det".
Proof.
  apply X11_Det_outside_order. right. cbn. lia.
Defined.

(** X12: for every 3x3 matrix [a], the matrix written by [CalcAdjugate]
    multiplied by [a], on either side, with [Mult], is [Det(a)] times the
    identity; the same holds for every 2x2 matrix. *)
Theorem X12_CalcAdjugate_times_matrix (dbg : bool) :
  (forall a0 a1 a2 a3 c0 c1 c2 c3 p0 p1 p2 p3 : R,
      let a := mkDenseMatrix 2 2 [a0; a1; a2; a3] in
      exists adj det,
        CalcAdjugate dbg a (mkDenseMatrix 2 2 [c0; c1; c2; c3]) = Returns adj
        /\ Det dbg a = Returns det
        /\ Mult dbg a adj (mkDenseMatrix 2 2 [p0; p1; p2; p3])
           = Returns (mkDenseMatrix 2 2 [det; 0; 0; det])
        /\ Mult dbg adj a (mkDenseMatrix 2 2 [p0; p1; p2; p3])
           = Returns (mkDenseMatrix 2 2 [det; 0; 0; det]))
  /\ (forall a0 a1 a2 a3 a4 a5 a6 a7 a8 c0 c1 c2 c3 c4 c5 c6 c7 c8
             p0 p1 p2 p3 p4 p5 p6 p7 p8 : R,
         let a := mkDenseMatrix 3 3 [a0; a1; a2; a3; a4; a5; a6; a7; a8] in
         let c := mkDenseMatrix 3 3 [c0; c1; c2; c3; c4; c5; c6; c7; c8] in
         let p := mkDenseMatrix 3 3 [p0; p1; p2; p3; p4; p5; p6; p7; p8] in
         exists adj det,
           CalcAdjugate dbg a c = Returns adj
           /\ Det dbg a = Returns det
           /\ Mult dbg a adj p
              = Returns (mkDenseMatrix 3 3 [det; 0; 0; 0; det; 0; 0; 0; det])
           /\ Mult dbg adj a p
              = Returns (mkDenseMatrix 3 3
                           [det; 0; 0; 0; det; 0; 0; 0; det])).
Proof.
  split; intros; cbv zeta; destruct dbg;
    (eexists; eexists;
     split; [run; reflexivity |];
     split; [run; reflexivity |];
     split; run; matrix_by ltac:(ring)).
Qed.

(** X13: for a 1x1, 2x2 or 3x3 matrix [a] with non-zero determinant, the
    matrix written by [CalcInverse] multiplied by [a], on either side,
    with [Mult], is the identity. *)
Theorem X13_CalcInverse_times_matrix (dbg : bool) :
  (forall a0 c0 p0 : R,
      let a := mkDenseMatrix 1 1 [a0] in
      a0 <> 0 ->
      exists inv,
        CalcInverse dbg a (mkDenseMatrix 1 1 [c0]) = Returns inv
        /\ Mult dbg a inv (mkDenseMatrix 1 1 [p0])
           = Returns (mkDenseMatrix 1 1 [1])
        /\ Mult dbg inv a (mkDenseMatrix 1 1 [p0])
           = Returns (mkDenseMatrix 1 1 [1]))
  /\ (forall a0 a1 a2 a3 c0 c1 c2 c3 p0 p1 p2 p3 : R,
         let a := mkDenseMatrix 2 2 [a0; a1; a2; a3] in
         a0 * a3 - a1 * a2 <> 0 ->
         exists inv,
           CalcInverse dbg a (mkDenseMatrix 2 2 [c0; c1; c2; c3])
           = Returns inv
           /\ Mult dbg a inv (mkDenseMatrix 2 2 [p0; p1; p2; p3])
              = Returns (mkDenseMatrix 2 2 [1; 0; 0; 1])
           /\ Mult dbg inv a (mkDenseMatrix 2 2 [p0; p1; p2; p3])
              = Returns (mkDenseMatrix 2 2 [1; 0; 0; 1]))
  /\ (forall a0 a1 a2 a3 a4 a5 a6 a7 a8 c0 c1 c2 c3 c4 c5 c6 c7 c8
             p0 p1 p2 p3 p4 p5 p6 p7 p8 : R,
         let a := mkDenseMatrix 3 3 [a0; a1; a2; a3; a4; a5; a6; a7; a8] in
         let c := mkDenseMatrix 3 3 [c0; c1; c2; c3; c4; c5; c6; c7; c8] in
         let p := mkDenseMatrix 3 3 [p0; p1; p2; p3; p4; p5; p6; p7; p8] in
         a0 * (a4 * a8 - a5 * a7) + a3 * (a2 * a7 - a1 * a8)
         + a6 * (a1 * a5 - a2 * a4) <> 0 ->
         exists inv,
           CalcInverse dbg a c = Returns inv
           /\ Mult dbg a inv p
              = Returns (mkDenseMatrix 3 3 [1; 0; 0; 0; 1; 0; 0; 0; 1])
           /\ Mult dbg inv a p
              = Returns (mkDenseMatrix 3 3 [1; 0; 0; 0; 1; 0; 0; 0; 1])).
Proof.
  split; [| split]; intros; cbv zeta; destruct dbg;
    (eexists;
     split; [run; reflexivity |];
     split; run; matrix_by ltac:(field; assumption)).
Qed.

Lemma X13_CalcInverse_times_matrix_witness :
  exists inv,
    CalcInverse false (mkDenseMatrix 2 2 [2; 0; 1; 1])
                (mkDenseMatrix 2 2 [0; 0; 0; 0]) = Returns inv
    /\ Mult false (mkDenseMatrix 2 2 [2; 0; 1; 1]) inv
            (mkDenseMatrix 2 2 [0; 0; 0; 0])
       = Returns (mkDenseMatrix 2 2 [1; 0; 0; 1])
    /\ Mult false inv (mkDenseMatrix 2 2 [2; 0; 1; 1])
            (mkDenseMatrix 2 2 [0; 0; 0; 0])
       = Returns (mkDenseMatrix 2 2 [1; 0; 0; 1]).
Proof.
  apply (proj1 (proj2 (X13_CalcInverse_times_matrix false))
           2 0 1 1 0 0 0 0 0 0 0 0).
  lra.
Defined.

Lemma gram_nonneg (d0 d1 d2 d3 d4 d5 : R) :
  0 <= (d0 * d0 + d1 * d1 + d2 * d2) * (d3 * d3 + d4 * d4 + d5 * d5)
       - (d0 * d3 + d1 * d4 + d2 * d5) * (d0 * d3 + d1 * d4 + d2 * d5).
Proof.
  replace ((d0 * d0 + d1 * d1 + d2 * d2) * (d3 * d3 + d4 * d4 + d5 * d5)
           - (d0 * d3 + d1 * d4 + d2 * d5) * (d0 * d3 + d1 * d4 + d2 * d5))
    with ((d1 * d5 - d2 * d4) * (d1 * d5 - d2 * d4)
          + (d2 * d3 - d0 * d5) * (d2 * d3 - d0 * d5)
          + (d0 * d4 - d1 * d3) * (d0 * d4 - d1 * d3)) by ring.
  pose proof (Rle_0_sqr (d1 * d5 - d2 * d4)).
  pose proof (Rle_0_sqr (d2 * d3 - d0 * d5)).
  pose proof (Rle_0_sqr (d0 * d4 - d1 * d3)).
  unfold Rsqr in *. lra.
Qed.

(** X14: for a 2x1, 3x1 or 3x2 matrix [a] with linearly independent
    columns, the matrix written by [CalcInverse] is a left inverse:
    multiplied by [a] with [Mult] it gives the identity. *)
Theorem X14_CalcInverse_left_inverse (dbg : bool) :
  (forall a0 a1 c0 c1 p0 : R,
      a0 * a0 + a1 * a1 <> 0 ->
      exists inv,
        CalcInverse dbg (mkDenseMatrix 2 1 [a0; a1])
                    (mkDenseMatrix 1 2 [c0; c1]) = Returns inv
        /\ Mult dbg inv (mkDenseMatrix 2 1 [a0; a1]) (mkDenseMatrix 1 1 [p0])
           = Returns (mkDenseMatrix 1 1 [1]))
  /\ (forall a0 a1 a2 c0 c1 c2 p0 : R,
         a0 * a0 + a1 * a1 + a2 * a2 <> 0 ->
         exists inv,
           CalcInverse dbg (mkDenseMatrix 3 1 [a0; a1; a2])
                       (mkDenseMatrix 1 3 [c0; c1; c2]) = Returns inv
           /\ Mult dbg inv (mkDenseMatrix 3 1 [a0; a1; a2])
                   (mkDenseMatrix 1 1 [p0])
              = Returns (mkDenseMatrix 1 1 [1]))
  /\ (forall a0 a1 a2 a3 a4 a5 c0 c1 c2 c3 c4 c5 p0 p1 p2 p3 : R,
         (a0 * a0 + a1 * a1 + a2 * a2) * (a3 * a3 + a4 * a4 + a5 * a5)
         - (a0 * a3 + a1 * a4 + a2 * a5) * (a0 * a3 + a1 * a4 + a2 * a5)
         <> 0 ->
         exists inv,
           CalcInverse dbg (mkDenseMatrix 3 2 [a0; a1; a2; a3; a4; a5])
                       (mkDenseMatrix 2 3 [c0; c1; c2; c3; c4; c5])
           = Returns inv
           /\ Mult dbg inv (mkDenseMatrix 3 2 [a0; a1; a2; a3; a4; a5])
                   (mkDenseMatrix 2 2 [p0; p1; p2; p3])
              = Returns (mkDenseMatrix 2 2 [1; 0; 0; 1])).
Proof.
  split; [| split]; intros; destruct dbg;
    (eexists;
     split; [run; reflexivity |];
     run; matrix_by ltac:(field; assumption)).
Qed.

Lemma X14_CalcInverse_left_inverse_witness :
  exists inv,
    CalcInverse false (mkDenseMatrix 2 1 [3; 4])
                (mkDenseMatrix 1 2 [0; 0]) = Returns inv
    /\ Mult false inv (mkDenseMatrix 2 1 [3; 4]) (mkDenseMatrix 1 1 [0])
       = Returns (mkDenseMatrix 1 1 [1]).
Proof.
  apply (proj1 (X14_CalcInverse_left_inverse false) 3 4 0 0 0). lra.
Defined.

(** X15: for a 2x1, 3x1 or 3x2 matrix [a], the matrix written by
    [CalcAdjugate] multiplied by [a] with [Mult] is the square of
    [Weight(a)] times the identity, whatever the rank of [a]. *)
Theorem X15_CalcAdjugate_rectangular (dbg : bool) :
  (forall a0 a1 c0 c1 p0 : R,
      exists adj w,
        CalcAdjugate dbg (mkDenseMatrix 2 1 [a0; a1])
                     (mkDenseMatrix 1 2 [c0; c1]) = Returns adj
        /\ Weight dbg (mkDenseMatrix 2 1 [a0; a1]) = Returns w
        /\ Mult dbg adj (mkDenseMatrix 2 1 [a0; a1]) (mkDenseMatrix 1 1 [p0])
           = Returns (mkDenseMatrix 1 1 [w * w]))
  /\ (forall a0 a1 a2 c0 c1 c2 p0 : R,
         exists adj w,
           CalcAdjugate dbg (mkDenseMatrix 3 1 [a0; a1; a2])
                        (mkDenseMatrix 1 3 [c0; c1; c2]) = Returns adj
           /\ Weight dbg (mkDenseMatrix 3 1 [a0; a1; a2]) = Returns w
           /\ Mult dbg adj (mkDenseMatrix 3 1 [a0; a1; a2])
                   (mkDenseMatrix 1 1 [p0])
              = Returns (mkDenseMatrix 1 1 [w * w]))
  /\ (forall a0 a1 a2 a3 a4 a5 c0 c1 c2 c3 c4 c5 p0 p1 p2 p3 : R,
         exists adj w,
           CalcAdjugate dbg (mkDenseMatrix 3 2 [a0; a1; a2; a3; a4; a5])
                        (mkDenseMatrix 2 3 [c0; c1; c2; c3; c4; c5])
           = Returns adj
           /\ Weight dbg (mkDenseMatrix 3 2 [a0; a1; a2; a3; a4; a5])
              = Returns w
           /\ Mult dbg adj (mkDenseMatrix 3 2 [a0; a1; a2; a3; a4; a5])
                   (mkDenseMatrix 2 2 [p0; p1; p2; p3])
              = Returns (mkDenseMatrix 2 2 [w * w; 0; 0; w * w])).
Proof.
  split; [| split]; intros; destruct dbg;
    (eexists; eexists;
     split; [run; reflexivity |];
     split; [run; reflexivity |];
     run;
     matrix_by ltac:(first
                       [ ring
                       | rewrite sqrt_sqrt;
                         [ring | first [nra | apply gram_nonneg]] ])).
Qed.

(** X16: for 1x1, 2x2 and 3x3 matrices, [CalcAdjugateTranspose] writes
    the transpose (as built by the transposing constructor) of what
    [CalcAdjugate] writes, and [CalcInverseTranspose] the transpose of
    what [CalcInverse] writes. *)
Theorem X16_transposed_variants (dbg : bool) :
  (forall a0 c0 : R,
      let a := mkDenseMatrix 1 1 [a0] in
      let c := mkDenseMatrix 1 1 [c0] in
      CalcAdjugateTranspose dbg a c
      = (s <- CalcAdjugate dbg a c ;; DenseMatrix_transposed dbg s)
      /\ CalcInverseTranspose dbg a c
         = (s <- CalcInverse dbg a c ;; DenseMatrix_transposed dbg s))
  /\ (forall a0 a1 a2 a3 c0 c1 c2 c3 : R,
         let a := mkDenseMatrix 2 2 [a0; a1; a2; a3] in
         let c := mkDenseMatrix 2 2 [c0; c1; c2; c3] in
         CalcAdjugateTranspose dbg a c
         = (s <- CalcAdjugate dbg a c ;; DenseMatrix_transposed dbg s)
         /\ CalcInverseTranspose dbg a c
            = (s <- CalcInverse dbg a c ;; DenseMatrix_transposed dbg s))
  /\ (forall a0 a1 a2 a3 a4 a5 a6 a7 a8 c0 c1 c2 c3 c4 c5 c6 c7 c8 : R,
         let a := mkDenseMatrix 3 3 [a0; a1; a2; a3; a4; a5; a6; a7; a8] in
         let c := mkDenseMatrix 3 3 [c0; c1; c2; c3; c4; c5; c6; c7; c8] in
         CalcAdjugateTranspose dbg a c
         = (s <- CalcAdjugate dbg a c ;; DenseMatrix_transposed dbg s)
         /\ CalcInverseTranspose dbg a c
            = (s <- CalcInverse dbg a c ;; DenseMatrix_transposed dbg s)).
Proof.
  split; [| split]; intros; cbv zeta; destruct dbg;
    split; run; reflexivity.
Qed.

Lemma Weight_unsupported_shape (dbg : bool) (M : DenseMatrix R) :
  height M <> width M ->
  ~ (height M = 2 /\ width M = 1)%Z ->
  ~ (height M = 3 /\ width M = 1)%Z ->
  ~ (height M = 3 /\ width M = 2)%Z ->
  Weight dbg M = Aborts "DenseMatrix::Weight()".
Proof.
  intros H0 H1 H2 H3. unfold Weight.
  apply Z.eqb_neq in H0. rewrite H0.
  assert (E1 : ((height M =? 2) && (width M =? 1))%Z%bool = false).
  { apply Bool.andb_false_iff.
    destruct (Z.eqb_spec (height M) 2); [| left; reflexivity].
    destruct (Z.eqb_spec (width M) 1); [tauto | right; reflexivity]. }
  assert (E2 : ((height M =? 3) && (width M =? 1))%Z%bool = false).
  { apply Bool.andb_false_iff.
    destruct (Z.eqb_spec (height M) 3); [| left; reflexivity].
    destruct (Z.eqb_spec (width M) 1); [tauto | right; reflexivity]. }
  assert (E3 : ((height M =? 3) && (width M =? 2))%Z%bool = false).
  { apply Bool.andb_false_iff.
    destruct (Z.eqb_spec (height M) 3); [| left; reflexivity].
    destruct (Z.eqb_spec (width M) 2); [tauto | right; reflexivity]. }
  rewrite E1, E2, E3. reflexivity.
Qed.

(** X17: [Weight] aborts with its message, with and without
    [MFEM_DEBUG], on every matrix that is neither square nor of shape
    2x1, 3x1 or 3x2. *)
Theorem X17_Weight_unsupported_shape (dbg : bool) (M : DenseMatrix R) :
  height M <> width M ->
  ~ (height M = 2 /\ width M = 1)%Z ->
  ~ (height M = 3 /\ width M = 1)%Z ->
  ~ (height M = 3 /\ width M = 2)%Z ->
  Weight dbg M = Aborts "DenseMatrix::Weight()".
Proof. apply Weight_unsupported_shape. Qed.

Lemma X17_Weight_unsupported_shape_witness :
  Weight false (mkDenseMatrix 2 3 [1; 0; 0; 1; 0; 0])
  = Aborts "DenseMatrix::Weight()".
Proof.
  apply X17_Weight_unsupported_shape; cbn; lia.
Defined.

(** * Arrays and loops *)

Section Storage.

Context {T : Type}.

Lemma length_upd (d : list T) (k : nat) (x : T) :
  List.length (upd d k x) = List.length d.
Proof.
  revert k. induction d as [| y d IH]; intros [| k]; cbn; auto.
Qed.

Lemma nth_error_upd_eq (d : list T) (k : nat) (x : T) :
  (k < List.length d)%nat -> nth_error (upd d k x) k = Some x.
Proof.
  revert k. induction d as [| y d IH]; intros [| k] H; cbn in *;
    try lia; auto. apply IH. lia.
Qed.

Lemma nth_error_upd_ne (d : list T) (k k' : nat) (x : T) :
  k <> k' -> nth_error (upd d k x) k' = nth_error d k'.
Proof.
  revert k k'. induction d as [| y d IH]; intros [| k] [| k'] H; cbn;
    try reflexivity; try congruence. apply IH. congruence.
Qed.

Lemma rdz_ok (d : list T) (k : Z) :
  (0 <= k < Z.of_nat (List.length d))%Z ->
  exists x, rdz d k = Returns x /\ nth_error d (Z.to_nat k) = Some x.
Proof.
  intros H. unfold rdz, rd.
  destruct (Z.ltb_spec k 0); [lia |].
  destruct (nth_error d (Z.to_nat k)) as [x |] eqn:E.
  - exists x. auto.
  - apply nth_error_None in E. lia.
Qed.

Lemma wrz_ok (d : list T) (k : Z) (x : T) :
  (0 <= k < Z.of_nat (List.length d))%Z ->
  wrz d k x = Returns (upd d (Z.to_nat k) x).
Proof.
  intros H. unfold wrz.
  destruct (Z.ltb_spec k 0); [lia |].
  destruct (Nat.ltb_spec (Z.to_nat k) (List.length d)); [reflexivity | lia].
Qed.

(** Two arrays of the same length with the same entries are equal. *)
Lemma list_ext (d e : list T) :
  List.length d = List.length e ->
  (forall k, (k < List.length d)%nat -> nth_error d k = nth_error e k) ->
  d = e.
Proof.
  revert e. induction d as [| x d IH]; intros [| y e] L H; cbn in *;
    try discriminate; [reflexivity |].
  f_equal.
  - specialize (H 0%nat). cbn in H. assert (Some x = Some y) by (apply H; lia).
    congruence.
  - apply IH; [lia |]. intros k Hk. apply (H (Datatypes.S k)). lia.
Qed.

(** The invariant rule for [for] loops. *)
Lemma iter_from_inv {S : Type} (P : Z -> S -> Prop)
  (body : Z -> S -> outcome S) (n : nat) :
  forall (i : Z) (s : S),
    P i s ->
    (forall j t, (i <= j < i + Z.of_nat n)%Z -> P j t ->
                 exists t', body j t = Returns t' /\ P (j + 1)%Z t') ->
    exists t, iter_from n i body s = Returns t /\ P (i + Z.of_nat n)%Z t.
Proof.
  induction n as [| n IH]; intros i s H0 Hstep.
  - exists s. split; [reflexivity |].
    replace (i + Z.of_nat 0)%Z with i by lia. exact H0.
  - cbn [iter_from].
    destruct (Hstep i s) as (t' & E & H1); [lia | exact H0 |].
    rewrite E. cbn [bind].
    destruct (IH (i + 1)%Z t' H1) as (t & Et & Ht).
    { intros j u Hj. apply Hstep. lia. }
    exists t. split; [exact Et |].
    replace (i + Z.of_nat (Datatypes.S n))%Z
      with (i + 1 + Z.of_nat n)%Z by lia.
    exact Ht.
Qed.

Lemma for_inv {S : Type} (P : Z -> S -> Prop)
  (body : Z -> S -> outcome S) (lo hi : Z) (s : S) :
  (lo <= hi)%Z ->
  P lo s ->
  (forall j t, (lo <= j < hi)%Z -> P j t ->
               exists t', body j t = Returns t' /\ P (j + 1)%Z t') ->
  exists t, for_ lo hi body s = Returns t /\ P hi t.
Proof.
  intros Hle H0 Hstep. unfold for_.
  destruct (iter_from_inv P body (Z.to_nat (hi - lo)) lo s H0)
    as (t & E & Ht).
  { intros j u Hj. apply Hstep. lia. }
  exists t. split; [exact E |].
  replace (lo + Z.of_nat (Z.to_nat (hi - lo)))%Z with hi in Ht by lia.
  exact Ht.
Qed.

Lemma for_empty {S : Type} (body : Z -> S -> outcome S) (lo hi : Z) (s : S) :
  (hi <= lo)%Z -> for_ lo hi body s = Returns s.
Proof.
  intros H. unfold for_. replace (Z.to_nat (hi - lo)) with 0%nat by lia.
  reflexivity.
Qed.

(** The entry [(i, j)] of a matrix, as stored. *)
Lemma get_ok (dbg : bool) (M : DenseMatrix T) (i j : Z) :
  well_formed M -> (0 <= i < height M)%Z -> (0 <= j < width M)%Z ->
  exists x,
    get dbg M i j = Returns x
    /\ elem dbg M i j = Returns x
    /\ nth_error (data M) (Z.to_nat (i + j * height M)) = Some x.
Proof.
  intros (Hh & Hw & HL) Hi Hj. unfold get, elem, bad_index.
  assert (E : ((i <? 0) || (i >=? height M) || (j <? 0)
               || (j >=? width M))%Z%bool = false).
  { destruct (Z.ltb_spec i 0); [lia |].
    destruct (Z.geb_spec i (height M)); [lia |].
    destruct (Z.ltb_spec j 0); [lia |].
    destruct (Z.geb_spec j (width M)); [lia | reflexivity]. }
  rewrite E, Bool.andb_false_r.
  destruct (rdz_ok (data M) (i + j * height M)) as (x & E1 & E2); [nia |].
  exists x. auto.
Qed.

Lemma set_ok (dbg : bool) (M : DenseMatrix T) (i j : Z) (x : T) :
  well_formed M -> (0 <= i < height M)%Z -> (0 <= j < width M)%Z ->
  set dbg M i j x
  = Returns (mkDenseMatrix (height M) (width M)
               (upd (data M) (Z.to_nat (i + j * height M)) x)).
Proof.
  intros (Hh & Hw & HL) Hi Hj. unfold set, bad_index.
  assert (E : ((i <? 0) || (i >=? height M) || (j <? 0)
               || (j >=? width M))%Z%bool = false).
  { destruct (Z.ltb_spec i 0); [lia |].
    destruct (Z.geb_spec i (height M)); [lia |].
    destruct (Z.ltb_spec j 0); [lia |].
    destruct (Z.geb_spec j (width M)); [lia | reflexivity]. }
  rewrite E, Bool.andb_false_r, wrz_ok by nia. reflexivity.
Qed.

End Storage.

(** * Transposition *)

Section Transposition.

Context {T : Type} {A : Num.Arith T}.

Lemma index_inj (H i j i' j' : Z) :
  (0 <= i < H)%Z -> (0 <= i' < H)%Z -> (0 <= j)%Z -> (0 <= j')%Z ->
  Z.to_nat (i + j * H) = Z.to_nat (i' + j' * H) ->
  i = i' /\ j = j'.
Proof.
  intros Hi Hi' Hj Hj' E.
  assert (E' : (i + j * H = i' + j' * H)%Z) by nia.
  assert (j = j') by nia. subst j'. split; [lia | reflexivity].
Qed.

(** A matrix filled entry by entry, row after row: afterwards entry
    [(i, j)] holds the value assigned to it. *)
Lemma fill_spec (dbg : bool) (this0 : DenseMatrix T)
  (rdf : Z -> Z -> outcome T) (f : Z -> Z -> T) :
  well_formed this0 ->
  (forall i j, (0 <= i < height this0)%Z -> (0 <= j < width this0)%Z ->
               rdf i j = Returns (f i j)) ->
  exists d,
    for_ 0 (height this0)
      (fun i this =>
         for_ 0 (width this)
           (fun j this => x <- rdf i j ;; set dbg this i j x) this)
      this0
    = Returns (mkDenseMatrix (height this0) (width this0) d)
    /\ List.length d = List.length (data this0)
    /\ forall i j, (0 <= i < height this0)%Z -> (0 <= j < width this0)%Z ->
                   nth_error d (Z.to_nat (i + j * height this0))
                   = Some (f i j).
Proof.
  intros WF Hrd. pose proof WF as (Hh & Hw & HL).
  set (H := height this0) in *. set (W := width this0) in *.
  set (shape := fun this : DenseMatrix T =>
                  height this = H /\ width this = W
                  /\ List.length (data this) = List.length (data this0)).
  set (P := fun (i : Z) (this : DenseMatrix T) =>
              shape this
              /\ forall i' j', (0 <= i' < i)%Z -> (0 <= j' < W)%Z ->
                               nth_error (data this) (Z.to_nat (i' + j' * H))
                               = Some (f i' j')).
  destruct (for_inv P
              (fun i this =>
                 for_ 0 (width this)
                   (fun j this => x <- rdf i j ;; set dbg this i j x) this)
              0 H this0) as (t & E & (Hs & Ht)).
  - exact Hh.
  - split; [repeat split; reflexivity | intros; lia].
  - intros i this Hi ((S1 & S2 & S3) & Hrows).
    set (Q := fun (j : Z) (this : DenseMatrix T) =>
                shape this
                /\ (forall i' j', (0 <= i' < i)%Z -> (0 <= j' < W)%Z ->
                                  nth_error (data this)
                                            (Z.to_nat (i' + j' * H))
                                  = Some (f i' j'))
                /\ forall j', (0 <= j' < j)%Z ->
                              nth_error (data this) (Z.to_nat (i + j' * H))
                              = Some (f i j')).
    rewrite S2.
    destruct (for_inv Q
                (fun j this => x <- rdf i j ;; set dbg this i j x)
                0 W this) as (t & E & (Hs & Ha & Hb)).
    + exact Hw.
    + split; [repeat split; assumption |].
      split; [exact Hrows | intros; lia].
    + intros j u Hj ((U1 & U2 & U3) & Ua & Ub).
      rewrite (Hrd i j) by assumption. cbn [bind].
      assert (WFu : well_formed u).
      { unfold well_formed. rewrite U1, U2, U3. exact WF. }
      rewrite set_ok by (assumption || lia).
      eexists. split; [reflexivity |].
      unfold Q, shape. cbn [data height width]. rewrite U1, U2.
      assert (Hk : (Z.to_nat (i + j * H) < List.length (data u))%nat).
      { rewrite U3. nia. }
      split; [rewrite length_upd; auto |].
      split.
      * intros i' j' Hi' Hj'. rewrite nth_error_upd_ne.
        -- apply Ua; assumption.
        -- intros Ek. destruct (index_inj H i j i' j') as [-> _]; lia.
      * intros j' Hj'. destruct (Z.eq_dec j' j) as [-> | NE].
        -- apply nth_error_upd_eq. exact Hk.
        -- rewrite nth_error_upd_ne.
           ++ apply Ub. lia.
           ++ intros Ek. destruct (index_inj H i j i j') as [_ ->]; lia.
    + exists t. split; [exact E |]. split; [exact Hs |].
      intros i' j' Hi' Hj'. destruct (Z.eq_dec i' i) as [-> | NE].
      * apply Hb. exact Hj'.
      * apply Ha; lia.
  - destruct Hs as (S1 & S2 & S3). destruct t as [ht wt dt].
    cbn [height width data] in *. subst ht wt.
    exists dt. split; [exact E |]. split; [exact S3 |]. exact Ht.
Qed.

Lemma length_fresh (n : Z) : List.length (fresh (A := A) n) = Z.to_nat n.
Proof. unfold fresh. apply repeat_length. Qed.

(** The transposing constructor builds the matrix with entry [(i, j)]
    equal to entry [(j, i)] of its argument. *)
Lemma DenseMatrix_transposed_spec (dbg : bool) (M : DenseMatrix T) :
  well_formed M ->
  exists d,
    DenseMatrix_transposed dbg M
    = Returns (mkDenseMatrix (width M) (height M) d)
    /\ Z.of_nat (List.length d) = (width M * height M)%Z
    /\ forall i j, (0 <= i < width M)%Z -> (0 <= j < height M)%Z ->
                   nth_error d (Z.to_nat (i + j * width M))
                   = nth_error (data M) (Z.to_nat (j + i * height M)).
Proof.
  intros WF. pose proof WF as (Hh & Hw & HL).
  unfold DenseMatrix_transposed. cbv zeta.
  set (this0 := mkDenseMatrix (width M) (height M)
                  (fresh (width M * height M))).
  assert (WF0 : well_formed this0).
  { unfold well_formed, this0. cbn [height width data].
    rewrite length_fresh. repeat split; try assumption. nia. }
  destruct (fill_spec dbg this0 (fun i j => get dbg M j i)
              (fun i j => nth (Z.to_nat (j + i * height M)) (data M)
                              (Num.lit 0)) WF0) as (d & E & L & Hd).
  - intros i j Hi Hj. cbn [height width this0] in Hi, Hj.
    destruct (get_ok dbg M j i WF Hj Hi) as (x & E & _ & N).
    rewrite E. f_equal. symmetry. apply nth_error_nth. exact N.
  - exists d. split; [exact E |].
    split.
    + rewrite L. unfold this0. cbn [data]. rewrite length_fresh. nia.
    + intros i j Hi Hj. cbn [height width this0] in Hd.
      rewrite (Hd i j Hi Hj).
      symmetry. apply nth_error_nth'. nia.
Qed.

Lemma index_decompose (H W : Z) (k : nat) :
  (0 <= H)%Z -> (0 <= W)%Z -> (Z.of_nat k < H * W)%Z ->
  exists i j, (0 <= i < H)%Z /\ (0 <= j < W)%Z /\ k = Z.to_nat (i + j * H).
Proof.
  intros Hh Hw Hk.
  assert (Hpos : (0 < H)%Z) by nia.
  exists (Z.of_nat k mod H)%Z, (Z.of_nat k / H)%Z.
  pose proof (Z.mod_pos_bound (Z.of_nat k) H Hpos).
  pose proof (Z.div_mod (Z.of_nat k) H ltac:(lia)).
  assert (0 <= Z.of_nat k / H)%Z by (apply Z.div_pos; lia).
  repeat split; first [lia | apply Z.div_lt_upper_bound; lia | nia].
Qed.

Lemma DenseMatrix_transposed_twice (dbg : bool) (M : DenseMatrix T) :
  well_formed M ->
  (M' <- DenseMatrix_transposed dbg M ;; DenseMatrix_transposed dbg M')
  = Returns M.
Proof.
  intros WF. pose proof WF as (Hh & Hw & HL).
  destruct (DenseMatrix_transposed_spec dbg M WF) as (d1 & E1 & L1 & H1).
  rewrite E1. cbn [bind].
  set (M1 := mkDenseMatrix (width M) (height M) d1) in *.
  assert (WF1 : well_formed M1).
  { unfold well_formed, M1. cbn [height width data]. auto. }
  destruct (DenseMatrix_transposed_spec dbg M1 WF1) as (d2 & E2 & L2 & H2).
  rewrite E2. cbn [height width data M1] in *.
  destruct M as [h w d]. cbn [height width data] in *. f_equal. f_equal.
  apply list_ext; [nia |].
  intros k Hk.
  destruct (index_decompose h w k Hh Hw) as (i & j & Hi & Hj & ->); [nia |].
  rewrite (H2 i j Hi Hj). apply H1; assumption.
Qed.

End Transposition.

(** X18: the transposing constructor applied twice gives back the
    matrix, for every matrix whose array has [height * width] entries,
    for every arithmetic and in both builds; no entry is lost and no
    access leaves the arrays. *)
Theorem X18_transposed_twice
  (T : Type) (A : Num.Arith T) (dbg : bool) (M : DenseMatrix T) :
  well_formed M ->
  (M' <- DenseMatrix_transposed dbg M ;; DenseMatrix_transposed dbg M')
  = Returns M.
Proof. apply DenseMatrix_transposed_twice. Qed.

Lemma X18_transposed_twice_witness :
  (M' <- DenseMatrix_transposed false
           (mkDenseMatrix 2 3 [1; 2; 3; 4; 5; 6]) ;;
   DenseMatrix_transposed false M')
  = Returns (mkDenseMatrix 2 3 [1; 2; 3; 4; 5; 6]).
Proof.
  apply (X18_transposed_twice R RArith false
           (mkDenseMatrix 2 3 [1; 2; 3; 4; 5; 6])).
  unfold well_formed. cbn. lia.
Defined.

(** * Transposition in place *)

Section InPlace.

Context {T : Type} {A : Num.Arith T}.

(** The copy loop of [operator=]. *)
Lemma copy_loop (src d0 : list T) :
  List.length d0 = List.length src ->
  for_ 0 (Z.of_nat (List.length src))
    (fun i d => x <- rdz src i ;; wrz d i x) d0
  = Returns src.
Proof.
  intros L.
  set (P := fun (i : Z) (d : list T) =>
              List.length d = List.length src
              /\ forall k, (Z.of_nat k < i)%Z ->
                           nth_error d k = nth_error src k).
  destruct (for_inv P (fun i d => x <- rdz src i ;; wrz d i x)
              0 (Z.of_nat (List.length src)) d0) as (d & E & (Ld & Hd)).
  - lia.
  - split; [exact L | intros; lia].
  - intros j d Hj (Ld & Hd).
    destruct (rdz_ok src j) as (x & E & N); [lia |].
    rewrite E. cbn [bind]. rewrite wrz_ok by lia.
    eexists. split; [reflexivity |]. split; [rewrite length_upd; exact Ld |].
    intros k Hk. destruct (Nat.eq_dec k (Z.to_nat j)) as [-> | NE].
    + rewrite nth_error_upd_eq by lia. symmetry. exact N.
    + rewrite nth_error_upd_ne by congruence. apply Hd. lia.
  - rewrite E. f_equal. apply list_ext; [exact Ld |].
    intros k Hk. apply Hd. lia.
Qed.

Lemma assign_spec (this m : DenseMatrix T) :
  well_formed m ->
  (height this <> height m \/ width this <> width m) ->
  assign this m = Returns m.
Proof.
  intros (Hh & Hw & HL) NE. unfold assign, SetSize.
  assert (E : ((height this =? height m) && (width this =? width m))%Z%bool
              = false).
  { apply Bool.andb_false_iff. destruct NE as [NE | NE];
      [left | right]; apply Z.eqb_neq; exact NE. }
  rewrite E. destruct m as [h w d]. cbn [height width data] in *.
  destruct ((h >? 0) && (w >? 0))%Z%bool eqn:Epos; cbn [height width data].
  - rewrite <- HL, copy_loop; [reflexivity |].
    rewrite repeat_length. lia.
  - assert (Z0 : (h * w = 0)%Z).
    { apply Bool.andb_false_iff in Epos. destruct Epos as [Ep | Ep].
      - destruct (Z.gtb_spec h 0); [discriminate |].
        assert (h = 0)%Z by lia. subst h. lia.
      - destruct (Z.gtb_spec w 0); [discriminate |].
        assert (w = 0)%Z by lia. subst w. lia. }
    rewrite Z0. rewrite for_empty by lia. cbn [bind].
    destruct d; [reflexivity | cbn in HL; lia].
Qed.

Lemma swapped_row_start (i a b : Z) :
  swapped i (i + 1) a b = ((a <? i) || (b <? i))%Z%bool.
Proof.
  unfold swapped.
  destruct (Z.ltb_spec a i), (Z.ltb_spec b i), (Z.eqb_spec a i),
    (Z.eqb_spec b i), (Z.ltb_spec i b), (Z.ltb_spec i a),
    (Z.ltb_spec b (i + 1)), (Z.ltb_spec a (i + 1));
    cbn; try reflexivity; lia.
Qed.

Lemma swapped_row_end (n i a b : Z) :
  (0 <= a < n)%Z -> (0 <= b < n)%Z ->
  swapped i n a b = true ->
  ((a <? i + 1) || (b <? i + 1))%Z%bool = true.
Proof.
  unfold swapped. intros Ha Hb.
  destruct (Z.ltb_spec a i), (Z.ltb_spec b i), (Z.eqb_spec a i),
    (Z.eqb_spec b i), (Z.ltb_spec i b), (Z.ltb_spec i a),
    (Z.ltb_spec b n), (Z.ltb_spec a n),
    (Z.ltb_spec a (i + 1)), (Z.ltb_spec b (i + 1));
    cbn; intros; try reflexivity; try discriminate; lia.
Qed.

Lemma swapped_row_end' (n i a b : Z) :
  (0 <= a < n)%Z -> (0 <= b < n)%Z ->
  swapped i n a b = false ->
  ((a <? i + 1) || (b <? i + 1))%Z%bool = false \/ a = b.
Proof.
  unfold swapped. intros Ha Hb.
  destruct (Z.ltb_spec a i), (Z.ltb_spec b i), (Z.eqb_spec a i),
    (Z.eqb_spec b i), (Z.ltb_spec i b), (Z.ltb_spec i a),
    (Z.ltb_spec b n), (Z.ltb_spec a n),
    (Z.ltb_spec a (i + 1)), (Z.ltb_spec b (i + 1));
    cbn; intros; try discriminate; first [left; reflexivity | right; lia].
Qed.

Lemma swapped_step (i j a b : Z) :
  (i < j)%Z ->
  swapped i (j + 1) a b
  = if ((a =? i) && (b =? j) || (a =? j) && (b =? i))%Z%bool then true
    else swapped i j a b.
Proof.
  intros Hij. unfold swapped.
  destruct (Z.ltb_spec a i), (Z.ltb_spec b i), (Z.eqb_spec a i),
    (Z.eqb_spec b i), (Z.ltb_spec i b), (Z.ltb_spec i a),
    (Z.ltb_spec b j), (Z.ltb_spec a j),
    (Z.ltb_spec b (j + 1)), (Z.ltb_spec a (j + 1)),
    (Z.eqb_spec a j), (Z.eqb_spec b j);
    cbn; try reflexivity; lia.
Qed.

Lemma swapped_at (i j : Z) :
  (i < j)%Z -> swapped i j i j = false /\ swapped i j j i = false.
Proof.
  intros Hij. unfold swapped.
  destruct (Z.ltb_spec i i), (Z.ltb_spec j i), (Z.eqb_spec i i),
    (Z.eqb_spec j i), (Z.ltb_spec i j), (Z.ltb_spec j j);
    cbn; split; try reflexivity; lia.
Qed.

End InPlace.

Section InPlace2.

Context {T : Type} {A : Num.Arith T}.

Lemma Transpose_square_spec (dbg : bool) (M : DenseMatrix T) :
  well_formed M -> width M = height M ->
  exists d,
    Transpose dbg M = Returns (mkDenseMatrix (height M) (width M) d)
    /\ List.length d = List.length (data M)
    /\ forall a b, (0 <= a < height M)%Z -> (0 <= b < height M)%Z ->
                   nth_error d (Z.to_nat (a + b * height M))
                   = nth_error (data M) (Z.to_nat (b + a * height M)).
Proof.
  intros WF Hsq. pose proof WF as (Hh & Hw & HL).
  unfold Transpose. rewrite Hsq, Z.eqb_refl.
  set (n := height M) in *. set (d0 := data M) in *.
  set (idx := fun a b : Z => Z.to_nat (a + b * n)).
  set (Inv := fun (sw : Z -> Z -> bool) (this : DenseMatrix T) =>
                (height this = n /\ width this = n
                 /\ List.length (data this) = List.length d0)
                /\ forall a b, (0 <= a < n)%Z -> (0 <= b < n)%Z ->
                               nth_error (data this) (idx a b)
                               = nth_error d0 (if sw a b then idx b a
                                               else idx a b)).
  destruct (for_inv
              (fun i => Inv (fun a b => ((a <? i) || (b <? i))%Z%bool))
              (fun i this =>
                 for_ (i + 1) (width this)
                   (fun j this =>
                      t <- elem dbg this i j ;;
                      x <- elem dbg this j i ;;
                      this <- set dbg this i j x ;;
                      set dbg this j i t)
                   this)
              0 n M) as (t & E & ((S1 & S2 & S3) & Ht)).
  - exact Hh.
  - split; [repeat split; auto |].
    intros a b Ha Hb.
    destruct (Z.ltb_spec a 0); [lia |]. destruct (Z.ltb_spec b 0); [lia |].
    reflexivity.
  - intros i this Hi ((S1 & S2 & S3) & Hrows). rewrite S2.
    destruct (Z.le_gt_cases (i + 1) n) as [Hle | Hgt]; [| lia].
    destruct (for_inv
                (fun j => Inv (swapped i j))
                (fun j this =>
                   t <- elem dbg this i j ;;
                   x <- elem dbg this j i ;;
                   this <- set dbg this i j x ;;
                   set dbg this j i t)
                (i + 1) n this) as (t & E & (Hs & Ha)).
    + exact Hle.
    + split; [repeat split; assumption |].
      intros a b Ha Hb. rewrite swapped_row_start. apply Hrows; assumption.
    + intros j u Hj ((U1 & U2 & U3) & Ua).
      assert (WFu : well_formed u).
      { unfold well_formed. rewrite U1, U2, U3. fold n in HL.
        rewrite Hsq in HL. auto. }
      assert (Hi' : (0 <= i < height u)%Z) by (rewrite U1; lia).
      assert (Hi'' : (0 <= i < width u)%Z) by (rewrite U2; lia).
      assert (Hj' : (0 <= j < height u)%Z) by (rewrite U1; lia).
      assert (Hj'' : (0 <= j < width u)%Z) by (rewrite U2; lia).
      destruct (get_ok dbg u i j WFu Hi' Hj'') as (t0 & _ & Et & Nt).
      destruct (get_ok dbg u j i WFu Hj' Hi'') as (x0 & _ & Ex & Nx).
      rewrite Et, Ex. cbn [bind].
      rewrite set_ok by assumption. cbn [bind].
      set (u1 := mkDenseMatrix (height u) (width u)
                   (upd (data u) (Z.to_nat (i + j * height u)) x0)).
      assert (WF1 : well_formed u1).
      { unfold well_formed, u1. cbn [height width data].
        rewrite length_upd. exact WFu. }
      rewrite set_ok by assumption.
      eexists. split; [reflexivity |].
      unfold Inv, u1. cbn [height width data]. rewrite U1 in *.
      assert (HLn : Z.of_nat (List.length d0) = (n * n)%Z).
      { rewrite HL, Hsq. reflexivity. }
      assert (Kij : (idx i j < List.length (data u))%nat).
      { unfold idx. rewrite U3.
        assert (0 <= i + j * n < n * n)%Z by nia. lia. }
      assert (Kji : (idx j i < List.length (data u))%nat).
      { unfold idx. rewrite U3.
        assert (0 <= j + i * n < n * n)%Z by nia. lia. }
      fold (idx i j) in *. fold (idx j i) in *.
      split; [rewrite !length_upd; auto |].
      intros a b Ha Hb. rewrite swapped_step by lia.
      destruct (swapped_at i j ltac:(lia)) as [Sij Sji].
      assert (C : (a = i /\ b = j) \/ (a = j /\ b = i)
                  \/ (~ (a = i /\ b = j) /\ ~ (a = j /\ b = i))) by lia.
      destruct C as [[-> ->] | [[-> ->] | [N1 N2]]].
      * (* entry (i, j) receives the old entry (j, i) *)
        rewrite !Z.eqb_refl. cbn [andb orb].
        rewrite nth_error_upd_ne.
        -- rewrite nth_error_upd_eq by exact Kij.
           rewrite <- Nx. fold (idx j i). rewrite (Ua j i) by lia.
           rewrite Sji. reflexivity.
        -- unfold idx. intros Ek.
           destruct (index_inj n j i i j) as [? _]; lia.
      * (* entry (j, i) receives the old entry (i, j) *)
        rewrite !Z.eqb_refl, Bool.orb_true_r.
        rewrite nth_error_upd_eq by (rewrite length_upd; exact Kji).
        rewrite <- Nt. fold (idx i j). rewrite (Ua i j) by lia.
        rewrite Sij. reflexivity.
      * assert (Ec : ((a =? i) && (b =? j) || (a =? j) && (b =? i))%Z%bool
                     = false).
        { destruct (Z.eqb_spec a i), (Z.eqb_spec b j), (Z.eqb_spec a j),
            (Z.eqb_spec b i); cbn; try reflexivity; lia. }
        rewrite Ec, !nth_error_upd_ne.
        -- apply Ua; lia.
        -- unfold idx. intros Ek.
           destruct (index_inj n i j a b) as [? ?]; lia.
        -- unfold idx. intros Ek.
           destruct (index_inj n j i a b) as [? ?]; lia.
    + exists t. split; [exact E |]. split; [exact Hs |].
      intros a b Ha' Hb'. rewrite (Ha a b Ha' Hb').
      destruct (swapped i n a b) eqn:Esw.
      * rewrite (swapped_row_end n i a b Ha' Hb' Esw). reflexivity.
      * destruct (swapped_row_end' n i a b Ha' Hb' Esw) as [-> | ->];
          [reflexivity |].
        destruct ((b <? i + 1) || (b <? i + 1))%Z%bool; reflexivity.
  - destruct t as [ht wt dt]. cbn [height width data] in *. subst ht wt.
    exists dt. split; [exact E |]. split; [exact S3 |].
    intros a b Ha Hb. unfold idx in Ht. rewrite (Ht a b Ha Hb).
    assert (X : ((a <? n) || (b <? n))%Z%bool = true).
    { destruct (Z.ltb_spec a n); [reflexivity | lia]. }
    rewrite X. reflexivity.
Qed.

Lemma Transpose_agrees (dbg : bool) (M : DenseMatrix T) :
  well_formed M ->
  Transpose dbg M = DenseMatrix_transposed dbg M.
Proof.
  intros WF. pose proof WF as (Hh & Hw & HL).
  destruct (DenseMatrix_transposed_spec dbg M WF) as (d1 & E1 & L1 & H1).
  destruct (Z.eq_dec (width M) (height M)) as [Hsq | Hns].
  - destruct (Transpose_square_spec dbg M WF Hsq) as (d & E & L & Hd).
    rewrite E, E1, Hsq. f_equal. f_equal.
    apply list_ext; [rewrite Hsq in *; nia |].
    intros k Hk.
    destruct (index_decompose (height M) (height M) k Hh Hh)
      as (a & b & Ha & Hb & ->); [rewrite Hsq in *; nia |].
    rewrite (Hd a b Ha Hb). symmetry.
    rewrite Hsq in H1. apply H1; assumption.
  - unfold Transpose. apply Z.eqb_neq in Hns. rewrite Hns.
    apply Z.eqb_neq in Hns. rewrite E1. cbn [bind].
    apply assign_spec.
    + unfold well_formed. cbn [height width data]. auto.
    + cbn [height width]. left. congruence.
Qed.

End InPlace2.

(** X19: [Transpose()] (exchange of entries in place for a square
    matrix, construction and assignment of the transpose otherwise)
    produces the same matrix as the transposing constructor, for every
    matrix whose array has [height * width] entries. *)
Theorem X19_Transpose_agrees
  (T : Type) (A : Num.Arith T) (dbg : bool) (M : DenseMatrix T) :
  well_formed M ->
  Transpose dbg M = DenseMatrix_transposed dbg M.
Proof. apply Transpose_agrees. Qed.

Lemma X19_Transpose_agrees_witness :
  Transpose false (mkDenseMatrix 2 2 [1; 2; 3; 4])
  = DenseMatrix_transposed false (mkDenseMatrix 2 2 [1; 2; 3; 4]).
Proof.
  apply (X19_Transpose_agrees R RArith false
           (mkDenseMatrix 2 2 [1; 2; 3; 4])).
  unfold well_formed. cbn. lia.
Defined.

(** * Norms and the inner product of matrices *)

(** ** Loops that read an array from its start to its end *)

Section Reading.

Context {T : Type}.

Lemma iter_read_fold {S : Type} (g : S -> T -> S) (d2 d1 : list T) (s : S) :
  iter_from (List.length d2) (Z.of_nat (List.length d1))
    (fun i a => x <- rdz (d1 ++ d2) i ;; Returns (g a x)) s
  = Returns (fold_left g d2 s).
Proof.
  revert d1 s. induction d2 as [| y d2 IH]; intros d1 s; [reflexivity |].
  cbn [List.length iter_from fold_left].
  unfold rdz at 1, rd.
  destruct (Z.ltb_spec (Z.of_nat (List.length d1)) 0); [lia |].
  rewrite Nat2Z.id, nth_error_app2, Nat.sub_diag by lia. cbn [nth_error bind].
  replace (Z.of_nat (List.length d1) + 1)%Z
    with (Z.of_nat (List.length (d1 ++ [y])))
    by (rewrite length_app; cbn; lia).
  replace (d1 ++ y :: d2) with ((d1 ++ [y]) ++ d2)
    by (rewrite <- app_assoc; reflexivity).
  apply IH.
Qed.

(** A loop over [d[0]], ..., [d[hw-1]] that only reads is a left fold. *)
Lemma for_read_fold {S : Type} (g : S -> T -> S) (d : list T) (hw : Z)
  (s : S) :
  Z.of_nat (List.length d) = hw ->
  for_ 0 hw (fun i a => x <- rdz d i ;; Returns (g a x)) s
  = Returns (fold_left g d s).
Proof.
  intros <-. unfold for_.
  rewrite Z.sub_0_r, Nat2Z.id. exact (iter_read_fold g d [] s).
Qed.

End Reading.

(** The largest absolute value and the sum of squares of a list. *)
Lemma fold_max_spec (d : list R) (m0 : R) :
  let m := fold_left (fun m x => if Rlt_b m (fabs x) then fabs x else m) d m0 in
  m0 <= m
  /\ Forall (fun x => fabs x <= m) d
  /\ (m = m0 \/ exists x, In x d /\ m = fabs x).
Proof.
  revert m0. induction d as [| y d IH]; intros m0; cbn [fold_left].
  - repeat split; [lra | constructor | left; reflexivity].
  - set (m1 := if Rlt_b m0 (fabs y) then fabs y else m0).
    assert (H1 : m0 <= m1 /\ fabs y <= m1 /\ (m1 = m0 \/ m1 = fabs y)).
    { unfold m1, Rlt_b.
      destruct (Rlt_dec m0 (fabs y)); repeat split; auto; lra. }
    destruct (IH m1) as (Ha & Hb & Hc). destruct H1 as (H1 & H2 & H3).
    repeat split.
    + lra.
    + constructor; [lra | exact Hb].
    + destruct Hc as [Hc | (x & Hx & Hc)].
      * destruct H3 as [H3 | H3]; [left; congruence |].
        right. exists y. split; [left; reflexivity | congruence].
      * right. exists x. split; [right; exact Hx | exact Hc].
Qed.

Lemma fold_sq_nonneg (d : list R) (s0 : R) :
  s0 <= fold_left (fun s x => s + x * x) d s0.
Proof.
  revert s0. induction d as [| y d IH]; intros s0; cbn [fold_left]; [lra |].
  specialize (IH (s0 + y * y)). pose proof (Rle_0_sqr y) as H.
  unfold Rsqr in H. lra.
Qed.

Lemma fold_sq_mem (d : list R) (s0 : R) (x : R) :
  0 <= s0 -> In x d -> x * x <= fold_left (fun s x => s + x * x) d s0.
Proof.
  revert s0. induction d as [| y d IH]; intros s0 H0 [].
  - subst y. cbn [fold_left]. pose proof (fold_sq_nonneg d (s0 + x * x)). lra.
  - cbn [fold_left]. apply IH; [| assumption].
    pose proof (Rle_0_sqr y) as Hy. unfold Rsqr in Hy. lra.
Qed.

Lemma fold_sq_scaled (d : list R) (m s0 : R) :
  m <> 0 ->
  fold_left (fun s x => s + x / m * (x / m)) d (s0 / (m * m))
  = fold_left (fun s x => s + x * x) d s0 / (m * m).
Proof.
  intros Hm. revert s0. induction d as [| y d IH]; intros s0; cbn [fold_left];
    [reflexivity |].
  rewrite <- IH. f_equal. field. exact Hm.
Qed.

Lemma fold_sq_zero (d : list R) :
  fold_left (fun s x => s + x * x) d 0 = 0 -> Forall (fun x => x = 0) d.
Proof.
  intros H. apply Forall_forall. intros x Hx.
  pose proof (fold_sq_mem d 0 x (Rle_refl 0) Hx) as H1. rewrite H in H1.
  pose proof (Rle_0_sqr x) as H2. unfold Rsqr in H2. nra.
Qed.

Lemma fold_sq_of_zero (d : list R) :
  Forall (fun x => x = 0) d -> fold_left (fun s x => s + x * x) d 0 = 0.
Proof.
  induction 1 as [| y d Hy _ IH]; [reflexivity |].
  cbn [fold_left]. subst y. replace (0 + 0 * 0) with 0 by ring. exact IH.
Qed.

Lemma fold_combine_diag (d : list R) (s0 : R) :
  fold_left (fun s (p : R * R) => s + fst p * snd p) (combine d d) s0
  = fold_left (fun s x => s + x * x) d s0.
Proof.
  revert s0. induction d as [| y d IH]; intros s0; [reflexivity |].
  cbn [combine fold_left fst snd]. apply IH.
Qed.

Lemma iter_from_ext {S : Type} (body body' : Z -> S -> outcome S) (n : nat) :
  (forall i s, body i s = body' i s) ->
  forall i s, iter_from n i body s = iter_from n i body' s.
Proof.
  intros E. induction n as [| n IH]; intros i s; [reflexivity |].
  cbn [iter_from]. rewrite E. destruct (body' i s); cbn [bind]; auto.
Qed.


Lemma MaxMaxNorm_fold (M : DenseMatrix R) :
  well_formed M -> MaxMaxNorm M = Returns (max_abs (data M)).
Proof.
  intros (_ & _ & HL). unfold MaxMaxNorm.
  exact (for_read_fold
           (fun m x => if Rlt_b m (fabs x) then fabs x else m) _ _ 0 HL).
Qed.

Lemma inner_product_self (dbg : bool) (M : DenseMatrix R) :
  well_formed M -> inner_product dbg M M = Returns (sum_sq (data M)).
Proof.
  intros (_ & _ & HL). unfold inner_product.
  rewrite !Z.eqb_refl. cbn [negb orb]. rewrite Bool.andb_false_r.
  unfold for_.
  rewrite (iter_from_ext _
             (fun i a => x <- rdz (data M) i ;; Returns (a + x * x))).
  - exact (for_read_fold (fun s x => s + x * x) _ _ 0 HL).
  - intros i s. destruct (rdz (data M) i); reflexivity.
Qed.

Lemma max_abs_spec (d : list R) :
  0 <= max_abs d
  /\ Forall (fun x => fabs x <= max_abs d) d
  /\ ((d = [] /\ max_abs d = 0) \/ exists x, In x d /\ max_abs d = fabs x).
Proof.
  destruct (fold_max_spec d 0) as (H1 & H2 & H3). fold (max_abs d) in *.
  repeat split; auto.
  destruct H3 as [H3 | H3]; [| right; exact H3].
  destruct d as [| y d]; [left; auto |].
  right. exists y. split; [left; reflexivity |].
  inversion H2 as [| ? ? Hy _]; subst. unfold fabs in *.
  pose proof (Rabs_pos y). lra.
Qed.

Lemma FNorm_fold (M : DenseMatrix R) :
  well_formed M ->
  FNorm M = Returns (if Req_b (max_abs (data M)) 0 then 0
                     else max_abs (data M)
                          * sqrt (sum_sq (data M)
                                  / (max_abs (data M) * max_abs (data M)))).
Proof.
  intros (_ & _ & HL). unfold FNorm. cbv zeta.
  pose proof (for_read_fold
                (fun m x => if Num.ltb m (Num.fabs x) then Num.fabs x else m)
                _ _ (Num.lit 0) HL) as E1.
  cbv beta in E1. rewrite E1. clear E1. cbn [bind].
  change (fold_left _ (data M) (Num.lit 0)) with (max_abs (data M)).
  change (Num.eqb (max_abs (data M)) (Num.lit 0))
    with (Req_b (max_abs (data M)) 0).
  destruct (Req_b (max_abs (data M)) 0) eqn:E; [reflexivity |].
  pose proof (for_read_fold
                (fun s x => Num.add s (Num.mul (Num.div x (max_abs (data M)))
                                         (Num.div x (max_abs (data M)))))
                _ _ (Num.lit 0) HL) as E2.
  cbv beta in E2. rewrite E2. clear E2. cbn [bind].
  change (Returns (max_abs (data M)
            * sqrt (fold_left
                      (fun s x => s + x / max_abs (data M)
                                      * (x / max_abs (data M)))
                      (data M) 0))
          = Returns (max_abs (data M)
                     * sqrt (sum_sq (data M)
                             / (max_abs (data M) * max_abs (data M))))).
  unfold Req_b in E.
  destruct (Req_dec_T (max_abs (data M)) 0) as [| NZ]; [discriminate |].
  replace 0 with (0 / (max_abs (data M) * max_abs (data M))) at 1
    by (field; exact NZ).
  rewrite fold_sq_scaled by exact NZ. reflexivity.
Qed.

Lemma FNorm_norm (dbg : bool) (M : DenseMatrix R) :
  well_formed M ->
  exists f s,
    FNorm M = Returns f /\ inner_product dbg M M = Returns s
    /\ 0 <= f /\ f * f = s
    /\ (f = 0 <-> Forall (fun x => x = 0) (data M)).
Proof.
  intros WF. rewrite (FNorm_fold M WF), (inner_product_self dbg M WF).
  destruct (max_abs_spec (data M)) as (Hm0 & Hle & Hex).
  pose proof (fold_sq_nonneg (data M) 0) as Hs. fold (sum_sq (data M)) in Hs.
  set (m := max_abs (data M)) in *. set (s := sum_sq (data M)) in *.
  unfold Req_b. destruct (Req_dec_T m 0) as [Z0 | NZ].
  - (* every entry is zero *)
    assert (Hz : Forall (fun x => x = 0) (data M)).
    { eapply Forall_impl; [| exact Hle]. cbv beta. intros x Hx.
      unfold fabs in Hx. pose proof (Rabs_pos x).
      destruct (Req_dec_T x 0) as [| Hn]; [assumption |].
      apply Rabs_no_R0 in Hn. lra. }
    exists 0, s. repeat split; auto; try lra.
    unfold s, sum_sq. rewrite (fold_sq_of_zero _ Hz). ring.
  - assert (Hq : 0 <= s / (m * m)).
    { apply Rmult_le_pos; [exact Hs |]. apply Rlt_le, Rinv_0_lt_compat. nra. }
    exists (m * sqrt (s / (m * m))), s. repeat split; auto.
    + apply Rmult_le_pos; [exact Hm0 | apply sqrt_pos].
    + transitivity (m * m * (sqrt (s / (m * m)) * sqrt (s / (m * m))));
        [ring |].
      rewrite sqrt_sqrt by exact Hq. field. exact NZ.
    + intros H0. apply fold_sq_zero. fold (sum_sq (data M)). fold s.
      apply Rmult_integral in H0. destruct H0 as [| H0]; [contradiction |].
      apply sqrt_eq_0 in H0; [| exact Hq].
      apply (f_equal (fun t => t * (m * m))) in H0.
      unfold Rdiv in H0. rewrite Rmult_assoc, Rinv_l in H0 by nra. lra.
    + intros Hz. exfalso. apply NZ.
      destruct Hex as [(_ & E) | (x & Hx & E)]; [exact E |].
      rewrite Forall_forall in Hz. rewrite E, (Hz x Hx). unfold fabs.
      apply Rabs_R0.
Qed.

Lemma MaxMaxNorm_largest (M : DenseMatrix R) :
  well_formed M ->
  exists m f,
    MaxMaxNorm M = Returns m /\ FNorm M = Returns f
    /\ Forall (fun x => fabs x <= m) (data M)
    /\ ((data M = [] /\ m = 0) \/ exists x, In x (data M) /\ m = fabs x)
    /\ m <= f.
Proof.
  intros WF.
  destruct (FNorm_norm false M WF) as (f & s & Ef & Es & Hf & Hff & _).
  rewrite (MaxMaxNorm_fold M WF), Ef.
  rewrite (inner_product_self false M WF) in Es. injection Es as Es.
  destruct (max_abs_spec (data M)) as (Hm0 & Hle & Hex).
  exists (max_abs (data M)), f. repeat split; auto.
  destruct Hex as [(_ & E) | (x & Hx & E)]; [lra |].
  pose proof (fold_sq_mem (data M) 0 x (Rle_refl 0) Hx) as Hxs.
  fold (sum_sq (data M)) in Hxs. rewrite Es in Hxs.
  assert (Hmm : max_abs (data M) * max_abs (data M) = x * x)
    by (rewrite E; apply fabs_sq).
  nra.
Qed.

(** * Symmetrisation, sign adjustment and lumping *)

(** ** Loops that rewrite a pair of mirrored entries *)

Section Pairwise.

Context {T : Type} {A : Num.Arith T}.

(** Two successive assignments to the off-diagonal entries [(i, j)] and
    [(j, i)] of an [n] by [n] matrix. *)
Lemma pair_write (dbg : bool) (n : Z) (u : DenseMatrix T) (i j : Z) (v w : T) :
  height u = n -> width u = n ->
  Z.of_nat (List.length (data u)) = (n * n)%Z ->
  (0 <= i < n)%Z -> (0 <= j < n)%Z -> i <> j ->
  exists d,
    (this <- set dbg u i j v ;; set dbg this j i w)
    = Returns (mkDenseMatrix n n d)
    /\ Z.of_nat (List.length d) = (n * n)%Z
    /\ forall a b, (0 <= a < n)%Z -> (0 <= b < n)%Z ->
         nth_error d (Z.to_nat (a + b * n))
         = if ((a =? i) && (b =? j))%Z%bool then Some v
           else if ((a =? j) && (b =? i))%Z%bool then Some w
           else nth_error (data u) (Z.to_nat (a + b * n)).
Proof.
  intros U1 U2 U3 Hi Hj Hij.
  assert (WFu : well_formed u).
  { unfold well_formed. rewrite U1, U2, U3. repeat split; lia. }
  rewrite (set_ok dbg u i j v WFu) by lia.
  cbn [bind].
  set (u1 := mkDenseMatrix (height u) (width u)
               (upd (data u) (Z.to_nat (i + j * height u)) v)).
  assert (WF1 : well_formed u1).
  { unfold well_formed, u1. cbn [height width data].
    rewrite length_upd. exact WFu. }
  rewrite (set_ok dbg u1 j i w WF1) by (unfold u1; cbn [height width]; lia).
  unfold u1. cbn [height width data]. rewrite U1, U2.
  eexists. split; [reflexivity |].
  assert (Kij : (Z.to_nat (i + j * n) < List.length (data u))%nat).
  { assert (0 <= i + j * n < n * n)%Z by nia. lia. }
  assert (Kji : (Z.to_nat (j + i * n) < List.length (data u))%nat).
  { assert (0 <= j + i * n < n * n)%Z by nia. lia. }
  split; [rewrite !length_upd; exact U3 |].
  intros a b Ha Hb.
  assert (C : (a = i /\ b = j) \/ (a = j /\ b = i)
              \/ (~ (a = i /\ b = j) /\ ~ (a = j /\ b = i))) by lia.
  destruct C as [[-> ->] | [[-> ->] | [N1 N2]]].
  - rewrite !Z.eqb_refl. cbn [andb].
    rewrite nth_error_upd_ne.
    + apply nth_error_upd_eq. exact Kij.
    + intros Ek. destruct (index_inj n j i i j) as [? _]; lia.
  - assert (Ec : ((j =? i) && (i =? j))%Z%bool = false).
    { destruct (Z.eqb_spec j i); [lia | reflexivity]. }
    rewrite Ec, !Z.eqb_refl. cbn [andb].
    apply nth_error_upd_eq. rewrite length_upd. exact Kji.
  - assert (Ec1 : ((a =? i) && (b =? j))%Z%bool = false).
    { destruct (Z.eqb_spec a i), (Z.eqb_spec b j); cbn;
        try reflexivity; lia. }
    assert (Ec2 : ((a =? j) && (b =? i))%Z%bool = false).
    { destruct (Z.eqb_spec a j), (Z.eqb_spec b i); cbn;
        try reflexivity; lia. }
    rewrite Ec1, Ec2, !nth_error_upd_ne; [reflexivity | |].
    + intros Ek. destruct (index_inj n i j a b) as [? ?]; lia.
    + intros Ek. destruct (index_inj n j i a b) as [? ?]; lia.
Qed.

Lemma averaged_start (a b : Z) :
  (0 <= a)%Z -> (0 <= b)%Z -> averaged 0 0 a b = false.
Proof.
  intros Ha Hb. unfold averaged.
  destruct (Z.ltb_spec a 0), (Z.ltb_spec b 0), (Z.eqb_spec a b),
    (Z.eqb_spec a 0), (Z.eqb_spec b 0); cbn; try reflexivity; lia.
Qed.

Lemma averaged_row_end (i a b : Z) :
  (0 <= a)%Z -> (0 <= b)%Z ->
  averaged i i a b = averaged (i + 1) 0 a b.
Proof.
  intros Ha Hb. unfold averaged.
  destruct (Z.ltb_spec a i), (Z.ltb_spec b i), (Z.eqb_spec a b),
    (Z.eqb_spec a i), (Z.eqb_spec b i),
    (Z.ltb_spec a (i + 1)), (Z.ltb_spec b (i + 1)),
    (Z.eqb_spec a (i + 1)), (Z.eqb_spec b (i + 1)),
    (Z.ltb_spec a 0), (Z.ltb_spec b 0);
    cbn; try reflexivity; lia.
Qed.

Lemma averaged_step (i j a b : Z) :
  (j < i)%Z ->
  averaged i (j + 1) a b
  = if ((a =? i) && (b =? j) || (a =? j) && (b =? i))%Z%bool then true
    else averaged i j a b.
Proof.
  intros Hij. unfold averaged.
  destruct (Z.ltb_spec a i), (Z.ltb_spec b i), (Z.eqb_spec a b),
    (Z.eqb_spec a i), (Z.eqb_spec b i),
    (Z.ltb_spec b j), (Z.ltb_spec a j),
    (Z.ltb_spec b (j + 1)), (Z.ltb_spec a (j + 1)),
    (Z.eqb_spec a j), (Z.eqb_spec b j);
    cbn; try reflexivity; lia.
Qed.

Lemma averaged_at (i j : Z) :
  (j < i)%Z -> averaged i j i j = false /\ averaged i j j i = false.
Proof.
  intros Hij. unfold averaged.
  destruct (Z.ltb_spec i i), (Z.ltb_spec j i), (Z.eqb_spec i j),
    (Z.eqb_spec j i), (Z.eqb_spec i i), (Z.ltb_spec j j), (Z.ltb_spec i j);
    cbn; split; try reflexivity; lia.
Qed.

Lemma averaged_end (n a b : Z) :
  (0 <= a < n)%Z -> (0 <= b < n)%Z ->
  averaged n 0 a b = negb (a =? b)%Z.
Proof.
  intros Ha Hb. unfold averaged.
  destruct (Z.ltb_spec a n), (Z.ltb_spec b n), (Z.eqb_spec a b),
    (Z.eqb_spec a n), (Z.eqb_spec b n), (Z.ltb_spec a 0), (Z.ltb_spec b 0);
    cbn; try reflexivity; lia.
Qed.

(** The entries of a symmetrised matrix. *)
Lemma Symmetrize_entries (dbg : bool) (M : DenseMatrix T) :
  well_formed M -> width M = height M ->
  exists d,
    Symmetrize dbg M = Returns (mkDenseMatrix (height M) (height M) d)
    /\ Z.of_nat (List.length d) = (height M * height M)%Z
    /\ forall a b, (0 <= a < height M)%Z -> (0 <= b < height M)%Z ->
         exists x y,
           nth_error (data M) (Z.to_nat (a + b * height M)) = Some x
           /\ nth_error (data M) (Z.to_nat (b + a * height M)) = Some y
           /\ nth_error d (Z.to_nat (a + b * height M))
              = Some (if (a =? b)%Z then x
                      else if (b <? a)%Z
                           then Num.mul (Num.div (Num.lit 1) (Num.lit 2))
                                  (Num.add x y)
                           else Num.mul (Num.div (Num.lit 1) (Num.lit 2))
                                  (Num.add y x)).
Proof.
  intros WF Hsq. pose proof WF as (Hh & Hw & HL).
  unfold Symmetrize. rewrite Hsq, Z.eqb_refl. cbn [negb].
  rewrite Bool.andb_false_r.
  set (n := height M) in *. set (d0 := data M) in *.
  rewrite Hsq in HL.
  set (orig := fun a b : Z => nth (Z.to_nat (a + b * n)) d0 (Num.lit 0)).
  assert (Horig : forall a b, (0 <= a < n)%Z -> (0 <= b < n)%Z ->
            nth_error d0 (Z.to_nat (a + b * n)) = Some (orig a b)).
  { intros a b Ha Hb. apply nth_error_nth'.
    assert (0 <= a + b * n < n * n)%Z by nia. lia. }
  set (avg := fun a b : Z =>
                if (b <? a)%Z
                then Num.mul (Num.div (Num.lit 1) (Num.lit 2))
                       (Num.add (orig a b) (orig b a))
                else Num.mul (Num.div (Num.lit 1) (Num.lit 2))
                       (Num.add (orig b a) (orig a b))).
  set (Inv := fun (V : Z -> Z -> bool) (this : DenseMatrix T) =>
                (height this = n /\ width this = n
                 /\ Z.of_nat (List.length (data this)) = (n * n)%Z)
                /\ forall a b, (0 <= a < n)%Z -> (0 <= b < n)%Z ->
                     nth_error (data this) (Z.to_nat (a + b * n))
                     = Some (if V a b then avg a b else orig a b)).
  set (body := fun (i j : Z) (this : DenseMatrix T) =>
                 x <- elem dbg this i j ;;
                 y <- elem dbg this j i ;;
                 this <- set dbg this i j
                           (Num.mul (Num.div (Num.lit 1) (Num.lit 2))
                              (Num.add x y)) ;;
                 set dbg this j i
                   (Num.mul (Num.div (Num.lit 1) (Num.lit 2)) (Num.add x y))).
  destruct (for_inv (fun i => Inv (averaged i 0))
              (fun i this => for_ 0 i (body i) this) 0 n M)
    as (t & E & ((S1 & S2 & S3) & Ht)).
  - exact Hh.
  - split; [repeat split; auto |].
    intros a b Ha Hb. rewrite averaged_start by lia. apply Horig; assumption.
  - intros i this Hi Hinv.
    destruct (for_inv (fun j => Inv (averaged i j)) (body i) 0 i this)
      as (t & E & (Hs & Ha)).
    + lia.
    + exact Hinv.
    + intros j u Hj ((U1 & U2 & U3) & Ua).
      assert (WFu : well_formed u).
      { unfold well_formed. rewrite U1, U2, U3. repeat split; lia. }
      destruct (get_ok dbg u i j WFu) as (x0 & _ & Ex & Nx);
        [rewrite U1; lia | rewrite U2; lia |].
      destruct (get_ok dbg u j i WFu) as (y0 & _ & Ey & Ny);
        [rewrite U1; lia | rewrite U2; lia |].
      unfold body. rewrite Ex, Ey. cbn [bind].
      rewrite U1 in Nx, Ny.
      destruct (averaged_at i j ltac:(lia)) as [Vij Vji].
      rewrite (Ua i j), Vij in Nx by lia. injection Nx as <-.
      rewrite (Ua j i), Vji in Ny by lia. injection Ny as <-.
      destruct (pair_write dbg n u i j
                  (Num.mul (Num.div (Num.lit 1) (Num.lit 2))
                     (Num.add (orig i j) (orig j i)))
                  (Num.mul (Num.div (Num.lit 1) (Num.lit 2))
                     (Num.add (orig i j) (orig j i)))
                  U1 U2 U3) as (d & Ed & Ld & Hd); try lia.
      rewrite Ed. eexists. split; [reflexivity |].
      split; [cbn [height width data]; auto |].
      cbn [data]. intros a b Ha Hb. rewrite (Hd a b Ha Hb).
      rewrite averaged_step by lia.
      destruct (Z.eqb_spec a i) as [-> | Nai];
        destruct (Z.eqb_spec b j) as [-> | Nbj]; cbn [andb orb].
      * unfold avg. destruct (Z.ltb_spec j i); [reflexivity | lia].
      * destruct (Z.eqb_spec i j) as [-> | _]; [lia |]. cbn [andb].
        apply Ua; lia.
      * destruct (Z.eqb_spec a j) as [-> | Naj];
          destruct (Z.eqb_spec j i) as [E' | _]; try lia; cbn [andb];
          apply Ua; lia.
      * destruct (Z.eqb_spec a j) as [-> | Naj];
          destruct (Z.eqb_spec b i) as [-> | Nbi]; cbn [andb];
          try (apply Ua; lia).
        unfold avg. destruct (Z.ltb_spec i j); [lia | reflexivity].
    + exists t. split; [exact E |]. split; [exact Hs |].
      intros a b Ha' Hb'. rewrite <- averaged_row_end by lia.
      apply Ha; assumption.
  - destruct t as [ht wt dt]. cbn [height width data] in *. subst ht wt.
    exists dt. split; [exact E |]. split; [exact S3 |].
    intros a b Ha Hb. exists (orig a b), (orig b a).
    split; [apply Horig; assumption |].
    split; [apply Horig; assumption |].
    rewrite (Ht a b Ha Hb), averaged_end by assumption.
    destruct (Z.eqb_spec a b); reflexivity.
Qed.

End Pairwise.

Lemma Symmetrize_average
  {T : Type} {A : Num.Arith T} (dbg : bool) (M : DenseMatrix T) :
  well_formed M -> width M = height M ->
  exists S,
    Symmetrize dbg M = Returns S
    /\ height S = height M /\ width S = width M
    /\ forall a b, (0 <= b)%Z -> (b <= a)%Z -> (a < height M)%Z ->
         exists x y,
           get dbg M a b = Returns x /\ get dbg M b a = Returns y
           /\ get dbg S a b
              = Returns (if (a =? b)%Z then x
                         else Num.mul (Num.div (Num.lit 1) (Num.lit 2))
                                (Num.add x y))
           /\ get dbg S b a = get dbg S a b.
Proof.
  intros WF Hsq.
  destruct (Symmetrize_entries dbg M WF Hsq) as (d & E & L & Hd).
  exists (mkDenseMatrix (height M) (height M) d).
  split; [exact E |]. cbn [height width]. split; [reflexivity |].
  split; [symmetry; exact Hsq |].
  intros a b Hb0 Hba Han.
  assert (Ha : (0 <= a < height M)%Z) by lia.
  assert (Hb : (0 <= b < height M)%Z) by lia.
  destruct (Hd a b Ha Hb) as (x & y & Nx & Ny & Nab).
  destruct (Hd b a Hb Ha) as (y' & x' & Ny' & Nx' & Nba).
  assert (y' = y) by congruence. assert (x' = x) by congruence.
  subst x' y'.
  exists x, y.
  destruct (get_ok dbg M a b WF) as (x1 & Ex & _ & Nx1);
    [lia | rewrite Hsq; lia |].
  destruct (get_ok dbg M b a WF) as (y1 & Ey & _ & Ny1);
    [lia | rewrite Hsq; lia |].
  assert (x1 = x) by congruence. assert (y1 = y) by congruence.
  subst x1 y1.
  set (S := mkDenseMatrix (height M) (height M) d).
  assert (WFS : well_formed S).
  { unfold well_formed, S. cbn [height width data].
    destruct WF as (Hh & _). auto. }
  destruct (get_ok dbg S a b WFS) as (s1 & Es1 & _ & Ns1);
    [exact Ha | exact Hb |].
  destruct (get_ok dbg S b a WFS) as (s2 & Es2 & _ & Ns2);
    [exact Hb | exact Ha |].
  cbn [S height data] in Ns1, Ns2.
  rewrite Nab in Ns1. rewrite Nba in Ns2.
  injection Ns1 as <-. injection Ns2 as <-.
  repeat split; auto.
  - rewrite Es1. f_equal.
    destruct (Z.eqb_spec a b); [reflexivity |].
    destruct (Z.ltb_spec b a); [reflexivity | lia].
  - rewrite Es1, Es2. f_equal.
    destruct (Z.eqb_spec a b) as [-> | N].
    + rewrite Z.eqb_refl. congruence.
    + destruct (Z.eqb_spec b a); [lia |].
      destruct (Z.ltb_spec b a), (Z.ltb_spec a b); try lia. reflexivity.
Qed.

(** Over the reals a symmetrised matrix is left as it is by a second
    symmetrisation. *)
Lemma Symmetrize_idempotent (dbg : bool) (M : DenseMatrix R) :
  well_formed M -> width M = height M ->
  exists S, Symmetrize dbg M = Returns S /\ Symmetrize dbg S = Returns S.
Proof.
  intros WF Hsq. pose proof WF as (Hh & Hw & HL).
  destruct (Symmetrize_entries dbg M WF Hsq) as (d & E & L & Hd).
  set (S := mkDenseMatrix (height M) (height M) d) in *.
  assert (WFS : well_formed S).
  { unfold well_formed, S. cbn [height width data]. auto. }
  destruct (Symmetrize_entries dbg S WFS eq_refl) as (d' & E' & L' & Hd').
  cbn [S height data] in E', L', Hd'. fold S in E'.
  exists S. split; [exact E |]. rewrite E'. unfold S. f_equal. f_equal.
  apply list_ext; [lia |].
  intros k Hk.
  destruct (index_decompose (height M) (height M) k Hh Hh)
    as (a & b & Ha & Hb & ->); [lia |].
  destruct (Hd' a b Ha Hb) as (x & y & Nx & Ny & ->).
  rewrite Nx. f_equal.
  destruct (Hd a b Ha Hb) as (p & q & Np & Nq & Nab).
  destruct (Hd b a Hb Ha) as (q' & p' & Nq' & Np' & Nba).
  assert (q' = q) by congruence. assert (p' = p) by congruence.
  subst p' q'. rewrite Nab in Nx. rewrite Nba in Ny.
  injection Nx as <-. injection Ny as <-.
  destruct (Z.eqb_spec a b) as [-> | N]; [reflexivity |].
  destruct (Z.eqb_spec b a); [lia |].
  destruct (Z.ltb_spec b a), (Z.ltb_spec a b); try lia; rsimpl; field.
Qed.

Section SignAdjustment.

Context {T : Type} {A : Num.Arith T}.

Lemma rdi_ok (d : list Z) (k : Z) :
  (0 <= k < Z.of_nat (List.length d))%Z ->
  rdi d k = Returns (nth (Z.to_nat k) d 0%Z).
Proof.
  intros H. unfold rdi. destruct (Z.ltb_spec k 0); [lia |].
  rewrite (nth_error_nth' d 0%Z) by lia. reflexivity.
Qed.

(** One assignment to the entry [(i, j)]. *)
Lemma one_write (dbg : bool) (u : DenseMatrix T) (i j : Z) (v : T) :
  well_formed u -> (0 <= i < height u)%Z -> (0 <= j < width u)%Z ->
  exists d,
    set dbg u i j v = Returns (mkDenseMatrix (height u) (width u) d)
    /\ List.length d = List.length (data u)
    /\ forall a b, (0 <= a < height u)%Z -> (0 <= b < width u)%Z ->
         nth_error d (Z.to_nat (a + b * height u))
         = if ((a =? i) && (b =? j))%Z%bool then Some v
           else nth_error (data u) (Z.to_nat (a + b * height u)).
Proof.
  intros WF Hi Hj. pose proof WF as (Hh & Hw & HL).
  rewrite (set_ok dbg u i j v WF Hi Hj).
  eexists. split; [reflexivity |]. split; [apply length_upd |].
  intros a b Ha Hb.
  destruct (Z.eqb_spec a i) as [-> | Na]; cbn [andb];
    [destruct (Z.eqb_spec b j) as [-> | Nb] |].
  - apply nth_error_upd_eq.
    assert (0 <= i + j * height u < height u * width u)%Z by nia. lia.
  - apply nth_error_upd_ne. intros Ek.
    destruct (index_inj (height u) i j i b) as [? ?]; lia.
  - apply nth_error_upd_ne. intros Ek.
    destruct (index_inj (height u) i j a b) as [? ?]; lia.
Qed.

(** The entries of a matrix after the adjustment of the signs. *)
Lemma AdjustDofDirection_entries
  (dbg : bool) (M : DenseMatrix T) (dofs : list Z) :
  well_formed M -> width M = height M ->
  Z.of_nat (List.length dofs) = height M ->
  exists d,
    AdjustDofDirection dbg M dofs
    = Returns (mkDenseMatrix (height M) (height M) d)
    /\ List.length d = List.length (data M)
    /\ forall a b, (0 <= a < height M)%Z -> (0 <= b < height M)%Z ->
         exists x,
           nth_error (data M) (Z.to_nat (a + b * height M)) = Some x
           /\ nth_error d (Z.to_nat (a + b * height M))
              = Some (if xorb (nth (Z.to_nat a) dofs 0 <? 0)%Z
                              (nth (Z.to_nat b) dofs 0 <? 0)%Z
                      then Num.neg x else x).
Proof.
  intros WF Hsq Hdofs. pose proof WF as (Hh & Hw & HL).
  unfold AdjustDofDirection. cbv zeta.
  rewrite Hdofs, Hsq, Z.eqb_refl. cbn [negb orb].
  rewrite Bool.andb_false_r.
  set (n := height M) in *. set (d0 := data M) in *.
  rewrite Hsq in HL.
  set (orig := fun a b : Z => nth (Z.to_nat (a + b * n)) d0 (Num.lit 0)).
  assert (Horig : forall a b, (0 <= a < n)%Z -> (0 <= b < n)%Z ->
            nth_error d0 (Z.to_nat (a + b * n)) = Some (orig a b)).
  { intros a b Ha Hb. apply nth_error_nth'.
    assert (0 <= a + b * n < n * n)%Z by nia. lia. }
  set (neg := fun a : Z => (nth (Z.to_nat a) dofs 0 <? 0)%Z).
  set (Inv := fun (V : Z -> Z -> bool) (this : DenseMatrix T) =>
                (height this = n /\ width this = n
                 /\ List.length (data this) = List.length d0)
                /\ forall a b, (0 <= a < n)%Z -> (0 <= b < n)%Z ->
                     nth_error (data this) (Z.to_nat (a + b * n))
                     = Some (if (V a b && xorb (neg a) (neg b))%bool
                             then Num.neg (orig a b) else orig a b)).
  destruct (Z.eq_dec n 0) as [Z0 | NZ].
  { rewrite Z0. rewrite for_empty by lia.
    exists d0. split; [destruct M; cbn in *; congruence |].
    split; [reflexivity |]. intros; lia. }
  set (body := fun (s i j : Z) (this : DenseMatrix T) =>
                 dj <- rdi dofs j ;;
                 (if ((if (dj <? 0)%Z then (- s)%Z else s) <? 0)%Z
                  then
                    x <- elem dbg this i j ;;
                    this <- set dbg this i j (Num.neg x) ;;
                    y <- elem dbg this j i ;;
                    set dbg this j i (Num.neg y)
                  else Returns this)).
  destruct (for_inv
              (fun i => Inv (fun a b => ((a <? i) || (b <? i))%Z%bool))
              (fun i this =>
                 di <- rdi dofs i ;;
                 for_ (i + 1) n
                   (body (if (di <? 0)%Z then (-1)%Z else 1%Z) i) this)
              0 (n - 1) M) as (t & E & ((S1 & S2 & S3) & Ht)).
  - lia.
  - split; [repeat split; auto |].
    intros a b Ha Hb.
    destruct (Z.ltb_spec a 0); [lia |]. destruct (Z.ltb_spec b 0); [lia |].
    cbn [orb andb]. apply Horig; assumption.
  - intros i this Hi Hinv.
    rewrite rdi_ok by lia. cbn [bind]. fold (neg i).
    destruct (for_inv (fun j => Inv (swapped i j))
                (body (if neg i then (-1)%Z else 1%Z) i) (i + 1) n this)
      as (t & E & (Hs & Ha)).
    + lia.
    + destruct Hinv as (Hshape & Hrows). split; [exact Hshape |].
      intros a b Ha Hb. rewrite swapped_row_start. apply Hrows; assumption.
    + intros j u Hj ((U1 & U2 & U3) & Ua).
      assert (WFu : well_formed u).
      { unfold well_formed. rewrite U1, U2, U3. repeat split; lia. }
      unfold body. rewrite rdi_ok by lia. cbn [bind]. fold (neg j).
      destruct (swapped_at i j ltac:(lia)) as [Sij Sji].
      assert (Et : ((if neg j then (- (if neg i then -1 else 1))%Z
                     else if neg i then (-1)%Z else 1%Z) <? 0)%Z
                   = xorb (neg i) (neg j)).
      { destruct (neg i), (neg j); reflexivity. }
      rewrite Et.
      destruct (xorb (neg i) (neg j)) eqn:Ex.
      * destruct (get_ok dbg u i j WFu) as (x0 & _ & Ex0 & Nx);
          [rewrite U1; lia | rewrite U2; lia |].
        rewrite Ex0. cbn [bind].
        destruct (one_write dbg u i j (Num.neg x0) WFu)
          as (d1 & E1 & L1 & H1); [rewrite U1; lia | rewrite U2; lia |].
        rewrite E1. cbn [bind]. rewrite U1, U2 in *.
        set (u1 := mkDenseMatrix n n d1).
        assert (WF1 : well_formed u1).
        { unfold well_formed, u1. cbn [height width data]. rewrite L1.
          repeat split; lia. }
        destruct (get_ok dbg u1 j i WF1) as (y0 & _ & Ey0 & Ny);
          [cbn; lia | cbn; lia |].
        rewrite Ey0. cbn [bind].
        destruct (one_write dbg u1 j i (Num.neg y0) WF1)
          as (d2 & E2 & L2 & H2); [cbn; lia | cbn; lia |].
        rewrite E2. cbn [u1 height width data] in *.
        eexists. split; [reflexivity |].
        split; [cbn [height width data]; repeat split; congruence |].
        cbn [data]. intros a b Ha Hb.
        rewrite (H2 a b Ha Hb), (H1 a b Ha Hb), swapped_step by lia.
        rewrite (H1 j i) in Ny by lia.
        assert (Eji : ((j =? i) && (i =? j))%Z%bool = false).
        { destruct (Z.eqb_spec j i); [lia | reflexivity]. }
        rewrite Eji, (Ua j i), Sji in Ny by lia. cbn [andb] in Ny.
        injection Ny as <-.
        rewrite (Ua i j), Sij in Nx by lia. cbn [andb] in Nx.
        injection Nx as <-.
        assert (C : (a = i /\ b = j) \/ (a = j /\ b = i)
                    \/ (~ (a = i /\ b = j) /\ ~ (a = j /\ b = i))) by lia.
        destruct C as [[-> ->] | [[-> ->] | [N1 N2]]].
        -- assert (Eij : ((i =? j) && (j =? i))%Z%bool = false).
           { destruct (Z.eqb_spec i j); [lia | reflexivity]. }
           rewrite Eij, !Z.eqb_refl. cbn [andb orb]. rewrite Ex.
           reflexivity.
        -- rewrite !Z.eqb_refl, Bool.orb_true_r. cbn [andb].
           rewrite Bool.xorb_comm, Ex. reflexivity.
        -- assert (Ec1 : ((a =? i) && (b =? j))%Z%bool = false).
           { destruct (Z.eqb_spec a i), (Z.eqb_spec b j); cbn;
               try reflexivity; lia. }
           assert (Ec2 : ((a =? j) && (b =? i))%Z%bool = false).
           { destruct (Z.eqb_spec a j), (Z.eqb_spec b i); cbn;
               try reflexivity; lia. }
           rewrite Ec1, Ec2. cbn [orb]. apply Ua; assumption.
      * eexists. split; [reflexivity |].
        split; [repeat split; assumption |].
        intros a b Ha Hb. rewrite swapped_step by lia.
        rewrite (Ua a b Ha Hb).
        destruct ((a =? i) && (b =? j) || (a =? j) && (b =? i))%Z%bool
          eqn:Ec; [| reflexivity].
        assert (Ef : xorb (neg a) (neg b) = false).
        { apply Bool.orb_true_iff in Ec.
          destruct Ec as [Ec | Ec]; apply Bool.andb_true_iff in Ec;
            destruct Ec as [Ea Eb]; apply Z.eqb_eq in Ea, Eb; subst a b;
            [exact Ex | rewrite Bool.xorb_comm; exact Ex]. }
        rewrite Ef, !Bool.andb_false_r. reflexivity.
    + exists t. split; [exact E |]. split; [exact Hs |].
      intros a b Ha' Hb'. rewrite (Ha a b Ha' Hb').
      destruct (swapped i n a b) eqn:Esw.
      * rewrite (swapped_row_end n i a b Ha' Hb' Esw). reflexivity.
      * destruct (swapped_row_end' n i a b Ha' Hb' Esw) as [-> | ->];
          [reflexivity |].
        rewrite Bool.xorb_nilpotent, !Bool.andb_false_r. reflexivity.
  - destruct t as [ht wt dt]. cbn [height width data] in *. subst ht wt.
    exists dt. split; [exact E |]. split; [exact S3 |].
    intros a b Ha Hb. exists (orig a b).
    split; [apply Horig; assumption |].
    rewrite (Ht a b Ha Hb). fold (neg a). fold (neg b).
    destruct ((a <? n - 1) || (b <? n - 1))%Z%bool eqn:Ev;
      [reflexivity |].
    apply Bool.orb_false_iff in Ev. destruct Ev as [Ea Eb].
    apply Z.ltb_ge in Ea, Eb. assert (a = b) by lia. subst b.
    rewrite Bool.xorb_nilpotent. reflexivity.
Qed.

End SignAdjustment.

(** ** Splitting a loop *)

Lemma iter_from_app {S : Type} (body : Z -> S -> outcome S) (n1 n2 : nat) :
  forall (i : Z) (s : S),
    iter_from (n1 + n2) i body s
    = (t <- iter_from n1 i body s ;;
       iter_from n2 (i + Z.of_nat n1) body t).
Proof.
  induction n1 as [| n1 IH]; intros i s.
  - cbn. replace (i + 0)%Z with i by lia. reflexivity.
  - cbn [Nat.add iter_from]. destruct (body i s) as [s' | |];
      cbn [bind]; try reflexivity.
    rewrite IH. replace (i + 1 + Z.of_nat n1)%Z
      with (i + Z.of_nat (Datatypes.S n1))%Z by lia.
    reflexivity.
Qed.

Lemma for_split {S : Type} (body : Z -> S -> outcome S) (lo k hi : Z)
  (s : S) :
  (lo <= k <= hi)%Z ->
  for_ lo hi body s = (t <- for_ lo k body s ;; for_ k hi body t).
Proof.
  intros H. unfold for_.
  replace (Z.to_nat (hi - lo)) with (Z.to_nat (k - lo) + Z.to_nat (hi - k))%nat
    by lia.
  rewrite iter_from_app.
  replace (lo + Z.of_nat (Z.to_nat (k - lo)))%Z with k by lia.
  reflexivity.
Qed.

Lemma for_first {S : Type} (body : Z -> S -> outcome S) (lo hi : Z) (s : S) :
  (lo < hi)%Z ->
  for_ lo hi body s = (t <- body lo s ;; for_ (lo + 1) hi body t).
Proof.
  intros H. unfold for_.
  replace (Z.to_nat (hi - lo)) with (Datatypes.S (Z.to_nat (hi - (lo + 1))))
    by lia.
  reflexivity.
Qed.

Section Lumping.

Context {T : Type} {A : Num.Arith T}.

Lemma row_sum_step (M : DenseMatrix T) (i : Z) (k : nat) :
  row_sum M i (Datatypes.S k)
  = Num.add (row_sum M i k)
      (nth (Z.to_nat (i + Z.of_nat k * height M)) (data M) (Num.lit 0)).
Proof.
  unfold row_sum. rewrite seq_S, fold_left_app. reflexivity.
Qed.

(** The inner loop of [Lump] on row [i]: the sum of the row and the
    matrix with the row set to zero. *)
Lemma Lump_row (dbg : bool) (M this : DenseMatrix T) (i : Z) :
  well_formed M -> (0 <= i < height M)%Z -> lumped_below M i this ->
  exists u,
    for_ 0 (width this)
      (fun j '(L, this) =>
         x <- elem dbg this i j ;;
         this <- set dbg this i j (Num.lit 0) ;;
         Returns (Num.add L x, this))
      (Num.lit 0, this)
    = Returns (row_sum M i (Z.to_nat (width M)), u)
    /\ well_formed u /\ height u = height M /\ width u = width M
    /\ List.length (data u) = List.length (data M)
    /\ forall a b, (0 <= a < height M)%Z -> (0 <= b < width M)%Z ->
         nth_error (data u) (Z.to_nat (a + b * height M))
         = if (a =? i)%Z then Some (Num.lit 0)
           else nth_error (data this) (Z.to_nat (a + b * height M)).
Proof.
  intros WF Hi (U1 & U2 & U3 & Hrows). pose proof WF as (Hh & Hw & HL).
  rewrite U2.
  set (h := height M) in *. set (w := width M) in *.
  set (d0 := data M) in *.
  set (Q := fun (j : Z) (s : T * DenseMatrix T) =>
              fst s = row_sum M i (Z.to_nat j)
              /\ (height (snd s) = h /\ width (snd s) = w
                  /\ List.length (data (snd s)) = List.length d0)
              /\ forall a b, (0 <= a < h)%Z -> (0 <= b < w)%Z ->
                   nth_error (data (snd s)) (Z.to_nat (a + b * h))
                   = if ((a =? i) && (b <? j))%Z%bool
                     then Some (Num.lit 0)
                     else nth_error (data this) (Z.to_nat (a + b * h))).
  match goal with
  | |- context [for_ 0 w ?f (?z, this)] =>
      destruct (for_inv Q f 0 w (z, this))
        as ([L u] & E & (HL' & (V1 & V2 & V3) & Hu))
  end.
  - exact Hw.
  - split; [reflexivity |]. split; [auto |].
    cbn [snd]. intros a b Ha Hb.
    destruct (Z.ltb_spec b 0); [lia |].
    rewrite Bool.andb_false_r. reflexivity.
  - intros j [L u] Hj (HL' & (V1 & V2 & V3) & Hu).
    cbn [fst snd] in *.
    assert (WFu : well_formed u).
    { unfold well_formed. rewrite V1, V2, V3. auto. }
    destruct (get_ok dbg u i j WFu) as (x0 & _ & Ex0 & Nx);
      [rewrite V1; lia | rewrite V2; lia |].
    rewrite Ex0. cbn [bind].
    destruct (one_write dbg u i j (Num.lit 0) WFu)
      as (d1 & E1 & L1 & H1); [rewrite V1; lia | rewrite V2; lia |].
    rewrite E1. cbn [bind]. rewrite V1, V2 in *.
    eexists. split; [reflexivity |]. cbn [fst snd].
    rewrite (Hu i j) in Nx by lia.
    rewrite Z.eqb_refl in Nx. destruct (Z.ltb_spec j j); [lia |].
    cbn [andb] in Nx. rewrite (Hrows i j) in Nx by lia.
    destruct (Z.ltb_spec i i); [lia |].
    split.
    { replace (Z.to_nat (j + 1)) with (Datatypes.S (Z.to_nat j)) by lia.
      rewrite row_sum_step, HL', Z2Nat.id by lia. cbn [fst]. f_equal.
      symmetry. apply nth_error_nth. exact Nx. }
    split; [cbn [snd height width data]; repeat split; congruence |].
    cbn [snd data]. intros a b Ha Hb. rewrite (H1 a b Ha Hb).
    destruct (Z.eqb_spec a i) as [-> | Na]; cbn [andb].
    + destruct (Z.eqb_spec b j) as [-> | Nb].
      * destruct (Z.ltb_spec j (j + 1)); [reflexivity | lia].
      * rewrite (Hu i b) by lia. rewrite Z.eqb_refl.
        destruct (Z.ltb_spec b j), (Z.ltb_spec b (j + 1));
          try reflexivity; lia.
    + rewrite (Hu a b Ha Hb).
      destruct (Z.eqb_spec a i); [lia | reflexivity].
  - cbn [fst snd] in *. exists u. rewrite E, HL'.
    split; [reflexivity |].
    split; [unfold well_formed; rewrite V1, V2, V3; auto |].
    repeat split; auto.
    intros a b Ha Hb. rewrite (Hu a b Ha Hb).
    destruct (Z.ltb_spec b w); [| lia]. rewrite Bool.andb_true_r.
    reflexivity.
Qed.

(** The rows of [Lump] up to row [k], for [k] within both dimensions. *)
Lemma Lump_rows (dbg : bool) (M : DenseMatrix T) (k : Z) :
  well_formed M -> (0 <= k <= height M)%Z -> (k <= width M)%Z ->
  exists t,
    for_ 0 k
      (fun i this =>
         r <- for_ 0 (width this)
                (fun j '(L, this) =>
                   x <- elem dbg this i j ;;
                   this <- set dbg this i j (Num.lit 0) ;;
                   Returns (Num.add L x, this))
                (Num.lit 0, this) ;;
         let '(L, this) := r in
         set dbg this i i L)
      M
    = Returns t
    /\ lumped_below M k t.
Proof.
  intros WF Hk Hkw. pose proof WF as (Hh & Hw & HL).
  apply for_inv.
  - lia.
  - unfold lumped_below. repeat split; auto.
    intros a b Ha Hb. destruct (Z.ltb_spec a 0); [lia | reflexivity].
  - intros i this Hi Hinv.
    destruct (Lump_row dbg M this i WF ltac:(lia) Hinv)
      as (u & E & WFu & V1 & V2 & V3 & Hu).
    rewrite E. cbn [bind].
    destruct (one_write dbg u i i (row_sum M i (Z.to_nat (width M))) WFu)
      as (d1 & E1 & L1 & H1); [rewrite V1; lia | rewrite V2; lia |].
    rewrite E1. rewrite V1, V2 in *.
    eexists. split; [reflexivity |].
    destruct Hinv as (U1 & U2 & U3 & Hrows).
    unfold lumped_below. cbn [height width data].
    repeat split; try congruence.
    intros a b Ha Hb. rewrite (H1 a b Ha Hb), (Hu a b Ha Hb).
    destruct (Z.eqb_spec a i) as [-> | Na]; cbn [andb].
    + destruct (Z.ltb_spec i (i + 1)); [| lia].
      destruct (Z.eqb_spec b i) as [-> | Nb].
      * rewrite Z.eqb_refl. reflexivity.
      * destruct (Z.eqb_spec i b); [lia | reflexivity].
    + rewrite (Hrows a b Ha Hb).
      destruct (Z.ltb_spec a i), (Z.ltb_spec a (i + 1));
        try reflexivity; lia.
Qed.

(** The entries of a lumped matrix with at least as many columns as
    rows. *)
Lemma Lump_entries (dbg : bool) (M : DenseMatrix T) :
  well_formed M -> (height M <= width M)%Z ->
  exists N,
    Lump dbg M = Returns N
    /\ height N = height M /\ width N = width M
    /\ forall a b, (0 <= a < height M)%Z -> (0 <= b < width M)%Z ->
         get dbg N a b
         = Returns (if (a =? b)%Z then row_sum M a (Z.to_nat (width M))
                    else Num.lit 0).
Proof.
  intros WF Hle. pose proof WF as (Hh & Hw & HL).
  destruct (Lump_rows dbg M (height M) WF ltac:(lia) Hle)
    as (N & E & (S1 & S2 & S3 & HN)).
  exists N. split; [exact E |]. split; [exact S1 |]. split; [exact S2 |].
  intros a b Ha Hb.
  assert (WFN : well_formed N).
  { unfold well_formed. rewrite S1, S2, S3. auto. }
  destruct (get_ok dbg N a b WFN) as (x & Ex & _ & Nx);
    [rewrite S1; lia | rewrite S2; lia |].
  rewrite Ex. rewrite S1, (HN a b Ha Hb) in Nx.
  destruct (Z.ltb_spec a (height M)); [| lia]. congruence.
Qed.

(** [Lump] on a matrix with more rows than columns: the assignment to
    the diagonal entry of row [width] is outside the matrix. *)
Lemma Lump_tall (dbg : bool) (M : DenseMatrix T) :
  well_formed M -> (width M < height M)%Z ->
  Lump dbg M
  = if dbg then Aborts "DenseMatrix::operator()" else OutOfBounds.
Proof.
  intros WF Hlt. pose proof WF as (Hh & Hw & HL).
  destruct (Lump_rows dbg M (width M) WF ltac:(lia) ltac:(lia))
    as (t & E & Hinv).
  unfold Lump.
  rewrite (for_split _ 0 (width M)) by lia. rewrite E. cbn [bind].
  rewrite for_first by lia.
  destruct (Lump_row dbg M t (width M) WF ltac:(lia) Hinv)
    as (u & Eu & WFu & V1 & V2 & V3 & Hu).
  rewrite Eu. cbn [bind].
  unfold set, bad_index. rewrite V1, V2.
  destruct (Z.geb_spec (width M) (width M)); [| lia].
  rewrite !Bool.orb_true_r.
  destruct dbg; cbn [andb bind]; [reflexivity |].
  unfold wrz.
  destruct (Z.ltb_spec (width M + width M * height M) 0); [nia |].
  destruct (Nat.ltb_spec (Z.to_nat (width M + width M * height M))
              (List.length (data u))); [| reflexivity].
  rewrite V3 in *. nia.
Qed.

End Lumping.

Lemma AdjustDofDirection_signs
  {T : Type} {A : Num.Arith T} (dbg : bool) (M : DenseMatrix T)
  (dofs : list Z) :
  well_formed M -> width M = height M ->
  Z.of_nat (List.length dofs) = height M ->
  exists N,
    AdjustDofDirection dbg M dofs = Returns N
    /\ height N = height M /\ width N = width M
    /\ forall a b, (0 <= a < height M)%Z -> (0 <= b < height M)%Z ->
         exists x da db,
           get dbg M a b = Returns x
           /\ rdi dofs a = Returns da /\ rdi dofs b = Returns db
           /\ get dbg N a b
              = Returns (if xorb (da <? 0)%Z (db <? 0)%Z
                         then Num.neg x else x).
Proof.
  intros WF Hsq Hdofs. pose proof WF as (Hh & Hw & HL).
  destruct (AdjustDofDirection_entries dbg M dofs WF Hsq Hdofs)
    as (d & E & L & Hd).
  set (N := mkDenseMatrix (height M) (height M) d) in *.
  assert (WFN : well_formed N).
  { unfold well_formed, N. cbn [height width data]. rewrite L, HL, Hsq.
    auto. }
  exists N. split; [exact E |]. split; [reflexivity |].
  split; [symmetry; exact Hsq |].
  intros a b Ha Hb.
  destruct (Hd a b Ha Hb) as (x & Nx & Nab).
  destruct (get_ok dbg M a b WF) as (x1 & Ex & _ & Nx1);
    [lia | rewrite Hsq; lia |].
  destruct (get_ok dbg N a b WFN) as (y1 & Ey & _ & Ny1);
    [exact Ha | exact Hb |].
  cbn [N height data] in Ny1.
  exists x, (nth (Z.to_nat a) dofs 0%Z), (nth (Z.to_nat b) dofs 0%Z).
  rewrite !rdi_ok by lia. repeat split; congruence.
Qed.

(** Over the reals the adjustment of the signs undoes itself. *)
Lemma AdjustDofDirection_twice
  (dbg : bool) (M : DenseMatrix R) (dofs : list Z) :
  well_formed M -> width M = height M ->
  Z.of_nat (List.length dofs) = height M ->
  (N <- AdjustDofDirection dbg M dofs ;; AdjustDofDirection dbg N dofs)
  = Returns M.
Proof.
  intros WF Hsq Hdofs. pose proof WF as (Hh & Hw & HL).
  destruct (AdjustDofDirection_entries dbg M dofs WF Hsq Hdofs)
    as (d & E & L & Hd).
  rewrite E. cbn [bind].
  set (N := mkDenseMatrix (height M) (height M) d) in *.
  assert (WFN : well_formed N).
  { unfold well_formed, N. cbn [height width data]. rewrite L, HL, Hsq.
    auto. }
  destruct (AdjustDofDirection_entries dbg N dofs WFN eq_refl Hdofs)
    as (d' & E' & L' & Hd').
  rewrite E'. cbn [N height data] in *.
  destruct M as [h w d0]. cbn [height width data] in *. subst w.
  f_equal. f_equal. apply list_ext; [congruence |].
  intros k Hk.
  destruct (index_decompose h h k Hh Hh) as (a & b & Ha & Hb & ->); [lia |].
  destruct (Hd' a b Ha Hb) as (y & Ny & ->).
  destruct (Hd a b Ha Hb) as (x & Nx & Nab).
  rewrite Nx. rewrite Nab in Ny. injection Ny as <-. f_equal.
  destruct (xorb _ _); [rsimpl; ring | reflexivity].
Qed.

(** X20: over the reals and for every matrix whose array has
    [height * width] entries, [FNorm] returns a number that is not
    negative and whose square is the inner product [operator*] of the
    matrix with itself (the sum of the squares of the entries); it is
    zero exactly when every entry is zero. *)
Theorem X20_FNorm_norm (dbg : bool) (M : DenseMatrix R) :
  well_formed M ->
  exists f s,
    FNorm M = Returns f /\ inner_product dbg M M = Returns s
    /\ 0 <= f /\ f * f = s
    /\ (f = 0 <-> Forall (fun x => x = 0) (data M)).
Proof. apply FNorm_norm. Qed.

Lemma X20_FNorm_norm_witness :
  exists f s,
    FNorm (mkDenseMatrix 2 2 [3; 0; 0; -4]) = Returns f
    /\ inner_product false (mkDenseMatrix 2 2 [3; 0; 0; -4])
         (mkDenseMatrix 2 2 [3; 0; 0; -4]) = Returns s
    /\ 0 <= f /\ f * f = s
    /\ (f = 0 <-> Forall (fun x => x = 0) [3; 0; 0; -4]).
Proof.
  apply (X20_FNorm_norm false (mkDenseMatrix 2 2 [3; 0; 0; -4])).
  unfold well_formed. cbn. lia.
Defined.

(** X21: over the reals and for every matrix whose array has
    [height * width] entries, [MaxMaxNorm] returns an upper bound of the
    absolute values of the entries that is attained by an entry (and 0
    for a matrix without entries), and it never exceeds [FNorm]. *)
Theorem X21_MaxMaxNorm_largest (M : DenseMatrix R) :
  well_formed M ->
  exists m f,
    MaxMaxNorm M = Returns m /\ FNorm M = Returns f
    /\ Forall (fun x => fabs x <= m) (data M)
    /\ ((data M = [] /\ m = 0) \/ exists x, In x (data M) /\ m = fabs x)
    /\ m <= f.
Proof. apply MaxMaxNorm_largest. Qed.

Lemma X21_MaxMaxNorm_largest_witness :
  exists m f,
    MaxMaxNorm (mkDenseMatrix 2 2 [3; 0; 0; -4]) = Returns m
    /\ FNorm (mkDenseMatrix 2 2 [3; 0; 0; -4]) = Returns f
    /\ Forall (fun x => fabs x <= m) [3; 0; 0; -4]
    /\ (([3; 0; 0; -4] = [] /\ m = 0)
        \/ exists x, In x [3; 0; 0; -4] /\ m = fabs x)
    /\ m <= f.
Proof.
  apply (X21_MaxMaxNorm_largest (mkDenseMatrix 2 2 [3; 0; 0; -4])).
  unfold well_formed. cbn. lia.
Defined.

(** X22: [Symmetrize] on a square matrix whose array has
    [height * width] entries returns a matrix of the same size in which
    the diagonal is unchanged, every entry [(a, b)] below the diagonal is
    [0.5 * (M(a,b) + M(b,a))] and the entry [(b, a)] above the diagonal
    holds the same value as [(a, b)]; this holds for every arithmetic, in
    both builds. *)
Theorem X22_Symmetrize_average
  (T : Type) (A : Num.Arith T) (dbg : bool) (M : DenseMatrix T) :
  well_formed M -> width M = height M ->
  exists S,
    Symmetrize dbg M = Returns S
    /\ height S = height M /\ width S = width M
    /\ forall a b, (0 <= b)%Z -> (b <= a)%Z -> (a < height M)%Z ->
         exists x y,
           get dbg M a b = Returns x /\ get dbg M b a = Returns y
           /\ get dbg S a b
              = Returns (if (a =? b)%Z then x
                         else Num.mul (Num.div (Num.lit 1) (Num.lit 2))
                                (Num.add x y))
           /\ get dbg S b a = get dbg S a b.
Proof. apply Symmetrize_average. Qed.

Lemma X22_Symmetrize_average_witness :
  exists S,
    Symmetrize false (mkDenseMatrix 2 2 [1; 2; 4; 3]) = Returns S
    /\ height S = 2%Z /\ width S = 2%Z
    /\ forall a b, (0 <= b)%Z -> (b <= a)%Z -> (a < 2)%Z ->
         exists x y,
           get false (mkDenseMatrix 2 2 [1; 2; 4; 3]) a b = Returns x
           /\ get false (mkDenseMatrix 2 2 [1; 2; 4; 3]) b a = Returns y
           /\ get false S a b
              = Returns (if (a =? b)%Z then x else 1 / 2 * (x + y))
           /\ get false S b a = get false S a b.
Proof.
  apply (X22_Symmetrize_average R RArith false
           (mkDenseMatrix 2 2 [1; 2; 4; 3])).
  - unfold well_formed. cbn. lia.
  - reflexivity.
Defined.

(** X23: over the reals, [Symmetrize] applied to the matrix returned by
    [Symmetrize] returns it unchanged. *)
Theorem X23_Symmetrize_idempotent (dbg : bool) (M : DenseMatrix R) :
  well_formed M -> width M = height M ->
  exists S, Symmetrize dbg M = Returns S /\ Symmetrize dbg S = Returns S.
Proof. apply Symmetrize_idempotent. Qed.

Lemma X23_Symmetrize_idempotent_witness :
  exists S,
    Symmetrize false (mkDenseMatrix 2 2 [1; 2; 4; 3]) = Returns S
    /\ Symmetrize false S = Returns S.
Proof.
  apply (X23_Symmetrize_idempotent false (mkDenseMatrix 2 2 [1; 2; 4; 3])).
  - unfold well_formed. cbn. lia.
  - reflexivity.
Defined.

(** X24: [AdjustDofDirection] on an [n] by [n] matrix whose array has
    [n * n] entries and an array of [n] integers returns the matrix of
    the same size in which the entry [(a, b)] is negated when exactly one
    of [dofs[a]], [dofs[b]] is negative and is unchanged otherwise; this
    holds for every arithmetic, in both builds. *)
Theorem X24_AdjustDofDirection_signs
  (T : Type) (A : Num.Arith T) (dbg : bool) (M : DenseMatrix T)
  (dofs : list Z) :
  well_formed M -> width M = height M ->
  Z.of_nat (List.length dofs) = height M ->
  exists N,
    AdjustDofDirection dbg M dofs = Returns N
    /\ height N = height M /\ width N = width M
    /\ forall a b, (0 <= a < height M)%Z -> (0 <= b < height M)%Z ->
         exists x da db,
           get dbg M a b = Returns x
           /\ rdi dofs a = Returns da /\ rdi dofs b = Returns db
           /\ get dbg N a b
              = Returns (if xorb (da <? 0)%Z (db <? 0)%Z
                         then Num.neg x else x).
Proof. apply AdjustDofDirection_signs. Qed.

Lemma X24_AdjustDofDirection_signs_witness :
  exists N,
    AdjustDofDirection false (mkDenseMatrix 2 2 [1; 2; 4; 3]) [-1; 0]%Z
    = Returns N
    /\ height N = 2%Z /\ width N = 2%Z
    /\ forall a b, (0 <= a < 2)%Z -> (0 <= b < 2)%Z ->
         exists x da db,
           get false (mkDenseMatrix 2 2 [1; 2; 4; 3]) a b = Returns x
           /\ rdi [-1; 0]%Z a = Returns da /\ rdi [-1; 0]%Z b = Returns db
           /\ get false N a b
              = Returns (if xorb (da <? 0)%Z (db <? 0)%Z then - x else x).
Proof.
  apply (X24_AdjustDofDirection_signs R RArith false
           (mkDenseMatrix 2 2 [1; 2; 4; 3]) [-1; 0]%Z).
  - unfold well_formed. cbn. lia.
  - reflexivity.
  - reflexivity.
Defined.

(** X25: over the reals, [AdjustDofDirection] applied twice with the
    same array of integers gives back the matrix it started from. *)
Theorem X25_AdjustDofDirection_twice
  (dbg : bool) (M : DenseMatrix R) (dofs : list Z) :
  well_formed M -> width M = height M ->
  Z.of_nat (List.length dofs) = height M ->
  (N <- AdjustDofDirection dbg M dofs ;; AdjustDofDirection dbg N dofs)
  = Returns M.
Proof. apply AdjustDofDirection_twice. Qed.

Lemma X25_AdjustDofDirection_twice_witness :
  (N <- AdjustDofDirection false (mkDenseMatrix 2 2 [1; 2; 4; 3]) [-1; 0]%Z ;;
   AdjustDofDirection false N [-1; 0]%Z)
  = Returns (mkDenseMatrix 2 2 [1; 2; 4; 3]).
Proof.
  apply (X25_AdjustDofDirection_twice false
           (mkDenseMatrix 2 2 [1; 2; 4; 3]) [-1; 0]%Z).
  - unfold well_formed. cbn. lia.
  - reflexivity.
  - reflexivity.
Defined.

(** X26: [Lump] on a matrix with at least as many columns as rows whose
    array has [height * width] entries returns a matrix of the same size
    with the sum of row [a] (accumulated from column 0 upwards, starting
    from 0) at the diagonal entry [(a, a)] and zero at every other entry;
    this holds for every arithmetic, in both builds. *)
Theorem X26_Lump_entries
  (T : Type) (A : Num.Arith T) (dbg : bool) (M : DenseMatrix T) :
  well_formed M -> (height M <= width M)%Z ->
  exists N,
    Lump dbg M = Returns N
    /\ height N = height M /\ width N = width M
    /\ forall a b, (0 <= a < height M)%Z -> (0 <= b < width M)%Z ->
         get dbg N a b
         = Returns (if (a =? b)%Z then row_sum M a (Z.to_nat (width M))
                    else Num.lit 0).
Proof. apply Lump_entries. Qed.

Lemma X26_Lump_entries_witness :
  exists N,
    Lump false (mkDenseMatrix 2 2 [1; 2; 4; 3]) = Returns N
    /\ height N = 2%Z /\ width N = 2%Z
    /\ forall a b, (0 <= a < 2)%Z -> (0 <= b < 2)%Z ->
         get false N a b
         = Returns (if (a =? b)%Z
                    then row_sum (mkDenseMatrix 2 2 [1; 2; 4; 3]) a 2
                    else 0).
Proof.
  apply (X26_Lump_entries R RArith false (mkDenseMatrix 2 2 [1; 2; 4; 3])).
  - unfold well_formed. cbn. lia.
  - cbn. lia.
Defined.

(** X27: [Lump] on a matrix with more rows than columns whose array has
    [height * width] entries does not return: the assignment to the
    diagonal entry of row [width] aborts with "DenseMatrix::operator()"
    in a debug build and is a write outside the array otherwise. *)
Theorem X27_Lump_tall
  (T : Type) (A : Num.Arith T) (dbg : bool) (M : DenseMatrix T) :
  well_formed M -> (width M < height M)%Z ->
  Lump dbg M
  = if dbg then Aborts "DenseMatrix::operator()" else OutOfBounds.
Proof. apply Lump_tall. Qed.

Lemma X27_Lump_tall_witness :
  Lump true (mkDenseMatrix 2 1 [1; 2]) = Aborts "DenseMatrix::operator()".
Proof.
  apply (X27_Lump_tall R RArith true (mkDenseMatrix 2 1 [1; 2])).
  - unfold well_formed. cbn. lia.
  - cbn. lia.
Defined.

(** * The product of two matrices *)

Section Product.

Context {T : Type} {A : Num.Arith T}.

Lemma product_entry_step (b c : DenseMatrix T) (i j : Z) (k : nat) :
  product_entry b c i j (Datatypes.S k)
  = Num.add (product_entry b c i j k)
      (Num.mul
         (nth (Z.to_nat (i + Z.of_nat k * height b)) (data b) (Num.lit 0))
         (nth (Z.to_nat (Z.of_nat k + j * height c)) (data c) (Num.lit 0))).
Proof.
  unfold product_entry. rewrite seq_S, fold_left_app. reflexivity.
Qed.

(** The entries of the product computed by [Mult]. *)
Lemma Mult_entries (dbg : bool) (b c a : DenseMatrix T) :
  well_formed a -> well_formed b -> well_formed c ->
  height a = height b -> width a = width c -> width b = height c ->
  exists d,
    Mult dbg b c a = Returns (mkDenseMatrix (height a) (width a) d)
    /\ List.length d = List.length (data a)
    /\ forall i j, (0 <= i < height a)%Z -> (0 <= j < width a)%Z ->
         nth_error d (Z.to_nat (i + j * height a))
         = Some (product_entry b c i j (Z.to_nat (width b))).
Proof.
  intros WFa WFb WFc E1 E2 E3.
  destruct a as [ha wa da], b as [m p db], c as [hc n dc].
  unfold well_formed in WFa, WFb, WFc. cbn [height width data] in *.
  subst ha wa hc.
  destruct WFa as (Ha1 & Ha2 & HLa), WFb as (Hb1 & Hb2 & HLb),
    WFc as (Hc1 & Hc2 & HLc).
  unfold Mult. cbn [height width data]. rewrite !Z.eqb_refl.
  cbn [negb orb]. rewrite Bool.andb_false_r.
  set (b := mkDenseMatrix m p db). set (c := mkDenseMatrix p n dc).
  set (pe := fun i j => product_entry b c i j (Z.to_nat p)).
  set (P := fun (j : Z) (s : list T * Z * Z) =>
              let '(adata, ad, cd) := s in
              ad = (j * m)%Z /\ cd = (j * p)%Z
              /\ List.length adata = List.length da
              /\ forall i' j', (0 <= i' < m)%Z -> (0 <= j' < j)%Z ->
                   nth_error adata (Z.to_nat (i' + j' * m))
                   = Some (pe i' j')).
  match goal with
  | |- context [for_ 0 n ?f (da, 0%Z, 0%Z)] =>
      destruct (for_inv P f 0 n (da, 0%Z, 0%Z))
        as ([[adata ad] cd] & E & (_ & _ & L & Hd))
  end.
  - exact Hc2.
  - cbn. repeat split; try lia.
  - intros j [[adata ad] cd] Hj (-> & -> & L & Hd).
    set (Q := fun (i : Z) (s : list T * Z) =>
                let '(adata', ad') := s in
                ad' = (i + j * m)%Z
                /\ List.length adata' = List.length da
                /\ forall i' j', (0 <= i' < m)%Z -> (0 <= j' <= j)%Z ->
                     (j' < j \/ i' < i)%Z ->
                     nth_error adata' (Z.to_nat (i' + j' * m))
                     = Some (pe i' j')).
    match goal with
    | |- context [for_ 0 m ?f (adata, (j * m)%Z)] =>
        destruct (for_inv Q f 0 m (adata, (j * m)%Z))
          as ([adata' ad'] & E & (-> & L' & Hd'))
    end.
    + exact Ha1.
    + cbn. repeat split; try lia. intros i' j' Hi' Hj' Hor.
      apply Hd; lia.
    + intros i [adata' ad'] Hi (-> & L' & Hd').
      set (R := fun (k : Z) (s : T * Z * Z) =>
                  let '(d, bdd, cdd) := s in
                  d = product_entry b c i j (Z.to_nat k)
                  /\ bdd = (i + k * m)%Z /\ cdd = (j * p + k)%Z).
      match goal with
      | |- context [for_ 0 p ?f (?z, i, (j * p)%Z)] =>
          destruct (for_inv R f 0 p (z, i, (j * p)%Z))
            as ([[d bdd] cdd] & E & (-> & _ & _))
      end.
      * exact Hb2.
      * cbn. repeat split; lia.
      * intros k [[d bdd] cdd] Hk (-> & -> & ->).
        destruct (rdz_ok db (i + k * m)) as (x & Ex & Nx); [nia |].
        destruct (rdz_ok dc (j * p + k)) as (y & Ey & Ny); [nia |].
        rewrite Ex, Ey. cbn [bind].
        eexists. split; [reflexivity |]. cbn.
        split; [| split; lia].
        replace (Z.to_nat (k + 1)) with (Datatypes.S (Z.to_nat k)) by lia.
        rewrite product_entry_step, Z2Nat.id by lia.
        cbn [b c height width data].
        replace (k + j * p)%Z with (j * p + k)%Z by lia.
        rewrite (nth_error_nth _ _ _ Nx), (nth_error_nth _ _ _ Ny).
        reflexivity.
      * rewrite E. cbn [bind].
        rewrite wrz_ok by (rewrite L'; nia).
        eexists. split; [reflexivity |]. cbn.
        split; [lia |]. split; [rewrite length_upd; exact L' |].
        intros i' j' Hi' Hj' Hor.
        destruct (Z.eq_dec i' i) as [-> | Ni];
          [destruct (Z.eq_dec j' j) as [-> | Nj] |].
        -- apply nth_error_upd_eq. rewrite L'. nia.
        -- rewrite nth_error_upd_ne; [apply Hd'; lia |].
           intros Ek. destruct (index_inj m i j i j') as [? ?]; lia.
        -- rewrite nth_error_upd_ne; [apply Hd'; lia |].
           intros Ek. destruct (index_inj m i j i' j') as [? ?]; lia.
    + rewrite E. cbn [bind].
      eexists. split; [reflexivity |]. cbn.
      split; [lia |]. split; [lia |]. split; [exact L' |].
      intros i' j' Hi' Hj'. apply Hd'; lia.
  - rewrite E. cbn [bind]. eexists. split; [reflexivity |].
    split; [exact L |]. intros i j Hi Hj. apply Hd; lia.
Qed.

Lemma Mult_product (dbg : bool) (b c a : DenseMatrix T) :
  well_formed a -> well_formed b -> well_formed c ->
  height a = height b -> width a = width c -> width b = height c ->
  exists a',
    Mult dbg b c a = Returns a'
    /\ height a' = height a /\ width a' = width a
    /\ forall i j, (0 <= i < height a)%Z -> (0 <= j < width a)%Z ->
         get dbg a' i j
         = Returns (product_entry b c i j (Z.to_nat (width b))).
Proof.
  intros WFa WFb WFc E1 E2 E3.
  destruct (Mult_entries dbg b c a WFa WFb WFc E1 E2 E3)
    as (d & E & L & Hd).
  set (a' := mkDenseMatrix (height a) (width a) d) in *.
  assert (WF' : well_formed a').
  { unfold well_formed, a'. cbn [height width data]. rewrite L.
    exact WFa. }
  exists a'. split; [exact E |]. split; [reflexivity |].
  split; [reflexivity |].
  intros i j Hi Hj.
  destruct (get_ok dbg a' i j WF' Hi Hj) as (x & Ex & _ & Nx).
  cbn [a' height data] in Nx. rewrite (Hd i j Hi Hj) in Nx.
  congruence.
Qed.

End Product.

(** * Products of a matrix and an array *)

Lemma sum_to_ext (n : nat) (f g : nat -> R) :
  (forall i, (i < n)%nat -> f i = g i) -> sum_to n f = sum_to n g.
Proof.
  induction n as [| n IH]; intros H; [reflexivity |].
  cbn [sum_to]. rewrite IH, (H n) by (intros; auto with arith). reflexivity.
Qed.

Lemma sum_to_add (n : nat) (f g : nat -> R) :
  sum_to n (fun i => f i + g i) = sum_to n f + sum_to n g.
Proof.
  induction n as [| n IH]; cbn [sum_to]; [ring | rewrite IH; ring].
Qed.

Lemma sum_to_scal (n : nat) (c : R) (f : nat -> R) :
  c * sum_to n f = sum_to n (fun i => c * f i).
Proof.
  induction n as [| n IH]; cbn [sum_to]; [ring | rewrite <- IH; ring].
Qed.

Lemma sum_to_swap (n m : nat) (f : nat -> nat -> R) :
  sum_to n (fun i => sum_to m (fun j => f i j))
  = sum_to m (fun j => sum_to n (fun i => f i j)).
Proof.
  induction n as [| n IH]; cbn [sum_to].
  - induction m as [| m IHm]; cbn [sum_to]; [reflexivity |].
    rewrite <- IHm. ring.
  - rewrite IH, <- sum_to_add. reflexivity.
Qed.

Lemma rdz_nth (d : list R) (k : Z) :
  (0 <= k < Z.of_nat (List.length d))%Z ->
  rdz d k = Returns (nth (Z.to_nat k) d 0).
Proof.
  intros H. destruct (rdz_ok d k H) as (x & E & N).
  rewrite E. f_equal. symmetry. apply nth_error_nth. exact N.
Qed.

Lemma nth_upd_eq (d : list R) (k : nat) (x : R) :
  (k < List.length d)%nat -> nth k (upd d k x) 0 = x.
Proof.
  intros H. apply nth_error_nth. apply nth_error_upd_eq. exact H.
Qed.

Lemma nth_upd_ne (d : list R) (k k' : nat) (x : R) :
  k <> k' -> nth k' (upd d k x) 0 = nth k' d 0.
Proof.
  intros H. destruct (Nat.lt_ge_cases k' (List.length d)) as [Hlt | Hge].
  - apply nth_error_nth. rewrite nth_error_upd_ne by exact H.
    apply nth_error_nth'. exact Hlt.
  - rewrite !nth_overflow; [reflexivity | lia | rewrite length_upd; lia].
Qed.

(** A loop that rewrites every entry of an array from its old value. *)
Lemma update_loop (n : Z) (body : Z -> list R -> outcome (list R))
  (v : nat -> R -> R) (y : list R) :
  Z.of_nat (List.length y) = n ->
  (forall row u, (0 <= row < n)%Z -> List.length u = List.length y ->
     body row u
     = Returns (upd u (Z.to_nat row)
                  (v (Z.to_nat row) (nth (Z.to_nat row) u 0)))) ->
  exists y',
    for_ 0 n body y = Returns y'
    /\ List.length y' = List.length y
    /\ forall r, (r < List.length y)%nat -> nth r y' 0 = v r (nth r y 0).
Proof.
  intros L Hg.
  set (P := fun (row : Z) (u : list R) =>
              List.length u = List.length y
              /\ forall r, (r < List.length y)%nat ->
                   nth r u 0 = if (Z.of_nat r <? row)%Z then v r (nth r y 0)
                               else nth r y 0).
  destruct (for_inv P body 0 n y) as (y' & E & (L' & H')).
  - lia.
  - split; [reflexivity |]. intros r Hr.
    destruct (Z.ltb_spec (Z.of_nat r) 0); [lia | reflexivity].
  - intros row u Hrow (Lu & Hu).
    rewrite Hg by assumption.
    eexists. split; [reflexivity |].
    split; [rewrite length_upd; exact Lu |].
    intros r Hr. destruct (Nat.eq_dec r (Z.to_nat row)) as [-> | Nr].
    + rewrite nth_upd_eq by lia. rewrite (Hu (Z.to_nat row)) by lia.
      destruct (Z.ltb_spec (Z.of_nat (Z.to_nat row)) row); [lia |].
      destruct (Z.ltb_spec (Z.of_nat (Z.to_nat row)) (row + 1)); [| lia].
      reflexivity.
    + rewrite nth_upd_ne by congruence. rewrite (Hu r Hr).
      destruct (Z.ltb_spec (Z.of_nat r) row),
        (Z.ltb_spec (Z.of_nat r) (row + 1)); try reflexivity; lia.
  - exists y'. split; [exact E |]. split; [exact L' |].
    intros r Hr. rewrite (H' r Hr).
    destruct (Z.ltb_spec (Z.of_nat r) n); [reflexivity | lia].
Qed.

(** A loop that accumulates a sum. *)
Lemma sum_loop (n : Z) (body : Z -> R -> outcome R) (f : nat -> R) :
  (0 <= n)%Z ->
  (forall i s, (0 <= i < n)%Z -> body i s = Returns (s + f (Z.to_nat i))) ->
  for_ 0 n body 0 = Returns (sum_to (Z.to_nat n) f).
Proof.
  intros Hn Hg.
  destruct (for_inv (fun i s => s = sum_to (Z.to_nat i) f) body 0 n 0)
    as (s & E & ->).
  - exact Hn.
  - reflexivity.
  - intros i s Hi ->. rewrite Hg by exact Hi.
    eexists. split; [reflexivity |].
    replace (Z.to_nat (i + 1)) with (Datatypes.S (Z.to_nat i)) by lia.
    reflexivity.
  - exact E.
Qed.

(** The entry [(r, c)] of a matrix of reals, as stored. *)
Lemma entry_read (M : DenseMatrix R) (r c : Z) :
  well_formed M -> (0 <= r < height M)%Z -> (0 <= c < width M)%Z ->
  rdz (data M) (c * height M + r)
  = Returns (nth (Z.to_nat (r + c * height M)) (data M) 0).
Proof.
  intros (Hh & Hw & HL) Hr Hc. rewrite rdz_nth by nia.
  do 2 f_equal. lia.
Qed.

Lemma DenseMatrix_Mult_entries (M : DenseMatrix R) (x y : list R) :
  well_formed M -> (1 <= width M)%Z ->
  Z.of_nat (List.length x) = width M ->
  Z.of_nat (List.length y) = height M ->
  exists y',
    DenseMatrix_Mult M x y = Returns y'
    /\ List.length y' = List.length y
    /\ forall r, (r < List.length y)%nat ->
         nth r y' 0
         = sum_to (Z.to_nat (width M))
             (fun c => nth c x 0
                       * nth (Z.to_nat (Z.of_nat r + Z.of_nat c * height M))
                           (data M) 0).
Proof.
  intros WF Hw1 Lx Ly. pose proof WF as (Hh & Hw & HL).
  unfold DenseMatrix_Mult. cbv zeta.
  rewrite rdz_nth by lia. cbn [bind].
  set (ent := fun (r c : nat) =>
                nth (Z.to_nat (Z.of_nat r + Z.of_nat c * height M))
                  (data M) 0).
  destruct (update_loop (height M)
              (fun row y =>
                 d <- rdz (data M) (0 + row) ;;
                 wrz y row (Num.mul (nth (Z.to_nat 0) x 0) d))
              (fun r _ => nth 0 x 0 * ent r 0%nat) y Ly)
    as (y1 & E1 & L1 & H1).
  { intros row u Hrow Lu.
    replace (0 + row)%Z with (0 * height M + row)%Z by lia.
    rewrite entry_read by (auto; lia). cbn [bind].
    rewrite wrz_ok by lia. unfold ent.
    rewrite Z2Nat.id by lia. reflexivity. }
  rewrite E1. cbn [bind].
  set (P := fun (col : Z) (s : list R * Z) =>
              snd s = (col * height M)%Z
              /\ List.length (fst s) = List.length y
              /\ forall r, (r < List.length y)%nat ->
                   nth r (fst s) 0
                   = sum_to (Z.to_nat col) (fun c => nth c x 0 * ent r c)).
  match goal with
  | |- context [for_ 1 (width M) ?f (y1, ?o)] =>
      destruct (for_inv P f 1 (width M) (y1, o))
        as ([y' o'] & E & (_ & L' & H'))
  end.
  - exact Hw1.
  - unfold P. cbn [fst snd]. split; [lia |]. split; [exact L1 |].
    intros r Hr. rewrite (H1 r Hr). change (Z.to_nat 1) with 1%nat.
    cbn [sum_to]. ring.
  - intros col [u o] Hcol (Eo & Lu & Hu). cbn [fst snd] in *. subst o.
    rewrite rdz_nth by lia. cbn [bind].
    destruct (update_loop (height M)
                (fun row y =>
                   y_row <- rdz y row ;;
                   d <- rdz (data M) (col * height M + row) ;;
                   wrz y row
                     (Num.add y_row (Num.mul (nth (Z.to_nat col) x 0) d)))
                (fun r t => t + nth (Z.to_nat col) x 0 * ent r (Z.to_nat col))
                u ltac:(lia))
      as (u1 & Eu & Lu1 & Hu1).
    { intros row v Hrow Lv.
      rewrite rdz_nth by lia. cbn [bind].
      rewrite entry_read by (auto; lia). cbn [bind].
      rewrite wrz_ok by lia. unfold ent.
      rewrite !Z2Nat.id by lia. reflexivity. }
    rewrite Eu. cbn [bind].
    eexists. split; [reflexivity |]. unfold P. cbn [fst snd].
    split; [lia |]. split; [lia |].
    intros r Hr. rewrite Hu1 by lia. rewrite (Hu r Hr).
    replace (Z.to_nat (col + 1)) with (Datatypes.S (Z.to_nat col)) by lia.
    reflexivity.
  - rewrite E. cbn [bind]. exists y'. cbn [fst snd] in *.
    split; [reflexivity |]. split; [exact L' |]. exact H'.
Qed.

Lemma MultTranspose_entries (M : DenseMatrix R) (x y : list R) :
  well_formed M ->
  Z.of_nat (List.length x) = height M ->
  Z.of_nat (List.length y) = width M ->
  exists y',
    MultTranspose M x y = Returns y'
    /\ List.length y' = List.length y
    /\ forall c, (c < List.length y)%nat ->
         nth c y' 0
         = sum_to (Z.to_nat (height M))
             (fun r => nth r x 0
                       * nth (Z.to_nat (Z.of_nat r + Z.of_nat c * height M))
                           (data M) 0).
Proof.
  intros WF Lx Ly. pose proof WF as (Hh & Hw & HL).
  unfold MultTranspose.
  set (ent := fun (r c : nat) =>
                nth (Z.to_nat (Z.of_nat r + Z.of_nat c * height M))
                  (data M) 0).
  set (P := fun (col : Z) (s : list R * Z) =>
              snd s = (col * height M)%Z
              /\ List.length (fst s) = List.length y
              /\ forall c, (Z.of_nat c < col)%Z ->
                   nth c (fst s) 0
                   = sum_to (Z.to_nat (height M))
                       (fun r => nth r x 0 * ent r c)).
  match goal with
  | |- context [for_ 0 (width M) ?f (y, ?o)] =>
      destruct (for_inv P f 0 (width M) (y, o))
        as ([y' o'] & E & (_ & L' & H'))
  end.
  - exact Hw.
  - unfold P. cbn [fst snd]. split; [lia |]. split; [reflexivity |].
    intros; lia.
  - intros col [u o] Hcol (Eo & Lu & Hu). cbn [fst snd] in *. subst o.
    rewrite (sum_loop (height M) _
               (fun r => nth r x 0 * ent r (Z.to_nat col)) Hh).
    + cbn [bind]. rewrite wrz_ok by lia.
      eexists. split; [reflexivity |]. unfold P. cbn [fst snd].
      split; [lia |]. split; [rewrite length_upd; exact Lu |].
      intros c Hc. destruct (Nat.eq_dec c (Z.to_nat col)) as [-> | Nc].
      * apply nth_upd_eq. lia.
      * rewrite nth_upd_ne by congruence. apply Hu. lia.
    + intros i s Hi. rewrite rdz_nth by lia. cbn [bind].
      rewrite entry_read by (auto; lia). cbn [bind]. unfold ent.
      rewrite !Z2Nat.id by lia. reflexivity.
  - rewrite E. cbn [bind]. exists y'. cbn [fst snd] in *.
    split; [reflexivity |]. split; [exact L' |].
    intros c Hc. apply H'. lia.
Qed.

Lemma InnerProduct_sum (dbg : bool) (M : DenseMatrix R) (x y : list R) :
  well_formed M ->
  Z.of_nat (List.length x) = width M ->
  Z.of_nat (List.length y) = height M ->
  InnerProduct dbg M x y
  = Returns
      (sum_to (Z.to_nat (height M))
         (fun r =>
            nth r y 0
            * sum_to (Z.to_nat (width M))
                (fun c =>
                   nth (Z.to_nat (Z.of_nat r + Z.of_nat c * height M))
                     (data M) 0
                   * nth c x 0))).
Proof.
  intros WF Lx Ly. pose proof WF as (Hh & Hw & HL).
  unfold InnerProduct.
  apply (sum_loop (height M) _
           (fun r =>
              nth r y 0
              * sum_to (Z.to_nat (width M))
                  (fun c =>
                     nth (Z.to_nat (Z.of_nat r + Z.of_nat c * height M))
                       (data M) 0
                     * nth c x 0)) Hh).
  intros i s Hi.
  rewrite (sum_loop (width M) _
             (fun c =>
                nth (Z.to_nat (i + Z.of_nat c * height M)) (data M) 0
                * nth c x 0) Hw).
  - cbn [bind]. rewrite rdz_nth by lia. cbn [bind].
    rewrite Z2Nat.id by lia. reflexivity.
  - intros j t Hj.
    destruct (get_ok dbg M i j WF Hi Hj) as (m & Em & _ & Nm).
    rewrite Em. cbn [bind]. rewrite rdz_nth by lia. cbn [bind].
    rewrite Z2Nat.id by lia. rewrite (nth_error_nth _ _ 0 Nm).
    reflexivity.
Qed.

(** [InnerProduct(x, y)] is the scalar product of [y] with [Mult(x)] and
    of [MultTranspose(y)] with [x]. *)
Lemma InnerProduct_adjoint
  (dbg : bool) (M : DenseMatrix R) (x y x0 y0 : list R) :
  well_formed M -> (1 <= width M)%Z ->
  Z.of_nat (List.length x) = width M ->
  Z.of_nat (List.length y) = height M ->
  Z.of_nat (List.length x0) = width M ->
  Z.of_nat (List.length y0) = height M ->
  exists Ax Aty p,
    DenseMatrix_Mult M x y0 = Returns Ax
    /\ MultTranspose M y x0 = Returns Aty
    /\ InnerProduct dbg M x y = Returns p
    /\ p = scalar_product y Ax /\ p = scalar_product Aty x.
Proof.
  intros WF Hw1 Lx Ly Lx0 Ly0.
  destruct (DenseMatrix_Mult_entries M x y0 WF Hw1 Lx Ly0)
    as (Ax & E1 & L1 & H1).
  destruct (MultTranspose_entries M y x0 WF Ly Lx0) as (Aty & E2 & L2 & H2).
  exists Ax, Aty. eexists.
  split; [exact E1 |]. split; [exact E2 |].
  split; [apply InnerProduct_sum; assumption |].
  unfold scalar_product.
  replace (List.length y) with (Z.to_nat (height M)) by lia.
  replace (List.length Aty) with (Z.to_nat (width M)) by lia.
  split.
  - apply sum_to_ext. intros r Hr. f_equal.
    rewrite H1 by lia. apply sum_to_ext. intros c Hc. ring.
  - transitivity
      (sum_to (Z.to_nat (height M))
         (fun r =>
            sum_to (Z.to_nat (width M))
              (fun c =>
                 nth r y 0
                 * nth (Z.to_nat (Z.of_nat r + Z.of_nat c * height M))
                     (data M) 0
                 * nth c x 0))).
    + apply sum_to_ext. intros r Hr. rewrite sum_to_scal.
      apply sum_to_ext. intros c Hc. ring.
    + rewrite sum_to_swap. apply sum_to_ext. intros c Hc.
      rewrite H2 by lia. rewrite Rmult_comm, sum_to_scal.
      apply sum_to_ext. intros r Hr. ring.
Qed.

(** X28: [Mult(b, c, a)] (the loop over pointers of a build without
    LAPACK) on matrices whose arrays have [height * width] entries and
    whose sizes fit returns in [a] a matrix of the same size whose entry
    [(i, j)] is the sum over [k] of [b(i,k) * c(k,j)], accumulated from
    [k = 0] upwards starting from 0; this holds for every arithmetic, in
    both builds, whatever [a] held before. *)
Theorem X28_Mult_product
  (T : Type) (A : Num.Arith T) (dbg : bool) (b c a : DenseMatrix T) :
  well_formed a -> well_formed b -> well_formed c ->
  height a = height b -> width a = width c -> width b = height c ->
  exists a',
    Mult dbg b c a = Returns a'
    /\ height a' = height a /\ width a' = width a
    /\ forall i j, (0 <= i < height a)%Z -> (0 <= j < width a)%Z ->
         get dbg a' i j
         = Returns (product_entry b c i j (Z.to_nat (width b))).
Proof. apply Mult_product. Qed.

Lemma X28_Mult_product_witness :
  exists a',
    Mult false (mkDenseMatrix 2 1 [1; 2]) (mkDenseMatrix 1 2 [3; 4])
      (mkDenseMatrix 2 2 [0; 0; 0; 0]) = Returns a'
    /\ height a' = 2%Z /\ width a' = 2%Z
    /\ forall i j, (0 <= i < 2)%Z -> (0 <= j < 2)%Z ->
         get false a' i j
         = Returns (product_entry (mkDenseMatrix 2 1 [1; 2])
                      (mkDenseMatrix 1 2 [3; 4]) i j 1).
Proof.
  apply (X28_Mult_product R RArith false (mkDenseMatrix 2 1 [1; 2])
           (mkDenseMatrix 1 2 [3; 4]) (mkDenseMatrix 2 2 [0; 0; 0; 0]));
    try reflexivity; unfold well_formed; cbn; lia.
Defined.

(** X29: over the reals, for a matrix with at least one column whose
    array has [height * width] entries, an array [x] of [width] numbers
    and an array [y] of [height] numbers: [InnerProduct(x, y)] is the
    scalar product of [y] with the array written by [Mult(x, .)] and the
    scalar product of the array written by [MultTranspose(y, .)] with
    [x], whatever the output arrays held before. *)
Theorem X29_InnerProduct_adjoint
  (dbg : bool) (M : DenseMatrix R) (x y x0 y0 : list R) :
  well_formed M -> (1 <= width M)%Z ->
  Z.of_nat (List.length x) = width M ->
  Z.of_nat (List.length y) = height M ->
  Z.of_nat (List.length x0) = width M ->
  Z.of_nat (List.length y0) = height M ->
  exists Ax Aty p,
    DenseMatrix_Mult M x y0 = Returns Ax
    /\ MultTranspose M y x0 = Returns Aty
    /\ InnerProduct dbg M x y = Returns p
    /\ p = scalar_product y Ax /\ p = scalar_product Aty x.
Proof. apply InnerProduct_adjoint. Qed.

Lemma X29_InnerProduct_adjoint_witness :
  exists Ax Aty p,
    DenseMatrix_Mult (mkDenseMatrix 2 1 [1; 2]) [3] [0; 0] = Returns Ax
    /\ MultTranspose (mkDenseMatrix 2 1 [1; 2]) [5; 6] [0] = Returns Aty
    /\ InnerProduct false (mkDenseMatrix 2 1 [1; 2]) [3] [5; 6] = Returns p
    /\ p = scalar_product [5; 6] Ax /\ p = scalar_product Aty [3].
Proof.
  apply (X29_InnerProduct_adjoint false (mkDenseMatrix 2 1 [1; 2])
           [3] [5; 6] [0] [0; 0]);
    try reflexivity; unfold well_formed; cbn; lia.
Defined.

(** * Inversion in place *)

(** Symbolic execution of a call on a matrix given by its entries: the
    loops with known bounds are unrolled and the reads and writes at known
    positions are evaluated, one after the other; a comparison of reals
    splits the goal. *)
Ltac eval_call t :=
  let v := eval cbv -[Rplus Rminus Rmult Rdiv Ropp Rinv IZR sqrt fabs Rabs
                      Rle_dec Rlt_dec Req_dec_T] in t in
  progress change t with v.

Ltac exec_step :=
  first
    [ rewrite for_empty by lia
    | rewrite for_first by lia
    | match goal with
      | |- context [elem ?d ?M ?i ?j] => eval_call (elem d M i j)
      | |- context [set ?d ?M ?i ?j ?x] => eval_call (set d M i j x)
      | |- context [Swap_entries ?d ?M ?i ?j ?k ?l] =>
          eval_call (Swap_entries d M i j k l)
      | |- context [wri ?p ?c ?i] => eval_call (wri p c i)
      | |- context [rdi ?p ?c] => eval_call (rdi p c)
      | |- context [Z.to_nat ?n] => eval_call (Z.to_nat n)
      | |- context [(?a + ?b)%Z] => eval_call (a + b)%Z
      | |- context [Num.ltb ?a ?b] =>
          change (Num.ltb a b) with (if Rlt_dec a b then true else false);
          destruct (Rlt_dec a b)
      | |- context [Num.eqb ?a ?b] =>
          change (Num.eqb a b) with (if Req_dec_T a b then true else false);
          destruct (Req_dec_T a b)
      end
    | progress cbn [bind iter_down height width data mfem_error] ].

Lemma Rabs_zero (x : R) : Rabs x = 0 -> x = 0.
Proof.
  intros H. destruct (Req_dec_T x 0) as [| N]; [assumption |].
  apply Rabs_no_R0 in N. contradiction.
Qed.

Lemma Rabs_nonzero (x : R) : Rabs x <> 0 -> x <> 0.
Proof. intros H E. apply H. rewrite E. apply Rabs_R0. Qed.

(** The facts on the pivots collected by the execution, without
    absolute values. *)
Ltac pivot_facts :=
  repeat match goal with
         | H : context [Num.fabs] |- _ => progress (rsimpl in H)
         | H : context [Num.lit] |- _ => progress (rsimpl in H)
         | H : context [fabs] |- _ => unfold fabs in H
         | H : Rabs _ = 0 |- _ => apply Rabs_zero in H
         | H : Rabs _ <> 0 |- _ => apply Rabs_nonzero in H
         end.

Lemma Invert_order_2 (dbg : bool) (m0 m1 m2 m3 p0 p1 p2 p3 : R) :
  match Invert dbg (mkDenseMatrix 2 2 [m0; m1; m2; m3]) with
  | Returns N =>
      m0 * m3 - m1 * m2 <> 0
      /\ Mult dbg (mkDenseMatrix 2 2 [m0; m1; m2; m3]) N
           (mkDenseMatrix 2 2 [p0; p1; p2; p3])
         = Returns (mkDenseMatrix 2 2 [1; 0; 0; 1])
      /\ Mult dbg N (mkDenseMatrix 2 2 [m0; m1; m2; m3])
           (mkDenseMatrix 2 2 [p0; p1; p2; p3])
         = Returns (mkDenseMatrix 2 2 [1; 0; 0; 1])
  | Aborts msg =>
      m0 * m3 - m1 * m2 = 0
      /\ msg = "DenseMatrix::Invert() : singular matrix"%string
  | OutOfBounds => False
  end.
Proof.
  unfold Invert.
  destruct dbg;
    cbn [andb orb negb height width data Z.leb Z.eqb Z.compare Pos.eqb];
    cbv zeta.
  all: repeat exec_step.
  all: rsimpl; pivot_facts.
  all: match goal with
       | |- _ /\ ?s = ?s => split; [| reflexivity]
       | |- _ => idtac
       end.
  all: try match goal with
           | L : Rabs ?x < Rabs ?y, Z0 : ?y = 0 |- _ =>
               exfalso; rewrite Z0, Rabs_R0 in L;
               pose proof (Rabs_pos x); lra
           | L : ~ Rabs ?x < Rabs ?y, Z0 : ?x = 0 |- _ =>
               destruct (Req_dec_T y 0) as [Zy | Ny];
               [ rewrite Z0, Zy; ring
               | exfalso; apply L; rewrite Z0, Rabs_R0;
                 apply Rabs_pos_lt; exact Ny ]
           | Z0 : ?p = 0, N : ?q <> 0 |- ?det = 0 =>
               first [ replace det with (- q * p) by (field; exact N)
                     | replace det with (q * p) by (field; exact N) ];
               rewrite Z0; ring
           end.
  all: match goal with
       | Np : ?p <> 0, Nq : ?q <> 0 |- ?det <> 0 /\ _ =>
           assert (Hdet : det <> 0);
           [ intros E; apply Np;
             first [ replace p with (- det / q) by (field; exact Nq)
                   | replace p with (det / q) by (field; exact Nq) ];
             rewrite E; field; exact Nq
           | split; [exact Hdet |] ]
       end.
  all: split; run;
    matrix_by ltac:(field; repeat split;
                    first [assumption | intros E; apply Hdet; lra]).
Qed.

Lemma Invert_order_1 (dbg : bool) (m0 p0 : R) :
  match Invert dbg (mkDenseMatrix 1 1 [m0]) with
  | Returns N =>
      m0 <> 0
      /\ Mult dbg (mkDenseMatrix 1 1 [m0]) N (mkDenseMatrix 1 1 [p0])
         = Returns (mkDenseMatrix 1 1 [1])
      /\ Mult dbg N (mkDenseMatrix 1 1 [m0]) (mkDenseMatrix 1 1 [p0])
         = Returns (mkDenseMatrix 1 1 [1])
  | Aborts msg =>
      m0 = 0 /\ msg = "DenseMatrix::Invert() : singular matrix"%string
  | OutOfBounds => False
  end.
Proof.
  unfold Invert.
  destruct dbg;
    cbn [andb orb negb height width data Z.leb Z.eqb Z.compare Pos.eqb];
    cbv zeta.
  all: repeat exec_step.
  all: rsimpl; pivot_facts.
  all: try (split; [assumption | reflexivity]).
  all: split; [assumption |].
  all: split; run; matrix_by ltac:(field; assumption).
Qed.

(** X30: [Invert] (elimination with row exchanges, in a build without
    LAPACK) on a 1x1 or 2x2 matrix of reals: when the determinant is zero
    it aborts with "DenseMatrix::Invert() : singular matrix", in both
    builds; otherwise it returns a matrix whose product with the original
    matrix, on either side, computed by [Mult], is the identity.  It never
    accesses the array outside its bounds. *)
Theorem X30_Invert_small (dbg : bool) :
  (forall m0 p0 : R,
      match Invert dbg (mkDenseMatrix 1 1 [m0]) with
      | Returns N =>
          m0 <> 0
          /\ Mult dbg (mkDenseMatrix 1 1 [m0]) N (mkDenseMatrix 1 1 [p0])
             = Returns (mkDenseMatrix 1 1 [1])
          /\ Mult dbg N (mkDenseMatrix 1 1 [m0]) (mkDenseMatrix 1 1 [p0])
             = Returns (mkDenseMatrix 1 1 [1])
      | Aborts msg =>
          m0 = 0 /\ msg = "DenseMatrix::Invert() : singular matrix"%string
      | OutOfBounds => False
      end)
  /\ (forall m0 m1 m2 m3 p0 p1 p2 p3 : R,
         match Invert dbg (mkDenseMatrix 2 2 [m0; m1; m2; m3]) with
         | Returns N =>
             m0 * m3 - m1 * m2 <> 0
             /\ Mult dbg (mkDenseMatrix 2 2 [m0; m1; m2; m3]) N
                  (mkDenseMatrix 2 2 [p0; p1; p2; p3])
                = Returns (mkDenseMatrix 2 2 [1; 0; 0; 1])
             /\ Mult dbg N (mkDenseMatrix 2 2 [m0; m1; m2; m3])
                  (mkDenseMatrix 2 2 [p0; p1; p2; p3])
                = Returns (mkDenseMatrix 2 2 [1; 0; 0; 1])
         | Aborts msg =>
             m0 * m3 - m1 * m2 = 0
             /\ msg = "DenseMatrix::Invert() : singular matrix"%string
         | OutOfBounds => False
         end).
Proof.
  split; intros; [apply Invert_order_1 | apply Invert_order_2].
Qed.

